(** * ts_schedulerConfig: configuration acquisition and proposal encoders

    A shallow embedding of
      - [lsst/ts/schedulerConfig/conf_comm.py]   (ConfigurationCommunicator),
      - [lsst/ts/schedulerConfig/proposal/general.py]  (General),
      - [lsst/ts/schedulerConfig/proposal/sequence.py] (Sequence),
      - [lsst/ts/schedulerConfig/utilities/socs_exceptions.py],
    followed by the properties of these programs.

    Conventions of the embedding:
      - Python [int] is [Z]; a Python [float] that the code stores,
        copies or tests against zero is a rational [Q] (every finite
        double is one, and these operations are exact on doubles); the
        clock readings and the timeout, which the code subtracts, are
        IEEE 754 binary64 numbers ([double]), subtracted and compared
        with the rounding of the machine;
      - a Python exception is a value of [exn]; code that may raise
        returns a [result];
      - a mutable Python object whose attributes are assigned by the code
        (a DDS topic instance, the configuration tree) is a finite map
        from attribute names to values;
      - a [pexConfig] dictionary field is an association list in
        iteration order, [None] when the field is unset. *)

From Stdlib Require Import PrimFloat.
From Stdlib Require Import ZArith QArith Lqa String Ascii List.
From stdpp Require Import base option list sorting gmap strings.

Import ListNotations.
Local Open Scope Z_scope.
Local Open Scope string_scope.
Local Open Scope list_scope.

(** ** Python values, exceptions and containers *)

Module Py.

Definition float := Q.

(** A reading of [time.time()] and the timeout it is measured against:
    Python floats the code computes with, that is IEEE 754 binary64
    numbers.  [double_sub] is the [-] of two floats (round to nearest,
    ties to even) and [double_gtb x y] is [x > y] (false when either side
    is not a number). *)
Definition double := PrimFloat.float.
Definition double_sub (x y : double) : double := PrimFloat.sub x y.
Definition double_gtb (x y : double) : bool := PrimFloat.ltb y x.
Definition double_leb (x y : double) : bool := PrimFloat.leb x y.

(** The exceptions of [socs_exceptions.py] and the built-in ones the
    modelled code can raise. *)
Inductive exn :=
| NoProposalsConfiguredError (msg : string)
| SchedulerTimeoutError (msg : string)
| TypeError
| KeyError
| IndexError
| AttributeError
| ExternalError (msg : string).

Inductive result (A : Type) :=
| Ok (a : A)
| Raise (e : exn).
Arguments Ok {A} a.
Arguments Raise {A} e.

Definition bind {A B} (m : result A) (k : A -> result B) : result B :=
  match m with
  | Ok a => k a
  | Raise e => Raise e
  end.

Definition is_ok {A} (m : result A) : bool :=
  match m with Ok _ => true | Raise _ => false end.

(** A dynamically typed value stored in an attribute. *)
#[warnings="-register-all"]
Inductive value :=
| VNone
| VBool (b : bool)
| VInt (z : Z)
| VFloat (q : float)
| VStr (s : string)
| VList (l : list value).

(** An object: attribute name to value. *)
Abbreviation obj := (gmap string value).

(** [o.a = v] *)
Definition setattr (a : string) (v : value) (o : obj) : obj := <[a := v]> o.

(** [o.a[i] = v] for a fixed-capacity array attribute: the attribute must
    exist and hold a sequence, and [i] must be inside it. *)
Definition setitem (a : string) (i : nat) (v : value) (o : obj) : result obj :=
  match o !! a with
  | None => Raise AttributeError
  | Some (VList l) =>
      if decide (i < length l)%nat then Ok (<[a := VList (<[i := v]> l)]> o)
      else Raise IndexError
  | Some _ => Raise TypeError
  end.

(** [o.a[i] = v] with a Python integer [i] (a dictionary key used as an
    index): a negative [i] counts from the end. *)
Definition setitem_int (a : string) (i : Z) (v : value) (o : obj) : result obj :=
  match o !! a with
  | None => Raise AttributeError
  | Some (VList l) =>
      let n := Z.of_nat (length l) in
      if decide (0 <= i < n) then Ok (<[a := VList (<[Z.to_nat i := v]> l)]> o)
      else if decide (- n <= i < 0) then Ok (<[a := VList (<[Z.to_nat (n + i) := v]> l)]> o)
      else Raise IndexError
  | Some _ => Raise TypeError
  end.

(** [l[i]] on a Python list. *)
Definition getitem {A} (l : list A) (i : Z) : result A :=
  let n := Z.of_nat (length l) in
  let j := if decide (0 <= i) then i else n + i in
  if decide (0 <= j < n) then
    match l !! Z.to_nat j with
    | Some x => Ok x
    | None => Raise IndexError
    end
  else Raise IndexError.

(** [bool(x)] of an integer flag. *)
Definition bool_of_int (z : Z) : bool := negb (z =? 0)%Z.

(** Comparisons of floats. *)
Definition float_eqb (x y : float) : bool := Qeq_bool x y.
Definition float_leb (x y : float) : bool := Qle_bool x y.
Definition float_ltb (x y : float) : bool := negb (Qle_bool y x).

(** [s.split(sep)] for a one-character separator. *)
Fixpoint split (sep : ascii) (s : string) : list string :=
  match s with
  | EmptyString => [EmptyString]
  | String c s' =>
      if Ascii.eqb c sep then EmptyString :: split sep s'
      else match split sep s' with
           | [] => [String c EmptyString]
           | t :: ts => String c t :: ts
           end
  end.

(** [sep.join(l)] *)
Definition join (sep : string) (l : list string) : string := String.concat sep l.

(** [sorted(l)] on integers. *)
Definition sorted (l : list Z) : list Z := merge_sort Z.le l.

(** A dictionary in iteration order. *)
Abbreviation dict K V := (list (K * V)).

Definition values {K V} (d : dict K V) : list V := map snd d.
Definition items {K V} (d : dict K V) : list (K * V) := d.

(** [d[k]] *)
Fixpoint lookup_key {V} (d : dict Z V) (k : Z) : result V :=
  match d with
  | [] => Raise KeyError
  | (k', v) :: d' => if decide (k' = k) then Ok v else lookup_key d' k
  end.

(** [for x in l: s = body(x, s)], stopping at the first exception. *)
Fixpoint for_each {A S} (body : A -> S -> result S) (l : list A) (s : S) : result S :=
  match l with
  | [] => Ok s
  | x :: l' =>
      match body x s with
      | Ok s' => for_each body l' s'
      | Raise e => Raise e
      end
  end.

(** [enumerate(l, start)] *)
Fixpoint enumerate_from {A} (start : nat) (l : list A) : list (nat * A) :=
  match l with
  | [] => []
  | x :: l' => (start, x) :: enumerate_from (S start) l'
  end.

Definition enumerate {A} (l : list A) : list (nat * A) := enumerate_from 0 l.

(** [o.a[i]], when [o.a] is a sequence with a slot [i]. *)
Definition slot (a : string) (i : nat) (o : obj) : option value :=
  match o !! a with
  | Some (VList l) => l !! i
  | _ => None
  end.

(** Whether the character [c] occurs in [s]. *)
Fixpoint contains (c : ascii) (s : string) : bool :=
  match s with
  | EmptyString => false
  | String c' s' => Ascii.eqb c' c || contains c s'
  end.

End Py.

Import Py.

Notation "'do' x <- m ; k" := (Py.bind m (fun x => k))
  (at level 10, x name, m at level 100, k at level 200).

(** ** The proposal configuration classes

    [General] and [Sequence] import their component classes from the
    [proposal] package; the declarations below list the attributes the two
    encoders read from them. *)

(** Modelled from the spec: [Selection], one sky region cut
    (type, minimum, maximum, bounds). *)
Module Selection.
Record t := {
  limit_type : string;
  minimum_limit : float;
  maximum_limit : float;
  bounds_limit : float }.
End Selection.

(** Modelled from the spec: [TimeRange], a time range of a sky region. *)
Module TimeRange.
Record t := { start : Z; end_ : Z }.
End TimeRange.

(** Modelled from the spec: [SelectionList], the indexes into the flat
    selection set that one time range maps to. *)
Module SelectionList.
Record t := { indexes : list Z }.
End SelectionList.

(** Modelled from the spec: [SkyRegion], a mapping of selections with a
    list of combine operators and, optionally, time ranges with a
    time-range-indexed mapping. *)
Module SkyRegion.
Record t := {
  selections : option (dict Z Selection.t);
  combiners : list string;
  time_ranges : option (dict Z TimeRange.t);
  selection_mapping : option (dict Z SelectionList.t) }.
End SkyRegion.

(** Modelled from the spec: [SkyExclusion]. *)
Module SkyExclusion.
Record t := {
  dec_window : float;
  selections : option (dict Z Selection.t) }.
End SkyExclusion.

(** Modelled from the spec: [SkyNightlyBounds]. *)
Module SkyNightlyBounds.
Record t := { twilight_boundary : float; delta_lst : float }.
End SkyNightlyBounds.

(** Modelled from the spec: [SkyConstraints]. *)
Module SkyConstraints.
Record t := {
  max_airmass : float;
  max_cloud : float;
  min_distance_moon : float;
  exclude_planets : bool }.
End SkyConstraints.

(** Modelled from the spec: [GeneralBandFilter], a filter of a general
    proposal. *)
Module GeneralBandFilter.
Record t := {
  name : string;
  num_visits : Z;
  num_grouped_visits : Z;
  max_grouped_visits : Z;
  bright_limit : float;
  dark_limit : float;
  max_seeing : float;
  exposures : list float }.
End GeneralBandFilter.

(** Modelled from the spec: [BandFilter], a filter of a sequence
    proposal. *)
Module BandFilter.
Record t := {
  name : string;
  bright_limit : float;
  dark_limit : float;
  max_seeing : float;
  exposures : list float }.
End BandFilter.

(** Modelled from the spec: [GeneralScheduling]. *)
Module GeneralScheduling.
Record t := {
  max_num_targets : Z;
  accept_serendipity : bool;
  accept_consecutive_visits : bool;
  airmass_bonus : float;
  hour_angle_bonus : float;
  hour_angle_max : float;
  restrict_grouped_visits : bool;
  time_interval : float;
  time_window_start : float;
  time_window_max : float;
  time_window_end : float;
  time_weight : float;
  field_revisit_limit : Z }.
End GeneralScheduling.

(** Modelled from the spec: [SequenceScheduling]. *)
Module SequenceScheduling.
Record t := {
  max_num_targets : Z;
  accept_serendipity : bool;
  accept_consecutive_visits : bool;
  airmass_bonus : float;
  hour_angle_bonus : float;
  hour_angle_max : float;
  restart_lost_sequences : bool;
  restart_complete_sequences : bool;
  max_visits_goal : Z }.
End SequenceScheduling.

(** Modelled from the spec: [SubSequence]: name, ordered filter list with
    one visit count per filter, event count, max-missed count and five
    time-window parameters.  [get_filter_string] is the method that
    encodes the filter list as one string; its text is not fixed here. *)
Module SubSequence.
Record t := {
  name : string;
  filters : list string;
  visits_per_filter : list Z;
  num_events : Z;
  num_max_missed : Z;
  time_interval : float;
  time_window_start : float;
  time_window_max : float;
  time_window_end : float;
  time_weight : float;
  get_filter_string : string }.
End SubSequence.

(** Modelled from the spec: [MasterSubSequence]: name, its own
    time-window parameters and an ordered mapping of nested sub-sequences. *)
Module MasterSubSequence.
Record t := {
  name : string;
  sub_sequences : dict Z SubSequence.t;
  num_events : Z;
  num_max_missed : Z;
  time_interval : float;
  time_window_start : float;
  time_window_max : float;
  time_window_end : float;
  time_weight : float }.
End MasterSubSequence.

(** ** The field database and the field selector

    [lsst.sims.survey.fields] is an external package: the selector builds
    query fragments and combines them, the database runs a query and
    returns rows whose first column is the field Id.  Any of the calls may
    raise. *)

Record FieldSelection (Query : Type) := {
  select_region : string -> float -> float -> result Query;
  galactic_region : float -> float -> float -> result Query;
  combine_queries : list Query -> list string -> result Query }.
Arguments select_region {Query}.
Arguments galactic_region {Query}.
Arguments combine_queries {Query}.

Record FieldsDatabase (Query : Type) := {
  get_field_set : Query -> result (list (Z * list float)) }.
Arguments get_field_set {Query}.

(** ** proposal/general.py *)

Module General.

Record t := {
  name : option string;
  sky_region : SkyRegion.t;
  sky_exclusion : SkyExclusion.t;
  sky_nightly_bounds : SkyNightlyBounds.t;
  sky_constraints : SkyConstraints.t;
  filters : option (dict string GeneralBandFilter.t);
  scheduling : GeneralScheduling.t }.

(** The two local lists the time-dependent loop of [proposal_fields]
    appends to: [region_cuts] and [combine_list]. *)
Definition cuts_state := (list Selection.t * list string)%type.

(** [for index in mapping.indexes:
       region_cuts.append(self.sky_region.selections[index])]
    The lists keep what was appended before an exception. *)
Fixpoint append_cuts (sels : option (dict Z Selection.t)) (idxs : list Z)
    (st : cuts_state) : cuts_state * option exn :=
  match idxs with
  | [] => (st, None)
  | index :: idxs' =>
      match sels with
      | None => (st, Some TypeError)
      | Some d =>
          match lookup_key d index with
          | Ok cut => append_cuts sels idxs' (fst st ++ [cut], snd st)
          | Raise e => (st, Some e)
          end
      end
  end.

(** One turn of [for i, mapping in self.sky_region.selection_mapping.items()]. *)
Definition mapping_body (sr : SkyRegion.t) (num_selections : Z)
    (item : Z * SelectionList.t) (st : cuts_state) : cuts_state * option exn :=
  let '(i, mapping) := item in
  match append_cuts (SkyRegion.selections sr) (SelectionList.indexes mapping) st with
  | (st1, Some e) => (st1, Some e)
  | ((region_cuts, combine_list), None) =>
      let combine_list1 :=
        match getitem (SkyRegion.combiners sr) i with
        | Ok c => combine_list ++ [c]
        | Raise _ => combine_list
        end in
      let combine_list2 :=
        if decide (i < num_selections - 1) then combine_list1 ++ ["or"]
        else combine_list1 in
      ((region_cuts, combine_list2), None)
  end.

Fixpoint mapping_loop (sr : SkyRegion.t) (num_selections : Z)
    (l : list (Z * SelectionList.t)) (st : cuts_state) : cuts_state * option exn :=
  match l with
  | [] => (st, None)
  | item :: l' =>
      match mapping_body sr num_selections item st with
      | (st1, None) => mapping_loop sr num_selections l' st1
      | (st1, Some e) => (st1, Some e)
      end
  end.

(** The [except TypeError] branch: the flat representation.  [combine_list]
    is extended, so it keeps what the interrupted loop had appended. *)
Definition flat_selection (sr : SkyRegion.t) (combine_list : list string)
    : result cuts_state :=
  match SkyRegion.selections sr with
  | None => Raise AttributeError
  | Some d => Ok (values d, combine_list ++ SkyRegion.combiners sr)
  end.

(** Lines 35-54: the ordered selections and the combine operators. *)
Definition region_selection (sr : SkyRegion.t) : result cuts_state :=
  match SkyRegion.selection_mapping sr with
  | None => flat_selection sr []
  | Some m =>
      let num_selections := Z.of_nat (length m) in
      match mapping_loop sr num_selections (items m) ([], []) with
      | (st, None) => Ok st
      | ((_, combine_list), Some TypeError) => flat_selection sr combine_list
      | (_, Some e) => Raise e
      end
  end.

Section Fields.
Context {Query : Type}.
Variable fd : FieldsDatabase Query.
Variable fs : FieldSelection Query.

(** Lines 57-63: one query per region cut. *)
Definition region_query (cut : Selection.t) : result Query :=
  let cut_type := Selection.limit_type cut in
  if decide (cut_type <> "GP") then
    select_region fs cut_type (Selection.minimum_limit cut) (Selection.maximum_limit cut)
  else
    galactic_region fs (Selection.maximum_limit cut) (Selection.minimum_limit cut)
                    (Selection.bounds_limit cut).

Definition region_queries (region_cuts : list Selection.t) : result (list Query) :=
  for_each (fun cut query_list => do q <- region_query cut; Ok (query_list ++ [q]))
           region_cuts [].

(** Lines 66-72: the exclusion query, [None] unless a cut has type GP. *)
Definition exclusion_body (cut : Selection.t) (exclusion_query : option Query)
    : result (option Query) :=
  if decide (Selection.limit_type cut = "GP") then
    do q <- galactic_region fs (Selection.maximum_limit cut) (Selection.minimum_limit cut)
                            (Selection.bounds_limit cut);
    Ok (Some q)
  else Ok exclusion_query.

Definition exclusion_selection (se : SkyExclusion.t) : result (option Query) :=
  match SkyExclusion.selections se with
  | None => Raise AttributeError
  | Some d => for_each exclusion_body (values d) None
  end.

(** [set([x[0] for x in fields])] *)
Definition id_set (fields : list (Z * list float)) : gset Z :=
  list_to_set (map fst fields).

Definition proposal_fields (self : t) : result (list Z) :=
  do cuts <- region_selection (sky_region self);
  let '(region_cuts, combine_list) := cuts in
  do query_list <- region_queries region_cuts;
  do exclusion_query <- exclusion_selection (sky_exclusion self);
  do query <- combine_queries fs query_list combine_list;
  do fields <- get_field_set fd query;
  let ids := id_set fields in
  do ids1 <-
    match exclusion_query with
    | Some eq =>
        do equery <- combine_queries fs [eq] [];
        do efields <- get_field_set fd equery;
        Ok (ids ∖ id_set efields)
    | None => Ok ids
    end;
  Ok (sorted (elements ids1)).

End Fields.

(** Lines 98-106: the proposal name and the sky scalars. *)
Definition set_sky (self : t) (topic : obj) : obj :=
  let topic := setattr "name" (VStr (match name self with Some n => n | None => "None" end)) topic in
  let topic := setattr "twilightBoundary"
                 (VFloat (SkyNightlyBounds.twilight_boundary (sky_nightly_bounds self))) topic in
  let topic := setattr "deltaLst" (VFloat (SkyNightlyBounds.delta_lst (sky_nightly_bounds self))) topic in
  let topic := setattr "decWindow" (VFloat (SkyExclusion.dec_window (sky_exclusion self))) topic in
  let topic := setattr "maxAirmass" (VFloat (SkyConstraints.max_airmass (sky_constraints self))) topic in
  let topic := setattr "maxCloud" (VFloat (SkyConstraints.max_cloud (sky_constraints self))) topic in
  let topic := setattr "minDistanceMoon"
                 (VFloat (SkyConstraints.min_distance_moon (sky_constraints self))) topic in
  setattr "excludePlanets" (VBool (SkyConstraints.exclude_planets (sky_constraints self))) topic.

(** The body shared by the region and exclusion loops (lines 113-117 and
    144-148), which differ in the arrays they write. *)
Definition selection_body (mins maxs bounds : string) (iv : nat * Selection.t)
    (st : list string * obj) : result (list string * obj) :=
  let '(i, v) := iv in
  let '(limit_types, topic) := st in
  let limit_types := limit_types ++ [Selection.limit_type v] in
  do topic <- setitem mins i (VFloat (Selection.minimum_limit v)) topic;
  do topic <- setitem maxs i (VFloat (Selection.maximum_limit v)) topic;
  do topic <- setitem bounds i (VFloat (Selection.bounds_limit v)) topic;
  Ok (limit_types, topic).

(** Lines 108-120. *)
Definition set_region_selections (self : t) (topic : obj) : result obj :=
  let sels := SkyRegion.selections (sky_region self) in
  let num_region_selections :=
    match sels with Some d => Z.of_nat (length d) | None => 0 end in
  let topic := setattr "numRegionSelections" (VInt num_region_selections) topic in
  do topic <-
    match sels with
    | Some ((_ :: _) as d) =>
        do st <- for_each (selection_body "regionMinimums" "regionMaximums" "regionBounds")
                          (enumerate (values d)) ([], topic);
        let '(limit_types, topic) := st in
        Ok (setattr "regionTypes" (VStr (join "," limit_types)) topic)
    | _ => Ok topic
    end;
  Ok (setattr "regionCombiners" (VStr (join "," (SkyRegion.combiners (sky_region self)))) topic).

(** Lines 122-127. *)
Definition time_range_body (iv : nat * TimeRange.t) (topic : obj) : result obj :=
  let '(i, v) := iv in
  do topic <- setitem "timeRangeStarts" i (VInt (TimeRange.start v)) topic;
  setitem "timeRangeEnds" i (VInt (TimeRange.end_ v)) topic.

Definition set_time_ranges (self : t) (topic : obj) : result obj :=
  let trs := SkyRegion.time_ranges (sky_region self) in
  let num_time_ranges := match trs with Some d => Z.of_nat (length d) | None => 0 end in
  let topic := setattr "numTimeRanges" (VInt num_time_ranges) topic in
  match trs with
  | Some ((_ :: _) as d) => for_each time_range_body (enumerate (values d)) topic
  | _ => Ok topic
  end.

(** Lines 129-137: a running index over all the mapped selections. *)
Definition selection_index_body (index : Z) (st : nat * obj) : result (nat * obj) :=
  let '(selection_index, topic) := st in
  do topic <- setitem "selectionMappings" selection_index (VInt index) topic;
  Ok (S selection_index, topic).

Definition selection_mapping_body (iv : nat * SelectionList.t) (st : nat * obj)
    : result (nat * obj) :=
  let '(i, v) := iv in
  let '(selection_index, topic) := st in
  do topic <- setitem "numSelectionMappings" i
                (VInt (Z.of_nat (length (SelectionList.indexes v)))) topic;
  for_each selection_index_body (SelectionList.indexes v) (selection_index, topic).

Definition set_selection_mappings (self : t) (topic : obj) : result obj :=
  match SkyRegion.selection_mapping (sky_region self) with
  | Some ((_ :: _) as d) =>
      do st <- for_each selection_mapping_body (enumerate (values d)) (0%nat, topic);
      Ok (snd st)
  | _ => Ok topic
  end.

(** Lines 139-149. *)
Definition set_exclusion_selections (self : t) (topic : obj) : result obj :=
  let sels := SkyExclusion.selections (sky_exclusion self) in
  let num_exclusion_selections :=
    match sels with Some d => Z.of_nat (length d) | None => 0 end in
  let topic := setattr "numExclusionSelections" (VInt num_exclusion_selections) topic in
  match sels with
  | Some ((_ :: _) as d) =>
      do st <- for_each (selection_body "exclusionMinimums" "exclusionMaximums" "exclusionBounds")
                        (enumerate (values d)) ([], topic);
      let '(limit_types, topic) := st in
      Ok (setattr "exclusionTypes" (VStr (join "," limit_types)) topic)
  | _ => Ok topic
  end.

(** Lines 164-166: the exposures of all filters share one running index. *)
Definition exposure_body (exposure : float) (st : nat * obj) : result (nat * obj) :=
  let '(exp_index, topic) := st in
  do topic <- setitem "exposures" exp_index (VFloat exposure) topic;
  Ok (S exp_index, topic).

(** Lines 155-166. *)
Definition filter_body (iv : nat * GeneralBandFilter.t) (st : list string * nat * obj)
    : result (list string * nat * obj) :=
  let '(i, v) := iv in
  let '(filter_names, exp_index, topic) := st in
  let filter_names := filter_names ++ [GeneralBandFilter.name v] in
  do topic <- setitem "numVisits" i (VInt (GeneralBandFilter.num_visits v)) topic;
  do topic <- setitem "numGroupedVisits" i (VInt (GeneralBandFilter.num_grouped_visits v)) topic;
  do topic <- setitem "maxGroupedVisits" i (VInt (GeneralBandFilter.max_grouped_visits v)) topic;
  do topic <- setitem "brightLimit" i (VFloat (GeneralBandFilter.bright_limit v)) topic;
  do topic <- setitem "darkLimit" i (VFloat (GeneralBandFilter.dark_limit v)) topic;
  do topic <- setitem "maxSeeing" i (VFloat (GeneralBandFilter.max_seeing v)) topic;
  do topic <- setitem "numFilterExposures" i
                (VInt (Z.of_nat (length (GeneralBandFilter.exposures v)))) topic;
  do st <- for_each exposure_body (GeneralBandFilter.exposures v) (exp_index, topic);
  Ok (filter_names, fst st, snd st).

(** Lines 151-167. *)
Definition set_filters (self : t) (topic : obj) : result obj :=
  let num_filters := match filters self with Some d => Z.of_nat (length d) | None => 0 end in
  let topic := setattr "numFilters" (VInt num_filters) topic in
  match filters self with
  | Some ((_ :: _) as d) =>
      do st <- for_each filter_body (enumerate (values d)) ([], 0%nat, topic);
      let '(filter_names, _, topic) := st in
      Ok (setattr "filterNames" (VStr (join "," filter_names)) topic)
  | _ => Ok topic
  end.

(** Lines 169-181. *)
Definition set_scheduling (self : t) (topic : obj) : obj :=
  let sch := scheduling self in
  let topic := setattr "maxNumTargets" (VInt (GeneralScheduling.max_num_targets sch)) topic in
  let topic := setattr "acceptSerendipity" (VBool (GeneralScheduling.accept_serendipity sch)) topic in
  let topic := setattr "acceptConsecutiveVisits"
                 (VBool (GeneralScheduling.accept_consecutive_visits sch)) topic in
  let topic := setattr "airmassBonus" (VFloat (GeneralScheduling.airmass_bonus sch)) topic in
  let topic := setattr "hourAngleBonus" (VFloat (GeneralScheduling.hour_angle_bonus sch)) topic in
  let topic := setattr "hourAngleMax" (VFloat (GeneralScheduling.hour_angle_max sch)) topic in
  let topic := setattr "restrictGroupedVisits"
                 (VBool (GeneralScheduling.restrict_grouped_visits sch)) topic in
  let topic := setattr "timeInterval" (VFloat (GeneralScheduling.time_interval sch)) topic in
  let topic := setattr "timeWindowStart" (VFloat (GeneralScheduling.time_window_start sch)) topic in
  let topic := setattr "timeWindowMax" (VFloat (GeneralScheduling.time_window_max sch)) topic in
  let topic := setattr "timeWindowEnd" (VFloat (GeneralScheduling.time_window_end sch)) topic in
  let topic := setattr "timeWeight" (VFloat (GeneralScheduling.time_weight sch)) topic in
  setattr "fieldRevisitLimit" (VInt (GeneralScheduling.field_revisit_limit sch)) topic.

Definition set_topic (self : t) (topic : obj) : result obj :=
  let topic := set_sky self topic in
  do topic <- set_region_selections self topic;
  do topic <- set_time_ranges self topic;
  do topic <- set_selection_mappings self topic;
  do topic <- set_exclusion_selections self topic;
  do topic <- set_filters self topic;
  Ok (set_scheduling self topic).

End General.

(** ** proposal/sequence.py *)

Module Sequence.

Record t := {
  name : option string;
  sky_user_regions : list Z;
  sky_exclusion : SkyExclusion.t;
  sky_nightly_bounds : SkyNightlyBounds.t;
  sky_constraints : SkyConstraints.t;
  sub_sequences : option (dict Z SubSequence.t);
  master_sub_sequences : option (dict Z MasterSubSequence.t);
  filters : option (dict string BandFilter.t);
  scheduling : SequenceScheduling.t }.

Definition proposal_fields (self : t) : list Z := sorted (sky_user_regions self).

(** Lines 52-60. *)
Definition set_sky (self : t) (topic : obj) : obj :=
  let topic := setattr "name" (VStr (match name self with Some n => n | None => "None" end)) topic in
  let topic := setattr "twilightBoundary"
                 (VFloat (SkyNightlyBounds.twilight_boundary (sky_nightly_bounds self))) topic in
  let topic := setattr "deltaLst" (VFloat (SkyNightlyBounds.delta_lst (sky_nightly_bounds self))) topic in
  let topic := setattr "decWindow" (VFloat (SkyExclusion.dec_window (sky_exclusion self))) topic in
  let topic := setattr "maxAirmass" (VFloat (SkyConstraints.max_airmass (sky_constraints self))) topic in
  let topic := setattr "maxCloud" (VFloat (SkyConstraints.max_cloud (sky_constraints self))) topic in
  let topic := setattr "minDistanceMoon"
                 (VFloat (SkyConstraints.min_distance_moon (sky_constraints self))) topic in
  setattr "excludePlanets" (VBool (SkyConstraints.exclude_planets (sky_constraints self))) topic.

(** Lines 62-65. *)
Definition set_user_regions (self : t) (topic : obj) : result obj :=
  let topic := setattr "numUserRegions" (VInt (Z.of_nat (length (sky_user_regions self)))) topic in
  for_each (fun '(i, sky_user_region) topic => setitem "userRegionIds" i (VInt sky_user_region) topic)
           (enumerate (sky_user_regions self)) topic.

(** Lines 77-79 and 114-116: the visits of all sub-sequences share one
    running index into the array named [visits]. *)
Definition filter_visit_body (visits : string) (filter_visit : Z) (st : nat * obj)
    : result (nat * obj) :=
  let '(filter_visit_index, topic) := st in
  do topic <- setitem visits filter_visit_index (VInt filter_visit) topic;
  Ok (S filter_visit_index, topic).

(** Local variables of the sub-sequence loop: the two name lists, the
    running visit index and the topic. *)
Definition sub_state := (list string * list string * nat * obj)%type.

(** Lines 73-86.  The slot written is the dictionary key [i]. *)
Definition sub_sequence_body (item : Z * SubSequence.t) (st : sub_state) : result sub_state :=
  let '(i, sub_sequence) := item in
  let '(sub_sequence_names, sub_sequence_filters, filter_visit_index, topic) := st in
  let sub_sequence_names := sub_sequence_names ++ [SubSequence.name sub_sequence] in
  let sub_sequence_filters :=
    sub_sequence_filters ++ [SubSequence.get_filter_string sub_sequence] in
  do topic <- setitem_int "numSubSequenceFilters" i
                (VInt (Z.of_nat (length (SubSequence.filters sub_sequence)))) topic;
  do vt <- for_each (filter_visit_body "numSubSequenceFilterVisits")
                    (SubSequence.visits_per_filter sub_sequence) (filter_visit_index, topic);
  let '(filter_visit_index, topic) := vt in
  do topic <- setitem_int "numSubSequenceEvents" i (VInt (SubSequence.num_events sub_sequence)) topic;
  do topic <- setitem_int "numSubSequenceMaxMissed" i
                (VInt (SubSequence.num_max_missed sub_sequence)) topic;
  do topic <- setitem_int "subSequenceTimeIntervals" i
                (VFloat (SubSequence.time_interval sub_sequence)) topic;
  do topic <- setitem_int "subSequenceTimeWindowStarts" i
                (VFloat (SubSequence.time_window_start sub_sequence)) topic;
  do topic <- setitem_int "subSequenceTimeWindowMaximums" i
                (VFloat (SubSequence.time_window_max sub_sequence)) topic;
  do topic <- setitem_int "subSequenceTimeWindowEnds" i
                (VFloat (SubSequence.time_window_end sub_sequence)) topic;
  do topic <- setitem_int "subSequenceTimeWeights" i
                (VFloat (SubSequence.time_weight sub_sequence)) topic;
  Ok (sub_sequence_names, sub_sequence_filters, filter_visit_index, topic).

(** Lines 67-89. *)
Definition set_sub_sequences (self : t) (topic : obj) : result obj :=
  let num_sub_sequences :=
    match sub_sequences self with Some d => Z.of_nat (length d) | None => 0 end in
  let topic := setattr "numSubSequences" (VInt num_sub_sequences) topic in
  match sub_sequences self with
  | Some ((_ :: _) as d) =>
      do st <- for_each sub_sequence_body (items d) ([], [], 0%nat, topic);
      let '(sub_sequence_names, sub_sequence_filters, _, topic) := st in
      let topic := setattr "subSequenceNames" (VStr (join "," sub_sequence_names)) topic in
      Ok (setattr "subSequenceFilters" (VStr (join "," sub_sequence_filters)) topic)
  | _ => Ok topic
  end.

(** Local variables of the master loop: the three name lists, [nss_index],
    the running visit index and the topic. *)
Definition master_state :=
  (list string * list string * list string * nat * nat * obj)%type.

(** Lines 110-124: one nested sub-sequence, written at [nss_index]. *)
Definition nested_body (sub_sequence : SubSequence.t) (st : master_state) : result master_state :=
  let '(master_sub_sequence_names, nested_sub_sequence_names, nested_sub_sequence_filters,
        nss_index, filter_visit_index, topic) := st in
  let nested_sub_sequence_names :=
    nested_sub_sequence_names ++ [SubSequence.name sub_sequence] in
  let nested_sub_sequence_filters :=
    nested_sub_sequence_filters ++ [SubSequence.get_filter_string sub_sequence] in
  do topic <- setitem "numNestedSubSequenceFilters" nss_index
                (VInt (Z.of_nat (length (SubSequence.filters sub_sequence)))) topic;
  do vt <- for_each (filter_visit_body "num_nested_sub_sequence_filter_visits")
                    (SubSequence.visits_per_filter sub_sequence) (filter_visit_index, topic);
  let '(filter_visit_index, topic) := vt in
  do topic <- setitem "numNestedSubSequenceEvents" nss_index
                (VInt (SubSequence.num_events sub_sequence)) topic;
  do topic <- setitem "numNestedSubSequenceMaxMissed" nss_index
                (VInt (SubSequence.num_max_missed sub_sequence)) topic;
  do topic <- setitem "nestedSubSequenceTimeIntervals" nss_index
                (VFloat (SubSequence.time_interval sub_sequence)) topic;
  do topic <- setitem "nestedSubSequenceTimeWindowStarts" nss_index
                (VFloat (SubSequence.time_window_start sub_sequence)) topic;
  do topic <- setitem "nestedSubSequenceTimeWindowMaximums" nss_index
                (VFloat (SubSequence.time_window_max sub_sequence)) topic;
  do topic <- setitem "nestedSubSequenceTimeWindowEnds" nss_index
                (VFloat (SubSequence.time_window_end sub_sequence)) topic;
  do topic <- setitem "nestedSubSequenceTimeWeights" nss_index
                (VFloat (SubSequence.time_weight sub_sequence)) topic;
  Ok (master_sub_sequence_names, nested_sub_sequence_names, nested_sub_sequence_filters,
      S nss_index, filter_visit_index, topic).

(** Lines 100-124.  The slot written is the dictionary key [i]. *)
Definition master_body (item : Z * MasterSubSequence.t) (st : master_state) : result master_state :=
  let '(i, master_sub_sequence) := item in
  let '(master_sub_sequence_names, nested_sub_sequence_names, nested_sub_sequence_filters,
        nss_index, filter_visit_index, topic) := st in
  let master_sub_sequence_names :=
    master_sub_sequence_names ++ [MasterSubSequence.name master_sub_sequence] in
  do topic <- setitem_int "numNestedSubSequences" i
                (VInt (Z.of_nat (length (MasterSubSequence.sub_sequences master_sub_sequence)))) topic;
  do topic <- setitem_int "numMasterSubSequenceEvents" i
                (VInt (MasterSubSequence.num_events master_sub_sequence)) topic;
  do topic <- setitem_int "numMasterSubSequenceMaxMissed" i
                (VInt (MasterSubSequence.num_max_missed master_sub_sequence)) topic;
  do topic <- setitem_int "masterSubSequenceTimeIntervals" i
                (VFloat (MasterSubSequence.time_interval master_sub_sequence)) topic;
  do topic <- setitem_int "masterSubSequenceTimeWindowStarts" i
                (VFloat (MasterSubSequence.time_window_start master_sub_sequence)) topic;
  do topic <- setitem_int "masterSubSequenceTimeWindowMaximums" i
                (VFloat (MasterSubSequence.time_window_max master_sub_sequence)) topic;
  do topic <- setitem_int "masterSubSequenceTimeWindowEnds" i
                (VFloat (MasterSubSequence.time_window_end master_sub_sequence)) topic;
  do topic <- setitem_int "masterSubSequenceTimeWeights" i
                (VFloat (MasterSubSequence.time_weight master_sub_sequence)) topic;
  for_each nested_body (values (MasterSubSequence.sub_sequences master_sub_sequence))
           (master_sub_sequence_names, nested_sub_sequence_names, nested_sub_sequence_filters,
            nss_index, filter_visit_index, topic).

(** Lines 91-128. *)
Definition set_master_sub_sequences (self : t) (topic : obj) : result obj :=
  let num_master_sub_sequences :=
    match master_sub_sequences self with Some d => Z.of_nat (length d) | None => 0 end in
  let topic := setattr "numMasterSubSequences" (VInt num_master_sub_sequences) topic in
  match master_sub_sequences self with
  | Some ((_ :: _) as d) =>
      do st <- for_each master_body (items d) ([], [], [], 0%nat, 0%nat, topic);
      let '(master_sub_sequence_names, nested_sub_sequence_names, nested_sub_sequence_filters,
            _, _, topic) := st in
      let topic := setattr "masterSubSequenceNames" (VStr (join "," master_sub_sequence_names)) topic in
      let topic := setattr "nestedSubSequenceNames" (VStr (join "," nested_sub_sequence_names)) topic in
      Ok (setattr "nestedSubSequenceFilters" (VStr (join "," nested_sub_sequence_filters)) topic)
  | _ => Ok topic
  end.

(** Lines 140-142. *)
Definition exposure_body (exposure : float) (st : nat * obj) : result (nat * obj) :=
  let '(exp_index, topic) := st in
  do topic <- setitem "exposures" exp_index (VFloat exposure) topic;
  Ok (S exp_index, topic).

(** Lines 134-142. *)
Definition filter_body (iv : nat * BandFilter.t) (st : list string * nat * obj)
    : result (list string * nat * obj) :=
  let '(i, v) := iv in
  let '(filter_names, exp_index, topic) := st in
  let filter_names := filter_names ++ [BandFilter.name v] in
  do topic <- setitem "brightLimit" i (VFloat (BandFilter.bright_limit v)) topic;
  do topic <- setitem "darkLimit" i (VFloat (BandFilter.dark_limit v)) topic;
  do topic <- setitem "maxSeeing" i (VFloat (BandFilter.max_seeing v)) topic;
  do topic <- setitem "numFilterExposures" i
                (VInt (Z.of_nat (length (BandFilter.exposures v)))) topic;
  do st <- for_each exposure_body (BandFilter.exposures v) (exp_index, topic);
  Ok (filter_names, fst st, snd st).

(** Lines 130-143. *)
Definition set_filters (self : t) (topic : obj) : result obj :=
  let num_filters := match filters self with Some d => Z.of_nat (length d) | None => 0 end in
  let topic := setattr "numFilters" (VInt num_filters) topic in
  match filters self with
  | Some ((_ :: _) as d) =>
      do st <- for_each filter_body (enumerate (values d)) ([], 0%nat, topic);
      let '(filter_names, _, topic) := st in
      Ok (setattr "filterNames" (VStr (join "," filter_names)) topic)
  | _ => Ok topic
  end.

(** Lines 145-153. *)
Definition set_scheduling (self : t) (topic : obj) : obj :=
  let sch := scheduling self in
  let topic := setattr "maxNumTargets" (VInt (SequenceScheduling.max_num_targets sch)) topic in
  let topic := setattr "acceptSerendipity" (VBool (SequenceScheduling.accept_serendipity sch)) topic in
  let topic := setattr "acceptConsecutiveVisits"
                 (VBool (SequenceScheduling.accept_consecutive_visits sch)) topic in
  let topic := setattr "airmassBonus" (VFloat (SequenceScheduling.airmass_bonus sch)) topic in
  let topic := setattr "hourAngleBonus" (VFloat (SequenceScheduling.hour_angle_bonus sch)) topic in
  let topic := setattr "hourAngleMax" (VFloat (SequenceScheduling.hour_angle_max sch)) topic in
  let topic := setattr "restartLostSequences"
                 (VBool (SequenceScheduling.restart_lost_sequences sch)) topic in
  let topic := setattr "restartCompleteSequences"
                 (VBool (SequenceScheduling.restart_complete_sequences sch)) topic in
  setattr "maxVisitsGoal" (VInt (SequenceScheduling.max_visits_goal sch)) topic.

Definition set_topic (self : t) (topic : obj) : result obj :=
  let topic := set_sky self topic in
  do topic <- set_user_regions self topic;
  do topic <- set_sub_sequences self topic;
  do topic <- set_master_sub_sequences self topic;
  do topic <- set_filters self topic;
  Ok (set_scheduling self topic).

End Sequence.

(** ** The DDS topics read by conf_comm.py

    [SALPY_scheduler] is external; each record lists the attributes
    [ConfigurationCommunicator] reads from the topic instance.  [zero] is
    the instance the constructor returns before anything was received. *)

Module SALPY_scheduler.

Module scheduler_schedulerConfigC.
Record t := { surveyDuration : float }.
End scheduler_schedulerConfigC.

Module scheduler_driverConfigC.
Record t := {
  coaddValues : Z;
  timeBalancing : Z;
  timecostTimeMax : float;
  timecostTimeRef : float;
  timecostCostRef : float;
  timecostWeight : float;
  filtercostWeight : float;
  propboostWeight : float;
  nightBoundary : float;
  newMoonPhaseThreshold : float;
  ignoreSkyBrightness : Z;
  ignoreAirmass : Z;
  ignoreClouds : Z;
  ignoreSeeing : Z;
  lookaheadWindowSize : Z;
  lookaheadBonusWeight : float }.
End scheduler_driverConfigC.

Module scheduler_obsSiteConfigC.
Record t := {
  name : string;
  latitude : float;
  longitude : float;
  height : float;
  pressure : float;
  temperature : float;
  relativeHumidity : float }.
End scheduler_obsSiteConfigC.

Module scheduler_telescopeConfigC.
Record t := {
  altitudeMinpos : float;
  altitudeMaxpos : float;
  altitudeMaxspeed : float;
  altitudeAccel : float;
  altitudeDecel : float;
  azimuthMinpos : float;
  azimuthMaxpos : float;
  azimuthMaxspeed : float;
  azimuthAccel : float;
  azimuthDecel : float;
  settleTime : float }.
End scheduler_telescopeConfigC.

Module scheduler_domeConfigC.
Record t := {
  altitudeMaxspeed : float;
  altitudeAccel : float;
  altitudeDecel : float;
  altitudeFreerange : float;
  azimuthMaxspeed : float;
  azimuthAccel : float;
  azimuthDecel : float;
  azimuthFreerange : float;
  settleTime : float }.
End scheduler_domeConfigC.

Module scheduler_rotatorConfigC.
Record t := {
  minpos : float;
  maxpos : float;
  filterChangePos : float;
  maxspeed : float;
  accel : float;
  decel : float;
  followsky : Z;
  resumeAngle : Z }.
End scheduler_rotatorConfigC.

Module scheduler_cameraConfigC.
Record t := {
  readoutTime : float;
  shutterTime : float;
  filterMountTime : float;
  filterChangeTime : float;
  filterMaxChangesBurstNum : Z;
  filterMaxChangesBurstTime : float;
  filterMaxChangesAvgNum : float;
  filterMaxChangesAvgTime : float;
  filterMounted : string;
  filterPos : string;
  filterRemovable : string;
  filterUnmounted : string }.
End scheduler_cameraConfigC.

Module scheduler_slewConfigC.
Record t := {
  prereqDomaz : string;
  prereqTelalt : string;
  prereqTelaz : string;
  prereqTelOpticsOpenLoop : string;
  prereqTelOpticsClosedLoop : string;
  prereqTelRot : string;
  prereqFilter : string;
  prereqAdc : string;
  prereqInsOptics : string;
  prereqGuiderPos : string;
  prereqGuiderAdq : string;
  prereqTelSettle : string;
  prereqDomazSettle : string;
  prereqExposures : string;
  prereqReadout : string }.
End scheduler_slewConfigC.

Module scheduler_opticsLoopCorrConfigC.
Record t := {
  telOpticsOlSlope : float;
  telOpticsClAltLimit : list float;
  telOpticsClDelay : list float }.
End scheduler_opticsLoopCorrConfigC.

Module scheduler_parkConfigC.
Record t := {
  telescopeAltitude : float;
  telescopeAzimuth : float;
  telescopeRotator : float;
  domeAltitude : float;
  domeAzimuth : float;
  filterPosition : string }.
End scheduler_parkConfigC.

Module scheduler_surveyTopologyC.
Record t := {
  numGeneralProps : Z;
  numSequenceProps : Z;
  numSeqProps : Z;
  generalPropos : string;
  sequencePropos : string }.
End scheduler_surveyTopologyC.

End SALPY_scheduler.

Import SALPY_scheduler.

(** ** conf_comm.py *)

Module ConfigurationCommunicator.

(** The eleven topics, in the order [configure] acquires them. *)
Inductive Topic :=
| schedulerConfig
| driverConfig
| obsSiteConfig
| telescopeConfig
| domeConfig
| rotatorConfig
| cameraConfig
| slewConfig
| opticsLoopCorrConfig
| parkConfig
| surveyTopology.

#[global] Instance Topic_eq_dec : EqDecision Topic.
Proof. solve_decision. Defined.

(** The class of the topic instance. *)
Definition sample (T : Topic) : Type :=
  match T with
  | schedulerConfig => scheduler_schedulerConfigC.t
  | driverConfig => scheduler_driverConfigC.t
  | obsSiteConfig => scheduler_obsSiteConfigC.t
  | telescopeConfig => scheduler_telescopeConfigC.t
  | domeConfig => scheduler_domeConfigC.t
  | rotatorConfig => scheduler_rotatorConfigC.t
  | cameraConfig => scheduler_cameraConfigC.t
  | slewConfig => scheduler_slewConfigC.t
  | opticsLoopCorrConfig => scheduler_opticsLoopCorrConfigC.t
  | parkConfig => scheduler_parkConfigC.t
  | surveyTopology => scheduler_surveyTopologyC.t
  end.

(** The instance a topic constructor returns: every number zero, every
    string and array empty. *)
Definition zero (T : Topic) : sample T :=
  let z := 0%Q in
  match T with
  | schedulerConfig => scheduler_schedulerConfigC.Build_t z
  | driverConfig => scheduler_driverConfigC.Build_t 0 0 z z z z z z z z 0 0 0 0 0 z
  | obsSiteConfig => scheduler_obsSiteConfigC.Build_t "" z z z z z z
  | telescopeConfig => scheduler_telescopeConfigC.Build_t z z z z z z z z z z z
  | domeConfig => scheduler_domeConfigC.Build_t z z z z z z z z z
  | rotatorConfig => scheduler_rotatorConfigC.Build_t z z z z z z 0 0
  | cameraConfig => scheduler_cameraConfigC.Build_t z z z z 0 z z z "" "" "" ""
  | slewConfig => scheduler_slewConfigC.Build_t "" "" "" "" "" "" "" "" "" "" "" "" "" "" ""
  | opticsLoopCorrConfig => scheduler_opticsLoopCorrConfigC.Build_t z [] []
  | parkConfig => scheduler_parkConfigC.Build_t z z z z z ""
  | surveyTopology => scheduler_surveyTopologyC.Build_t 0 0 0 "" ""
  end.

(** One call of [self.sal.manager.getNextSample_<topic>(buffer)]: the
    return code, the buffer after the call, and the wall-clock time at
    which the call returns (what [time.time()] gives right after it). *)
Record poll (T : Topic) := {
  rcode : Z;
  buffer : sample T;
  clock : double }.
Arguments rcode {T}.
Arguments buffer {T}.
Arguments clock {T}.

(** The transport and the clock as the communicator sees them:
    [started T] is the reading of [lasttime = time.time()] when the step
    of topic [T] begins, [getNextSample T k] the k-th poll of [T]. *)
Record SalManager := {
  started : Topic -> double;
  getNextSample : forall T : Topic, nat -> poll T }.

(** What the communicator did on the transport. *)
Inductive event :=
| Subscribe (T : Topic)
| Poll (T : Topic).

Definition topic_of (e : event) : Topic :=
  match e with Subscribe T => T | Poll T => T end.

(** The attributes of a communicator to which a transport and a
    configuration tree have been assigned ([self.sal] and [self.config],
    lines 46-47): the transport is the [SalManager] the steps below take,
    [config] is the configuration tree, keyed by the dotted path of the
    attribute assigned, and [conf T] is the attribute holding the topic
    instance of [T] ([sched_conf], [sched_driver_conf], ...). *)
Record t := {
  no_dds_comm : bool;
  socs_timeout : double;
  config : obj;
  survey_topology : gmap string value;
  num_proposals : option Z;
  conf : forall T : Topic, option (sample T) }.

(** What [__init__] leaves (lines 28-33): the flag, the timeout of 180.0
    seconds and an empty survey topology.  [self.sal] and [self.config]
    are [None] after it, so a step run on such a communicator with DDS
    communication enabled raises [AttributeError] at [self.sal]: it is not
    a value of [t]. *)
Record fresh := {
  fresh_no_dds_comm : bool;
  fresh_socs_timeout : double;
  fresh_survey_topology : gmap string value }.

Definition init (no_dds_comm : bool) : fresh :=
  {| fresh_no_dds_comm := no_dds_comm;
     fresh_socs_timeout := 180%float;
     fresh_survey_topology := ∅ |}.

(** [self.sal = sal; self.config = config] on a communicator [__init__]
    has built (the two assignments of [initialize], lines 46-47); no topic
    attribute and no [num_proposals] exists yet. *)
Definition attach (config0 : obj) (f : fresh) : t :=
  {| no_dds_comm := fresh_no_dds_comm f;
     socs_timeout := fresh_socs_timeout f;
     config := config0;
     survey_topology := fresh_survey_topology f;
     num_proposals := None;
     conf := fun _ => None |}.

(** [self.config.<path> = v] *)
Definition assign (path : string) (v : value) (self : t) : t :=
  {| no_dds_comm := no_dds_comm self;
     socs_timeout := socs_timeout self;
     config := setattr path v (config self);
     survey_topology := survey_topology self;
     num_proposals := num_proposals self;
     conf := conf self |}.

(** [self.<topic attribute> = c] *)
Definition set_conf (T : Topic) (c : sample T) (self : t) : t :=
  {| no_dds_comm := no_dds_comm self;
     socs_timeout := socs_timeout self;
     config := config self;
     survey_topology := survey_topology self;
     num_proposals := num_proposals self;
     conf := fun T' =>
       match decide (T = T') with
       | left e => Some (eq_rect T sample c T' e)
       | right _ => conf self T'
       end |}.

Definition set_num_proposals (n : Z) (self : t) : t :=
  {| no_dds_comm := no_dds_comm self;
     socs_timeout := socs_timeout self;
     config := config self;
     survey_topology := survey_topology self;
     num_proposals := Some n;
     conf := conf self |}.

(** [self.survey_topology[k] = v] *)
Definition set_survey_topology (k : string) (v : value) (self : t) : t :=
  {| no_dds_comm := no_dds_comm self;
     socs_timeout := socs_timeout self;
     config := config self;
     survey_topology := <[k := v]> (survey_topology self);
     num_proposals := num_proposals self;
     conf := conf self |}.

(** The validity test of each listening loop. *)
Definition valid (T : Topic) : sample T -> bool :=
  match T with
  | schedulerConfig => fun c => negb (float_eqb (scheduler_schedulerConfigC.surveyDuration c) 0%Q)
  | driverConfig => fun c => float_ltb 0%Q (scheduler_driverConfigC.timecostTimeMax c)
  | obsSiteConfig => fun c => negb (String.eqb (scheduler_obsSiteConfigC.name c) "")
  | telescopeConfig => fun c => float_leb 0%Q (scheduler_telescopeConfigC.altitudeMinpos c)
  | domeConfig => fun c => float_leb 0%Q (scheduler_domeConfigC.altitudeMaxspeed c)
  | rotatorConfig => fun c => float_leb 0%Q (scheduler_rotatorConfigC.maxspeed c)
  | cameraConfig => fun c => float_ltb 0%Q (scheduler_cameraConfigC.readoutTime c)
  | slewConfig => fun c => negb (String.eqb (scheduler_slewConfigC.prereqExposures c) "")
  | opticsLoopCorrConfig => fun c => float_ltb 0%Q (scheduler_opticsLoopCorrConfigC.telOpticsOlSlope c)
  | parkConfig => fun c => float_ltb 0%Q (scheduler_parkConfigC.telescopeAltitude c)
  | surveyTopology => fun c =>
      (0 <? scheduler_surveyTopologyC.numGeneralProps c)%Z
      || (0 <? scheduler_surveyTopologyC.numSequenceProps c)%Z
  end.

(** The text of the [SchedulerTimeoutError] each step raises. *)
Definition message (T : Topic) : string :=
  match T with
  | schedulerConfig | parkConfig | surveyTopology => "No configuration received from Scheduler!"
  | _ => "No configuration received from Scheduler!!"
  end.

(** The [while True] loop of a step, from the k-th poll on: the number of
    polls made so far, the buffer, and the exception if the loop raised.
    [None] when [fuel] turns of the loop were not enough. *)
Fixpoint listen (sal : SalManager) (T : Topic) (timeout lasttime : double)
    (fuel k : nat) : option (nat * sample T * option exn) :=
  match fuel with
  | O => None
  | S fuel' =>
      let p := getNextSample sal T k in
      if (rcode p =? 0)%Z && valid T (buffer p) then Some (S k, buffer p, None)
      else
        let tf := clock p in
        if double_gtb (double_sub tf lasttime) timeout then
          Some (S k, buffer p, Some (SchedulerTimeoutError (message T)))
        else listen sal T timeout lasttime fuel' (S k)
  end.

(** [x.split(',') if len(x) > 0 else []] *)
Definition split_nonempty (x : string) : list string :=
  if decide (0 < String.length x)%nat then split "," x else [].

Definition strs (l : list string) : value := VList (map VStr l).
Definition floats (l : list float) : value := VList (map VFloat l).

(** The assignments each step makes after its loop has accepted [c]. *)

Definition store_scheduler (c : scheduler_schedulerConfigC.t) (self : t) : t :=
  assign "survey.duration" (VFloat (scheduler_schedulerConfigC.surveyDuration c)) self.

Definition store_scheduler_driver (c : scheduler_driverConfigC.t) (self : t) : t :=
  let self := assign "sched_driver.coadd_values"
                (VBool (bool_of_int (scheduler_driverConfigC.coaddValues c))) self in
  let self := assign "sched_driver.time_balancing"
                (VBool (bool_of_int (scheduler_driverConfigC.timeBalancing c))) self in
  let self := assign "sched_driver.timecost_time_max"
                (VFloat (scheduler_driverConfigC.timecostTimeMax c)) self in
  let self := assign "sched_driver.timecost_time_ref"
                (VFloat (scheduler_driverConfigC.timecostTimeRef c)) self in
  let self := assign "sched_driver.timecost_cost_ref"
                (VFloat (scheduler_driverConfigC.timecostCostRef c)) self in
  let self := assign "sched_driver.timecost_weight"
                (VFloat (scheduler_driverConfigC.timecostWeight c)) self in
  let self := assign "sched_driver.filtercost_weight"
                (VFloat (scheduler_driverConfigC.filtercostWeight c)) self in
  let self := assign "sched_driver.propboost_weight"
                (VFloat (scheduler_driverConfigC.propboostWeight c)) self in
  let self := assign "sched_driver.night_boundary"
                (VFloat (scheduler_driverConfigC.nightBoundary c)) self in
  let self := assign "sched_driver.new_moon_phase_threshold"
                (VFloat (scheduler_driverConfigC.newMoonPhaseThreshold c)) self in
  let self := assign "sched_driver.ignore_sky_brightness"
                (VBool (bool_of_int (scheduler_driverConfigC.ignoreSkyBrightness c))) self in
  let self := assign "sched_driver.ignore_airmass"
                (VBool (bool_of_int (scheduler_driverConfigC.ignoreAirmass c))) self in
  let self := assign "sched_driver.ignore_clouds"
                (VBool (bool_of_int (scheduler_driverConfigC.ignoreClouds c))) self in
  let self := assign "sched_driver.ignore_seeing"
                (VBool (bool_of_int (scheduler_driverConfigC.ignoreSeeing c))) self in
  let self := assign "sched_driver.lookahead_window_size"
                (VInt (scheduler_driverConfigC.lookaheadWindowSize c)) self in
  assign "sched_driver.lookahead_bonus_weight"
         (VFloat (scheduler_driverConfigC.lookaheadBonusWeight c)) self.

Definition store_observing_site (c : scheduler_obsSiteConfigC.t) (self : t) : t :=
  let self := assign "observing_site.name" (VStr (scheduler_obsSiteConfigC.name c)) self in
  let self := assign "observing_site.latitude" (VFloat (scheduler_obsSiteConfigC.latitude c)) self in
  let self := assign "observing_site.longitude" (VFloat (scheduler_obsSiteConfigC.longitude c)) self in
  let self := assign "observing_site.height" (VFloat (scheduler_obsSiteConfigC.height c)) self in
  let self := assign "observing_site.pressure" (VFloat (scheduler_obsSiteConfigC.pressure c)) self in
  let self := assign "observing_site.temperature"
                (VFloat (scheduler_obsSiteConfigC.temperature c)) self in
  assign "observing_site.relative_humidity"
         (VFloat (scheduler_obsSiteConfigC.relativeHumidity c)) self.

Definition store_telescope (c : scheduler_telescopeConfigC.t) (self : t) : t :=
  let self := assign "observatory.telescope.altitude_minpos"
                (VFloat (scheduler_telescopeConfigC.altitudeMinpos c)) self in
  let self := assign "observatory.telescope.altitude_maxpos"
                (VFloat (scheduler_telescopeConfigC.altitudeMaxpos c)) self in
  let self := assign "observatory.telescope.altitude_maxspeed"
                (VFloat (scheduler_telescopeConfigC.altitudeMaxspeed c)) self in
  let self := assign "observatory.telescope.altitude_accel"
                (VFloat (scheduler_telescopeConfigC.altitudeAccel c)) self in
  let self := assign "observatory.telescope.altitude_decel"
                (VFloat (scheduler_telescopeConfigC.altitudeDecel c)) self in
  let self := assign "observatory.telescope.azimuth_minpos"
                (VFloat (scheduler_telescopeConfigC.azimuthMinpos c)) self in
  let self := assign "observatory.telescope.azimuth_maxpos"
                (VFloat (scheduler_telescopeConfigC.azimuthMaxpos c)) self in
  let self := assign "observatory.telescope.azimuth_maxspeed"
                (VFloat (scheduler_telescopeConfigC.azimuthMaxspeed c)) self in
  let self := assign "observatory.telescope.azimuth_accel"
                (VFloat (scheduler_telescopeConfigC.azimuthAccel c)) self in
  let self := assign "observatory.telescope.azimuth_decel"
                (VFloat (scheduler_telescopeConfigC.azimuthDecel c)) self in
  assign "observatory.telescope.settle_time"
         (VFloat (scheduler_telescopeConfigC.settleTime c)) self.

Definition store_dome (c : scheduler_domeConfigC.t) (self : t) : t :=
  let self := assign "observatory.dome.altitude_maxspeed"
                (VFloat (scheduler_domeConfigC.altitudeMaxspeed c)) self in
  let self := assign "observatory.dome.altitude_accel"
                (VFloat (scheduler_domeConfigC.altitudeAccel c)) self in
  let self := assign "observatory.dome.altitude_decel"
                (VFloat (scheduler_domeConfigC.altitudeDecel c)) self in
  let self := assign "observatory.dome.altitude_freerange"
                (VFloat (scheduler_domeConfigC.altitudeFreerange c)) self in
  let self := assign "observatory.dome.azimuth_maxspeed"
                (VFloat (scheduler_domeConfigC.azimuthMaxspeed c)) self in
  let self := assign "observatory.dome.azimuth_accel"
                (VFloat (scheduler_domeConfigC.azimuthAccel c)) self in
  let self := assign "observatory.dome.azimuth_decel"
                (VFloat (scheduler_domeConfigC.azimuthDecel c)) self in
  let self := assign "observatory.dome.azimuth_freerange"
                (VFloat (scheduler_domeConfigC.azimuthFreerange c)) self in
  assign "observatory.dome.settle_time" (VFloat (scheduler_domeConfigC.settleTime c)) self.

Definition store_rotator (c : scheduler_rotatorConfigC.t) (self : t) : t :=
  let self := assign "observatory.rotator.minpos" (VFloat (scheduler_rotatorConfigC.minpos c)) self in
  let self := assign "observatory.rotator.maxpos" (VFloat (scheduler_rotatorConfigC.maxpos c)) self in
  let self := assign "observatory.rotator.filter_change_pos"
                (VFloat (scheduler_rotatorConfigC.filterChangePos c)) self in
  let self := assign "observatory.rotator.maxspeed"
                (VFloat (scheduler_rotatorConfigC.maxspeed c)) self in
  let self := assign "observatory.rotator.accel" (VFloat (scheduler_rotatorConfigC.accel c)) self in
  let self := assign "observatory.rotator.decel" (VFloat (scheduler_rotatorConfigC.decel c)) self in
  let self := assign "observatory.rotator.follow_sky"
                (VBool (bool_of_int (scheduler_rotatorConfigC.followsky c))) self in
  assign "observatory.rotator.resume_angle"
         (VBool (bool_of_int (scheduler_rotatorConfigC.resumeAngle c))) self.

Definition store_camera (c : scheduler_cameraConfigC.t) (self : t) : t :=
  let self := assign "observatory.camera.readout_time"
                (VFloat (scheduler_cameraConfigC.readoutTime c)) self in
  let self := assign "observatory.camera.shutter_time"
                (VFloat (scheduler_cameraConfigC.shutterTime c)) self in
  let self := assign "observatory.camera.filter_mount_time"
                (VFloat (scheduler_cameraConfigC.filterMountTime c)) self in
  let self := assign "observatory.camera.filter_change_time"
                (VFloat (scheduler_cameraConfigC.filterChangeTime c)) self in
  let self := assign "observatory.camera.filter_max_changes_burst_num"
                (VInt (scheduler_cameraConfigC.filterMaxChangesBurstNum c)) self in
  let self := assign "observatory.camera.filter_max_changes_burst_time"
                (VFloat (scheduler_cameraConfigC.filterMaxChangesBurstTime c)) self in
  let self := assign "observatory.camera.filter_max_changes_avg_num"
                (VFloat (scheduler_cameraConfigC.filterMaxChangesAvgNum c)) self in
  let self := assign "observatory.camera.filter_max_changes_avg_time"
                (VFloat (scheduler_cameraConfigC.filterMaxChangesAvgTime c)) self in
  let self := assign "observatory.camera.filter_mounted"
                (strs (split "," (scheduler_cameraConfigC.filterMounted c))) self in
  let self := assign "observatory.camera.filter_pos"
                (VStr (scheduler_cameraConfigC.filterPos c)) self in
  let self := assign "observatory.camera.filter_removable"
                (strs (split "," (scheduler_cameraConfigC.filterRemovable c))) self in
  assign "observatory.camera.filter_unmounted"
         (strs (split "," (scheduler_cameraConfigC.filterUnmounted c))) self.

Definition store_slew (c : scheduler_slewConfigC.t) (self : t) : t :=
  let self := assign "observatory.slew.prereq_domaz"
                (strs (split_nonempty (scheduler_slewConfigC.prereqDomaz c))) self in
  let self := assign "observatory.slew.prereq_telalt"
                (strs (split_nonempty (scheduler_slewConfigC.prereqTelalt c))) self in
  let self := assign "observatory.slew.prereq_telaz"
                (strs (split_nonempty (scheduler_slewConfigC.prereqTelaz c))) self in
  let self := assign "observatory.slew.prereq_telopticsopenloop"
                (strs (split_nonempty (scheduler_slewConfigC.prereqTelOpticsOpenLoop c))) self in
  let self := assign "observatory.slew.prereq_telopticsclosedloop"
                (strs (split_nonempty (scheduler_slewConfigC.prereqTelOpticsClosedLoop c))) self in
  let self := assign "observatory.slew.prereq_telrot"
                (strs (split_nonempty (scheduler_slewConfigC.prereqTelRot c))) self in
  let self := assign "observatory.slew.prereq_filter"
                (strs (split_nonempty (scheduler_slewConfigC.prereqFilter c))) self in
  let self := assign "observatory.slew.prereq_adc"
                (strs (split_nonempty (scheduler_slewConfigC.prereqAdc c))) self in
  let self := assign "observatory.slew.prereq_ins_optics"
                (strs (split_nonempty (scheduler_slewConfigC.prereqInsOptics c))) self in
  let self := assign "observatory.slew.prereq_guider_pos"
                (strs (split_nonempty (scheduler_slewConfigC.prereqGuiderPos c))) self in
  let self := assign "observatory.slew.prereq_guider_adq"
                (strs (split_nonempty (scheduler_slewConfigC.prereqGuiderAdq c))) self in
  let self := assign "observatory.slew.prereq_telsettle"
                (strs (split_nonempty (scheduler_slewConfigC.prereqTelSettle c))) self in
  let self := assign "observatory.slew.prereq_domazsettle"
                (strs (split_nonempty (scheduler_slewConfigC.prereqDomazSettle c))) self in
  let self := assign "observatory.slew.prereq_exposures"
                (strs (split_nonempty (scheduler_slewConfigC.prereqExposures c))) self in
  assign "observatory.slew.prereq_readout"
         (strs (split_nonempty (scheduler_slewConfigC.prereqReadout c))) self.

Definition store_optics_loop_corr (c : scheduler_opticsLoopCorrConfigC.t) (self : t) : t :=
  let self := assign "observatory.optics_loop_corr.tel_optics_ol_slope"
                (VFloat (scheduler_opticsLoopCorrConfigC.telOpticsOlSlope c)) self in
  let self := assign "observatory.optics_loop_corr.tel_optics_cl_alt_limit"
                (floats (scheduler_opticsLoopCorrConfigC.telOpticsClAltLimit c)) self in
  assign "observatory.optics_loop_corr.tel_optics_cl_delay"
         (floats (scheduler_opticsLoopCorrConfigC.telOpticsClDelay c)) self.

Definition store_park (c : scheduler_parkConfigC.t) (self : t) : t :=
  let self := assign "observatory.park.telescope_altitude"
                (VFloat (scheduler_parkConfigC.telescopeAltitude c)) self in
  let self := assign "observatory.park.telescope_azimuth"
                (VFloat (scheduler_parkConfigC.telescopeAzimuth c)) self in
  let self := assign "observatory.park.telescope_rotator"
                (VFloat (scheduler_parkConfigC.telescopeRotator c)) self in
  let self := assign "observatory.park.dome_altitude"
                (VFloat (scheduler_parkConfigC.domeAltitude c)) self in
  let self := assign "observatory.park.dome_azimuth"
                (VFloat (scheduler_parkConfigC.domeAzimuth c)) self in
  assign "observatory.park.filter_position" (VStr (scheduler_parkConfigC.filterPosition c)) self.

Definition store_proposals (c : scheduler_surveyTopologyC.t) (self : t) : t :=
  let self := set_num_proposals (scheduler_surveyTopologyC.numGeneralProps c
                                 + scheduler_surveyTopologyC.numSeqProps c) self in
  let self := set_survey_topology "general"
                (strs (split "," (scheduler_surveyTopologyC.generalPropos c))) self in
  set_survey_topology "sequence"
    (strs (split "," (scheduler_surveyTopologyC.sequencePropos c))) self.

Definition store (T : Topic) : sample T -> t -> t :=
  match T with
  | schedulerConfig => store_scheduler
  | driverConfig => store_scheduler_driver
  | obsSiteConfig => store_observing_site
  | telescopeConfig => store_telescope
  | domeConfig => store_dome
  | rotatorConfig => store_rotator
  | cameraConfig => store_camera
  | slewConfig => store_slew
  | opticsLoopCorrConfig => store_optics_loop_corr
  | parkConfig => store_park
  | surveyTopology => store_proposals
  end.

(** The communicator together with the record of what it did on the
    transport. *)
Definition state := (t * list event)%type.

(** The outcome of a method: the state it leaves and the exception it
    raised, if any; [None] when a loop ran out of fuel. *)
Definition outcome := option (state * option exn).

(** The common shape of the eleven [_configure_*] methods. *)
Definition configure_topic (sal : SalManager) (T : Topic) (fuel : nat) (st : state) : outcome :=
  let '(self, log) := st in
  if no_dds_comm self then Some (set_conf T (zero T) self, log, None)
  else
    let self := set_conf T (zero T) self in
    let log := log ++ [Subscribe T] in
    let lasttime := started sal T in
    match listen sal T (socs_timeout self) lasttime fuel 0 with
    | None => None
    | Some (polls, c, Some e) =>
        Some (set_conf T c self, log ++ replicate polls (Poll T), Some e)
    | Some (polls, c, None) =>
        Some (store T c (set_conf T c self), log ++ replicate polls (Poll T), None)
    end.

Definition _configure_scheduler sal := configure_topic sal schedulerConfig.
Definition _configure_scheduler_driver sal := configure_topic sal driverConfig.
Definition _configure_observing_site sal := configure_topic sal obsSiteConfig.
Definition _configure_telescope sal := configure_topic sal telescopeConfig.
Definition _configure_dome sal := configure_topic sal domeConfig.
Definition _configure_rotator sal := configure_topic sal rotatorConfig.
Definition _configure_camera sal := configure_topic sal cameraConfig.
Definition _configure_slew sal := configure_topic sal slewConfig.
Definition _configure_optics_loop_corr sal := configure_topic sal opticsLoopCorrConfig.
Definition _configure_park sal := configure_topic sal parkConfig.
Definition _configure_proposals sal := configure_topic sal surveyTopology.

(** [a; b]: [b] runs only when [a] returned without raising. *)
Definition and_then (a b : state -> outcome) : state -> outcome :=
  fun st =>
    match a st with
    | Some (st', None) => b st'
    | r => r
    end.

Definition configure (sal : SalManager) (fuel : nat) : state -> outcome :=
  and_then (_configure_scheduler sal fuel)
  (and_then (_configure_scheduler_driver sal fuel)
  (and_then (_configure_observing_site sal fuel)
  (and_then (_configure_telescope sal fuel)
  (and_then (_configure_dome sal fuel)
  (and_then (_configure_rotator sal fuel)
  (and_then (_configure_camera sal fuel)
  (and_then (_configure_slew sal fuel)
  (and_then (_configure_optics_loop_corr sal fuel)
  (and_then (_configure_park sal fuel)
            (_configure_proposals sal fuel)))))))))).

(** [initialize]: [self.sal = sal; self.config = config; self.configure()].
    The configuration the communicator held is replaced: on a
    communicator [__init__] has just built, [self] is [attach c (init b)]
    for any [c]. *)
Definition initialize (sal : SalManager) (config0 : obj) (fuel : nat) (st : state) : outcome :=
  let '(self, log) := st in
  configure sal fuel
    ({| no_dds_comm := no_dds_comm self;
        socs_timeout := socs_timeout self;
        config := config0;
        survey_topology := survey_topology self;
        num_proposals := num_proposals self;
        conf := conf self |}, log).

End ConfigurationCommunicator.

(** ** Definitions used to state the properties *)

(** The communicator [ConfigurationCommunicator(no_dds_comm)] once a
    transport and a configuration tree with nothing assigned yet are
    attached to it. *)
Definition attached (no_dds_comm : bool) : ConfigurationCommunicator.t :=
  ConfigurationCommunicator.attach ∅ (ConfigurationCommunicator.init no_dds_comm).

(** [General] with another set of exclusion selections. *)
Definition with_exclusions (self : General.t) (d : dict Z Selection.t) : General.t :=
  {| General.name := General.name self;
     General.sky_region := General.sky_region self;
     General.sky_exclusion :=
       {| SkyExclusion.dec_window := SkyExclusion.dec_window (General.sky_exclusion self);
          SkyExclusion.selections := Some d |};
     General.sky_nightly_bounds := General.sky_nightly_bounds self;
     General.sky_constraints := General.sky_constraints self;
     General.filters := General.filters self;
     General.scheduling := General.scheduling self |}.

(** The selections of type "GP". *)
Definition only_GP (d : dict Z Selection.t) : dict Z Selection.t :=
  filter (fun kv => Selection.limit_type (snd kv) = "GP") d.

Section FieldSets.
Context {Query : Type}.
Variable fd : FieldsDatabase Query.
Variable fs : FieldSelection Query.

(** The account the specification gives of [proposal_fields], against
    which the code is compared. *)

(** One query per region selection: the galactic-region query for a
    selection of the Galactic-plane kind, the range query for any other
    type. *)
Definition selection_query (cut : Selection.t) : result Query :=
  if String.eqb (Selection.limit_type cut) "GP" then
    galactic_region fs (Selection.maximum_limit cut) (Selection.minimum_limit cut)
                    (Selection.bounds_limit cut)
  else
    select_region fs (Selection.limit_type cut) (Selection.minimum_limit cut)
                  (Selection.maximum_limit cut).

Fixpoint selection_queries (cuts : list Selection.t) : result (list Query) :=
  match cuts with
  | [] => Ok []
  | cut :: cuts' =>
      do q <- selection_query cut;
      do qs <- selection_queries cuts';
      Ok (q :: qs)
  end.

(** The Ids of the rows the database returns for a query. *)
Definition ids_of (query : Query) : result (gset Z) :=
  do rows <- get_field_set fd query;
  Ok (list_to_set (map fst rows)).

(** The candidate set: the queries of the normalized region selections,
    combined with the normalized combine operators and executed. *)
Definition candidate_set (self : General.t) : result (gset Z) :=
  do cuts <- General.region_selection (General.sky_region self);
  do queries <- selection_queries (fst cuts);
  do query <- combine_queries fs queries (snd cuts);
  ids_of query.

(** The Ids one Galactic-plane exclusion selects: its galactic-region
    query, built and executed on its own. *)
Definition galactic_ids (cut : Selection.t) : result (gset Z) :=
  do q <- galactic_region fs (Selection.maximum_limit cut) (Selection.minimum_limit cut)
                          (Selection.bounds_limit cut);
  do query <- combine_queries fs [q] [];
  ids_of query.

(** The Ids any of the given exclusions selects. *)
Fixpoint excluded_by_any (cuts : list Selection.t) : result (gset Z) :=
  match cuts with
  | [] => Ok ∅
  | cut :: cuts' =>
      do ids <- galactic_ids cut;
      do ids' <- excluded_by_any cuts';
      Ok (ids ∪ ids')
  end.

(** The Ids the last of the given exclusions selects; none when there is
    no exclusion. *)
Definition excluded_by_last (cuts : list Selection.t) : result (gset Z) :=
  match last cuts with
  | Some cut => galactic_ids cut
  | None => Ok ∅
  end.

End FieldSets.

(** The exclusion selections of the Galactic-plane kind, in iteration
    order. *)
Definition GP_exclusions (self : General.t) : list Selection.t :=
  match SkyExclusion.selections (General.sky_exclusion self) with
  | Some d => filter (fun cut => Selection.limit_type cut = "GP") (values d)
  | None => []
  end.

(** The combiner the source supplies at the key [i] of a time-range
    group, if it supplies one. *)
Definition supplied (combiners : list string) (i : Z) : list string :=
  match getitem combiners i with
  | Ok c => [c]
  | Raise _ => []
  end.

(** What the time-dependent loop appends for the group of key [i] among
    [n] groups. *)
Definition group_combiners (combiners : list string) (n i : Z) : list string :=
  supplied combiners i ++ (if decide (i < n - 1) then ["or"] else []).

(** The combine operators as the specification words them: a group
    contributing more than one selection gets the implicit "or" towards
    the next group unless the source supplies a combiner for it; a group
    contributing one selection gets the supplied combiner and the
    inter-group "or". *)
Fixpoint spec_combine_list (combiners : list string)
    (groups : list (Z * SelectionList.t)) : list string :=
  match groups with
  | [] => []
  | (i, g) :: rest =>
      let implicit :=
        match rest with
        | [] => []
        | _ :: _ =>
            if decide (1 < length (SelectionList.indexes g))%nat then
              match supplied combiners i with
              | [] => ["or"]
              | _ :: _ => []
              end
            else ["or"]
        end in
      supplied combiners i ++ implicit ++ spec_combine_list combiners rest
  end.

(** ** Vocabulary for the encoders *)

(** The value a call returned. *)
Definition returned (r : result obj) : obj :=
  match r with
  | Ok o => o
  | Raise _ => ∅
  end.

(** The attributes each block of [General.set_topic] assigns. *)
Definition region_attrs : list string :=
  ["numRegionSelections"; "regionMinimums"; "regionMaximums"; "regionBounds";
   "regionTypes"; "regionCombiners"].

Definition time_range_attrs : list string :=
  ["numTimeRanges"; "timeRangeStarts"; "timeRangeEnds"].

Definition mapping_attrs : list string := ["numSelectionMappings"; "selectionMappings"].

Definition exclusion_attrs : list string :=
  ["numExclusionSelections"; "exclusionMinimums"; "exclusionMaximums"; "exclusionBounds";
   "exclusionTypes"].

Definition general_filter_attrs : list string :=
  ["numFilters"; "numVisits"; "numGroupedVisits"; "maxGroupedVisits"; "brightLimit";
   "darkLimit"; "maxSeeing"; "numFilterExposures"; "exposures"; "filterNames"].

(** The arrays the filter loop writes. *)
Definition general_filter_arrays : list string :=
  ["numVisits"; "numGroupedVisits"; "maxGroupedVisits"; "brightLimit"; "darkLimit";
   "maxSeeing"; "numFilterExposures"; "exposures"].

Definition general_scheduling_attrs : list string :=
  ["maxNumTargets"; "acceptSerendipity"; "acceptConsecutiveVisits"; "airmassBonus";
   "hourAngleBonus"; "hourAngleMax"; "restrictGroupedVisits"; "timeInterval";
   "timeWindowStart"; "timeWindowMax"; "timeWindowEnd"; "timeWeight"; "fieldRevisitLimit"].

(** The slot of each numeric filter array that belongs to the filter [v]. *)
Definition general_filter_row (v : GeneralBandFilter.t) : list (string * value) :=
  [("numVisits", VInt (GeneralBandFilter.num_visits v));
   ("numGroupedVisits", VInt (GeneralBandFilter.num_grouped_visits v));
   ("maxGroupedVisits", VInt (GeneralBandFilter.max_grouped_visits v));
   ("brightLimit", VFloat (GeneralBandFilter.bright_limit v));
   ("darkLimit", VFloat (GeneralBandFilter.dark_limit v));
   ("maxSeeing", VFloat (GeneralBandFilter.max_seeing v));
   ("numFilterExposures", VInt (Z.of_nat (length (GeneralBandFilter.exposures v))))].

(** The array attribute [fst an] of [o] has at least [snd an] slots. *)
Definition has_slots (o : obj) (an : string * nat) : Prop :=
  exists l, o !! fst an = Some (VList l) /\ (snd an <= length l)%nat.

(** [o] has every array of [req], each with the slots required. *)
Definition room (req : list (string * nat)) (o : obj) : Prop := Forall (has_slots o) req.

(** The slots [General.set_topic] writes, array by array. *)
Definition general_required (self : General.t) : list (string * nat) :=
  let count {V} (d : option (dict Z V)) :=
    match d with Some d => length d | None => 0%nat end in
  let regions := count (SkyRegion.selections (General.sky_region self)) in
  let ranges := count (SkyRegion.time_ranges (General.sky_region self)) in
  let mappings :=
    match SkyRegion.selection_mapping (General.sky_region self) with
    | Some d => values d
    | None => []
    end in
  let exclusions := count (SkyExclusion.selections (General.sky_exclusion self)) in
  let filters := match General.filters self with Some d => values d | None => [] end in
  [("regionMinimums", regions); ("regionMaximums", regions); ("regionBounds", regions);
   ("timeRangeStarts", ranges); ("timeRangeEnds", ranges);
   ("numSelectionMappings", length mappings);
   ("selectionMappings",
    sum_list (map (fun v => length (SelectionList.indexes v)) mappings));
   ("exclusionMinimums", exclusions); ("exclusionMaximums", exclusions);
   ("exclusionBounds", exclusions);
   ("numVisits", length filters); ("numGroupedVisits", length filters);
   ("maxGroupedVisits", length filters); ("brightLimit", length filters);
   ("darkLimit", length filters); ("maxSeeing", length filters);
   ("numFilterExposures", length filters);
   ("exposures", sum_list (map (fun v => length (GeneralBandFilter.exposures v)) filters))].

(** The slots a mapping with integer keys needs when the key is the slot
    written: one more than the largest key. *)
Definition key_slots {V : Type} (d : option (dict Z V)) : nat :=
  match d with
  | Some d => foldr (fun kv n => Nat.max (S (Z.to_nat (fst kv))) n) 0%nat d
  | None => 0%nat
  end.

(** No key is negative. *)
Definition keys_nonneg {V : Type} (d : option (dict Z V)) : Prop :=
  match d with
  | Some d => Forall (fun kv => 0 <= fst kv) d
  | None => True
  end.

(** The slots [Sequence.set_topic] writes, array by array. *)
Definition sequence_required (self : Sequence.t) : list (string * nat) :=
  let subs := match Sequence.sub_sequences self with Some d => values d | None => [] end in
  let masters :=
    match Sequence.master_sub_sequences self with Some d => values d | None => [] end in
  let nested := flat_map (fun m => values (MasterSubSequence.sub_sequences m)) masters in
  let visits l := sum_list (map (fun ss => length (SubSequence.visits_per_filter ss)) l) in
  let filters := match Sequence.filters self with Some d => values d | None => [] end in
  let sub_keys := key_slots (Sequence.sub_sequences self) in
  let master_keys := key_slots (Sequence.master_sub_sequences self) in
  [("userRegionIds", length (Sequence.sky_user_regions self));
   ("numSubSequenceFilters", sub_keys); ("numSubSequenceFilterVisits", visits subs);
   ("numSubSequenceEvents", sub_keys); ("numSubSequenceMaxMissed", sub_keys);
   ("subSequenceTimeIntervals", sub_keys); ("subSequenceTimeWindowStarts", sub_keys);
   ("subSequenceTimeWindowMaximums", sub_keys); ("subSequenceTimeWindowEnds", sub_keys);
   ("subSequenceTimeWeights", sub_keys);
   ("numNestedSubSequences", master_keys); ("numMasterSubSequenceEvents", master_keys);
   ("numMasterSubSequenceMaxMissed", master_keys);
   ("masterSubSequenceTimeIntervals", master_keys);
   ("masterSubSequenceTimeWindowStarts", master_keys);
   ("masterSubSequenceTimeWindowMaximums", master_keys);
   ("masterSubSequenceTimeWindowEnds", master_keys);
   ("masterSubSequenceTimeWeights", master_keys);
   ("numNestedSubSequenceFilters", length nested);
   ("num_nested_sub_sequence_filter_visits", visits nested);
   ("numNestedSubSequenceEvents", length nested);
   ("numNestedSubSequenceMaxMissed", length nested);
   ("nestedSubSequenceTimeIntervals", length nested);
   ("nestedSubSequenceTimeWindowStarts", length nested);
   ("nestedSubSequenceTimeWindowMaximums", length nested);
   ("nestedSubSequenceTimeWindowEnds", length nested);
   ("nestedSubSequenceTimeWeights", length nested);
   ("brightLimit", length filters); ("darkLimit", length filters);
   ("maxSeeing", length filters); ("numFilterExposures", length filters);
   ("exposures", sum_list (map (fun v => length (BandFilter.exposures v)) filters))].

(** The attributes each block of [Sequence.set_topic] assigns. *)
Definition sub_sequence_attrs : list string :=
  ["numSubSequences"; "numSubSequenceFilters"; "numSubSequenceFilterVisits";
   "numSubSequenceEvents"; "numSubSequenceMaxMissed"; "subSequenceTimeIntervals";
   "subSequenceTimeWindowStarts"; "subSequenceTimeWindowMaximums";
   "subSequenceTimeWindowEnds"; "subSequenceTimeWeights"; "subSequenceNames";
   "subSequenceFilters"].

Definition master_attrs : list string :=
  ["numMasterSubSequences"; "numNestedSubSequences"; "numMasterSubSequenceEvents";
   "numMasterSubSequenceMaxMissed"; "masterSubSequenceTimeIntervals";
   "masterSubSequenceTimeWindowStarts"; "masterSubSequenceTimeWindowMaximums";
   "masterSubSequenceTimeWindowEnds"; "masterSubSequenceTimeWeights";
   "numNestedSubSequenceFilters"; "num_nested_sub_sequence_filter_visits";
   "numNestedSubSequenceEvents"; "numNestedSubSequenceMaxMissed";
   "nestedSubSequenceTimeIntervals"; "nestedSubSequenceTimeWindowStarts";
   "nestedSubSequenceTimeWindowMaximums"; "nestedSubSequenceTimeWindowEnds";
   "nestedSubSequenceTimeWeights"; "masterSubSequenceNames"; "nestedSubSequenceNames";
   "nestedSubSequenceFilters"].

Definition sequence_filter_attrs : list string :=
  ["numFilters"; "brightLimit"; "darkLimit"; "maxSeeing"; "numFilterExposures";
   "exposures"; "filterNames"].

Definition sequence_scheduling_attrs : list string :=
  ["maxNumTargets"; "acceptSerendipity"; "acceptConsecutiveVisits"; "airmassBonus";
   "hourAngleBonus"; "hourAngleMax"; "restartLostSequences"; "restartCompleteSequences";
   "maxVisitsGoal"].

(** [Sequence] with another set of master sub-sequences. *)
Definition with_masters (self : Sequence.t) (ms : option (dict Z MasterSubSequence.t))
    : Sequence.t :=
  {| Sequence.name := Sequence.name self;
     Sequence.sky_user_regions := Sequence.sky_user_regions self;
     Sequence.sky_exclusion := Sequence.sky_exclusion self;
     Sequence.sky_nightly_bounds := Sequence.sky_nightly_bounds self;
     Sequence.sky_constraints := Sequence.sky_constraints self;
     Sequence.sub_sequences := Sequence.sub_sequences self;
     Sequence.master_sub_sequences := ms;
     Sequence.filters := Sequence.filters self;
     Sequence.scheduling := Sequence.scheduling self |}.

(** Two objects hold the same value in every attribute outside [X]. *)
Definition agree (X : list string) (o1 o2 : obj) : Prop :=
  forall a, a ∉ X -> o1 !! a = o2 !! a.

(** The relation the filter loop keeps between two runs: same local
    variables, topics that agree outside [X]. *)
Definition filters_related (X : list string) (s1 s2 : list string * nat * obj) : Prop :=
  fst (fst s1) = fst (fst s2) /\ snd (fst s1) = snd (fst s2) /\ agree X (snd s1) (snd s2).

(** ** Vocabulary for the acquisition steps *)

Section Acquisition.
Import ConfigurationCommunicator.
Variable sal : SalManager.
Variable T : Topic.

(** The k-th poll returns code 0 with a sample that passes the validity
    test of the topic. *)
Definition accepted (k : nat) : bool :=
  (rcode (getNextSample sal T k) =? 0)%Z && valid T (buffer (getNextSample sal T k)).

(** The test [(tf - lasttime) > self.socs_timeout] on the clock read
    after the k-th poll: the difference of the two doubles, rounded as the
    machine rounds it, is greater than [timeout]. *)
Definition expired (timeout : double) (k : nat) : bool :=
  double_gtb (double_sub (clock (getNextSample sal T k)) (started sal T)) timeout.

(** Some poll is accepted and returns before the timeout has elapsed
    since the step began. *)
Definition arrives_in_time (timeout : double) : Prop :=
  exists k, accepted k = true
            /\ double_leb (double_sub (clock (getNextSample sal T k)) (started sal T))
                          timeout = true.

(** The step of [T] returns. *)
Definition succeeds (st : state) : Prop :=
  exists fuel st', configure_topic sal T fuel st = Some (st', None).

(** The step of [T] raises [SchedulerTimeoutError]. *)
Definition times_out (st : state) : Prop :=
  exists fuel st',
    configure_topic sal T fuel st = Some (st', Some (SchedulerTimeoutError (message T))).

End Acquisition.

(** The state an outcome leaves and the exception it carries. *)
Definition final_state (o : ConfigurationCommunicator.outcome) : ConfigurationCommunicator.state :=
  match o with
  | Some (st, _) => st
  | None => (attached false, [])
  end.

Definition raised (o : ConfigurationCommunicator.outcome) : option (option exn) :=
  match o with
  | Some (_, r) => Some r
  | None => None
  end.

(** The order in which [configure] calls the steps. *)
Definition order : list ConfigurationCommunicator.Topic :=
  [ConfigurationCommunicator.schedulerConfig;
   ConfigurationCommunicator.driverConfig;
   ConfigurationCommunicator.obsSiteConfig;
   ConfigurationCommunicator.telescopeConfig;
   ConfigurationCommunicator.domeConfig;
   ConfigurationCommunicator.rotatorConfig;
   ConfigurationCommunicator.cameraConfig;
   ConfigurationCommunicator.slewConfig;
   ConfigurationCommunicator.opticsLoopCorrConfig;
   ConfigurationCommunicator.parkConfig;
   ConfigurationCommunicator.surveyTopology].

(** The steps of the topics of [l], one after the other. *)
Fixpoint run_steps (sal : ConfigurationCommunicator.SalManager) (fuel : nat)
    (l : list ConfigurationCommunicator.Topic)
    : ConfigurationCommunicator.state -> ConfigurationCommunicator.outcome :=
  match l with
  | [] => fun st => Some (st, None)
  | T :: l' =>
      ConfigurationCommunicator.and_then
        (ConfigurationCommunicator.configure_topic sal T fuel) (run_steps sal fuel l')
  end.

(** ** Sample inputs *)

Module Sample.

Definition cut (limit_type : string) (lo hi : float) : Selection.t :=
  {| Selection.limit_type := limit_type;
     Selection.minimum_limit := lo;
     Selection.maximum_limit := hi;
     Selection.bounds_limit := 0%Q |}.

(** Two time ranges; the first maps to two selections joined by the
    supplied "and", the second to one selection. *)
Definition time_indexed_region : SkyRegion.t :=
  {| SkyRegion.selections :=
       Some [(0, cut "RA" 0%Q 10%Q); (1, cut "Dec" (-30)%Q 0%Q); (2, cut "RA" 20%Q 30%Q)];
     SkyRegion.combiners := ["and"];
     SkyRegion.time_ranges :=
       Some [(0, {| TimeRange.start := 1; TimeRange.end_ := 100 |});
             (1, {| TimeRange.start := 101; TimeRange.end_ := 200 |})];
     SkyRegion.selection_mapping :=
       Some [(0, {| SelectionList.indexes := [0; 1] |});
             (1, {| SelectionList.indexes := [2] |})] |}.

(** A selector whose fragments are words and a database holding fields
    3, 7 and 12 in the RA band, 7 twice among the rows, and field 3 in the
    Galactic plane. *)
Definition fs : FieldSelection string :=
  {| select_region := fun limit_type _ _ => Ok limit_type;
     galactic_region := fun _ _ _ => Ok "GP";
     combine_queries := fun queries combiners => Ok (join " " (queries ++ combiners)) |}.

Definition fd : FieldsDatabase string :=
  {| get_field_set := fun query =>
       if String.eqb query "RA" then Ok [(7, []); (3, []); (7, []); (12, [])]
       else if String.eqb query "GP" then Ok [(3, [])]
       else Ok [] |}.

Definition filter_u : GeneralBandFilter.t :=
  {| GeneralBandFilter.name := "u";
     GeneralBandFilter.num_visits := 75;
     GeneralBandFilter.num_grouped_visits := 1;
     GeneralBandFilter.max_grouped_visits := 1;
     GeneralBandFilter.bright_limit := 21%Q;
     GeneralBandFilter.dark_limit := 30%Q;
     GeneralBandFilter.max_seeing := 2%Q;
     GeneralBandFilter.exposures := [15%Q; 15%Q] |}.

Definition filter_g : GeneralBandFilter.t :=
  {| GeneralBandFilter.name := "g";
     GeneralBandFilter.num_visits := 105;
     GeneralBandFilter.num_grouped_visits := 2;
     GeneralBandFilter.max_grouped_visits := 2;
     GeneralBandFilter.bright_limit := 22%Q;
     GeneralBandFilter.dark_limit := 30%Q;
     GeneralBandFilter.max_seeing := 3%Q;
     GeneralBandFilter.exposures := [30%Q] |}.

(** The same filter under a name that holds a comma. *)
Definition filter_g_r : GeneralBandFilter.t :=
  {| GeneralBandFilter.name := "g,r";
     GeneralBandFilter.num_visits := 105;
     GeneralBandFilter.num_grouped_visits := 2;
     GeneralBandFilter.max_grouped_visits := 2;
     GeneralBandFilter.bright_limit := 22%Q;
     GeneralBandFilter.dark_limit := 30%Q;
     GeneralBandFilter.max_seeing := 3%Q;
     GeneralBandFilter.exposures := [30%Q] |}.

(** A general proposal over the flat region [{0: RA in 0..10}], without
    combiners or exclusions, with the given filters. *)
Definition general (filters : dict string GeneralBandFilter.t) : General.t :=
  {| General.name := Some "WideFastDeep";
     General.sky_region :=
       {| SkyRegion.selections := Some [(0, cut "RA" 0%Q 10%Q)];
          SkyRegion.combiners := [];
          SkyRegion.time_ranges := None;
          SkyRegion.selection_mapping := None |};
     General.sky_exclusion :=
       {| SkyExclusion.dec_window := 90%Q; SkyExclusion.selections := Some [] |};
     General.sky_nightly_bounds :=
       {| SkyNightlyBounds.twilight_boundary := (-12)%Q; SkyNightlyBounds.delta_lst := 60%Q |};
     General.sky_constraints :=
       {| SkyConstraints.max_airmass := 2%Q;
          SkyConstraints.max_cloud := 1%Q;
          SkyConstraints.min_distance_moon := 30%Q;
          SkyConstraints.exclude_planets := true |};
     General.filters := Some filters;
     General.scheduling :=
       {| GeneralScheduling.max_num_targets := 100;
          GeneralScheduling.accept_serendipity := false;
          GeneralScheduling.accept_consecutive_visits := false;
          GeneralScheduling.airmass_bonus := 0%Q;
          GeneralScheduling.hour_angle_bonus := 0%Q;
          GeneralScheduling.hour_angle_max := 9%Q;
          GeneralScheduling.restrict_grouped_visits := true;
          GeneralScheduling.time_interval := 0%Q;
          GeneralScheduling.time_window_start := 0%Q;
          GeneralScheduling.time_window_max := 0%Q;
          GeneralScheduling.time_window_end := 0%Q;
          GeneralScheduling.time_weight := 0%Q;
          GeneralScheduling.field_revisit_limit := 0 |} |}.

(** A fresh topic instance: every array attribute has ten zero slots. *)
Definition topic_with (arrays : list string) : obj :=
  list_to_map (map (fun a => (a, VList (replicate 10 (VInt 0)))) arrays).

Definition generalPropConfig : obj :=
  topic_with ["regionMinimums"; "regionMaximums"; "regionBounds";
              "timeRangeStarts"; "timeRangeEnds";
              "numSelectionMappings"; "selectionMappings";
              "exclusionMinimums"; "exclusionMaximums"; "exclusionBounds";
              "numVisits"; "numGroupedVisits"; "maxGroupedVisits";
              "brightLimit"; "darkLimit"; "maxSeeing";
              "numFilterExposures"; "exposures"].

Definition sequencePropConfig : obj :=
  topic_with ["userRegionIds";
              "numSubSequenceFilters"; "numSubSequenceFilterVisits";
              "numSubSequenceEvents"; "numSubSequenceMaxMissed";
              "subSequenceTimeIntervals"; "subSequenceTimeWindowStarts";
              "subSequenceTimeWindowMaximums"; "subSequenceTimeWindowEnds";
              "subSequenceTimeWeights";
              "numNestedSubSequences"; "numMasterSubSequenceEvents";
              "numMasterSubSequenceMaxMissed"; "masterSubSequenceTimeIntervals";
              "masterSubSequenceTimeWindowStarts"; "masterSubSequenceTimeWindowMaximums";
              "masterSubSequenceTimeWindowEnds"; "masterSubSequenceTimeWeights";
              "numNestedSubSequenceFilters"; "num_nested_sub_sequence_filter_visits";
              "numNestedSubSequenceEvents"; "numNestedSubSequenceMaxMissed";
              "nestedSubSequenceTimeIntervals"; "nestedSubSequenceTimeWindowStarts";
              "nestedSubSequenceTimeWindowMaximums"; "nestedSubSequenceTimeWindowEnds";
              "nestedSubSequenceTimeWeights";
              "brightLimit"; "darkLimit"; "maxSeeing"; "numFilterExposures"; "exposures"].

Definition sub_sequence (name : string) (filters : list string) (visits : list Z)
    : SubSequence.t :=
  {| SubSequence.name := name;
     SubSequence.filters := filters;
     SubSequence.visits_per_filter := visits;
     SubSequence.num_events := 20;
     SubSequence.num_max_missed := 5;
     SubSequence.time_interval := 259200%Q;
     SubSequence.time_window_start := 0%Q;
     SubSequence.time_window_max := 1%Q;
     SubSequence.time_window_end := 2%Q;
     SubSequence.time_weight := 1%Q;
     SubSequence.get_filter_string := join " " filters |}.

Definition two_filters : SubSequence.t := sub_sequence "pair" ["r"; "i"] [10; 20].
Definition three_filters : SubSequence.t := sub_sequence "triple" ["g"; "r"; "z"] [1; 2; 3].

(** A master sub-sequence with two nested sub-sequences. *)
Definition master : MasterSubSequence.t :=
  {| MasterSubSequence.name := "master0";
     MasterSubSequence.sub_sequences :=
       [(0, sub_sequence "nested0" ["u"] [4]); (1, sub_sequence "nested1" ["y"; "z"] [5; 6])];
     MasterSubSequence.num_events := 3;
     MasterSubSequence.num_max_missed := 1;
     MasterSubSequence.time_interval := 86400%Q;
     MasterSubSequence.time_window_start := 0%Q;
     MasterSubSequence.time_window_max := 1%Q;
     MasterSubSequence.time_window_end := 2%Q;
     MasterSubSequence.time_weight := 1%Q |}.

(** A sequence proposal on three fields with the given sub-sequences and
    master sub-sequences and one filter. *)
Definition sequence (sub_sequences : option (dict Z SubSequence.t))
    (master_sub_sequences : option (dict Z MasterSubSequence.t)) : Sequence.t :=
  {| Sequence.name := Some "DeepDrillingCosmology1";
     Sequence.sky_user_regions := [290; 744; 290];
     Sequence.sky_exclusion :=
       {| SkyExclusion.dec_window := 90%Q; SkyExclusion.selections := Some [] |};
     Sequence.sky_nightly_bounds :=
       {| SkyNightlyBounds.twilight_boundary := (-12)%Q; SkyNightlyBounds.delta_lst := 60%Q |};
     Sequence.sky_constraints :=
       {| SkyConstraints.max_airmass := 2%Q;
          SkyConstraints.max_cloud := 1%Q;
          SkyConstraints.min_distance_moon := 30%Q;
          SkyConstraints.exclude_planets := true |};
     Sequence.sub_sequences := sub_sequences;
     Sequence.master_sub_sequences := master_sub_sequences;
     Sequence.filters :=
       Some [("r", {| BandFilter.name := "r";
                      BandFilter.bright_limit := 21%Q;
                      BandFilter.dark_limit := 30%Q;
                      BandFilter.max_seeing := 2%Q;
                      BandFilter.exposures := [15%Q; 15%Q] |})];
     Sequence.scheduling :=
       {| SequenceScheduling.max_num_targets := 100;
          SequenceScheduling.accept_serendipity := false;
          SequenceScheduling.accept_consecutive_visits := true;
          SequenceScheduling.airmass_bonus := 0%Q;
          SequenceScheduling.hour_angle_bonus := 0%Q;
          SequenceScheduling.hour_angle_max := 9%Q;
          SequenceScheduling.restart_lost_sequences := true;
          SequenceScheduling.restart_complete_sequences := true;
          SequenceScheduling.max_visits_goal := 250000 |} |}.

(** A transport on which: the scheduler topic is still zero at the first
    poll (clock 179 s) and valid at the second, which returns at 181 s;
    the driver, site, telescope, dome, rotator and camera topics are valid
    at their first poll, the camera topic listing no unmounted filter;
    nothing else is ever published. *)
Definition at_time {T : ConfigurationCommunicator.Topic} (rc : Z)
    (c : ConfigurationCommunicator.sample T) (time : double)
    : ConfigurationCommunicator.poll T :=
  {| ConfigurationCommunicator.rcode := rc;
     ConfigurationCommunicator.buffer := c;
     ConfigurationCommunicator.clock := time |}.

Definition camera : scheduler_cameraConfigC.t :=
  {| scheduler_cameraConfigC.readoutTime := 2%Q;
     scheduler_cameraConfigC.shutterTime := 1%Q;
     scheduler_cameraConfigC.filterMountTime := 28800%Q;
     scheduler_cameraConfigC.filterChangeTime := 120%Q;
     scheduler_cameraConfigC.filterMaxChangesBurstNum := 1;
     scheduler_cameraConfigC.filterMaxChangesBurstTime := 0%Q;
     scheduler_cameraConfigC.filterMaxChangesAvgNum := 3000%Q;
     scheduler_cameraConfigC.filterMaxChangesAvgTime := 31557600%Q;
     scheduler_cameraConfigC.filterMounted := "g,r,i,z,y";
     scheduler_cameraConfigC.filterPos := "r";
     scheduler_cameraConfigC.filterRemovable := "y,z";
     scheduler_cameraConfigC.filterUnmounted := "" |}.

Definition sal : ConfigurationCommunicator.SalManager :=
  {| ConfigurationCommunicator.started := fun _ => 0%float;
     ConfigurationCommunicator.getNextSample := fun T =>
       match T return nat -> ConfigurationCommunicator.poll T with
       | ConfigurationCommunicator.schedulerConfig => fun k =>
           match k with
           | O => at_time 0 (ConfigurationCommunicator.zero
                               ConfigurationCommunicator.schedulerConfig) 179%float
           | S _ => at_time (T := ConfigurationCommunicator.schedulerConfig) 0
                      {| scheduler_schedulerConfigC.surveyDuration := 3650%Q |} 181%float
           end
       | ConfigurationCommunicator.driverConfig => fun _ =>
           at_time (T := ConfigurationCommunicator.driverConfig) 0
             (scheduler_driverConfigC.Build_t 1 0 300%Q 5%Q 0%Q 1%Q 1%Q 1%Q 12%Q 20%Q
                                              0 0 0 0 0 0%Q) 182%float
       | ConfigurationCommunicator.obsSiteConfig => fun _ =>
           at_time (T := ConfigurationCommunicator.obsSiteConfig) 0
             (scheduler_obsSiteConfigC.Build_t "Cerro Pachon" 0%Q 0%Q 2650%Q 750%Q 11%Q 0%Q)
             183%float
       | ConfigurationCommunicator.cameraConfig => fun _ =>
           at_time (T := ConfigurationCommunicator.cameraConfig) 0 camera 187%float
       | ConfigurationCommunicator.telescopeConfig => fun _ =>
           at_time 0 (ConfigurationCommunicator.zero
                        ConfigurationCommunicator.telescopeConfig) 184%float
       | ConfigurationCommunicator.domeConfig => fun _ =>
           at_time 0 (ConfigurationCommunicator.zero ConfigurationCommunicator.domeConfig) 185%float
       | ConfigurationCommunicator.rotatorConfig => fun _ =>
           at_time 0 (ConfigurationCommunicator.zero
                        ConfigurationCommunicator.rotatorConfig) 186%float
       | T' => fun _ => at_time 1 (ConfigurationCommunicator.zero T') 1000%float
       end |}.

End Sample.

(** A selector whose queries keep the limits they were built from, and a
    database in which a range query selects the rows 7, 3, 7 and 12, the
    Galactic-plane band up to 10 degrees field 7 and any wider band
    field 3. *)
Module Banded.

#[warnings="-register-all"]
Inductive query :=
| Range (limit_type : string) (lo hi : float)
| Galactic (maximum minimum bounds : float)
| Combined (queries : list query) (combiners : list string).

Definition fs : FieldSelection query :=
  {| select_region := fun limit_type lo hi => Ok (Range limit_type lo hi);
     galactic_region := fun maximum minimum bounds => Ok (Galactic maximum minimum bounds);
     combine_queries := fun queries combiners => Ok (Combined queries combiners) |}.

Definition fd : FieldsDatabase query :=
  {| get_field_set := fun q =>
       match q with
       | Combined [Range _ _ _] _ => Ok [(7, []); (3, []); (7, []); (12, [])]
       | Combined [Galactic maximum _ _] _ =>
           if Qle_bool maximum 10%Q then Ok [(7, [])] else Ok [(3, [])]
       | _ => Ok []
       end |}.

(** [Sample.general] with two Galactic-plane exclusions, the band up to
    10 degrees under the key 0 and the band up to 20 degrees under the
    key 1. *)
Definition two_planes : General.t :=
  with_exclusions (Sample.general [])
    [(0, Sample.cut "GP" 0%Q 10%Q); (1, Sample.cut "GP" 0%Q 20%Q)].

(** [Sample.general] with an exclusion by ecliptic latitude and the
    Galactic-plane band up to 20 degrees. *)
Definition one_plane : General.t :=
  with_exclusions (Sample.general [])
    [(0, Sample.cut "EB" (-10)%Q 10%Q); (1, Sample.cut "GP" 0%Q 20%Q)].

End Banded.

(** ** Vocabulary for the stored configuration *)

(** The configuration entries the step of [T] assigns once its loop has
    accepted a sample (the same entries whatever the sample holds). *)
Definition written (T : ConfigurationCommunicator.Topic) : gset string :=
  dom (ConfigurationCommunicator.config
         (ConfigurationCommunicator.store T (ConfigurationCommunicator.zero T)
            (attached false))).

(** A transport on which every topic is published before the first poll,
    which returns one second after the step began. *)
Module Ready.

Definition slew : scheduler_slewConfigC.t :=
  scheduler_slewConfigC.Build_t "" "" "" "" "" "" "" "" "" "" "" "" ""
    "TelSettle,DomSettle" "".

Definition topology : scheduler_surveyTopologyC.t :=
  scheduler_surveyTopologyC.Build_t 0 1 0 "" "DeepDrillingCosmology1".

Definition sal : ConfigurationCommunicator.SalManager :=
  {| ConfigurationCommunicator.started := fun _ => 0%float;
     ConfigurationCommunicator.getNextSample := fun T =>
       match T return nat -> ConfigurationCommunicator.poll T with
       | ConfigurationCommunicator.schedulerConfig => fun _ =>
           Sample.at_time (T := ConfigurationCommunicator.schedulerConfig) 0
             {| scheduler_schedulerConfigC.surveyDuration := 3650%Q |} 1%float
       | ConfigurationCommunicator.driverConfig => fun _ =>
           Sample.at_time (T := ConfigurationCommunicator.driverConfig) 0
             (scheduler_driverConfigC.Build_t 1 0 300%Q 5%Q 0%Q 1%Q 1%Q 1%Q 12%Q 20%Q
                                              0 0 0 0 0 0%Q) 1%float
       | ConfigurationCommunicator.obsSiteConfig => fun _ =>
           Sample.at_time (T := ConfigurationCommunicator.obsSiteConfig) 0
             (scheduler_obsSiteConfigC.Build_t "Cerro Pachon" 0%Q 0%Q 2650%Q 750%Q 11%Q 0%Q)
             1%float
       | ConfigurationCommunicator.cameraConfig => fun _ =>
           Sample.at_time (T := ConfigurationCommunicator.cameraConfig) 0 Sample.camera 1%float
       | ConfigurationCommunicator.slewConfig => fun _ =>
           Sample.at_time (T := ConfigurationCommunicator.slewConfig) 0 slew 1%float
       | ConfigurationCommunicator.opticsLoopCorrConfig => fun _ =>
           Sample.at_time (T := ConfigurationCommunicator.opticsLoopCorrConfig) 0
             (scheduler_opticsLoopCorrConfigC.Build_t 1%Q [0%Q; 9%Q] [0%Q; 20%Q]) 1%float
       | ConfigurationCommunicator.parkConfig => fun _ =>
           Sample.at_time (T := ConfigurationCommunicator.parkConfig) 0
             (scheduler_parkConfigC.Build_t 86.5%Q 0%Q 0%Q 90%Q 0%Q "r") 1%float
       | ConfigurationCommunicator.surveyTopology => fun _ =>
           Sample.at_time (T := ConfigurationCommunicator.surveyTopology) 0 topology 1%float
       | T' => fun _ => Sample.at_time 0 (ConfigurationCommunicator.zero T') 1%float
       end |}.

End Ready.

(** A transport on the rounding boundary of the timeout test: every step
    begins at 3 * 2^-47 s; the first poll of each topic is rejected and
    returns at 180 + 2^-45 s, the double that follows 180.0; from the
    second poll on every topic is published as on [Ready.sal].  The exact
    difference of the two readings is 180 + 2^-47 s; the difference of
    the doubles rounds to 180.0. *)
Module Rounded.

Definition sal : ConfigurationCommunicator.SalManager :=
  {| ConfigurationCommunicator.started := fun _ => 0x1.8p-46%float;
     ConfigurationCommunicator.getNextSample := fun T k =>
       match k with
       | O => Sample.at_time 1 (ConfigurationCommunicator.zero T) 0x1.6800000000001p+7%float
       | S k' => ConfigurationCommunicator.getNextSample Ready.sal T k'
       end |}.

End Rounded.

(** The prerequisite lists of the slew topic and the configuration entry
    each is decoded into. *)
Definition slew_fields : list ((scheduler_slewConfigC.t -> string) * string) :=
  [(scheduler_slewConfigC.prereqDomaz, "observatory.slew.prereq_domaz");
   (scheduler_slewConfigC.prereqTelalt, "observatory.slew.prereq_telalt");
   (scheduler_slewConfigC.prereqTelaz, "observatory.slew.prereq_telaz");
   (scheduler_slewConfigC.prereqTelOpticsOpenLoop, "observatory.slew.prereq_telopticsopenloop");
   (scheduler_slewConfigC.prereqTelOpticsClosedLoop,
    "observatory.slew.prereq_telopticsclosedloop");
   (scheduler_slewConfigC.prereqTelRot, "observatory.slew.prereq_telrot");
   (scheduler_slewConfigC.prereqFilter, "observatory.slew.prereq_filter");
   (scheduler_slewConfigC.prereqAdc, "observatory.slew.prereq_adc");
   (scheduler_slewConfigC.prereqInsOptics, "observatory.slew.prereq_ins_optics");
   (scheduler_slewConfigC.prereqGuiderPos, "observatory.slew.prereq_guider_pos");
   (scheduler_slewConfigC.prereqGuiderAdq, "observatory.slew.prereq_guider_adq");
   (scheduler_slewConfigC.prereqTelSettle, "observatory.slew.prereq_telsettle");
   (scheduler_slewConfigC.prereqDomazSettle, "observatory.slew.prereq_domazsettle");
   (scheduler_slewConfigC.prereqExposures, "observatory.slew.prereq_exposures");
   (scheduler_slewConfigC.prereqReadout, "observatory.slew.prereq_readout")].

(** The filter lists of the camera topic and the configuration entry each
    is decoded into. *)
Definition camera_fields : list ((scheduler_cameraConfigC.t -> string) * string) :=
  [(scheduler_cameraConfigC.filterMounted, "observatory.camera.filter_mounted");
   (scheduler_cameraConfigC.filterRemovable, "observatory.camera.filter_removable");
   (scheduler_cameraConfigC.filterUnmounted, "observatory.camera.filter_unmounted")].

(** ** Vocabulary for the scalar attributes of the encoders *)

(** A mapping field that is unset or empty. *)
Definition unset {K V : Type} (d : option (dict K V)) : Prop := d = None \/ d = Some [].

(** The number of entries of a mapping field, 0 when it is unset. *)
Definition count {K V : Type} (d : option (dict K V)) : Z :=
  match d with Some d => Z.of_nat (length d) | None => 0 end.

(** The scalar attributes [General.set_topic] assigns, each with the value
    the proposal gives it. *)
Definition general_scalars (self : General.t) : list (string * value) :=
  let sch := General.scheduling self in
  [("name", VStr (match General.name self with Some n => n | None => "None" end));
   ("twilightBoundary",
    VFloat (SkyNightlyBounds.twilight_boundary (General.sky_nightly_bounds self)));
   ("deltaLst", VFloat (SkyNightlyBounds.delta_lst (General.sky_nightly_bounds self)));
   ("decWindow", VFloat (SkyExclusion.dec_window (General.sky_exclusion self)));
   ("maxAirmass", VFloat (SkyConstraints.max_airmass (General.sky_constraints self)));
   ("maxCloud", VFloat (SkyConstraints.max_cloud (General.sky_constraints self)));
   ("minDistanceMoon",
    VFloat (SkyConstraints.min_distance_moon (General.sky_constraints self)));
   ("excludePlanets", VBool (SkyConstraints.exclude_planets (General.sky_constraints self)));
   ("numRegionSelections", VInt (count (SkyRegion.selections (General.sky_region self))));
   ("regionCombiners", VStr (join "," (SkyRegion.combiners (General.sky_region self))));
   ("numTimeRanges", VInt (count (SkyRegion.time_ranges (General.sky_region self))));
   ("numExclusionSelections",
    VInt (count (SkyExclusion.selections (General.sky_exclusion self))));
   ("numFilters", VInt (count (General.filters self)));
   ("maxNumTargets", VInt (GeneralScheduling.max_num_targets sch));
   ("acceptSerendipity", VBool (GeneralScheduling.accept_serendipity sch));
   ("acceptConsecutiveVisits", VBool (GeneralScheduling.accept_consecutive_visits sch));
   ("airmassBonus", VFloat (GeneralScheduling.airmass_bonus sch));
   ("hourAngleBonus", VFloat (GeneralScheduling.hour_angle_bonus sch));
   ("hourAngleMax", VFloat (GeneralScheduling.hour_angle_max sch));
   ("restrictGroupedVisits", VBool (GeneralScheduling.restrict_grouped_visits sch));
   ("timeInterval", VFloat (GeneralScheduling.time_interval sch));
   ("timeWindowStart", VFloat (GeneralScheduling.time_window_start sch));
   ("timeWindowMax", VFloat (GeneralScheduling.time_window_max sch));
   ("timeWindowEnd", VFloat (GeneralScheduling.time_window_end sch));
   ("timeWeight", VFloat (GeneralScheduling.time_weight sch));
   ("fieldRevisitLimit", VInt (GeneralScheduling.field_revisit_limit sch))].

(** The strings and arrays each block of [General.set_topic] writes only
    when its mapping has entries. *)
Definition region_arrays : list string :=
  ["regionTypes"; "regionMinimums"; "regionMaximums"; "regionBounds"].
Definition time_range_arrays : list string := ["timeRangeStarts"; "timeRangeEnds"].
Definition exclusion_arrays : list string :=
  ["exclusionTypes"; "exclusionMinimums"; "exclusionMaximums"; "exclusionBounds"].
Definition general_filter_written : list string :=
  ["filterNames"; "numVisits"; "numGroupedVisits"; "maxGroupedVisits"; "brightLimit";
   "darkLimit"; "maxSeeing"; "numFilterExposures"; "exposures"].

(** ** More sample inputs *)

Module Survey.

(** A general proposal over [Sample.time_indexed_region], whose selections
    are stored under the keys 0, 1 and 2, with two exclusions stored under
    the keys 4 and 7 and the filters u and g; it has no name. *)
Definition general : General.t :=
  {| General.name := None;
     General.sky_region := Sample.time_indexed_region;
     General.sky_exclusion :=
       {| SkyExclusion.dec_window := 90%Q;
          SkyExclusion.selections :=
            Some [(4, Sample.cut "GP" 0%Q 10%Q); (7, Sample.cut "Dec" (-90)%Q (-70)%Q)] |};
     General.sky_nightly_bounds := General.sky_nightly_bounds (Sample.general []);
     General.sky_constraints := General.sky_constraints (Sample.general []);
     General.filters := Some [("u", Sample.filter_u); ("g", Sample.filter_g)];
     General.scheduling := General.scheduling (Sample.general []) |}.

(** A general proposal with nothing configured but the scalars. *)
Definition bare : General.t :=
  {| General.name := Some "Bare";
     General.sky_region :=
       {| SkyRegion.selections := None;
          SkyRegion.combiners := [];
          SkyRegion.time_ranges := None;
          SkyRegion.selection_mapping := None |};
     General.sky_exclusion :=
       {| SkyExclusion.dec_window := 90%Q; SkyExclusion.selections := Some [] |};
     General.sky_nightly_bounds := General.sky_nightly_bounds (Sample.general []);
     General.sky_constraints := General.sky_constraints (Sample.general []);
     General.filters := None;
     General.scheduling := General.scheduling (Sample.general []) |}.

(** A general proposal whose only mapping lists the index 5, which is no
    key of its selections. *)
Definition dangling : General.t :=
  {| General.name := Some "Dangling";
     General.sky_region :=
       {| SkyRegion.selections := Some [(0, Sample.cut "RA" 0%Q 10%Q)];
          SkyRegion.combiners := [];
          SkyRegion.time_ranges := None;
          SkyRegion.selection_mapping := Some [(0, {| SelectionList.indexes := [5] |})] |};
     General.sky_exclusion := General.sky_exclusion (Sample.general []);
     General.sky_nightly_bounds := General.sky_nightly_bounds (Sample.general []);
     General.sky_constraints := General.sky_constraints (Sample.general []);
     General.filters := None;
     General.scheduling := General.scheduling (Sample.general []) |}.

(** A sequence proposal whose sub-sequences are stored under the keys 2
    and 0, in that order, and whose master sub-sequence is stored under
    the key 1. *)
Definition sequence : Sequence.t :=
  Sample.sequence (Some [(2, Sample.two_filters); (0, Sample.three_filters)])
                  (Some [(1, Sample.master)]).

(** A sequence proposal in which nothing but the scalars is set: the
    mappings and the filters are unset. *)
Definition fresh : Sequence.t :=
  {| Sequence.name := None;
     Sequence.sky_user_regions := [];
     Sequence.sky_exclusion := Sequence.sky_exclusion (Sample.sequence None None);
     Sequence.sky_nightly_bounds := Sequence.sky_nightly_bounds (Sample.sequence None None);
     Sequence.sky_constraints := Sequence.sky_constraints (Sample.sequence None None);
     Sequence.sub_sequences := None;
     Sequence.master_sub_sequences := None;
     Sequence.filters := None;
     Sequence.scheduling := Sequence.scheduling (Sample.sequence None None) |}.

End Survey.

(** ** Vocabulary for the sequence encoder *)

(** The slot of each sub-sequence array that belongs to the sub-sequence
    [ss]. *)
Definition sub_sequence_row (ss : SubSequence.t) : list (string * value) :=
  [("numSubSequenceFilters", VInt (Z.of_nat (length (SubSequence.filters ss))));
   ("numSubSequenceEvents", VInt (SubSequence.num_events ss));
   ("numSubSequenceMaxMissed", VInt (SubSequence.num_max_missed ss));
   ("subSequenceTimeIntervals", VFloat (SubSequence.time_interval ss));
   ("subSequenceTimeWindowStarts", VFloat (SubSequence.time_window_start ss));
   ("subSequenceTimeWindowMaximums", VFloat (SubSequence.time_window_max ss));
   ("subSequenceTimeWindowEnds", VFloat (SubSequence.time_window_end ss));
   ("subSequenceTimeWeights", VFloat (SubSequence.time_weight ss))].

(** The slot of each nested sub-sequence array that belongs to the nested
    sub-sequence [ss]. *)
Definition nested_row (ss : SubSequence.t) : list (string * value) :=
  [("numNestedSubSequenceFilters", VInt (Z.of_nat (length (SubSequence.filters ss))));
   ("numNestedSubSequenceEvents", VInt (SubSequence.num_events ss));
   ("numNestedSubSequenceMaxMissed", VInt (SubSequence.num_max_missed ss));
   ("nestedSubSequenceTimeIntervals", VFloat (SubSequence.time_interval ss));
   ("nestedSubSequenceTimeWindowStarts", VFloat (SubSequence.time_window_start ss));
   ("nestedSubSequenceTimeWindowMaximums", VFloat (SubSequence.time_window_max ss));
   ("nestedSubSequenceTimeWindowEnds", VFloat (SubSequence.time_window_end ss));
   ("nestedSubSequenceTimeWeights", VFloat (SubSequence.time_weight ss))].

(** The slot of each master sub-sequence array that belongs to the master
    sub-sequence [m]. *)
Definition master_row (m : MasterSubSequence.t) : list (string * value) :=
  [("numNestedSubSequences",
    VInt (Z.of_nat (length (MasterSubSequence.sub_sequences m))));
   ("numMasterSubSequenceEvents", VInt (MasterSubSequence.num_events m));
   ("numMasterSubSequenceMaxMissed", VInt (MasterSubSequence.num_max_missed m));
   ("masterSubSequenceTimeIntervals", VFloat (MasterSubSequence.time_interval m));
   ("masterSubSequenceTimeWindowStarts", VFloat (MasterSubSequence.time_window_start m));
   ("masterSubSequenceTimeWindowMaximums", VFloat (MasterSubSequence.time_window_max m));
   ("masterSubSequenceTimeWindowEnds", VFloat (MasterSubSequence.time_window_end m));
   ("masterSubSequenceTimeWeights", VFloat (MasterSubSequence.time_weight m))].

(** The slot of each filter array that belongs to the filter [v] of a
    sequence proposal. *)
Definition sequence_filter_row (v : BandFilter.t) : list (string * value) :=
  [("brightLimit", VFloat (BandFilter.bright_limit v));
   ("darkLimit", VFloat (BandFilter.dark_limit v));
   ("maxSeeing", VFloat (BandFilter.max_seeing v));
   ("numFilterExposures", VInt (Z.of_nat (length (BandFilter.exposures v))))].

(** The nested sub-sequences of all the master sub-sequences, in the order
    the master loop meets them. *)
Definition nested_of (d : dict Z MasterSubSequence.t) : list SubSequence.t :=
  flat_map (fun m => values (MasterSubSequence.sub_sequences m)) (values d).

(** The scalar attributes [Sequence.set_topic] assigns, each with the
    value the proposal gives it. *)
Definition sequence_scalars (self : Sequence.t) : list (string * value) :=
  let sch := Sequence.scheduling self in
  [("name", VStr (match Sequence.name self with Some n => n | None => "None" end));
   ("twilightBoundary",
    VFloat (SkyNightlyBounds.twilight_boundary (Sequence.sky_nightly_bounds self)));
   ("deltaLst", VFloat (SkyNightlyBounds.delta_lst (Sequence.sky_nightly_bounds self)));
   ("decWindow", VFloat (SkyExclusion.dec_window (Sequence.sky_exclusion self)));
   ("maxAirmass", VFloat (SkyConstraints.max_airmass (Sequence.sky_constraints self)));
   ("maxCloud", VFloat (SkyConstraints.max_cloud (Sequence.sky_constraints self)));
   ("minDistanceMoon",
    VFloat (SkyConstraints.min_distance_moon (Sequence.sky_constraints self)));
   ("excludePlanets", VBool (SkyConstraints.exclude_planets (Sequence.sky_constraints self)));
   ("numUserRegions", VInt (Z.of_nat (length (Sequence.sky_user_regions self))));
   ("numSubSequences", VInt (count (Sequence.sub_sequences self)));
   ("numMasterSubSequences", VInt (count (Sequence.master_sub_sequences self)));
   ("numFilters", VInt (count (Sequence.filters self)));
   ("maxNumTargets", VInt (SequenceScheduling.max_num_targets sch));
   ("acceptSerendipity", VBool (SequenceScheduling.accept_serendipity sch));
   ("acceptConsecutiveVisits", VBool (SequenceScheduling.accept_consecutive_visits sch));
   ("airmassBonus", VFloat (SequenceScheduling.airmass_bonus sch));
   ("hourAngleBonus", VFloat (SequenceScheduling.hour_angle_bonus sch));
   ("hourAngleMax", VFloat (SequenceScheduling.hour_angle_max sch));
   ("restartLostSequences", VBool (SequenceScheduling.restart_lost_sequences sch));
   ("restartCompleteSequences", VBool (SequenceScheduling.restart_complete_sequences sch));
   ("maxVisitsGoal", VInt (SequenceScheduling.max_visits_goal sch))].

(** [Sequence.setDefaults]: the user regions and the two sub-sequence
    mappings start empty (sequence.py, lines 23-28). *)
Definition Sequence_setDefaults (self : Sequence.t) : Sequence.t :=
  {| Sequence.name := Sequence.name self;
     Sequence.sky_user_regions := [];
     Sequence.sky_exclusion := Sequence.sky_exclusion self;
     Sequence.sky_nightly_bounds := Sequence.sky_nightly_bounds self;
     Sequence.sky_constraints := Sequence.sky_constraints self;
     Sequence.sub_sequences := Some [];
     Sequence.master_sub_sequences := Some [];
     Sequence.filters := Sequence.filters self;
     Sequence.scheduling := Sequence.scheduling self |}.

(** The arrays the master loop writes at the key of a master
    sub-sequence, and those it writes at the running index of the nested
    sub-sequences. *)
Definition master_arrays : list string :=
  ["numNestedSubSequences"; "numMasterSubSequenceEvents"; "numMasterSubSequenceMaxMissed";
   "masterSubSequenceTimeIntervals"; "masterSubSequenceTimeWindowStarts";
   "masterSubSequenceTimeWindowMaximums"; "masterSubSequenceTimeWindowEnds";
   "masterSubSequenceTimeWeights"].

Definition nested_arrays : list string :=
  ["numNestedSubSequenceFilters"; "num_nested_sub_sequence_filter_visits";
   "numNestedSubSequenceEvents"; "numNestedSubSequenceMaxMissed";
   "nestedSubSequenceTimeIntervals"; "nestedSubSequenceTimeWindowStarts";
   "nestedSubSequenceTimeWindowMaximums"; "nestedSubSequenceTimeWindowEnds";
   "nestedSubSequenceTimeWeights"].

(** The arrays the sub-sequence loop writes. *)
Definition sub_sequence_arrays : list string :=
  ["numSubSequenceFilters"; "numSubSequenceFilterVisits"; "numSubSequenceEvents";
   "numSubSequenceMaxMissed"; "subSequenceTimeIntervals"; "subSequenceTimeWindowStarts";
   "subSequenceTimeWindowMaximums"; "subSequenceTimeWindowEnds"; "subSequenceTimeWeights"].

(** ** Vocabulary for the capacity of the arrays *)

(** The number of slots of [o.a], when [o.a] is a sequence. *)
Definition capacity (a : string) (o : obj) : option nat :=
  match o !! a with
  | Some (VList l) => Some (length l)
  | _ => None
  end.

(** The strings [General.set_topic] (respectively [Sequence.set_topic])
    assigns besides the scalars. *)
Definition general_strings : list string := ["regionTypes"; "exclusionTypes"; "filterNames"].

Definition sequence_strings : list string :=
  ["subSequenceNames"; "subSequenceFilters"; "masterSubSequenceNames";
   "nestedSubSequenceNames"; "nestedSubSequenceFilters"; "filterNames"].

(** The array [fst an] is not written, or it has the slots needed. *)
Definition fits (o : obj) (an : string * nat) : Prop := snd an = 0%nat \/ has_slots o an.

(** The arrays the sub-sequence loop writes at the key of a
    sub-sequence. *)
Definition sub_sequence_key_arrays : list string :=
  ["numSubSequenceFilters"; "numSubSequenceEvents"; "numSubSequenceMaxMissed";
   "subSequenceTimeIntervals"; "subSequenceTimeWindowStarts";
   "subSequenceTimeWindowMaximums"; "subSequenceTimeWindowEnds"; "subSequenceTimeWeights"].

(** The Python integer [k] is an index of the array [o.a]: the array has
    [n] slots and [-n <= k < n]. *)
Definition valid_index (a : string) (k : Z) (o : obj) : Prop :=
  exists n, capacity a o = Some n /\ - Z.of_nat n <= k < Z.of_nat n.

(** * Properties *)

(** ** The embedding on small inputs *)

Example split_empty : split "," "" = [""].
Proof. reflexivity. Qed.

Example split_three : split "," "g,r,i" = ["g"; "r"; "i"].
Proof. reflexivity. Qed.

Example split_trailing : split "," "g,,i," = ["g"; ""; "i"; ""].
Proof. reflexivity. Qed.

Example join_two : join "," ["u"; "g"] = "u,g".
Proof. reflexivity. Qed.

Example join_none : join "," [] = "".
Proof. reflexivity. Qed.

Example getitem_last : getitem ["and"; "or"] (-1) = Ok "or".
Proof. reflexivity. Qed.

Example getitem_out_of_range : getitem ["and"; "or"] 2 = Raise IndexError.
Proof. reflexivity. Qed.

Example sorted_keeps_duplicates : sorted [290; 744; 290] = [290; 290; 744].
Proof. reflexivity. Qed.

Example sequence_proposal_fields :
  Sequence.proposal_fields (Sample.sequence None None) = [290; 290; 744].
Proof. reflexivity. Qed.

Example general_proposal_fields :
  General.proposal_fields Sample.fd Sample.fs (Sample.general []) = Ok [3; 7; 12].
Proof. vm_compute. reflexivity. Qed.

(** With a Galactic-plane exclusion, field 3 is subtracted. *)
Example general_proposal_fields_GP :
  General.proposal_fields Sample.fd Sample.fs
    (with_exclusions (Sample.general []) [(0, Sample.cut "GP" 0%Q 10%Q)]) = Ok [7; 12].
Proof. vm_compute. reflexivity. Qed.

(** With two Galactic-plane exclusions, only the query of the last one is
    run. *)
Example exclusion_selection_two_GP :
  General.exclusion_selection
    {| select_region := fun limit_type _ _ => Ok limit_type;
       galactic_region := fun hi _ _ => Ok (if Qeq_bool hi 10%Q then "GP10" else "GP20");
       combine_queries := fun queries combiners => Ok (join " " (queries ++ combiners)) |}
    {| SkyExclusion.dec_window := 90%Q;
       SkyExclusion.selections :=
         Some [(0, Sample.cut "GP" 0%Q 10%Q); (1, Sample.cut "GP" 0%Q 20%Q)] |}
  = Ok (Some "GP20").
Proof. reflexivity. Qed.

(** A mapped index that is no key of the selections raises [KeyError]. *)
Example region_selection_missing_key :
  General.region_selection
    {| SkyRegion.selections := Some [(0, Sample.cut "RA" 0%Q 10%Q)];
       SkyRegion.combiners := [];
       SkyRegion.time_ranges := None;
       SkyRegion.selection_mapping := Some [(0, {| SelectionList.indexes := [5] |})] |}
  = Raise KeyError.
Proof. reflexivity. Qed.

(** A topic whose arrays are too short for the filters raises
    [IndexError]. *)
Example general_set_topic_no_room :
  General.set_topic (Sample.general [("u", Sample.filter_u)])
                    (<["numVisits" := VList []]> Sample.generalPropConfig)
  = Raise IndexError.
Proof. vm_compute. reflexivity. Qed.

Lemma outcome_eq (o : ConfigurationCommunicator.outcome) (r : option exn) :
  raised o = Some r -> o = Some (final_state o, r).
Proof. destruct o as [[st r']|]; cbn; [intros [= ->]; reflexivity|discriminate]. Qed.

(** ** Sequence.proposal_fields *)

(** C10: [Sequence.proposal_fields] returns [sky_user_regions] in
    ascending order and keeps duplicates: the result is a permutation of
    the input, so a field Id occurring k times in [sky_user_regions]
    occurs k times in the result. *)
Theorem Sequence_proposal_fields_sorted_keeps_duplicates (self : Sequence.t) :
  Sorted Z.le (Sequence.proposal_fields self)
  /\ Sequence.proposal_fields self ≡ₚ Sequence.sky_user_regions self
  /\ forall x : Z,
       count_occ Z.eq_dec (Sequence.proposal_fields self) x
       = count_occ Z.eq_dec (Sequence.sky_user_regions self) x.
Proof.
  unfold Sequence.proposal_fields, sorted.
  split; [apply Sorted_merge_sort; apply _|].
  split; [apply merge_sort_Permutation|].
  intro x. apply Permutation_count_occ, merge_sort_Permutation.
Qed.

(** ** General.proposal_fields *)

Lemma sorted_nodup_strict (l : list Z) :
  Sorted Z.le l -> NoDup l -> StronglySorted Z.lt l.
Proof.
  intros Hs Hn. apply Sorted_StronglySorted in Hs; [|apply _].
  induction Hs as [|x l Hl IH Hx]; [constructor|].
  apply NoDup_cons in Hn as [Hnotin Hn].
  constructor; [auto|].
  rewrite Forall_forall in Hx |- *. intros y Hy.
  assert (x <= y) by (apply Hx; exact Hy).
  assert (x <> y) by (intros ->; apply Hnotin; exact Hy).
  lia.
Qed.

Lemma sorted_elements_spec (s : gset Z) :
  StronglySorted Z.lt (sorted (elements s))
  /\ forall x, x ∈ sorted (elements s) <-> x ∈ s.
Proof.
  unfold sorted. split.
  - apply sorted_nodup_strict; [apply Sorted_merge_sort; apply _|].
    rewrite merge_sort_Permutation. apply NoDup_elements.
  - intro x. rewrite merge_sort_Permutation. apply elem_of_elements.
Qed.

Section FieldProperties.
Context {Query : Type}.
Variable fd : FieldsDatabase Query.
Variable fs : FieldSelection Query.

Lemma exclusion_loop_filter (l : list Selection.t) (acc : option Query) :
  for_each (General.exclusion_body fs) l acc
  = for_each (General.exclusion_body fs)
             (filter (fun cut => Selection.limit_type cut = "GP") l) acc.
Proof.
  revert acc. induction l as [|cut l IH]; intro acc; [reflexivity|].
  rewrite filter_cons. destruct (decide (Selection.limit_type cut = "GP")) as [Hgp|Hgp].
  - simpl. destruct (General.exclusion_body fs cut acc); [apply IH|reflexivity].
  - simpl. unfold General.exclusion_body at 1.
    destruct (decide (Selection.limit_type cut = "GP")); [contradiction|]. apply IH.
Qed.

Lemma values_only_GP (d : dict Z Selection.t) :
  values (only_GP d) = filter (fun cut => Selection.limit_type cut = "GP") (values d).
Proof.
  unfold values, only_GP. induction d as [|[k v] d IH]; [reflexivity|].
  rewrite filter_cons. cbn [map snd]. rewrite filter_cons.
  destruct (decide (Selection.limit_type v = "GP")) as [H|H]; cbn; [f_equal|]; apply IH.
Qed.

Lemma proposal_fields_ext (self self' : General.t) :
  General.sky_region self = General.sky_region self' ->
  General.exclusion_selection fs (General.sky_exclusion self)
  = General.exclusion_selection fs (General.sky_exclusion self') ->
  General.proposal_fields fd fs self = General.proposal_fields fd fs self'.
Proof. unfold General.proposal_fields. intros -> ->. reflexivity. Qed.

Lemma proposal_fields_only_GP (self : General.t) (d : dict Z Selection.t) :
  SkyExclusion.selections (General.sky_exclusion self) = Some d ->
  General.proposal_fields fd fs self
  = General.proposal_fields fd fs (with_exclusions self (only_GP d)).
Proof.
  intro Hd. apply proposal_fields_ext; [reflexivity|].
  unfold General.exclusion_selection. rewrite Hd. simpl.
  rewrite values_only_GP. apply exclusion_loop_filter.
Qed.

Lemma only_GP_none (d : dict Z Selection.t) :
  Forall (fun cut => Selection.limit_type cut <> "GP") (values d) ->
  only_GP d = [].
Proof.
  unfold values, only_GP. induction d as [|[k v] d IH]; [reflexivity|].
  cbn [map snd]. intro H. apply Forall_cons in H as [Hv Hd].
  rewrite filter_cons. cbn [snd].
  destruct (decide (Selection.limit_type v = "GP")); [contradiction|auto].
Qed.

(** The exclusion query is the one of the last cut of type "GP". *)
Lemma exclusion_loop_last_GP (l1 l2 : list Selection.t) (cut : Selection.t) (q : Query)
    (acc : option Query) :
  Selection.limit_type cut = "GP" ->
  galactic_region fs (Selection.maximum_limit cut) (Selection.minimum_limit cut)
                  (Selection.bounds_limit cut) = Ok q ->
  Forall (fun c => Selection.limit_type c <> "GP") l2 ->
  Forall (fun c => exists acc', forall acc0, General.exclusion_body fs c acc0 = Ok (acc' acc0)) l1 ->
  for_each (General.exclusion_body fs) (l1 ++ cut :: l2) acc = Ok (Some q).
Proof.
  intros Hgp Hq Hl2 Hl1. revert acc.
  induction Hl1 as [|c l1 (acc' & Hc) _ IH]; intro acc; cbn [app for_each].
  - unfold General.exclusion_body at 1.
    destruct (decide (Selection.limit_type cut = "GP")); [|contradiction].
    rewrite Hq. cbn [Py.bind].
    rewrite exclusion_loop_filter.
    replace (filter (fun c => Selection.limit_type c = "GP") l2) with (@nil Selection.t);
      [reflexivity|].
    symmetry. induction Hl2 as [|c l2 Hc _ IH]; [reflexivity|].
    rewrite filter_cons. destruct (decide (Selection.limit_type c = "GP")); [contradiction|].
    exact IH.
  - rewrite Hc. apply IH.
Qed.

End FieldProperties.

(** C6: in [General.proposal_fields] only the exclusion selections of
    type "GP" contribute: the result is the one obtained with the GP
    exclusions alone, and when no exclusion selection has type "GP" it is
    the result obtained with no exclusion selection at all. *)
Theorem General_proposal_fields_only_GP_exclusions
    {Query : Type} (fd : FieldsDatabase Query) (fs : FieldSelection Query)
    (self : General.t) (d : dict Z Selection.t) :
  SkyExclusion.selections (General.sky_exclusion self) = Some d ->
  General.proposal_fields fd fs self
  = General.proposal_fields fd fs (with_exclusions self (only_GP d))
  /\ (Forall (fun cut => Selection.limit_type cut <> "GP") (values d) ->
      General.proposal_fields fd fs self
      = General.proposal_fields fd fs (with_exclusions self [])).
Proof.
  intro Hd. split.
  - apply proposal_fields_only_GP. exact Hd.
  - intro Hno. rewrite <- (only_GP_none d Hno).
    apply proposal_fields_only_GP. exact Hd.
Qed.

Section FieldSetProperties.
Context {Query : Type}.
Variable fd : FieldsDatabase Query.
Variable fs : FieldSelection Query.

Lemma region_query_selection_query (cut : Selection.t) :
  General.region_query fs cut = selection_query fs cut.
Proof.
  unfold General.region_query, selection_query.
  destruct (String.eqb_spec (Selection.limit_type cut) "GP") as [H|H];
    destruct (decide (Selection.limit_type cut <> "GP")) as [H'|H'];
    try reflexivity; [contradiction|].
  exfalso. apply H'. exact H.
Qed.

(** The loop that appends one query per cut builds the queries of the
    cuts, in order. *)
Lemma region_queries_from (cuts : list Selection.t) (acc : list Query) :
  for_each (fun cut query_list => do q <- General.region_query fs cut; Ok (query_list ++ [q]))
           cuts acc
  = do qs <- selection_queries fs cuts; Ok (acc ++ qs).
Proof.
  revert acc. induction cuts as [|cut cuts IH]; intro acc; cbn [for_each selection_queries].
  - cbn. rewrite app_nil_r. reflexivity.
  - rewrite region_query_selection_query.
    destruct (selection_query fs cut) as [q|e]; cbn [Py.bind]; [|reflexivity].
    rewrite IH. destruct (selection_queries fs cuts) as [qs|e]; cbn [Py.bind]; [|reflexivity].
    rewrite <- app_assoc. reflexivity.
Qed.

Lemma region_queries_selection_queries (cuts : list Selection.t) :
  General.region_queries fs cuts = selection_queries fs cuts.
Proof.
  unfold General.region_queries. rewrite region_queries_from.
  destruct (selection_queries fs cuts); reflexivity.
Qed.

(** The exclusion query the loop leaves is the galactic query of the last
    cut of the Galactic-plane kind, and the one it started with when
    there is no such cut. *)
Lemma exclusion_loop_result (l : list Selection.t) (acc eq : option Query) :
  for_each (General.exclusion_body fs) l acc = Ok eq ->
  match last (filter (fun cut => Selection.limit_type cut = "GP") l) with
  | Some cut =>
      exists q, galactic_region fs (Selection.maximum_limit cut) (Selection.minimum_limit cut)
                  (Selection.bounds_limit cut) = Ok q
                /\ eq = Some q
  | None => eq = acc
  end.
Proof.
  revert acc. induction l as [|c l IH]; intros acc H; cbn [for_each] in H.
  - injection H as <-. reflexivity.
  - rewrite filter_cons. unfold General.exclusion_body at 1 in H.
    destruct (decide (Selection.limit_type c = "GP")) as [Hgp|Hgp].
    + destruct (galactic_region fs (Selection.maximum_limit c) (Selection.minimum_limit c)
                  (Selection.bounds_limit c)) as [q0|e] eqn:Hq; [|discriminate].
      cbn [Py.bind] in H. specialize (IH _ H). rewrite last_cons.
      destruct (last (filter (fun cut => Selection.limit_type cut = "GP") l)) as [cut|].
      * exact IH.
      * exists q0. split; [exact Hq|exact IH].
    + apply (IH _ H).
Qed.

(** The loop returns when the galactic query of every cut of the
    Galactic-plane kind can be built. *)
Lemma exclusion_loop_returns (l : list Selection.t) (acc : option Query) :
  Forall (fun cut => is_ok (galactic_region fs (Selection.maximum_limit cut)
                              (Selection.minimum_limit cut) (Selection.bounds_limit cut)) = true)
         (filter (fun cut => Selection.limit_type cut = "GP") l) ->
  exists eq, for_each (General.exclusion_body fs) l acc = Ok eq.
Proof.
  revert acc. induction l as [|c l IH]; intros acc H; cbn [for_each].
  - eauto.
  - rewrite filter_cons in H. unfold General.exclusion_body at 1.
    destruct (decide (Selection.limit_type c = "GP")) as [Hgp|Hgp].
    + apply Forall_cons in H as [Hc H].
      destruct (galactic_region fs (Selection.maximum_limit c) (Selection.minimum_limit c)
                  (Selection.bounds_limit c)) as [q0|e]; [|discriminate].
      cbn [Py.bind]. apply IH. exact H.
    + apply IH. exact H.
Qed.

Lemma ids_of_spec (query : Query) (rows : list (Z * list float)) :
  get_field_set fd query = Ok rows -> ids_of fd query = Ok (General.id_set rows).
Proof. intro H. unfold ids_of. rewrite H. reflexivity. Qed.

End FieldSetProperties.

Lemma id_set_spec (fields : list (Z * list float)) (x : Z) :
  x ∈ General.id_set fields <-> x ∈ map fst fields.
Proof. unfold General.id_set. apply elem_of_list_to_set. Qed.

(** C5 (as the code has it): when [General.proposal_fields] returns, the
    exclusion mapping is set and the result is the strictly ascending
    list (ascending, no duplicates) of the candidate Ids that the
    Galactic-plane exclusion coming last in iteration order does not
    select; nothing is subtracted when no exclusion is of that kind.  It
    returns whenever the candidate query and that exclusion query can be
    built and executed and the galactic queries of the earlier exclusions
    can be built.  With at most one Galactic-plane exclusion the set
    subtracted is the set of all of them.  For a flat region with the
    single selection (RA, 0, 10), no combiners and an empty exclusion
    mapping, the result is the strictly ascending list of the Ids of the
    rows the database returns for the combined range query of
    ("RA", 0, 10); with the exclusion mapping unset the call raises
    [AttributeError]. *)
Theorem General_proposal_fields_sorted_difference
    {Query : Type} (fd : FieldsDatabase Query) (fs : FieldSelection Query)
    (self : General.t) :
  (forall r, General.proposal_fields fd fs self = Ok r ->
     exists d cand excl,
       SkyExclusion.selections (General.sky_exclusion self) = Some d
       /\ candidate_set fd fs self = Ok cand
       /\ excluded_by_last fd fs (GP_exclusions self) = Ok excl
       /\ StronglySorted Z.lt r
       /\ forall x, x ∈ r <-> x ∈ cand /\ x ∉ excl)
  /\ (forall d cand excl,
        SkyExclusion.selections (General.sky_exclusion self) = Some d ->
        candidate_set fd fs self = Ok cand ->
        excluded_by_last fd fs (GP_exclusions self) = Ok excl ->
        Forall (fun cut => is_ok (galactic_region fs (Selection.maximum_limit cut)
                                    (Selection.minimum_limit cut)
                                    (Selection.bounds_limit cut)) = true)
               (GP_exclusions self) ->
        exists r, General.proposal_fields fd fs self = Ok r)
  /\ ((length (GP_exclusions self) <= 1)%nat ->
      excluded_by_any fd fs (GP_exclusions self)
      = excluded_by_last fd fs (GP_exclusions self))
  /\ (forall key bounds frag query rows,
        General.sky_region self
        = {| SkyRegion.selections :=
               Some [(key, {| Selection.limit_type := "RA";
                              Selection.minimum_limit := 0%Q;
                              Selection.maximum_limit := 10%Q;
                              Selection.bounds_limit := bounds |})];
             SkyRegion.combiners := [];
             SkyRegion.time_ranges := None;
             SkyRegion.selection_mapping := None |} ->
        select_region fs "RA" 0%Q 10%Q = Ok frag ->
        combine_queries fs [frag] [] = Ok query ->
        get_field_set fd query = Ok rows ->
        (SkyExclusion.selections (General.sky_exclusion self) = Some [] ->
         exists r,
           General.proposal_fields fd fs self = Ok r
           /\ StronglySorted Z.lt r
           /\ forall x, x ∈ r <-> x ∈ map fst rows)
        /\ (SkyExclusion.selections (General.sky_exclusion self) = None ->
            General.proposal_fields fd fs self = Raise AttributeError)).
Proof.
  split; [|split; [|split]].
  - intros r Hr. unfold General.proposal_fields in Hr.
    unfold candidate_set.
    destruct (General.region_selection (General.sky_region self)) as [[cuts combs]|];
      [|discriminate].
    cbn [Py.bind fst snd] in Hr |- *.
    rewrite region_queries_selection_queries in Hr.
    destruct (selection_queries fs cuts) as [ql|]; [|discriminate].
    cbn [Py.bind] in Hr |- *.
    unfold General.exclusion_selection in Hr. unfold GP_exclusions.
    destruct (SkyExclusion.selections (General.sky_exclusion self)) as [d|]; [|discriminate].
    destruct (for_each (General.exclusion_body fs) (values d) None) as [eq|] eqn:Hloop;
      [|discriminate].
    cbn [Py.bind] in Hr. apply exclusion_loop_result in Hloop.
    destruct (combine_queries fs ql combs) as [q|]; [|discriminate]. cbn [Py.bind] in Hr |- *.
    destruct (get_field_set fd q) as [fields|] eqn:Hfields; [|discriminate].
    cbn [Py.bind] in Hr. rewrite (ids_of_spec fd q fields Hfields).
    unfold excluded_by_last.
    destruct (last (filter (fun cut => Selection.limit_type cut = "GP") (values d)))
      as [cut|].
    + destruct Hloop as (q0 & Hq0 & ->). cbn [Py.bind] in Hr.
      destruct (combine_queries fs [q0] []) as [equery|] eqn:Hcomb; [|discriminate].
      cbn [Py.bind] in Hr.
      destruct (get_field_set fd equery) as [efields|] eqn:Hefields; [|discriminate].
      cbn [Py.bind] in Hr. injection Hr as <-.
      exists d, (General.id_set fields), (General.id_set efields).
      split; [reflexivity|]. split; [reflexivity|]. split.
      { unfold galactic_ids. rewrite Hq0. cbn [Py.bind]. rewrite Hcomb. cbn [Py.bind].
        apply ids_of_spec. exact Hefields. }
      destruct (sorted_elements_spec (General.id_set fields ∖ General.id_set efields))
        as [Hs Hm].
      split; [exact Hs|]. intro x. rewrite Hm. apply elem_of_difference.
    + subst eq. cbn [Py.bind] in Hr. injection Hr as <-.
      exists d, (General.id_set fields), ∅.
      split; [reflexivity|]. split; [reflexivity|]. split; [reflexivity|].
      destruct (sorted_elements_spec (General.id_set fields)) as [Hs Hm].
      split; [exact Hs|]. intro x. rewrite Hm.
      split; [intro H; split; [exact H|apply not_elem_of_empty]|intros [H _]; exact H].
  - intros d cand excl Hd Hc He Hgal. unfold General.proposal_fields.
    unfold candidate_set in Hc. unfold GP_exclusions in He, Hgal. rewrite Hd in He, Hgal.
    destruct (General.region_selection (General.sky_region self)) as [[cuts combs]|];
      [|discriminate].
    cbn [Py.bind fst snd] in Hc |- *.
    rewrite region_queries_selection_queries.
    destruct (selection_queries fs cuts) as [ql|]; [|discriminate].
    cbn [Py.bind] in Hc |- *.
    unfold General.exclusion_selection. rewrite Hd.
    destruct (exclusion_loop_returns fs (values d) None Hgal) as (eq & Hloop).
    rewrite Hloop. cbn [Py.bind]. apply exclusion_loop_result in Hloop.
    destruct (combine_queries fs ql combs) as [q|]; [|discriminate]. cbn [Py.bind] in Hc |- *.
    unfold ids_of in Hc.
    destruct (get_field_set fd q) as [fields|]; [|discriminate]. cbn [Py.bind].
    unfold excluded_by_last in He.
    destruct (last (filter (fun cut => Selection.limit_type cut = "GP") (values d)))
      as [cut|].
    + destruct Hloop as (q0 & Hq0 & ->). cbn [Py.bind].
      unfold galactic_ids in He. rewrite Hq0 in He. cbn [Py.bind] in He.
      destruct (combine_queries fs [q0] []) as [equery|]; [|discriminate].
      cbn [Py.bind] in He |- *. unfold ids_of in He.
      destruct (get_field_set fd equery) as [efields|]; [|discriminate].
      cbn [Py.bind]. eexists. reflexivity.
    + subst eq. cbn [Py.bind]. eexists. reflexivity.
  - intro Hlen. destruct (GP_exclusions self) as [|cut [|cut' l]]; [reflexivity| |cbn in Hlen; lia].
    cbn [excluded_by_any]. unfold excluded_by_last. cbn [last].
    destruct (galactic_ids fd fs cut) as [ids|e]; [|reflexivity].
    cbn [Py.bind]. f_equal. apply union_empty_r_L.
  - intros key bounds frag query rows Hsr Hsel Hcomb Hrows. split.
    + intro Hex. unfold General.proposal_fields. rewrite Hsr.
      unfold General.region_selection, General.flat_selection. cbn.
      unfold General.region_query. cbn. rewrite Hsel. cbn.
      unfold General.exclusion_selection. rewrite Hex. cbn.
      destruct (decide ("RA" <> "GP")) as [_|Hne]; [|exfalso; apply Hne; discriminate].
      cbn. rewrite Hcomb. cbn. rewrite Hrows. cbn.
      eexists. split; [reflexivity|].
      destruct (sorted_elements_spec (General.id_set rows)) as [Hs Hm].
      split; [exact Hs|]. intro x. rewrite Hm. apply id_set_spec.
    + intro Hex. unfold General.proposal_fields. rewrite Hsr.
      unfold General.region_selection, General.flat_selection. cbn.
      unfold General.region_query. cbn. rewrite Hsel. cbn.
      unfold General.exclusion_selection. rewrite Hex.
      destruct (decide ("RA" <> "GP")) as [_|Hne]; [|exfalso; apply Hne; discriminate].
      reflexivity.
Qed.

(** C5, counterexample to "minus the GP-exclusion set": [Banded.two_planes]
    has two Galactic-plane exclusions, the first selecting field 7 and
    the second field 3.  Field 7 is in the set the exclusions select and
    it is in the result: only the second exclusion is subtracted from the
    candidates 3, 7 and 12. *)
Lemma General_proposal_fields_keeps_fields_of_earlier_GP_exclusion :
  General.proposal_fields Banded.fd Banded.fs Banded.two_planes = Ok [7; 12]
  /\ exists any,
       excluded_by_any Banded.fd Banded.fs (GP_exclusions Banded.two_planes) = Ok any
       /\ 7 ∈ any.
Proof.
  split; [vm_compute; reflexivity|].
  eexists. split; [reflexivity|]. set_solver.
Qed.

(** ** The time-range-indexed sky region *)

Lemma append_cuts_ok (d : dict Z Selection.t) (sel : Z -> Selection.t)
    (idxs : list Z) (cs : list Selection.t) (cb : list string) :
  (forall index, index ∈ idxs -> lookup_key d index = Ok (sel index)) ->
  General.append_cuts (Some d) idxs (cs, cb) = ((cs ++ map sel idxs, cb), None).
Proof.
  revert cs. induction idxs as [|index idxs IH]; intros cs H; cbn.
  - rewrite app_nil_r. reflexivity.
  - rewrite (H index) by (left). rewrite IH by (intros j Hj; apply H; right; exact Hj).
    rewrite <- app_assoc. reflexivity.
Qed.

Lemma mapping_loop_ok (sr : SkyRegion.t) (d : dict Z Selection.t)
    (sel : Z -> Selection.t) (n : Z) (l : list (Z * SelectionList.t))
    (cs : list Selection.t) (cb : list string) :
  SkyRegion.selections sr = Some d ->
  (forall i g index, (i, g) ∈ l -> index ∈ SelectionList.indexes g ->
                     lookup_key d index = Ok (sel index)) ->
  General.mapping_loop sr n l (cs, cb)
  = ((cs ++ flat_map (fun ig => map sel (SelectionList.indexes (snd ig))) l,
      cb ++ flat_map (fun ig => group_combiners (SkyRegion.combiners sr) n (fst ig)) l),
     None).
Proof.
  intros Hd. revert cs cb. induction l as [|[i g] l IH]; intros cs cb H.
  - cbn. rewrite !app_nil_r. reflexivity.
  - cbn [General.mapping_loop General.mapping_body flat_map fst snd].
    rewrite Hd, (append_cuts_ok d sel) by (intros j Hj; apply (H i g); [left|exact Hj]).
    rewrite IH by (intros i' g' j Hin Hj; apply (H i' g'); [right; exact Hin|exact Hj]).
    rewrite <- !app_assoc. unfold group_combiners, supplied.
    destruct (getitem (SkyRegion.combiners sr) i);
      destruct (decide (i < n - 1)); cbn; rewrite <- ?app_assoc; reflexivity.
Qed.

(** C4 (as the code has it): for a time-range-indexed sky region whose
    mapped indexes are all keys of the selections, the region is
    normalized to the mapped selections in iteration order, and the
    combiner list receives, for each group of key [i] in iteration order,
    the supplied [combiners[i]] when it exists, followed by an "or" whenever
    [i < number of groups - 1]; the "or" does not depend on how many
    selections the group contributes nor on a combiner being supplied. *)
Theorem General_region_selection_time_indexed
    (sr : SkyRegion.t) (m : dict Z SelectionList.t) (d : dict Z Selection.t)
    (sel : Z -> Selection.t) :
  SkyRegion.selection_mapping sr = Some m ->
  SkyRegion.selections sr = Some d ->
  (forall i g index, (i, g) ∈ m -> index ∈ SelectionList.indexes g ->
                     lookup_key d index = Ok (sel index)) ->
  General.region_selection sr
  = Ok (flat_map (fun ig => map sel (SelectionList.indexes (snd ig))) m,
        flat_map (fun ig => group_combiners (SkyRegion.combiners sr)
                                            (Z.of_nat (length m)) (fst ig)) m).
Proof.
  intros Hm Hd H. unfold General.region_selection. rewrite Hm. unfold items.
  rewrite (mapping_loop_ok sr d sel) by assumption. reflexivity.
Qed.

(** C4, counterexample to the wording "unless the source already supplies
    explicit combiners for that group": the first group of
    [Sample.time_indexed_region] contributes two selections and the source
    supplies "and" for it, yet the code also appends "or". *)
Lemma General_region_selection_or_despite_supplied_combiner :
  exists cuts combs groups,
    SkyRegion.selection_mapping Sample.time_indexed_region = Some groups
    /\ General.region_selection Sample.time_indexed_region = Ok (cuts, combs)
    /\ combs = ["and"; "or"]
    /\ spec_combine_list (SkyRegion.combiners Sample.time_indexed_region) groups = ["and"]
    /\ combs <> spec_combine_list (SkyRegion.combiners Sample.time_indexed_region) groups.
Proof.
  eexists _, _, _. split; [reflexivity|]. split; [vm_compute; reflexivity|].
  split; [reflexivity|]. split; [vm_compute; reflexivity|]. vm_compute. discriminate.
Qed.

(** ** conf_comm.py: the acquisition step *)

Section AcquisitionProperties.
Import ConfigurationCommunicator.
Variable sal : SalManager.
Variable T : Topic.
Variable timeout : double.

Lemma listen_step (fuel k : nat) :
  listen sal T timeout (started sal T) (S fuel) k
  = if accepted sal T k then Some (S k, buffer (getNextSample sal T k), None)
    else if expired sal T timeout k
         then Some (S k, buffer (getNextSample sal T k), Some (SchedulerTimeoutError (message T)))
         else listen sal T timeout (started sal T) fuel (S k).
Proof. reflexivity. Qed.

(** More fuel does not change an outcome. *)
Lemma listen_fuel_mono (fuel fuel' k : nat) r :
  (fuel <= fuel')%nat -> listen sal T timeout (started sal T) fuel k = Some r -> listen sal T timeout (started sal T) fuel' k = Some r.
Proof.
  revert fuel' k. induction fuel as [|fuel IH]; intros fuel' k Hle H; [discriminate|].
  destruct fuel' as [|fuel']; [lia|].
  rewrite listen_step in H |- *.
  destruct (accepted sal T k); [exact H|].
  destruct (expired sal T timeout k); [exact H|].
  apply IH; [lia|exact H].
Qed.

Lemma listen_deterministic (fuel fuel' k : nat) r r' :
  listen sal T timeout (started sal T) fuel k = Some r -> listen sal T timeout (started sal T) fuel' k = Some r' -> r = r'.
Proof.
  intros H H'.
  apply (listen_fuel_mono _ (fuel + fuel')) in H; [|lia].
  apply (listen_fuel_mono _ (fuel + fuel')) in H'; [|lia].
  congruence.
Qed.

(** What an outcome of the loop says about the polls. *)
Lemma listen_outcome (fuel k n : nat) c (e : option exn) :
  listen sal T timeout (started sal T) fuel k = Some (n, c, e) ->
  exists k', n = S k' /\ (k <= k')%nat
    /\ c = buffer (getNextSample sal T k')
    /\ (forall j, (k <= j < k')%nat ->
          accepted sal T j = false /\ expired sal T timeout j = false)
    /\ ((e = None /\ accepted sal T k' = true)
        \/ (e = Some (SchedulerTimeoutError (message T)) /\ accepted sal T k' = false /\ expired sal T timeout k' = true)).
Proof.
  revert k. induction fuel as [|fuel IH]; intros k H; [discriminate|].
  rewrite listen_step in H.
  destruct (accepted sal T k) eqn:Ha.
  - injection H as <- <- <-. exists k. repeat split; try lia; auto.
  - destruct (expired sal T timeout k) eqn:He.
    + injection H as <- <- <-. exists k. repeat split; try lia; auto.
    + destruct (IH _ H) as (k' & -> & Hle & -> & Hbefore & Hend).
      exists k'. split; [reflexivity|]. split; [lia|]. split; [reflexivity|].
      split; [|exact Hend].
      intros j Hj. destruct (decide (j = k)) as [->|Hne]; [auto|].
      apply Hbefore. lia.
Qed.

(** An accepted poll with no expiry observed before it ends the loop
    normally. *)
Lemma listen_accepts (d k : nat) :
  accepted sal T (k + d) = true ->
  (forall j, (k <= j < k + d)%nat -> expired sal T timeout j = false) ->
  exists n c, listen sal T timeout (started sal T) (S d) k = Some (n, c, None).
Proof.
  revert k. induction d as [|d IH]; intros k Ha Hne; rewrite listen_step.
  - replace (k + 0)%nat with k in Ha by lia. rewrite Ha. eauto.
  - destruct (accepted sal T k); [eauto|].
    rewrite Hne by lia.
    apply IH; [replace (S k + d)%nat with (k + S d)%nat by lia; exact Ha|].
    intros j Hj. apply Hne. lia.
Qed.

(** An expiry observed after a rejected poll, with nothing accepted up to
    it, ends the loop with the timeout error. *)
Lemma listen_expires (d k : nat) :
  expired sal T timeout (k + d) = true ->
  (forall j, (k <= j <= k + d)%nat -> accepted sal T j = false) ->
  (forall j, (k <= j < k + d)%nat -> expired sal T timeout j = false) ->
  exists n c, listen sal T timeout (started sal T) (S d) k = Some (n, c, Some (SchedulerTimeoutError (message T))).
Proof.
  revert k. induction d as [|d IH]; intros k He Hna Hne; rewrite listen_step.
  - rewrite Hna by lia. replace (k + 0)%nat with k in He by lia. rewrite He. eauto.
  - rewrite Hna by lia. rewrite Hne by lia.
    apply IH.
    + replace (S k + d)%nat with (k + S d)%nat by lia. exact He.
    + intros j Hj. apply Hna. lia.
    + intros j Hj. apply Hne. lia.
Qed.

(** The first index at which a boolean property holds. *)
Lemma first_index_below (P : nat -> bool) (k : nat) :
  (forall j, (j < k)%nat -> P j = false)
  \/ (exists k0, (k0 < k)%nat /\ P k0 = true /\ forall j, (j < k0)%nat -> P j = false).
Proof.
  induction k as [|k [Hnone|(k0 & Hlt & HP & Hmin)]].
  - left. intros j Hj. lia.
  - destruct (P k) eqn:E.
    + right. exists k. split; [lia|]. split; [exact E|exact Hnone].
    + left. intros j Hj. destruct (decide (j = k)) as [->|Hne]; [exact E|].
      apply Hnone. lia.
  - right. exists k0. split; [lia|]. split; [exact HP|exact Hmin].
Qed.

Lemma first_index (P : nat -> bool) (k : nat) :
  P k = true ->
  exists k0, (k0 <= k)%nat /\ P k0 = true /\ forall j, (j < k0)%nat -> P j = false.
Proof.
  intro Hk. destruct (first_index_below P k) as [Hnone|(k0 & Hlt & HP & Hmin)].
  - exists k. split; [lia|]. split; [exact Hk|exact Hnone].
  - exists k0. split; [lia|]. split; [exact HP|exact Hmin].
Qed.

End AcquisitionProperties.

Section StepProperties.
Import ConfigurationCommunicator.
Variable sal : SalManager.
Variable T : Topic.

Lemma configure_topic_listening (self : t) (log : list event) (fuel : nat) :
  no_dds_comm self = false ->
  configure_topic sal T fuel (self, log)
  = match listen sal T (socs_timeout self) (started sal T) fuel 0 with
    | None => None
    | Some (polls, c, Some e) =>
        Some (set_conf T c (set_conf T (zero T) self),
              (log ++ [Subscribe T]) ++ replicate polls (Poll T), Some e)
    | Some (polls, c, None) =>
        Some (store T c (set_conf T c (set_conf T (zero T) self)),
              (log ++ [Subscribe T]) ++ replicate polls (Poll T), None)
    end.
Proof. intro H. unfold configure_topic. rewrite H. reflexivity. Qed.

Lemma succeeds_iff_listen (self : t) (log : list event) :
  no_dds_comm self = false ->
  succeeds sal T (self, log)
  <-> exists fuel n c, listen sal T (socs_timeout self) (started sal T) fuel 0 = Some (n, c, None).
Proof.
  intro Hdds. unfold succeeds. split.
  - intros (fuel & st' & H). rewrite configure_topic_listening in H by exact Hdds.
    destruct (listen sal T (socs_timeout self) (started sal T) fuel 0)
      as [[[n c] [e|]]|] eqn:E; try discriminate. eauto.
  - intros (fuel & n & c & H). exists fuel. eexists.
    rewrite configure_topic_listening by exact Hdds. rewrite H. reflexivity.
Qed.

Lemma times_out_iff_listen (self : t) (log : list event) :
  no_dds_comm self = false ->
  times_out sal T (self, log)
  <-> exists fuel n c,
        listen sal T (socs_timeout self) (started sal T) fuel 0
        = Some (n, c, Some (SchedulerTimeoutError (message T))).
Proof.
  intro Hdds. unfold times_out. split.
  - intros (fuel & st' & H). rewrite configure_topic_listening in H by exact Hdds.
    destruct (listen sal T (socs_timeout self) (started sal T) fuel 0)
      as [[[n c] [e|]]|] eqn:E; try discriminate.
    injection H as _ He. subst e. eauto.
  - intros (fuel & n & c & H). exists fuel. eexists.
    rewrite configure_topic_listening by exact Hdds. rewrite H. reflexivity.
Qed.

End StepProperties.

(** C1 (as the code has it): with DDS communication enabled, the step of a
    topic returns exactly when some poll is accepted (return code 0 and the
    validity test of the topic passes) and the test
    [(tf - lasttime) > self.socs_timeout], made in double precision on the
    clock read after each earlier poll, was false; it raises
    [SchedulerTimeoutError] exactly when that test is true after a
    rejected poll, nothing was accepted up to that poll and the test was
    false after every earlier one.  The two outcomes exclude each other,
    no other exception is raised, and the step ends one way or the other
    as soon as the test is true after some poll. *)
Theorem configure_topic_returns_iff_accepted_before_observed_expiry
    (sal : ConfigurationCommunicator.SalManager) (T : ConfigurationCommunicator.Topic)
    (self : ConfigurationCommunicator.t) (log : list ConfigurationCommunicator.event) :
  ConfigurationCommunicator.no_dds_comm self = false ->
  let timeout := ConfigurationCommunicator.socs_timeout self in
  (succeeds sal T (self, log)
   <-> exists k, accepted sal T k = true
                 /\ forall j, (j < k)%nat -> expired sal T timeout j = false)
  /\ (times_out sal T (self, log)
      <-> exists k, expired sal T timeout k = true
                    /\ (forall j, (j <= k)%nat -> accepted sal T j = false)
                    /\ (forall j, (j < k)%nat -> expired sal T timeout j = false))
  /\ ~ (succeeds sal T (self, log) /\ times_out sal T (self, log))
  /\ (forall fuel st' e,
        ConfigurationCommunicator.configure_topic sal T fuel (self, log) = Some (st', Some e) ->
        e = SchedulerTimeoutError (ConfigurationCommunicator.message T))
  /\ ((exists k, expired sal T timeout k = true) ->
      succeeds sal T (self, log) \/ times_out sal T (self, log)).
Proof.
  intros Hdds timeout.
  assert (Hsucc : succeeds sal T (self, log)
                  <-> exists k, accepted sal T k = true
                      /\ forall j, (j < k)%nat -> expired sal T timeout j = false).
  { rewrite succeeds_iff_listen by exact Hdds. split.
    - intros (fuel & n & c & H).
      destruct (listen_outcome _ _ _ _ _ _ _ _ H) as (k & _ & _ & _ & Hbefore & Hend).
      exists k. destruct Hend as [[_ Ha]|[He _]]; [|discriminate].
      split; [exact Ha|]. intros j Hj. apply Hbefore. lia.
    - intros (k & Ha & Hne).
      destruct (listen_accepts sal T timeout k 0 Ha) as (n & c & H).
      { intros j Hj. apply Hne. lia. }
      eauto. }
  assert (Htime : times_out sal T (self, log)
                  <-> exists k, expired sal T timeout k = true
                      /\ (forall j, (j <= k)%nat -> accepted sal T j = false)
                      /\ (forall j, (j < k)%nat -> expired sal T timeout j = false)).
  { rewrite times_out_iff_listen by exact Hdds. split.
    - intros (fuel & n & c & H).
      destruct (listen_outcome _ _ _ _ _ _ _ _ H) as (k & _ & _ & _ & Hbefore & Hend).
      exists k. destruct Hend as [[He _]|[_ [Hna He]]]; [discriminate|].
      split; [exact He|]. split.
      + intros j Hj. destruct (decide (j = k)) as [->|Hne]; [exact Hna|].
        apply Hbefore. lia.
      + intros j Hj. apply Hbefore. lia.
    - intros (k & He & Hna & Hne).
      destruct (listen_expires sal T timeout k 0 He) as (n & c & H).
      { intros j Hj. apply Hna. lia. }
      { intros j Hj. apply Hne. lia. }
      eauto. }
  split; [exact Hsucc|]. split; [exact Htime|]. split; [|split].
  - intros [Hs Ht].
    apply succeeds_iff_listen in Hs; [|exact Hdds].
    apply times_out_iff_listen in Ht; [|exact Hdds].
    destruct Hs as (f1 & n1 & c1 & H1). destruct Ht as (f2 & n2 & c2 & H2).
    pose proof (listen_deterministic _ _ _ _ _ _ _ _ H1 H2) as E. discriminate.
  - intros fuel st' e H. rewrite configure_topic_listening in H by exact Hdds.
    destruct (ConfigurationCommunicator.listen sal T
                (ConfigurationCommunicator.socs_timeout self)
                (ConfigurationCommunicator.started sal T) fuel 0)
      as [[[n c] [e'|]]|] eqn:E; try discriminate.
    injection H as _ <-.
    destruct (listen_outcome _ _ _ _ _ _ _ _ E) as (k & _ & _ & _ & _ & Hend).
    destruct Hend as [[He _]|[He _]]; [discriminate|]. injection He as ->. reflexivity.
  - intros (k & He).
    destruct (first_index (expired sal T timeout) k He) as (k0 & _ & He0 & Hmin).
    destruct (first_index_below (accepted sal T) (S k0)) as [Hnone|(k1 & Hlt & Ha & _)].
    + right. apply Htime. exists k0. split; [exact He0|]. split; [|exact Hmin].
      intros j Hj. apply Hnone. lia.
    + left. apply Hsucc. exists k1. split; [exact Ha|].
      intros j Hj. apply Hmin. lia.
Qed.

(** C1, counterexample to "returns only if an accepted poll comes before
    the timeout elapses": on [Sample.sal] the scheduler topic is rejected at
    179 s and accepted by the poll that returns at 181 s, past the 180 s
    limit, and [_configure_scheduler] returns. *)
Lemma configure_scheduler_returns_on_sample_after_timeout :
  succeeds Sample.sal ConfigurationCommunicator.schedulerConfig
           (attached false, [])
  /\ ~ arrives_in_time Sample.sal ConfigurationCommunicator.schedulerConfig
         (ConfigurationCommunicator.socs_timeout (attached false)).
Proof.
  split.
  - exists 2%nat. eexists. apply outcome_eq. vm_compute. reflexivity.
  - intros (k & Ha & Hk). destruct k as [|k].
    + vm_compute in Ha. discriminate.
    + vm_compute in Hk. discriminate.
Qed.

(** ** conf_comm.py: configure *)

Section ConfigureProperties.
Import ConfigurationCommunicator.
Variable sal : SalManager.
Variable fuel : nat.

Lemma and_then_return (a : state -> outcome) (st : state) :
  and_then a (fun st' => Some (st', None)) st = a st.
Proof. unfold and_then. destruct (a st) as [[st' [e|]]|]; reflexivity. Qed.

Lemma and_then_ext (a b b' : state -> outcome) (st : state) :
  (forall st', b st' = b' st') -> and_then a b st = and_then a b' st.
Proof.
  intro H. unfold and_then. destruct (a st) as [[st' [e|]]|]; [reflexivity|apply H|reflexivity].
Qed.

Lemma configure_run_steps (st : state) :
  configure sal fuel st = run_steps sal fuel order st.
Proof.
  unfold configure, order. cbn [run_steps].
  unfold _configure_scheduler, _configure_scheduler_driver, _configure_observing_site,
    _configure_telescope, _configure_dome, _configure_rotator, _configure_camera,
    _configure_slew, _configure_optics_loop_corr, _configure_park, _configure_proposals.
  revert st. do 10 (intro st; apply and_then_ext; clear st).
  intro st. symmetry. apply and_then_return.
Qed.

(** A failing step ends [run_steps]: the steps after it are not run. *)
Lemma run_steps_stops (pre post : list Topic) (T : Topic) (st st1 st2 : state) (e : exn) :
  run_steps sal fuel pre st = Some (st1, None) ->
  configure_topic sal T fuel st1 = Some (st2, Some e) ->
  run_steps sal fuel (pre ++ T :: post) st = Some (st2, Some e).
Proof.
  revert st. induction pre as [|T0 pre IH]; intros st Hpre HT; cbn in Hpre |- *.
  - injection Hpre as ->. unfold and_then. rewrite HT. reflexivity.
  - unfold and_then in Hpre |- *.
    destruct (configure_topic sal T0 fuel st) as [[st0 [e0|]]|]; try discriminate.
    apply IH; assumption.
Qed.

(** A step only subscribes to and polls its own topic. *)
Lemma configure_topic_log (T : Topic) (st st' : state) (r : option exn) :
  configure_topic sal T fuel st = Some (st', r) ->
  exists evs, snd st' = snd st ++ evs /\ Forall (fun ev => topic_of ev = T) evs.
Proof.
  destruct st as [self log]. destruct (no_dds_comm self) eqn:Hdds.
  - unfold configure_topic. rewrite Hdds.
    intro H. inversion H; subst; clear H. exists []. cbn. rewrite app_nil_r.
    split; [reflexivity|constructor].
  - rewrite configure_topic_listening by exact Hdds.
    assert (Hpolls : forall polls,
               Forall (fun ev => topic_of ev = T) (Subscribe T :: replicate polls (Poll T))).
    { intro polls. constructor; [reflexivity|].
      apply Forall_forall. intros ev Hev. apply elem_of_replicate in Hev as [-> _].
      reflexivity. }
    destruct (listen sal T (socs_timeout self) (started sal T) fuel 0)
      as [[[polls c] [e|]]|]; intro H; inversion H; subst; clear H; cbn [snd];
      exists (Subscribe T :: replicate polls (Poll T));
      (split; [rewrite <- app_assoc; reflexivity|apply Hpolls]).
Qed.

Lemma run_steps_log (l : list Topic) (st st' : state) (r : option exn) :
  run_steps sal fuel l st = Some (st', r) ->
  exists evs, snd st' = snd st ++ evs /\ Forall (fun ev => topic_of ev ∈ l) evs.
Proof.
  revert st. induction l as [|T l IH]; intros st H; cbn in H.
  - injection H as <- _. exists []. rewrite app_nil_r. split; [reflexivity|constructor].
  - unfold and_then in H.
    destruct (configure_topic sal T fuel st) as [[st0 [e0|]]|] eqn:ET; try discriminate.
    + injection H as <- _.
      destruct (configure_topic_log _ _ _ _ ET) as (evs & -> & Hevs).
      exists evs. split; [reflexivity|].
      eapply Forall_impl; [exact Hevs|]. intros ev ->. left.
    + destruct (configure_topic_log _ _ _ _ ET) as (evs0 & E0 & Hevs0).
      destruct (IH _ H) as (evs & E & Hevs).
      exists (evs0 ++ evs). split; [rewrite E, E0, app_assoc; reflexivity|].
      apply Forall_app. split.
      * eapply Forall_impl; [exact Hevs0|]. intros ev ->. left.
      * eapply Forall_impl; [exact Hevs|]. intros ev Hev. right. exact Hev.
Qed.

Lemma configure_topic_raises_timeout (T : Topic) (st st' : state) (e : exn) :
  configure_topic sal T fuel st = Some (st', Some e) ->
  e = SchedulerTimeoutError (message T).
Proof.
  destruct st as [self log]. destruct (no_dds_comm self) eqn:Hdds.
  - unfold configure_topic. rewrite Hdds. discriminate.
  - rewrite configure_topic_listening by exact Hdds.
    destruct (listen sal T (socs_timeout self) (started sal T) fuel 0)
      as [[[polls c] [e'|]]|] eqn:E; try discriminate.
    intro H. injection H as _ <-.
    destruct (listen_outcome _ _ _ _ _ _ _ _ E) as (k & _ & _ & _ & _ & [[He _]|[He _]]);
      [discriminate|]. injection He as ->. reflexivity.
Qed.

End ConfigureProperties.

Lemma order_NoDup : NoDup order.
Proof. refine (bool_decide_unpack (NoDup order) _). vm_compute. exact I. Qed.

(** C2: when the steps of the topics before [T] in the order of
    [configure] return and the step of [T] raises, [configure] ends in
    the state that step left and with the very exception it raised, a
    [SchedulerTimeoutError]; what was done on the transport since
    [configure] began concerns no topic that comes after [T]: none of
    them was subscribed to or polled. *)
Theorem configure_stops_at_first_timeout
    (sal : ConfigurationCommunicator.SalManager) (fuel : nat)
    (pre post : list ConfigurationCommunicator.Topic) (T : ConfigurationCommunicator.Topic)
    (st st1 st2 : ConfigurationCommunicator.state) (e : exn) :
  order = pre ++ T :: post ->
  run_steps sal fuel pre st = Some (st1, None) ->
  ConfigurationCommunicator.configure_topic sal T fuel st1 = Some (st2, Some e) ->
  ConfigurationCommunicator.configure sal fuel st = Some (st2, Some e)
  /\ e = SchedulerTimeoutError (ConfigurationCommunicator.message T)
  /\ exists evs,
       snd st2 = snd st ++ evs
       /\ forall ev, ev ∈ evs -> ConfigurationCommunicator.topic_of ev ∉ post.
Proof.
  intros Horder Hpre HT.
  pose proof (run_steps_stops sal fuel pre post T st st1 st2 e Hpre HT) as Hrun.
  split; [rewrite configure_run_steps, Horder; exact Hrun|].
  split; [exact (configure_topic_raises_timeout sal fuel T st1 st2 e HT)|].
  destruct (run_steps_log _ _ _ _ _ _ Hpre) as (evs1 & E1 & Hevs1).
  destruct (configure_topic_log _ _ _ _ _ _ HT) as (evsT & ET & HevsT).
  exists (evs1 ++ evsT). split; [rewrite ET, E1, app_assoc; reflexivity|].
  pose proof order_NoDup as Hnd. rewrite Horder in Hnd.
  apply NoDup_app in Hnd as (_ & Hdisj & HndT).
  apply NoDup_cons in HndT as [HTpost _].
  intros ev Hev Hpost. apply elem_of_app in Hev as [Hev|Hev].
  - rewrite Forall_forall in Hevs1. apply (Hdisj _ (Hevs1 _ Hev)). right. exact Hpost.
  - rewrite Forall_forall in HevsT. rewrite (HevsT _ Hev) in Hpost. contradiction.
Qed.

(** ** conf_comm.py: delimiter-separated fields *)

Lemma split_not_nil (sep : ascii) (s : string) : split sep s <> [].
Proof.
  destruct s as [|c s]; cbn; [discriminate|].
  destruct (Ascii.eqb c sep); [discriminate|].
  destruct (split sep s); discriminate.
Qed.

(** The guarded decoding of the slew step gives the empty list for the
    empty string and never the list holding one empty string. *)
Lemma split_nonempty_empty :
  ConfigurationCommunicator.split_nonempty "" = []
  /\ forall x, ConfigurationCommunicator.split_nonempty x <> [""].
Proof.
  split; [reflexivity|]. intros [|c x]; [discriminate|].
  unfold ConfigurationCommunicator.split_nonempty. cbn.
  destruct (Ascii.eqb c ",").
  - pose proof (split_not_nil "," x). destruct (split "," x); [contradiction|discriminate].
  - destruct (split "," x); discriminate.
Qed.

(** C3 (the camera fields break it): [_configure_slew] decodes an empty
    prerequisite string to the empty list, but [_configure_camera] splits
    without the guard: on [Sample.sal] the camera sample has
    [filterUnmounted = ""] and the step stores the list holding one empty
    string in [observatory.camera.filter_unmounted]. *)
Theorem configure_camera_decodes_empty_string_to_one_empty_name :
  scheduler_cameraConfigC.filterUnmounted Sample.camera = ""
  /\ (exists self' log',
        ConfigurationCommunicator._configure_camera Sample.sal 1
          (attached false, []) = Some (self', log', None)
        /\ ConfigurationCommunicator.config self' !! "observatory.camera.filter_unmounted"
           = Some (VList [VStr ""]))
  /\ (forall (c : scheduler_cameraConfigC.t) (self : ConfigurationCommunicator.t),
        scheduler_cameraConfigC.filterUnmounted c = "" ->
        ConfigurationCommunicator.config (ConfigurationCommunicator.store_camera c self)
          !! "observatory.camera.filter_unmounted" = Some (VList [VStr ""]))
  /\ (forall (c : scheduler_slewConfigC.t) (self : ConfigurationCommunicator.t),
        scheduler_slewConfigC.prereqReadout c = "" ->
        ConfigurationCommunicator.config (ConfigurationCommunicator.store_slew c self)
          !! "observatory.slew.prereq_readout" = Some (VList [])).
Proof.
  split; [reflexivity|]. split; [|split].
  - pose (o := ConfigurationCommunicator._configure_camera Sample.sal 1
                 (attached false, [])).
    exists (fst (final_state o)), (snd (final_state o)).
    split; [|vm_compute; reflexivity].
    rewrite <- surjective_pairing. apply outcome_eq. vm_compute. reflexivity.
  - intros c self H. unfold ConfigurationCommunicator.store_camera.
    cbn [ConfigurationCommunicator.config ConfigurationCommunicator.assign].
    unfold setattr. rewrite lookup_insert_eq, H. reflexivity.
  - intros c self H. unfold ConfigurationCommunicator.store_slew.
    cbn [ConfigurationCommunicator.config ConfigurationCommunicator.assign].
    unfold setattr. rewrite lookup_insert_eq, H. reflexivity.
Qed.

(** The step of the scheduler topic on [Rounded.sal]: it begins at
    3 * 2^-47 s and the first poll, rejected, returns at 180 + 2^-45 s.
    The difference of the two doubles is 180.0, which is not greater than
    the timeout, so the step polls again and returns on the second
    sample. *)
Lemma configure_topic_returns_iff_accepted_before_observed_expiry_witness :
  expired Rounded.sal ConfigurationCommunicator.schedulerConfig 180%float 0 = false
  /\ succeeds Rounded.sal ConfigurationCommunicator.schedulerConfig (attached false, []).
Proof.
  split; [vm_compute; reflexivity|].
  apply (proj1 (configure_topic_returns_iff_accepted_before_observed_expiry
                  Rounded.sal ConfigurationCommunicator.schedulerConfig
                  (attached false) [] eq_refl)).
  exists 1%nat. split; [vm_compute; reflexivity|].
  intros j Hj. destruct j as [|j]; [vm_compute; reflexivity|lia].
Defined.

(** [configure] on [Sample.sal]: the first seven steps return and the
    step of the slew topic, the eighth, times out. *)
Lemma configure_stops_at_first_timeout_witness :
  exists st2 evs,
    ConfigurationCommunicator.configure Sample.sal 2
      (attached false, [])
    = Some (st2, Some (SchedulerTimeoutError "No configuration received from Scheduler!!"))
    /\ snd st2 = evs
    /\ forall ev, ev ∈ evs ->
         ConfigurationCommunicator.topic_of ev
         ∉ [ConfigurationCommunicator.opticsLoopCorrConfig;
            ConfigurationCommunicator.parkConfig;
            ConfigurationCommunicator.surveyTopology].
Proof.
  pose (st0 := (attached false, []) : ConfigurationCommunicator.state).
  pose (pre := [ConfigurationCommunicator.schedulerConfig;
                ConfigurationCommunicator.driverConfig;
                ConfigurationCommunicator.obsSiteConfig;
                ConfigurationCommunicator.telescopeConfig;
                ConfigurationCommunicator.domeConfig;
                ConfigurationCommunicator.rotatorConfig;
                ConfigurationCommunicator.cameraConfig]).
  pose (st1 := final_state (run_steps Sample.sal 2 pre st0)).
  pose (st2 := final_state (ConfigurationCommunicator.configure_topic Sample.sal
                              ConfigurationCommunicator.slewConfig 2 st1)).
  destruct (configure_stops_at_first_timeout Sample.sal 2 pre
              [ConfigurationCommunicator.opticsLoopCorrConfig;
               ConfigurationCommunicator.parkConfig;
               ConfigurationCommunicator.surveyTopology]
              ConfigurationCommunicator.slewConfig st0 st1 st2
              (SchedulerTimeoutError "No configuration received from Scheduler!!"))
    as (Hconf & _ & evs & Hevs & Hnot).
  - reflexivity.
  - apply outcome_eq. vm_compute. reflexivity.
  - apply outcome_eq. vm_compute. reflexivity.
  - exists st2, evs. split; [exact Hconf|]. split; [exact Hevs|exact Hnot].
Defined.

(** ** Instances on the sample inputs *)

(** On [Banded.one_plane] the exclusion by ecliptic latitude subtracts
    nothing and the Galactic-plane one subtracts field 3 from the
    candidates 3, 7 and 12. *)
Lemma General_proposal_fields_sorted_difference_witness :
  exists cand excl,
    candidate_set Banded.fd Banded.fs Banded.one_plane = Ok cand
    /\ excluded_by_last Banded.fd Banded.fs (GP_exclusions Banded.one_plane) = Ok excl
    /\ 3 ∈ cand /\ 3 ∈ excl
    /\ StronglySorted Z.lt [7; 12]
    /\ forall x, x ∈ [7; 12] <-> x ∈ cand /\ x ∉ excl.
Proof.
  destruct (proj1 (General_proposal_fields_sorted_difference Banded.fd Banded.fs
                     Banded.one_plane) [7; 12])
    as (d & cand & excl & _ & Hc & He & Hs & Hm); [vm_compute; reflexivity|].
  exists cand, excl. split; [exact Hc|]. split; [exact He|].
  cbn in Hc, He. injection Hc as <-. injection He as <-.
  split; [set_solver|]. split; [set_solver|]. split; [exact Hs|exact Hm].
Defined.

(** An exclusion by ecliptic latitude subtracts nothing. *)
Lemma General_proposal_fields_only_GP_exclusions_witness :
  let self := with_exclusions (Sample.general []) [(0, Sample.cut "EB" (-10)%Q 10%Q)] in
  General.proposal_fields Sample.fd Sample.fs self
  = General.proposal_fields Sample.fd Sample.fs (with_exclusions self []).
Proof.
  intro self.
  refine (proj2 (General_proposal_fields_only_GP_exclusions Sample.fd Sample.fs self
                   [(0, Sample.cut "EB" (-10)%Q 10%Q)] eq_refl) _).
  constructor; [discriminate|constructor].
Defined.

(** [Sample.time_indexed_region]: three cuts and the combiners "and", "or". *)
Lemma General_region_selection_time_indexed_witness :
  General.region_selection Sample.time_indexed_region
  = Ok ([Sample.cut "RA" 0%Q 10%Q; Sample.cut "Dec" (-30)%Q 0%Q; Sample.cut "RA" 20%Q 30%Q],
        ["and"; "or"]).
Proof.
  refine (General_region_selection_time_indexed Sample.time_indexed_region _ _
            (fun index => if decide (index = 0) then Sample.cut "RA" 0%Q 10%Q
                          else if decide (index = 1) then Sample.cut "Dec" (-30)%Q 0%Q
                          else Sample.cut "RA" 20%Q 30%Q)
            eq_refl eq_refl _).
  intros i g index Hin Hidx.
  apply elem_of_cons in Hin as [[= -> ->]|Hin].
  - apply elem_of_cons in Hidx as [->|Hidx]; [reflexivity|].
    apply list_elem_of_singleton in Hidx as ->. reflexivity.
  - apply list_elem_of_singleton in Hin as [= -> ->].
    apply list_elem_of_singleton in Hidx as ->. reflexivity.
Defined.

(** ** Attribute and slot assignments *)

Lemma setitem_inv (a : string) (i : nat) (v : value) (o o' : obj) :
  setitem a i v o = Ok o' ->
  exists l, o !! a = Some (VList l) /\ (i < length l)%nat
            /\ o' = <[a := VList (<[i := v]> l)]> o.
Proof.
  unfold setitem. destruct (o !! a) as [[| | | | |l]|]; try discriminate.
  destruct (decide (i < length l)%nat); [|discriminate].
  intros [= <-]. eauto.
Qed.

Lemma setitem_lookup_ne (a b : string) (i : nat) (v : value) (o o' : obj) :
  setitem a i v o = Ok o' -> b <> a -> o' !! b = o !! b.
Proof.
  intros H Hne. destruct (setitem_inv _ _ _ _ _ H) as (l & _ & _ & ->).
  apply lookup_insert_ne. congruence.
Qed.

Lemma setitem_slot_eq (a : string) (i : nat) (v : value) (o o' : obj) :
  setitem a i v o = Ok o' -> slot a i o' = Some v.
Proof.
  intro H. destruct (setitem_inv _ _ _ _ _ H) as (l & _ & Hi & ->).
  unfold slot. rewrite lookup_insert_eq. apply list_lookup_insert_eq. exact Hi.
Qed.

Lemma setitem_slot_ne (a b : string) (i j : nat) (v : value) (o o' : obj) :
  setitem a i v o = Ok o' -> b <> a \/ j <> i -> slot b j o' = slot b j o.
Proof.
  intros H Hne. destruct (setitem_inv _ _ _ _ _ H) as (l & Hl & Hi & ->).
  unfold slot. destruct (decide (b = a)) as [->|Hba].
  - rewrite lookup_insert_eq, Hl. apply list_lookup_insert_ne.
    destruct Hne as [Hne|Hne]; [contradiction|congruence].
  - rewrite lookup_insert_ne by congruence. reflexivity.
Qed.

(** A key that is a valid position is written like a position. *)
Lemma setitem_int_nat (a : string) (i : nat) (v : value) (o o' : obj) :
  setitem_int a (Z.of_nat i) v o = Ok o' -> setitem a i v o = Ok o'.
Proof.
  unfold setitem_int, setitem. destruct (o !! a) as [[| | | | |l]|]; try (intro; assumption).
  destruct (decide (0 <= Z.of_nat i < Z.of_nat (length l))) as [Hin|Hout].
  - rewrite Nat2Z.id. destruct (decide (i < length l)%nat); [intro; assumption|lia].
  - destruct (decide (- Z.of_nat (length l) <= Z.of_nat i < 0)); [lia|discriminate].
Qed.

Lemma setitem_int_lookup_ne (a b : string) (i : Z) (v : value) (o o' : obj) :
  setitem_int a i v o = Ok o' -> b <> a -> o' !! b = o !! b.
Proof.
  unfold setitem_int. destruct (o !! a) as [[| | | | |l]|]; try discriminate.
  intros H Hne.
  destruct (decide (0 <= i < Z.of_nat (length l)));
    [|destruct (decide (- Z.of_nat (length l) <= i < 0)); [|discriminate]];
    injection H as <-; apply lookup_insert_ne; congruence.
Qed.

Lemma slot_ext (a : string) (i : nat) (o o' : obj) :
  o' !! a = o !! a -> slot a i o' = slot a i o.
Proof. unfold slot. intros ->. reflexivity. Qed.

(** An invariant of the loop body is an invariant of the loop. *)
Lemma for_each_inv {A S : Type} (I : S -> Prop) (body : A -> S -> result S)
    (l : list A) (s s' : S) :
  (forall x s1 s2, x ∈ l -> I s1 -> body x s1 = Ok s2 -> I s2) ->
  I s -> for_each body l s = Ok s' -> I s'.
Proof.
  revert s. induction l as [|x l IH]; intros s Hbody Hs H; cbn in H.
  - injection H as <-. exact Hs.
  - destruct (body x s) as [s1|] eqn:E; [|discriminate].
    apply (IH s1); [|apply (Hbody x s s1); [left|exact Hs|exact E]|exact H].
    intros y s2 s3 Hy. apply Hbody. right. exact Hy.
Qed.

(** Two runs of a loop stay related when the body keeps them so. *)
Lemma for_each_rel {A S : Type} (R : S -> S -> Prop) (body : A -> S -> result S)
    (l : list A) (s1 s2 s1' s2' : S) :
  (forall x t1 t2 t1' t2', R t1 t2 -> body x t1 = Ok t1' -> body x t2 = Ok t2' -> R t1' t2') ->
  R s1 s2 -> for_each body l s1 = Ok s1' -> for_each body l s2 = Ok s2' -> R s1' s2'.
Proof.
  intro Hbody. revert s1 s2. induction l as [|x l IH]; intros s1 s2 HR H1 H2; cbn in H1, H2.
  - injection H1 as <-. injection H2 as <-. exact HR.
  - destruct (body x s1) as [t1|] eqn:E1; [|discriminate].
    destruct (body x s2) as [t2|] eqn:E2; [|discriminate].
    apply (IH t1 t2); [apply (Hbody x s1 s2); assumption|exact H1|exact H2].
Qed.

(** Inversion of a [do] whose result is known. *)
Lemma bind_Ok {A B : Type} (m : result A) (k : A -> result B) (b : B) :
  Py.bind m k = Ok b -> exists a, m = Ok a /\ k a = Ok b.
Proof. destruct m as [a|e]; cbn; [eauto|discriminate]. Qed.

Ltac bind_inv H :=
  let x := fresh "topic" in
  let E := fresh "E" in
  apply bind_Ok in H as (x & E & H).

Ltac binds H := repeat bind_inv H.

(** A body that leaves the attribute [a] alone makes a loop that does. *)
Lemma for_each_frame {A S : Type} (proj : S -> obj) (body : A -> S -> result S)
    (l : list A) (s s' : S) (a : string) :
  (forall x s1 s2, body x s1 = Ok s2 -> proj s2 !! a = proj s1 !! a) ->
  for_each body l s = Ok s' -> proj s' !! a = proj s !! a.
Proof.
  intros Hbody H.
  apply (for_each_inv (fun t => proj t !! a = proj s !! a) body l s s'); [|reflexivity|exact H].
  intros x s1 s2 _ Hs Hb. rewrite (Hbody x s1 s2 Hb). exact Hs.
Qed.

Lemma not_in_by_compute (a : string) (W : list string) :
  bool_decide (a ∈ W) = false -> a ∉ W.
Proof. intro H. apply bool_decide_eq_false in H. exact H. Qed.

Ltac notin_compute := apply not_in_by_compute; vm_compute; reflexivity.

Ltac in_list := repeat first [apply list_elem_of_here | apply list_elem_of_further].

(** [a <> "x"] from [Ha : a ∉ W] when "x" is listed in [W]. *)
Ltac neq_from Ha :=
  let E := fresh "E" in
  intro E; apply Ha; rewrite E; in_list.

(** [a ∉ W'] from [Ha : a ∉ W] when [W'] lists names of [W]. *)
Ltac sub_notin Ha :=
  let H := fresh "H" in
  intro H; apply Ha;
  repeat (apply elem_of_cons in H as [H|H]; [rewrite H; in_list|]);
  inversion H.

(** Walk a chain of assignments back to the object it started from;
    [tac] proves that the attribute looked up is not the one assigned. *)
Ltac frame_back_with tac :=
  repeat match goal with
    | E : setitem ?b _ _ ?o = Ok ?o' |- ?o' !! ?a = _ =>
        rewrite (setitem_lookup_ne b a _ _ o o' E) by tac
    | E : setitem_int ?b _ _ ?o = Ok ?o' |- ?o' !! ?a = _ =>
        rewrite (setitem_int_lookup_ne b a _ _ o o' E) by tac
    | |- setattr ?b _ ?o !! ?a = _ =>
        unfold setattr at 1; rewrite (lookup_insert_ne o b a) by (apply not_eq_sym; tac)
    end.

Ltac frame_back Ha := frame_back_with ltac:(neq_from Ha).

(** ** general.py: what each block of set_topic leaves alone *)

Lemma General_set_sky_frame (self : General.t) (topic : obj) (a : string) :
  a ∉ ["name"; "twilightBoundary"; "deltaLst"; "decWindow"; "maxAirmass"; "maxCloud";
       "minDistanceMoon"; "excludePlanets"] ->
  General.set_sky self topic !! a = topic !! a.
Proof. intro Ha. unfold General.set_sky. cbv zeta. frame_back Ha. reflexivity. Qed.

Lemma General_set_scheduling_frame (self : General.t) (topic : obj) (a : string) :
  a ∉ general_scheduling_attrs ->
  General.set_scheduling self topic !! a = topic !! a.
Proof.
  intro Ha. unfold general_scheduling_attrs in Ha. unfold General.set_scheduling. cbv zeta.
  frame_back Ha. reflexivity.
Qed.

Lemma selection_body_frame (mins maxs bounds : string) (iv : nat * Selection.t)
    (st st' : list string * obj) (a : string) :
  a ∉ [mins; maxs; bounds] ->
  General.selection_body mins maxs bounds iv st = Ok st' ->
  snd st' !! a = snd st !! a.
Proof.
  intros Ha H. destruct iv as [i v], st as [lt topic]. unfold General.selection_body in H.
  binds H. injection H as <-. cbn [snd]. frame_back Ha. reflexivity.
Qed.

Lemma selection_loop_frame (mins maxs bounds : string) (l : list (nat * Selection.t))
    (st st' : list string * obj) (a : string) :
  a ∉ [mins; maxs; bounds] ->
  for_each (General.selection_body mins maxs bounds) l st = Ok st' ->
  snd st' !! a = snd st !! a.
Proof.
  intros Ha. apply for_each_frame. intros x s1 s2. apply selection_body_frame. exact Ha.
Qed.

Lemma General_set_region_selections_frame (self : General.t) (topic topic' : obj) (a : string) :
  a ∉ region_attrs ->
  General.set_region_selections self topic = Ok topic' -> topic' !! a = topic !! a.
Proof.
  intros Ha H. unfold region_attrs in Ha. unfold General.set_region_selections in H.
  cbv zeta in H. bind_inv H. injection H as <-. frame_back Ha.
  destruct (SkyRegion.selections (General.sky_region self)) as [[|kv d]|].
  - injection E as <-. frame_back Ha. reflexivity.
  - bind_inv E. destruct topic1 as [lt t1]. injection E as <-. frame_back Ha.
    assert (Ha' : a ∉ ["regionMinimums"; "regionMaximums"; "regionBounds"]) by sub_notin Ha.
    pose proof (selection_loop_frame _ _ _ _ _ _ a Ha' E0) as F. cbn [snd] in F.
    rewrite F. frame_back Ha. reflexivity.
  - injection E as <-. frame_back Ha. reflexivity.
Qed.

Lemma General_set_time_ranges_frame (self : General.t) (topic topic' : obj) (a : string) :
  a ∉ time_range_attrs ->
  General.set_time_ranges self topic = Ok topic' -> topic' !! a = topic !! a.
Proof.
  intros Ha H. unfold time_range_attrs in Ha. unfold General.set_time_ranges in H.
  cbv zeta in H.
  assert (Hloop : forall l t t', for_each General.time_range_body l t = Ok t' ->
                                 t' !! a = t !! a).
  { intros l t t'. apply (for_each_frame id). intros [i v] s1 s2 Hb.
    unfold General.time_range_body in Hb. bind_inv Hb. unfold id. frame_back Ha. reflexivity. }
  destruct (SkyRegion.time_ranges (General.sky_region self)) as [[|kv d]|].
  - injection H as <-. frame_back Ha. reflexivity.
  - rewrite (Hloop _ _ _ H). frame_back Ha. reflexivity.
  - injection H as <-. frame_back Ha. reflexivity.
Qed.

Lemma General_set_selection_mappings_frame (self : General.t) (topic topic' : obj)
    (a : string) :
  a ∉ mapping_attrs ->
  General.set_selection_mappings self topic = Ok topic' -> topic' !! a = topic !! a.
Proof.
  intros Ha H. unfold mapping_attrs in Ha. unfold General.set_selection_mappings in H.
  assert (Hinner : forall l (s s' : nat * obj),
             for_each General.selection_index_body l s = Ok s' -> snd s' !! a = snd s !! a).
  { intros l s s'. apply for_each_frame. intros index [k t] s2 Hb.
    unfold General.selection_index_body in Hb. bind_inv Hb. injection Hb as <-.
    cbn [snd]. frame_back Ha. reflexivity. }
  assert (Hloop : forall l (s s' : nat * obj),
             for_each General.selection_mapping_body l s = Ok s' -> snd s' !! a = snd s !! a).
  { intros l s s'. apply for_each_frame. intros [i v] [k t] s2 Hb.
    unfold General.selection_mapping_body in Hb. bind_inv Hb.
    rewrite (Hinner _ _ _ Hb). cbn [snd]. frame_back Ha. reflexivity. }
  destruct (SkyRegion.selection_mapping (General.sky_region self)) as [[|kv d]|].
  - injection H as <-. reflexivity.
  - bind_inv H. injection H as <-. apply (Hloop _ _ _ E).
  - injection H as <-. reflexivity.
Qed.

Lemma General_set_exclusion_selections_frame (self : General.t) (topic topic' : obj)
    (a : string) :
  a ∉ exclusion_attrs ->
  General.set_exclusion_selections self topic = Ok topic' -> topic' !! a = topic !! a.
Proof.
  intros Ha H. unfold exclusion_attrs in Ha. unfold General.set_exclusion_selections in H.
  cbv zeta in H.
  destruct (SkyExclusion.selections (General.sky_exclusion self)) as [[|kv d]|].
  - injection H as <-. frame_back Ha. reflexivity.
  - bind_inv H. destruct topic0 as [lt t1]. injection H as <-. frame_back Ha.
    assert (Ha' : a ∉ ["exclusionMinimums"; "exclusionMaximums"; "exclusionBounds"])
      by sub_notin Ha.
    pose proof (selection_loop_frame _ _ _ _ _ _ a Ha' E) as F. cbn [snd] in F.
    rewrite F. frame_back Ha. reflexivity.
  - injection H as <-. frame_back Ha. reflexivity.
Qed.

Lemma General_exposure_loop_frame (l : list float) (s s' : nat * obj) (a : string) :
  a <> "exposures" ->
  for_each General.exposure_body l s = Ok s' -> snd s' !! a = snd s !! a.
Proof.
  intro Ha. apply for_each_frame. intros x [k t] s2 Hb.
  unfold General.exposure_body in Hb. bind_inv Hb. injection Hb as <-. cbn [snd].
  apply (setitem_lookup_ne _ _ _ _ _ _ E Ha).
Qed.

(** ** general.py: the filter block *)

(** Walk a chain of slot assignments back to the one that wrote the slot. *)
Ltac slot_back :=
  repeat match goal with
    | E : setitem ?b ?i _ ?o = Ok ?o' |- slot ?a ?j ?o' = _ =>
        first [ exact (setitem_slot_eq b i _ o o' E)
              | rewrite (setitem_slot_ne b a i j _ o o' E) by (left; discriminate) ]
    end.

(** Walk a chain of assignments to slot [i] back, for another slot. *)
Ltac slot_other Hj :=
  repeat match goal with
    | E : setitem ?b ?i _ ?o = Ok ?o' |- slot ?a ?j ?o' = _ =>
        rewrite (setitem_slot_ne b a i j _ o o' E) by (right; exact Hj)
    end.

Lemma general_filter_row_not_exposures (v : GeneralBandFilter.t) (a : string) (x : value) :
  (a, x) ∈ general_filter_row v -> a <> "exposures" /\ a <> "filterNames".
Proof.
  unfold general_filter_row. intro H.
  repeat (apply elem_of_cons in H as [H|H]; [injection H as -> ->; split; discriminate|]).
  inversion H.
Qed.

Lemma General_filter_body_spec (i : nat) (v : GeneralBandFilter.t)
    (names names' : list string) (e e' : nat) (t t' : obj) :
  General.filter_body (i, v) (names, e, t) = Ok (names', e', t') ->
  names' = names ++ [GeneralBandFilter.name v]
  /\ (forall a x, (a, x) ∈ general_filter_row v -> slot a i t' = Some x)
  /\ (forall a j, a <> "exposures" -> j <> i -> slot a j t' = slot a j t)
  /\ (forall a, a ∉ general_filter_arrays -> t' !! a = t !! a).
Proof.
  intro H. unfold General.filter_body in H. binds H.
  inversion H; subst names' e' t'; clear H.
  pose proof (fun a Ha => General_exposure_loop_frame _ _ _ a Ha E6) as Fexp. cbn [snd] in Fexp.
  split; [reflexivity|]. split; [|split].
  - intros a x Hin. destruct (general_filter_row_not_exposures v a x Hin) as [Hne _].
    rewrite (slot_ext a i _ _ (Fexp a Hne)).
    unfold general_filter_row in Hin.
    repeat (apply elem_of_cons in Hin as [Hin|Hin]; [injection Hin as -> ->; slot_back|]).
    inversion Hin.
  - intros a j Ha Hj. rewrite (slot_ext a j _ _ (Fexp a Ha)). slot_other Hj. reflexivity.
  - intros a Ha. unfold general_filter_arrays in Ha.
    rewrite Fexp by neq_from Ha. frame_back Ha. reflexivity.
Qed.

Lemma General_filter_loop_spec (vs : list GeneralBandFilter.t) :
  forall (k : nat) (names names' : list string) (e e' : nat) (t t' : obj),
    for_each General.filter_body (enumerate_from k vs) (names, e, t) = Ok (names', e', t') ->
    names' = names ++ map GeneralBandFilter.name vs
    /\ (forall i v, vs !! i = Some v ->
          forall a x, (a, x) ∈ general_filter_row v -> slot a (k + i) t' = Some x)
    /\ (forall a j, a <> "exposures" -> (j < k)%nat -> slot a j t' = slot a j t)
    /\ (forall a, a ∉ general_filter_arrays -> t' !! a = t !! a).
Proof.
  induction vs as [|v vs IH]; intros k names names' e e' t t' H;
    cbn [for_each enumerate_from] in H.
  - injection H as <- <- <-. rewrite app_nil_r.
    split; [reflexivity|]. split; [intros i v Hi; discriminate|]. split; reflexivity.
  - destruct (General.filter_body (k, v) (names, e, t)) as [[[names1 e1] t1]|] eqn:Eb;
      [|discriminate].
    destruct (General_filter_body_spec _ _ _ _ _ _ _ _ Eb) as (-> & Hrow & Hother & Hframe).
    destruct (IH _ _ _ _ _ _ _ H) as (-> & Hrows & Hbelow & Hframes).
    split; [rewrite <- app_assoc; reflexivity|]. split; [|split].
    + intros [|i] w Hi a x Hin.
      * injection Hi as <-. rewrite Nat.add_0_r.
        destruct (general_filter_row_not_exposures _ _ _ Hin) as [Hne _].
        rewrite (Hbelow a k Hne) by lia. apply Hrow. exact Hin.
      * replace (k + S i)%nat with (S k + i)%nat by lia. apply (Hrows i w Hi). exact Hin.
    + intros a j Ha Hj. rewrite (Hbelow a j Ha) by lia. apply Hother; [exact Ha|lia].
    + intros a Ha. rewrite (Hframes a Ha). apply Hframe. exact Ha.
Qed.

Lemma General_set_filters_spec (self : General.t) (fl : dict string GeneralBandFilter.t)
    (t t' : obj) :
  General.filters self = Some fl -> fl <> [] ->
  General.set_filters self t = Ok t' ->
  t' !! "numFilters" = Some (VInt (Z.of_nat (length fl)))
  /\ t' !! "filterNames" = Some (VStr (join "," (map GeneralBandFilter.name (values fl))))
  /\ (forall i v, values fl !! i = Some v ->
        forall a x, (a, x) ∈ general_filter_row v -> slot a i t' = Some x).
Proof.
  intros Hfl Hne H. unfold General.set_filters in H. rewrite Hfl in H. cbv zeta in H.
  destruct fl as [|kv fl]; [contradiction|].
  bind_inv H. destruct topic as [[names e] t1]. injection H as <-.
  destruct (General_filter_loop_spec _ _ _ _ _ _ _ _ E) as (-> & Hrows & _ & Hframe).
  split; [|split].
  - unfold setattr. rewrite lookup_insert_ne by discriminate.
    rewrite Hframe by notin_compute.
    apply lookup_insert_eq.
  - unfold setattr. rewrite lookup_insert_eq. reflexivity.
  - intros i v Hi a x Hin. destruct (general_filter_row_not_exposures _ _ _ Hin) as [_ Hne'].
    rewrite (slot_ext a i t1) by (unfold setattr; apply lookup_insert_ne; congruence).
    apply (Hrows i v Hi a x Hin).
Qed.

Lemma General_set_filters_frame (self : General.t) (topic topic' : obj) (a : string) :
  a ∉ general_filter_attrs ->
  General.set_filters self topic = Ok topic' -> topic' !! a = topic !! a.
Proof.
  intros Ha H. unfold general_filter_attrs in Ha. unfold General.set_filters in H.
  cbv zeta in H.
  destruct (General.filters self) as [[|kv d]|].
  - injection H as <-. frame_back Ha. reflexivity.
  - bind_inv H. destruct topic0 as [[names e] t1]. injection H as <-. frame_back Ha.
    destruct (General_filter_loop_spec _ _ _ _ _ _ _ _ E) as (_ & _ & _ & Hframe).
    rewrite Hframe by (unfold general_filter_arrays; sub_notin Ha).
    frame_back Ha. reflexivity.
  - injection H as <-. frame_back Ha. reflexivity.
Qed.

Lemma General_set_region_selections_num (self : General.t) (topic topic' : obj) :
  General.set_region_selections self topic = Ok topic' ->
  topic' !! "numRegionSelections"
  = Some (VInt (match SkyRegion.selections (General.sky_region self) with
                | Some d => Z.of_nat (length d)
                | None => 0
                end)).
Proof.
  intro H. unfold General.set_region_selections in H. cbv zeta in H.
  bind_inv H. injection H as <-.
  unfold setattr at 1. rewrite lookup_insert_ne by discriminate.
  destruct (SkyRegion.selections (General.sky_region self)) as [[|kv d]|].
  - injection E as <-. apply lookup_insert_eq.
  - bind_inv E. destruct topic1 as [lt t1]. injection E as <-.
    unfold setattr at 1. rewrite lookup_insert_ne by discriminate.
    assert (Hnot : "numRegionSelections"
                   ∉ ["regionMinimums"; "regionMaximums"; "regionBounds"]) by notin_compute.
    pose proof (selection_loop_frame _ _ _ _ _ _ "numRegionSelections" Hnot E0) as F.
    cbn [snd] in F. rewrite F. apply lookup_insert_eq.
  - injection E as <-. apply lookup_insert_eq.
Qed.

(** ** Joining and splitting *)

Lemma split_no_sep (sep : ascii) (x : string) :
  contains sep x = false -> split sep x = [x].
Proof.
  induction x as [|c x IH]; [reflexivity|].
  cbn [split contains]. intro H. apply orb_false_iff in H as [Hc Hx].
  rewrite Hc, (IH Hx). reflexivity.
Qed.

Lemma split_app_sep (sep : ascii) (x rest : string) :
  contains sep x = false ->
  split sep (String.append x (String sep rest)) = x :: split sep rest.
Proof.
  induction x as [|c x IH]; intro H.
  - change (String.append "" (String sep rest)) with (String sep rest).
    cbn [split]. rewrite Ascii.eqb_refl. reflexivity.
  - change (String.append (String c x) (String sep rest))
      with (String c (String.append x (String sep rest))).
    cbn [split contains] in H |- *. apply orb_false_iff in H as [Hc Hx].
    rewrite Hc, (IH Hx). reflexivity.
Qed.

(** Splitting a joined list gives the list back when no element holds
    the separator and the list is not empty. *)
Lemma split_join (l : list string) :
  l <> [] -> Forall (fun x => contains "," x = false) l ->
  split "," (join "," l) = l.
Proof.
  induction l as [|x l IH]; [contradiction|]. intros _ H.
  apply Forall_cons in H as [Hx Hl]. destruct l as [|y l].
  - cbn. apply split_no_sep. exact Hx.
  - change (join "," (x :: y :: l))
      with (String.append x (String "," (join "," (y :: l)))).
    rewrite (split_app_sep _ _ _ Hx), IH; [reflexivity|discriminate|exact Hl].
Qed.

(** ** General.set_topic *)

(** What a returned topic holds for the filters and the region count. *)
Lemma General_set_topic_filters_spec
    (self : General.t) (fl : dict string GeneralBandFilter.t) (topic topic' : obj) :
  General.filters self = Some fl ->
  fl <> [] ->
  Forall (fun v => contains "," (GeneralBandFilter.name v) = false) (values fl) ->
  General.set_topic self topic = Ok topic' ->
  topic' !! "numFilters" = Some (VInt (Z.of_nat (length fl)))
  /\ topic' !! "numRegionSelections"
     = Some (VInt (match SkyRegion.selections (General.sky_region self) with
                   | Some d => Z.of_nat (length d)
                   | None => 0
                   end))
  /\ exists names,
       topic' !! "filterNames" = Some (VStr names)
       /\ split "," names = map GeneralBandFilter.name (values fl)
       /\ length (split "," names) = length fl
       /\ forall i v, values fl !! i = Some v ->
            split "," names !! i = Some (GeneralBandFilter.name v)
            /\ forall a x, (a, x) ∈ general_filter_row v -> slot a i topic' = Some x.
Proof.
  intros Hfl Hne Hnames H. unfold General.set_topic in H. cbv zeta in H. binds H.
  injection H as <-.
  destruct (General_set_filters_spec self fl _ _ Hfl Hne E3) as (Hnum & Hjoin & Hrows).
  assert (Hsched : forall a, a ∉ general_scheduling_attrs ->
                             General.set_scheduling self topic4 !! a = topic4 !! a)
    by (intros a Ha; apply General_set_scheduling_frame; exact Ha).
  split; [|split].
  - rewrite Hsched by notin_compute. exact Hnum.
  - rewrite Hsched by notin_compute.
    rewrite (General_set_filters_frame self topic3 topic4 "numRegionSelections")
      by (notin_compute || exact E3).
    rewrite (General_set_exclusion_selections_frame self topic2 topic3 "numRegionSelections")
      by (notin_compute || exact E2).
    rewrite (General_set_selection_mappings_frame self topic1 topic2 "numRegionSelections")
      by (notin_compute || exact E1).
    rewrite (General_set_time_ranges_frame self topic0 topic1 "numRegionSelections")
      by (notin_compute || exact E0).
    apply (General_set_region_selections_num self _ _ E).
  - exists (join "," (map GeneralBandFilter.name (values fl))).
    assert (Hsplit : split "," (join "," (map GeneralBandFilter.name (values fl)))
                     = map GeneralBandFilter.name (values fl)).
    { apply split_join.
      - destruct fl; [contradiction|discriminate].
      - apply Forall_map. exact Hnames. }
    split; [rewrite Hsched by notin_compute; exact Hjoin|].
    split; [exact Hsplit|].
    split; [rewrite Hsplit; unfold values; rewrite !length_map; reflexivity|].
    intros i v Hi. split.
    + rewrite Hsplit, list_lookup_fmap, Hi. reflexivity.
    + intros a x Hin.
      rewrite (slot_ext a i topic4); [exact (Hrows i v Hi a x Hin)|].
      apply Hsched. intro Hs. unfold general_filter_row in Hin.
      repeat (apply elem_of_cons in Hin as [Hin|Hin];
              [injection Hin as -> _; revert Hs; notin_compute|]).
      inversion Hin.
Qed.

Lemma returned_eq (r : result obj) : is_ok r = true -> r = Ok (returned r).
Proof. destruct r; [reflexivity|discriminate]. Qed.

(** C7, counterexample to "exactly N tokens": one filter whose name is
    "g,r" is encoded with [numFilters = 1] and [filterNames = "g,r"], which
    splits into two tokens. *)
Lemma General_set_topic_comma_in_filter_name :
  exists topic names,
    General.set_topic (Sample.general [("g", Sample.filter_g_r)]) Sample.generalPropConfig
    = Ok topic
    /\ topic !! "numFilters" = Some (VInt 1)
    /\ topic !! "filterNames" = Some (VStr names)
    /\ length (split "," names) = 2%nat.
Proof.
  exists (returned (General.set_topic (Sample.general [("g", Sample.filter_g_r)])
                                      Sample.generalPropConfig)), "g,r".
  split; [apply returned_eq; vm_compute; reflexivity|].
  split; [vm_compute; reflexivity|]. split; vm_compute; reflexivity.
Qed.

(** ** sequence.py: what each block of set_topic leaves alone *)

Lemma filter_visit_loop_spec (visits : string) (vs : list Z) :
  forall (k k' : nat) (t t' : obj),
    for_each (Sequence.filter_visit_body visits) vs (k, t) = Ok (k', t') ->
    k' = (k + length vs)%nat
    /\ (forall j v, vs !! j = Some v -> slot visits (k + j) t' = Some (VInt v))
    /\ (forall j, (j < k)%nat -> slot visits j t' = slot visits j t)
    /\ (forall a, a <> visits -> t' !! a = t !! a).
Proof.
  induction vs as [|v vs IH]; intros k k' t t' H; cbn [for_each] in H.
  - injection H as <- <-. split; [cbn; lia|]. split; [intros j v Hj; discriminate|].
    split; reflexivity.
  - destruct (Sequence.filter_visit_body visits v (k, t)) as [[k1 t1]|] eqn:Eb; [|discriminate].
    unfold Sequence.filter_visit_body in Eb. bind_inv Eb. injection Eb as <- <-.
    destruct (IH _ _ _ _ H) as (-> & Hvs & Hbelow & Hframe).
    split; [cbn; lia|]. split; [|split].
    + intros [|j] w Hj.
      * injection Hj as <-. rewrite Nat.add_0_r. rewrite Hbelow by lia.
        apply (setitem_slot_eq _ _ _ _ _ E).
      * replace (k + S j)%nat with (S k + j)%nat by lia. apply (Hvs j w Hj).
    + intros j Hj. rewrite Hbelow by lia.
      apply (setitem_slot_ne _ _ _ _ _ _ _ E). right. lia.
    + intros a Ha. rewrite (Hframe a Ha). apply (setitem_lookup_ne _ _ _ _ _ _ E Ha).
Qed.

Lemma Sequence_set_scheduling_frame (self : Sequence.t) (topic : obj) (a : string) :
  a ∉ sequence_scheduling_attrs ->
  Sequence.set_scheduling self topic !! a = topic !! a.
Proof.
  intro Ha. unfold sequence_scheduling_attrs in Ha. unfold Sequence.set_scheduling. cbv zeta.
  frame_back Ha. reflexivity.
Qed.

Lemma Sequence_exposure_loop_frame (l : list float) (s s' : nat * obj) (a : string) :
  a <> "exposures" ->
  for_each Sequence.exposure_body l s = Ok s' -> snd s' !! a = snd s !! a.
Proof.
  intro Ha. apply for_each_frame. intros x [k t] s2 Hb.
  unfold Sequence.exposure_body in Hb. bind_inv Hb. injection Hb as <-. cbn [snd].
  apply (setitem_lookup_ne _ _ _ _ _ _ E Ha).
Qed.

Lemma Sequence_set_filters_frame (self : Sequence.t) (topic topic' : obj) (a : string) :
  a ∉ sequence_filter_attrs ->
  Sequence.set_filters self topic = Ok topic' -> topic' !! a = topic !! a.
Proof.
  intros Ha H. unfold sequence_filter_attrs in Ha. unfold Sequence.set_filters in H.
  cbv zeta in H.
  assert (Hloop : forall l (s s' : list string * nat * obj),
             for_each Sequence.filter_body l s = Ok s' -> snd s' !! a = snd s !! a).
  { intros l s s'. apply for_each_frame. intros [i v] [[names e] t] s2 Hb.
    unfold Sequence.filter_body in Hb. binds Hb. injection Hb as <-. cbn [snd].
    assert (Hexp : a <> "exposures") by neq_from Ha.
    match goal with
    | Eloop : for_each Sequence.exposure_body _ _ = Ok _ |- _ =>
        rewrite (Sequence_exposure_loop_frame _ _ _ a Hexp Eloop)
    end.
    cbn [snd]. frame_back Ha. reflexivity. }
  destruct (Sequence.filters self) as [[|kv d]|].
  - injection H as <-. frame_back Ha. reflexivity.
  - bind_inv H. destruct topic0 as [[names e] t1]. injection H as <-. frame_back Ha.
    pose proof (Hloop _ _ _ E) as F. cbn [snd] in F. rewrite F. frame_back Ha. reflexivity.
  - injection H as <-. frame_back Ha. reflexivity.
Qed.

Lemma nested_loop_frame (l : list SubSequence.t) (s s' : Sequence.master_state) (a : string) :
  a ∉ master_attrs ->
  for_each Sequence.nested_body l s = Ok s' -> snd s' !! a = snd s !! a.
Proof.
  intro Ha. unfold master_attrs in Ha. apply for_each_frame.
  intros ss [[[[[mn nn] nf] nss] fvi] t] s2 Hb.
  unfold Sequence.nested_body in Hb. binds Hb. destruct topic0 as [fvi' t1].
  binds Hb. injection Hb as <-. cbn [snd]. frame_back Ha.
  destruct (filter_visit_loop_spec _ _ _ _ _ _ E0) as (_ & _ & _ & Hframe).
  rewrite Hframe by neq_from Ha. frame_back Ha. reflexivity.
Qed.

Lemma master_loop_frame (l : list (Z * MasterSubSequence.t))
    (s s' : Sequence.master_state) (a : string) :
  a ∉ master_attrs ->
  for_each Sequence.master_body l s = Ok s' -> snd s' !! a = snd s !! a.
Proof.
  intro Ha. apply for_each_frame.
  intros [i m] [[[[[mn nn] nf] nss] fvi] t] s2 Hb.
  unfold Sequence.master_body in Hb. binds Hb.
  rewrite (nested_loop_frame _ _ _ a Ha Hb). cbn [snd].
  unfold master_attrs in Ha. frame_back Ha. reflexivity.
Qed.

Lemma Sequence_set_master_sub_sequences_frame (self : Sequence.t) (topic topic' : obj)
    (a : string) :
  a ∉ master_attrs ->
  Sequence.set_master_sub_sequences self topic = Ok topic' -> topic' !! a = topic !! a.
Proof.
  intros Ha H. unfold Sequence.set_master_sub_sequences in H. cbv zeta in H.
  pose proof Ha as Ha'. unfold master_attrs in Ha'.
  destruct (Sequence.master_sub_sequences self) as [[|kv d]|].
  - injection H as <-. frame_back Ha'. reflexivity.
  - bind_inv H. destruct topic0 as [[[[[mn nn] nf] nss] fvi] t1]. injection H as <-.
    frame_back Ha'.
    pose proof (master_loop_frame _ _ _ a Ha E) as F. cbn [snd] in F. rewrite F.
    frame_back Ha'. reflexivity.
  - injection H as <-. frame_back Ha'. reflexivity.
Qed.

(** ** sequence.py: the sub-sequence block *)

Lemma sub_sequence_body_spec (i : nat) (ss : SubSequence.t)
    (names fs names' fs' : list string) (k k' : nat) (t t' : obj) :
  Sequence.sub_sequence_body (Z.of_nat i, ss) (names, fs, k, t) = Ok (names', fs', k', t') ->
  k' = (k + length (SubSequence.visits_per_filter ss))%nat
  /\ slot "numSubSequenceFilters" i t'
     = Some (VInt (Z.of_nat (length (SubSequence.filters ss))))
  /\ (forall j v, SubSequence.visits_per_filter ss !! j = Some v ->
        slot "numSubSequenceFilterVisits" (k + j) t' = Some (VInt v))
  /\ (forall j, (j < k)%nat ->
        slot "numSubSequenceFilterVisits" j t' = slot "numSubSequenceFilterVisits" j t)
  /\ (forall j, j <> i ->
        slot "numSubSequenceFilters" j t' = slot "numSubSequenceFilters" j t)
  /\ (forall a, a ∉ sub_sequence_attrs -> t' !! a = t !! a)
  /\ t' !! "numSubSequences" = t !! "numSubSequences".
Proof.
  intro H. unfold Sequence.sub_sequence_body in H.
  apply bind_Ok in H as (t1 & Efilters & H).
  apply bind_Ok in H as ([k2 t2] & Evisits & H).
  binds H. inversion H; subst names' fs' k' t'; clear H.
  destruct (filter_visit_loop_spec _ _ _ _ _ _ Evisits) as (-> & Hvs & Hbelow & Hframe).
  assert (Htail : forall a, a = "numSubSequenceFilters" \/ a = "numSubSequenceFilterVisits" ->
                            topic5 !! a = t2 !! a).
  { intros a [-> | ->]; frame_back_with discriminate; reflexivity. }
  pose proof (setitem_int_nat _ _ _ _ _ Efilters) as Efilters'.
  split; [reflexivity|]. split; [|split; [|split; [|split; [|split]]]].
  - rewrite (slot_ext _ i t2) by (apply Htail; left; reflexivity).
    rewrite (slot_ext _ i t1) by (apply Hframe; discriminate).
    apply (setitem_slot_eq _ _ _ _ _ Efilters').
  - intros j v Hj.
    rewrite (slot_ext _ (k + j) t2) by (apply Htail; right; reflexivity).
    apply (Hvs j v Hj).
  - intros j Hj.
    rewrite (slot_ext _ j t2) by (apply Htail; right; reflexivity).
    rewrite (Hbelow j Hj). apply slot_ext.
    apply (setitem_int_lookup_ne _ _ _ _ _ _ Efilters). discriminate.
  - intros j Hj.
    rewrite (slot_ext _ j t2) by (apply Htail; left; reflexivity).
    rewrite (slot_ext _ j t1) by (apply Hframe; discriminate).
    apply (setitem_slot_ne _ _ _ _ _ _ _ Efilters'). right. exact Hj.
  - intros a Ha. unfold sub_sequence_attrs in Ha. frame_back Ha.
    rewrite Hframe by neq_from Ha. frame_back Ha. reflexivity.
  - frame_back_with discriminate. rewrite Hframe by discriminate.
    frame_back_with discriminate. reflexivity.
Qed.

(** What a returned topic holds for two sub-sequences under the keys 0 and 1. *)
Lemma Sequence_set_topic_two_sub_sequences_spec
    (self : Sequence.t) (A B : SubSequence.t) (topic topic' : obj) :
  Sequence.sub_sequences self = Some [(0, A); (1, B)] ->
  length (SubSequence.filters A) = 2%nat ->
  length (SubSequence.filters B) = 3%nat ->
  length (SubSequence.visits_per_filter A) = length (SubSequence.filters A) ->
  length (SubSequence.visits_per_filter B) = length (SubSequence.filters B) ->
  Sequence.set_topic self topic = Ok topic' ->
  topic' !! "numSubSequences" = Some (VInt 2)
  /\ slot "numSubSequenceFilters" 0 topic' = Some (VInt 2)
  /\ slot "numSubSequenceFilters" 1 topic' = Some (VInt 3)
  /\ (forall j, (j < 2)%nat ->
        exists v, SubSequence.visits_per_filter A !! j = Some v
                  /\ slot "numSubSequenceFilterVisits" j topic' = Some (VInt v))
  /\ (forall j, (j < 3)%nat ->
        exists v, SubSequence.visits_per_filter B !! j = Some v
                  /\ slot "numSubSequenceFilterVisits" (2 + j) topic' = Some (VInt v)).
Proof.
  intros Hsubs HfA HfB HvA HvB H. unfold Sequence.set_topic in H. cbv zeta in H.
  apply bind_Ok in H as (t1 & Eregions & H).
  apply bind_Ok in H as (t2 & Esubs & H).
  apply bind_Ok in H as (t3 & Emasters & H).
  apply bind_Ok in H as (t4 & Efilters & H).
  injection H as <-.
  (* the blocks after the sub-sequences leave their attributes alone *)
  assert (Hlater : forall a, a ∈ sub_sequence_attrs ->
                             Sequence.set_scheduling self t4 !! a = t2 !! a).
  { intros a Ha.
    assert (Hall : Forall (fun a => (a ∉ sequence_scheduling_attrs)
                                    /\ (a ∉ sequence_filter_attrs)
                                    /\ (a ∉ master_attrs)) sub_sequence_attrs).
    { refine (bool_decide_unpack _ _). vm_compute. exact I. }
    rewrite Forall_forall in Hall. destruct (Hall a Ha) as (H1 & H2 & H3).
    rewrite (Sequence_set_scheduling_frame self t4 a H1).
    rewrite (Sequence_set_filters_frame self t3 t4 a H2 Efilters).
    apply (Sequence_set_master_sub_sequences_frame self t2 t3 a H3 Emasters). }
  (* the two turns of the sub-sequence loop *)
  unfold Sequence.set_sub_sequences in Esubs. rewrite Hsubs in Esubs. cbv zeta in Esubs.
  apply bind_Ok in Esubs as ([[[names fs] k] tl] & Eloop & Esubs). injection Esubs as <-.
  unfold items in Eloop. cbn [for_each] in Eloop.
  destruct (Sequence.sub_sequence_body (0, A) _) as [[[[names1 fs1] k1] ta]|] eqn:EA;
    [|discriminate].
  destruct (Sequence.sub_sequence_body (1, B) _) as [[[[names2 fs2] k2] tb]|] eqn:EB;
    [|discriminate].
  injection Eloop as <- <- <- <-.
  destruct (sub_sequence_body_spec 0 A _ _ _ _ _ _ _ _ EA)
    as (-> & HnA & HvsA & _ & _ & _ & HA).
  destruct (sub_sequence_body_spec 1 B _ _ _ _ _ _ _ _ EB)
    as (_ & HnB & HvsB & HbelowB & HotherB & _ & HB).
  assert (Hnames : forall a, a = "numSubSequenceFilters" \/ a = "numSubSequenceFilterVisits" ->
                             forall j, slot a j (Sequence.set_scheduling self t4) = slot a j tb).
  { intros a Ha j. apply slot_ext. rewrite Hlater by (destruct Ha as [-> | ->]; in_list).
    destruct Ha as [-> | ->]; frame_back_with discriminate; reflexivity. }
  split; [|split; [|split; [|split]]].
  - rewrite Hlater by in_list. frame_back_with discriminate.
    rewrite HB, HA. unfold setattr. rewrite lookup_insert_eq. reflexivity.
  - rewrite Hnames by (left; reflexivity). rewrite HotherB by discriminate.
    rewrite HnA, HfA. reflexivity.
  - rewrite Hnames by (left; reflexivity). rewrite HnB, HfB. reflexivity.
  - intros j Hj. rewrite HfA in HvA.
    destruct (lookup_lt_is_Some_2 (SubSequence.visits_per_filter A) j) as [v Hv]; [lia|].
    exists v. split; [exact Hv|].
    rewrite Hnames by (right; reflexivity). rewrite HbelowB by (cbn; lia).
    apply (HvsA j v Hv).
  - intros j Hj. rewrite HfB in HvB.
    destruct (lookup_lt_is_Some_2 (SubSequence.visits_per_filter B) j) as [v Hv]; [lia|].
    exists v. split; [exact Hv|].
    rewrite Hnames by (right; reflexivity).
    replace (2 + j)%nat with (0 + length (SubSequence.visits_per_filter A) + j)%nat by lia.
    apply (HvsB j v Hv).
Qed.

(** C8, counterexample to "for every proposal with two sub-sequences": the
    slot written is the dictionary key, so the same two sub-sequences
    stored under the keys 1 and 2 leave slot 0 of [numSubSequenceFilters]
    untouched and put 2 and 3 in slots 1 and 2. *)
Lemma Sequence_set_topic_sub_sequence_keys_are_slots :
  exists topic,
    Sequence.set_topic
      (Sample.sequence (Some [(1, Sample.two_filters); (2, Sample.three_filters)]) None)
      Sample.sequencePropConfig = Ok topic
    /\ topic !! "numSubSequences" = Some (VInt 2)
    /\ slot "numSubSequenceFilters" 0 topic = Some (VInt 0)
    /\ slot "numSubSequenceFilters" 1 topic = Some (VInt 2)
    /\ slot "numSubSequenceFilters" 2 topic = Some (VInt 3).
Proof.
  exists (returned (Sequence.set_topic
                      (Sample.sequence
                         (Some [(1, Sample.two_filters); (2, Sample.three_filters)]) None)
                      Sample.sequencePropConfig)).
  split; [apply returned_eq; vm_compute; reflexivity|].
  repeat split; vm_compute; reflexivity.
Qed.

(** ** sequence.py: master sub-sequences and the other attributes *)

Lemma agree_setattr (X : list string) (a : string) (v : value) (o1 o2 : obj) :
  agree X o1 o2 -> agree X (setattr a v o1) (setattr a v o2).
Proof.
  intros H b Hb. unfold setattr. destruct (decide (a = b)) as [->|Hne].
  - rewrite !lookup_insert_eq. reflexivity.
  - rewrite !lookup_insert_ne by exact Hne. apply H. exact Hb.
Qed.

Lemma agree_setitem (X : list string) (a : string) (i : nat) (v : value)
    (o1 o2 o1' o2' : obj) :
  a ∉ X -> agree X o1 o2 ->
  setitem a i v o1 = Ok o1' -> setitem a i v o2 = Ok o2' -> agree X o1' o2'.
Proof.
  intros Ha H H1 H2.
  destruct (setitem_inv _ _ _ _ _ H1) as (l1 & Hl1 & _ & ->).
  destruct (setitem_inv _ _ _ _ _ H2) as (l2 & Hl2 & _ & ->).
  assert (l1 = l2) as -> by (rewrite (H a Ha) in Hl1; congruence).
  intros b Hb. destruct (decide (a = b)) as [->|Hne].
  - rewrite !lookup_insert_eq. reflexivity.
  - rewrite !lookup_insert_ne by exact Hne. apply H. exact Hb.
Qed.

Lemma Sequence_exposure_loop_agree (X : list string) (l : list float) (k : nat)
    (t1 t2 : obj) (s1' s2' : nat * obj) :
  "exposures" ∉ X -> agree X t1 t2 ->
  for_each Sequence.exposure_body l (k, t1) = Ok s1' ->
  for_each Sequence.exposure_body l (k, t2) = Ok s2' ->
  fst s1' = fst s2' /\ agree X (snd s1') (snd s2').
Proof.
  intros HX Hag.
  apply (for_each_rel (fun s1 s2 => fst s1 = fst s2 /\ agree X (snd s1) (snd s2))
                      Sequence.exposure_body l (k, t1) (k, t2) s1' s2'); [|split; [reflexivity|exact Hag]].
  intros x [e1 u1] [e2 u2] u1' u2' [He Hu] H1 H2. cbn [fst snd] in He, Hu. subst e2.
  unfold Sequence.exposure_body in H1, H2. bind_inv H1. bind_inv H2.
  injection H1 as <-. injection H2 as <-. cbn [fst snd].
  split; [reflexivity|]. eapply agree_setitem; [exact HX|exact Hu|eassumption|eassumption].
Qed.

(** Pair the assignments of two runs, last one first. *)
Ltac agree_back :=
  repeat (eapply agree_setitem; [ | | eassumption | eassumption ]; [notin_compute | ]).

Lemma Sequence_filter_body_agree (iv : nat * BandFilter.t)
    (s1 s2 s1' s2' : list string * nat * obj) :
  filters_related master_attrs s1 s2 ->
  Sequence.filter_body iv s1 = Ok s1' -> Sequence.filter_body iv s2 = Ok s2' ->
  filters_related master_attrs s1' s2'.
Proof.
  destruct iv as [i v], s1 as [[names1 e1] t1], s2 as [[names2 e2] t2].
  intros (Hn & He & Hag) H1 H2. cbn [fst snd] in Hn, He, Hag. subst names2 e2.
  unfold Sequence.filter_body in H1, H2.
  do 4 bind_inv H1. apply bind_Ok in H1 as (r1 & Eloop1 & H1).
  do 4 bind_inv H2. apply bind_Ok in H2 as (r2 & Eloop2 & H2).
  injection H1 as <-. injection H2 as <-.
  assert (Hmid : agree master_attrs topic2 topic6) by (agree_back; exact Hag).
  destruct (Sequence_exposure_loop_agree master_attrs _ _ _ _ _ _
              ltac:(notin_compute) Hmid Eloop1 Eloop2) as [Hk Hr].
  split; [reflexivity|]. split; [exact Hk|exact Hr].
Qed.

Lemma Sequence_set_filters_agree (self : Sequence.t) (t1 t2 t1' t2' : obj) :
  agree master_attrs t1 t2 ->
  Sequence.set_filters self t1 = Ok t1' -> Sequence.set_filters self t2 = Ok t2' ->
  agree master_attrs t1' t2'.
Proof.
  intros Hag H1 H2. unfold Sequence.set_filters in H1, H2. cbv zeta in H1, H2.
  destruct (Sequence.filters self) as [[|kv d]|].
  - injection H1 as <-. injection H2 as <-. apply agree_setattr. exact Hag.
  - apply bind_Ok in H1 as ([[names1 e1] u1] & E1 & H1).
    apply bind_Ok in H2 as ([[names2 e2] u2] & E2 & H2).
    injection H1 as <-. injection H2 as <-.
    assert (Hstart : filters_related master_attrs
                       ([], 0%nat, setattr "numFilters" (VInt (Z.of_nat (length (kv :: d)))) t1)
                       ([], 0%nat, setattr "numFilters" (VInt (Z.of_nat (length (kv :: d)))) t2)).
    { split; [reflexivity|]. split; [reflexivity|]. apply agree_setattr. exact Hag. }
    destruct (for_each_rel (filters_related master_attrs) Sequence.filter_body _ _ _ _ _
                (fun x a b a' b' => Sequence_filter_body_agree x a b a' b') Hstart E1 E2)
      as (Hn & _ & Hu).
    cbn [fst snd] in Hn, Hu. subst names2. apply agree_setattr. exact Hu.
  - injection H1 as <-. injection H2 as <-. apply agree_setattr. exact Hag.
Qed.

Lemma Sequence_set_scheduling_agree (self : Sequence.t) (t1 t2 : obj) :
  agree master_attrs t1 t2 ->
  agree master_attrs (Sequence.set_scheduling self t1) (Sequence.set_scheduling self t2).
Proof.
  intro H. unfold Sequence.set_scheduling. cbv zeta. repeat apply agree_setattr. exact H.
Qed.

(** [set_topic] reads the master sub-sequences in one block only. *)
Lemma Sequence_set_topic_with_masters (self : Sequence.t)
    (ms : option (dict Z MasterSubSequence.t)) (topic : obj) :
  Sequence.set_topic (with_masters self ms) topic
  = (do topic <- Sequence.set_user_regions self (Sequence.set_sky self topic);
     do topic <- Sequence.set_sub_sequences self topic;
     do topic <- Sequence.set_master_sub_sequences (with_masters self ms) topic;
     do topic <- Sequence.set_filters self topic;
     Ok (Sequence.set_scheduling self topic)).
Proof. reflexivity. Qed.

(** Two encodings that differ only in the master sub-sequences. *)
Lemma Sequence_set_topic_masters_agree
    (self : Sequence.t) (ms ms' : option (dict Z MasterSubSequence.t))
    (topic topic1 topic2 : obj) :
  Sequence.set_topic (with_masters self ms) topic = Ok topic1 ->
  Sequence.set_topic (with_masters self ms') topic = Ok topic2 ->
  (forall a, a ∉ master_attrs -> topic1 !! a = topic2 !! a)
  /\ (forall a, a ∈ sub_sequence_attrs -> topic1 !! a = topic2 !! a).
Proof.
  intros H1 H2. rewrite Sequence_set_topic_with_masters in H1, H2.
  apply bind_Ok in H1 as (r1 & Er1 & H1). apply bind_Ok in H2 as (r2 & Er2 & H2).
  assert (r2 = r1) as -> by congruence. clear Er2.
  apply bind_Ok in H1 as (s1 & Es1 & H1). apply bind_Ok in H2 as (s2 & Es2 & H2).
  assert (s2 = s1) as -> by congruence. clear Es2.
  apply bind_Ok in H1 as (m1 & Em1 & H1). apply bind_Ok in H2 as (m2 & Em2 & H2).
  apply bind_Ok in H1 as (f1 & Ef1 & H1). apply bind_Ok in H2 as (f2 & Ef2 & H2).
  injection H1 as <-. injection H2 as <-.
  assert (Hm : agree master_attrs m1 m2).
  { intros a Ha.
    rewrite (Sequence_set_master_sub_sequences_frame _ _ _ a Ha Em1).
    rewrite (Sequence_set_master_sub_sequences_frame _ _ _ a Ha Em2). reflexivity. }
  assert (Hall : agree master_attrs (Sequence.set_scheduling self f1)
                                    (Sequence.set_scheduling self f2)).
  { apply Sequence_set_scheduling_agree.
    apply (Sequence_set_filters_agree self m1 m2 f1 f2 Hm Ef1 Ef2). }
  split; [exact Hall|].
  intros a Ha. apply Hall.
  assert (Hdisj : Forall (fun a => a ∉ master_attrs) sub_sequence_attrs).
  { refine (bool_decide_unpack _ _). vm_compute. exact I. }
  rewrite Forall_forall in Hdisj. apply Hdisj. exact Ha.
Qed.

(** ** When the encoders return *)

Lemma has_slots_setitem (a : string) (i : nat) (v : value) (o o' : obj) (an : string * nat) :
  setitem a i v o = Ok o' -> has_slots o an -> has_slots o' an.
Proof.
  intros H (l & Hl & Hn). destruct (setitem_inv _ _ _ _ _ H) as (l0 & Hl0 & _ & ->).
  unfold has_slots. destruct (decide (a = fst an)) as [Ha|Ha].
  - rewrite <- Ha in Hl |- *. rewrite lookup_insert_eq.
    assert (l0 = l) as -> by congruence.
    eexists. split; [reflexivity|]. rewrite length_insert. exact Hn.
  - rewrite lookup_insert_ne by exact Ha. eauto.
Qed.

Lemma room_setitem (req : list (string * nat)) (a : string) (i : nat) (v : value)
    (o o' : obj) :
  setitem a i v o = Ok o' -> room req o -> room req o'.
Proof.
  intros H Hr. eapply Forall_impl; [exact Hr|]. intros an. apply (has_slots_setitem _ _ _ _ _ _ H).
Qed.

Lemma room_setattr (req : list (string * nat)) (b : string) (v : value) (o : obj) :
  b ∉ map fst req -> room req o -> room req (setattr b v o).
Proof.
  intros Hb Hr. unfold room in *. rewrite Forall_forall in Hr |- *.
  intros an Han. destruct (Hr an Han) as (l & Hl & Hn).
  exists l. split; [|exact Hn]. unfold setattr. rewrite lookup_insert_ne; [exact Hl|].
  intros ->. apply Hb. apply list_elem_of_fmap. exists an. split; [reflexivity|exact Han].
Qed.

(** An assignment to a slot that exists returns and keeps the room. *)
Lemma setitem_room (req : list (string * nat)) (a : string) (n i : nat) (v : value) (o : obj) :
  room req o -> (a, n) ∈ req -> (i < n)%nat ->
  exists o', setitem a i v o = Ok o' /\ room req o'.
Proof.
  intros Hr Hin Hi. pose proof Hr as Hr'. unfold room in Hr'. rewrite Forall_forall in Hr'.
  destruct (Hr' _ Hin) as (l & Hl & Hn). cbn [fst snd] in Hl, Hn.
  assert (E : setitem a i v o = Ok (<[a := VList (<[i := v]> l)]> o)).
  { unfold setitem. rewrite Hl. destruct (decide (i < length l)%nat); [reflexivity|lia]. }
  eexists. split; [exact E|]. apply (room_setitem _ _ _ _ _ _ E Hr).
Qed.

(** A loop returns when each turn returns and re-establishes what the
    turns that remain need. *)
Lemma for_each_ok {A S : Type} (I : list A -> S -> Prop) (body : A -> S -> result S) :
  (forall x rest s, I (x :: rest) s -> exists s', body x s = Ok s' /\ I rest s') ->
  forall l s, I l s -> exists s', for_each body l s = Ok s' /\ I [] s'.
Proof.
  intros Hbody l. induction l as [|x l IH]; intros s Hs; cbn [for_each].
  - eauto.
  - destruct (Hbody x l s Hs) as (s1 & -> & Hs1). apply IH. exact Hs1.
Qed.

Lemma enumerate_from_bound {A : Type} (l : list A) (k : nat) :
  Forall (fun iv => (fst iv < k + length l)%nat) (enumerate_from k l).
Proof.
  revert k. induction l as [|x l IH]; intro k; cbn; constructor.
  - cbn. lia.
  - eapply Forall_impl; [apply (IH (S k))|]. intros iv H. cbn in H. lia.
Qed.

(** Bind of a call that returns. *)
Lemma bind_ok_eq {A B : Type} (m : result A) (k : A -> result B) (a : A) :
  m = Ok a -> Py.bind m k = k a.
Proof. intros ->. reflexivity. Qed.

(** Run the next slot assignment of the goal. *)
Ltac run_setitem Hr n :=
  match goal with
  | |- exists _, Py.bind (setitem ?a ?i ?v ?o) _ = Ok _ /\ _ =>
      let o' := fresh "o" in
      let E := fresh "E" in
      let Hr' := fresh "Hr" in
      destruct (setitem_room _ a n i v o Hr) as (o' & E & Hr');
      [first [assumption | in_list] | lia | rewrite (bind_ok_eq _ _ _ E); cbn beta; clear E]
  end.

Lemma map_snd_enumerate_from {A : Type} (l : list A) (k : nat) :
  map snd (enumerate_from k l) = l.
Proof. revert k. induction l as [|x l IH]; intro k; cbn; [reflexivity|]. f_equal. apply IH. Qed.

Lemma length_values {K V : Type} (d : dict K V) : length (values d) = length d.
Proof. apply length_map. Qed.

Lemma selection_loop_ok (req : list (string * nat)) (mins maxs bounds : string) (n : nat)
    (l : list (nat * Selection.t)) (lt : list string) (o : obj) :
  room req o -> (mins, n) ∈ req -> (maxs, n) ∈ req -> (bounds, n) ∈ req ->
  Forall (fun iv => (fst iv < n)%nat) l ->
  exists st', for_each (General.selection_body mins maxs bounds) l (lt, o) = Ok st'
              /\ room req (snd st').
Proof.
  intros Hr Hmin Hmax Hbnd Hl.
  destruct (for_each_ok (fun rem st => room req (snd st)
                                       /\ Forall (fun iv => (fst iv < n)%nat) rem)
              (General.selection_body mins maxs bounds)) with (l := l) (s := (lt, o))
    as (st' & E & Hst & _); [|split; assumption|eauto].
  intros [i v] rest [lt0 t] [Hrt Hrem]. cbn [snd] in Hrt.
  apply Forall_cons in Hrem as [Hi Hrest]. cbn [fst] in Hi.
  unfold General.selection_body.
  run_setitem Hrt n. run_setitem Hr0 n. run_setitem Hr1 n.
  eexists. split; [reflexivity|]. split; assumption.
Qed.

Lemma General_set_region_selections_ok (self : General.t) (o : obj) :
  room (general_required self) o ->
  exists o', General.set_region_selections self o = Ok o' /\ room (general_required self) o'.
Proof.
  intro Hr. unfold General.set_region_selections. cbv zeta.
  assert (Hattr : forall b v t, b ∉ map fst (general_required self) ->
                    room (general_required self) t ->
                    room (general_required self) (setattr b v t))
    by (intros b v t; apply room_setattr).
  destruct (SkyRegion.selections (General.sky_region self)) as [[|kv d]|] eqn:Hsel.
  - cbn [Py.bind]. eexists. split; [reflexivity|].
    apply Hattr; [notin_compute|]. apply Hattr; [notin_compute|]. exact Hr.
  - destruct (selection_loop_ok (general_required self)
                "regionMinimums" "regionMaximums" "regionBounds" (length (kv :: d))
                (enumerate (values (kv :: d))) []
                (setattr "numRegionSelections" (VInt (Z.of_nat (length (kv :: d)))) o))
      as ([lt t] & E & Ht).
    + apply Hattr; [notin_compute|exact Hr].
    + unfold general_required. rewrite Hsel. in_list.
    + unfold general_required. rewrite Hsel. in_list.
    + unfold general_required. rewrite Hsel. in_list.
    + unfold enumerate. pose proof (enumerate_from_bound (values (kv :: d)) 0) as Hb.
      rewrite length_values in Hb. exact Hb.
    + rewrite E. cbn [Py.bind snd] in Ht |- *. eexists. split; [reflexivity|].
      apply Hattr; [notin_compute|]. apply Hattr; [notin_compute|]. exact Ht.
  - cbn [Py.bind]. eexists. split; [reflexivity|].
    apply Hattr; [notin_compute|]. apply Hattr; [notin_compute|]. exact Hr.
Qed.

Lemma General_set_time_ranges_ok (self : General.t) (o : obj) :
  room (general_required self) o ->
  exists o', General.set_time_ranges self o = Ok o' /\ room (general_required self) o'.
Proof.
  intro Hr. unfold General.set_time_ranges. cbv zeta.
  assert (Hattr : room (general_required self)
                    (setattr "numTimeRanges"
                       (VInt match SkyRegion.time_ranges (General.sky_region self) with
                             | Some d => Z.of_nat (length d)
                             | None => 0
                             end) o))
    by (apply room_setattr; [notin_compute|exact Hr]).
  destruct (SkyRegion.time_ranges (General.sky_region self)) as [[|kv d]|] eqn:Htr;
    [eauto| |eauto].
  destruct (for_each_ok (fun rem t => room (general_required self) t
                           /\ Forall (fun iv => (fst iv < length (kv :: d))%nat) rem)
              General.time_range_body) with (l := enumerate (values (kv :: d)))
              (s := setattr "numTimeRanges" (VInt (Z.of_nat (length (kv :: d)))) o)
    as (t' & E & Ht & _).
  - intros [i v] rest t [Hrt Hrem]. apply Forall_cons in Hrem as [Hi Hrest]. cbn [fst] in Hi.
    unfold General.time_range_body.
    assert (Hin1 : ("timeRangeStarts", length (kv :: d)) ∈ general_required self)
      by (unfold general_required; rewrite Htr; in_list).
    assert (Hin2 : ("timeRangeEnds", length (kv :: d)) ∈ general_required self)
      by (unfold general_required; rewrite Htr; in_list).
    run_setitem Hrt (length (kv :: d)).
    destruct (setitem_room _ "timeRangeEnds" _ i (VInt (TimeRange.end_ v)) o0 Hr0 Hin2 Hi)
      as (o1 & E1 & Hr1).
    exists o1. split; [exact E1|]. split; assumption.
  - split; [exact Hattr|]. unfold enumerate.
    pose proof (enumerate_from_bound (values (kv :: d)) 0) as Hb.
    rewrite length_values in Hb. exact Hb.
  - eauto.
Qed.

Lemma selection_index_loop_ok (req : list (string * nat)) (total : nat) (idxs : list Z)
    (k : nat) (t : obj) :
  room req t -> ("selectionMappings", total) ∈ req -> (k + length idxs <= total)%nat ->
  exists s', for_each General.selection_index_body idxs (k, t) = Ok s'
             /\ fst s' = (k + length idxs)%nat /\ room req (snd s').
Proof.
  intros Hr Hin Hk.
  destruct (for_each_ok (fun rem (s : nat * obj) =>
                           room req (snd s)
                           /\ (fst s + length rem = k + length idxs)%nat)
              General.selection_index_body) with (l := idxs) (s := (k, t))
    as ([k' t'] & E & Ht & Hk'); [|split; [assumption|reflexivity]|].
  - intros index rest [k0 t0] [Hrt Hlen]. cbn [fst snd length] in Hrt, Hlen.
    unfold General.selection_index_body.
    run_setitem Hrt total.
    eexists. split; [reflexivity|]. cbn [fst snd]. split; [assumption|lia].
  - cbn [fst snd length] in Ht, Hk'. eexists. split; [exact E|]. cbn [fst snd].
    split; [lia|assumption].
Qed.

Lemma General_set_selection_mappings_ok (self : General.t) (o : obj) :
  room (general_required self) o ->
  exists o', General.set_selection_mappings self o = Ok o' /\ room (general_required self) o'.
Proof.
  intro Hr. unfold General.set_selection_mappings.
  destruct (SkyRegion.selection_mapping (General.sky_region self)) as [[|kv d]|] eqn:Hmap;
    [eauto| |eauto].
  set (vs := values (kv :: d)).
  set (total := sum_list (map (fun v => length (SelectionList.indexes v)) vs)).
  assert (Hin1 : ("numSelectionMappings", length vs) ∈ general_required self)
    by (unfold general_required; rewrite Hmap; in_list).
  assert (Hin2 : ("selectionMappings", total) ∈ general_required self)
    by (unfold general_required; rewrite Hmap; in_list).
  destruct (for_each_ok
              (fun rem (s : nat * obj) =>
                 room (general_required self) (snd s)
                 /\ Forall (fun iv => (fst iv < length vs)%nat) rem
                 /\ (fst s + sum_list (map (fun v => length (SelectionList.indexes v))
                                           (map snd rem)) <= total)%nat)
              General.selection_mapping_body) with (l := enumerate vs) (s := (0%nat, o))
    as ([k' t'] & E & Ht & _).
  - intros [i v] rest [k t] (Hrt & Hrem & Hsum). cbn [fst snd map] in Hrt, Hsum.
    change (sum_list (?x :: ?l)) with (x + sum_list l)%nat in Hsum.
    apply Forall_cons in Hrem as [Hi Hrest]. cbn [fst] in Hi.
    unfold General.selection_mapping_body.
    run_setitem Hrt (length vs).
    destruct (selection_index_loop_ok _ total (SelectionList.indexes v) k o0 Hr0 Hin2)
      as ([k1 t1] & E1 & Hk1 & Hr1); [lia|].
    cbn [fst snd] in Hk1, Hr1. eexists. split; [exact E1|]. cbn [fst snd].
    split; [assumption|]. split; [assumption|lia].
  - cbn [fst snd]. split; [exact Hr|]. split.
    + unfold enumerate. apply (enumerate_from_bound vs 0).
    + unfold enumerate. rewrite map_snd_enumerate_from. unfold total. lia.
  - rewrite E. cbn [Py.bind snd] in Ht |- *. eauto.
Qed.

Lemma General_set_exclusion_selections_ok (self : General.t) (o : obj) :
  room (general_required self) o ->
  exists o', General.set_exclusion_selections self o = Ok o'
             /\ room (general_required self) o'.
Proof.
  intro Hr. unfold General.set_exclusion_selections. cbv zeta.
  assert (Hattr : forall b v t, b ∉ map fst (general_required self) ->
                    room (general_required self) t ->
                    room (general_required self) (setattr b v t))
    by (intros b v t; apply room_setattr).
  destruct (SkyExclusion.selections (General.sky_exclusion self)) as [[|kv d]|] eqn:Hsel.
  - eexists. split; [reflexivity|]. apply Hattr; [notin_compute|exact Hr].
  - destruct (selection_loop_ok (general_required self)
                "exclusionMinimums" "exclusionMaximums" "exclusionBounds" (length (kv :: d))
                (enumerate (values (kv :: d))) []
                (setattr "numExclusionSelections" (VInt (Z.of_nat (length (kv :: d)))) o))
      as ([lt t] & E & Ht).
    + apply Hattr; [notin_compute|exact Hr].
    + unfold general_required. rewrite Hsel. in_list.
    + unfold general_required. rewrite Hsel. in_list.
    + unfold general_required. rewrite Hsel. in_list.
    + unfold enumerate. pose proof (enumerate_from_bound (values (kv :: d)) 0) as Hb.
      rewrite length_values in Hb. exact Hb.
    + rewrite E. cbn [Py.bind snd] in Ht |- *. eexists. split; [reflexivity|].
      apply Hattr; [notin_compute|exact Ht].
  - eexists. split; [reflexivity|]. apply Hattr; [notin_compute|exact Hr].
Qed.

Lemma General_exposure_loop_ok (req : list (string * nat)) (total : nat) (xs : list float)
    (e : nat) (t : obj) :
  room req t -> ("exposures", total) ∈ req -> (e + length xs <= total)%nat ->
  exists s', for_each General.exposure_body xs (e, t) = Ok s'
             /\ fst s' = (e + length xs)%nat /\ room req (snd s').
Proof.
  intros Hr Hin He.
  destruct (for_each_ok (fun rem (s : nat * obj) =>
                           room req (snd s)
                           /\ (fst s + length rem = e + length xs)%nat)
              General.exposure_body) with (l := xs) (s := (e, t))
    as ([e' t'] & E & Ht & He'); [|split; [assumption|reflexivity]|].
  - intros x rest [e0 t0] [Hrt Hlen]. cbn [fst snd length] in Hrt, Hlen.
    unfold General.exposure_body.
    run_setitem Hrt total.
    eexists. split; [reflexivity|]. cbn [fst snd]. split; [assumption|lia].
  - cbn [fst snd length] in Ht, He'. eexists. split; [exact E|]. cbn [fst snd].
    split; [lia|assumption].
Qed.

Lemma General_set_filters_ok (self : General.t) (o : obj) :
  room (general_required self) o ->
  exists o', General.set_filters self o = Ok o' /\ room (general_required self) o'.
Proof.
  intro Hr. unfold General.set_filters. cbv zeta.
  assert (Hattr : forall b v t, b ∉ map fst (general_required self) ->
                    room (general_required self) t ->
                    room (general_required self) (setattr b v t))
    by (intros b v t; apply room_setattr).
  destruct (General.filters self) as [[|kv d]|] eqn:Hfl.
  - eexists. split; [reflexivity|]. apply Hattr; [notin_compute|exact Hr].
  - set (vs := values (kv :: d)).
    set (total := sum_list (map (fun v => length (GeneralBandFilter.exposures v)) vs)).
    assert (Hin : forall a, a ∈ ["numVisits"; "numGroupedVisits"; "maxGroupedVisits";
                                 "brightLimit"; "darkLimit"; "maxSeeing";
                                 "numFilterExposures"] ->
                            (a, length vs) ∈ general_required self).
    { intros a Ha. unfold general_required. rewrite Hfl. fold vs.
      repeat (apply elem_of_cons in Ha as [->|Ha]; [in_list|]). inversion Ha. }
    assert (Hexp : ("exposures", total) ∈ general_required self)
      by (unfold general_required; rewrite Hfl; in_list).
    destruct (for_each_ok
                (fun rem (s : list string * nat * obj) =>
                   room (general_required self) (snd s)
                   /\ Forall (fun iv => (fst iv < length vs)%nat) rem
                   /\ (snd (fst s)
                       + sum_list (map (fun v => length (GeneralBandFilter.exposures v))
                                       (map snd rem)) <= total)%nat)
                General.filter_body) with (l := enumerate vs)
                (s := ([] : list string, 0%nat,
                       setattr "numFilters" (VInt (Z.of_nat (length (kv :: d)))) o))
      as ([[names e] t'] & E & Ht & _).
    + intros [i v] rest [[names e] t] (Hrt & Hrem & Hsum). cbn [fst snd map] in Hrt, Hsum.
      change (sum_list (?x :: ?l)) with (x + sum_list l)%nat in Hsum.
      apply Forall_cons in Hrem as [Hi Hrest]. cbn [fst] in Hi.
      unfold General.filter_body.
      pose proof (Hin "numVisits" ltac:(in_list)).
      pose proof (Hin "numGroupedVisits" ltac:(in_list)).
      pose proof (Hin "maxGroupedVisits" ltac:(in_list)).
      pose proof (Hin "brightLimit" ltac:(in_list)).
      pose proof (Hin "darkLimit" ltac:(in_list)).
      pose proof (Hin "maxSeeing" ltac:(in_list)).
      pose proof (Hin "numFilterExposures" ltac:(in_list)).
      run_setitem Hrt (length vs). run_setitem Hr0 (length vs). run_setitem Hr1 (length vs).
      run_setitem Hr2 (length vs). run_setitem Hr3 (length vs). run_setitem Hr4 (length vs).
      run_setitem Hr5 (length vs).
      destruct (General_exposure_loop_ok _ total (GeneralBandFilter.exposures v) e o6 Hr6 Hexp)
        as ([e1 t1] & E1 & He1 & Hr7); [lia|].
      cbn [fst snd] in He1, Hr7. rewrite E1. cbn [Py.bind fst snd].
      eexists. split; [reflexivity|]. cbn [fst snd].
      split; [assumption|]. split; [assumption|lia].
    + cbn [fst snd]. split; [apply Hattr; [notin_compute|exact Hr]|]. split.
      * unfold enumerate. apply (enumerate_from_bound vs 0).
      * unfold enumerate. rewrite map_snd_enumerate_from. unfold total. lia.
    + fold vs. rewrite E. cbn [Py.bind snd] in Ht |- *. eexists. split; [reflexivity|].
      apply Hattr; [notin_compute|exact Ht].
  - eexists. split; [reflexivity|]. apply Hattr; [notin_compute|exact Hr].
Qed.

(** [General.set_topic] returns on a topic that has room. *)
Lemma General_set_topic_ok (self : General.t) (topic : obj) :
  room (general_required self) topic ->
  exists topic', General.set_topic self topic = Ok topic'.
Proof.
  intro Hr. unfold General.set_topic. cbv zeta.
  assert (Hsky : room (general_required self) (General.set_sky self topic)).
  { unfold General.set_sky. cbv zeta.
    repeat (apply room_setattr; [notin_compute|]). exact Hr. }
  destruct (General_set_region_selections_ok self _ Hsky) as (t1 & -> & Hr1).
  cbn [Py.bind].
  destruct (General_set_time_ranges_ok self _ Hr1) as (t2 & -> & Hr2). cbn [Py.bind].
  destruct (General_set_selection_mappings_ok self _ Hr2) as (t3 & -> & Hr3). cbn [Py.bind].
  destruct (General_set_exclusion_selections_ok self _ Hr3) as (t4 & -> & Hr4). cbn [Py.bind].
  destruct (General_set_filters_ok self _ Hr4) as (t5 & -> & Hr5). cbn [Py.bind].
  eauto.
Qed.

(** ** General.set_topic: the filter names *)

(** C7 (with the conditions the encoding needs): for a proposal with
    N > 0 filters, none of whose names holds a comma, and M region
    selections, [General.set_topic] returns on every topic whose arrays
    have room, and the topic returned has [numFilters = N] and
    [numRegionSelections = M]; [filterNames] splits at "," into exactly the
    N filter names in the iteration order of the mapping, and slot [i] of
    [numVisits], [numGroupedVisits], [maxGroupedVisits], [brightLimit],
    [darkLimit], [maxSeeing] and [numFilterExposures] holds the value of
    the i-th filter. *)
Theorem General_set_topic_filter_names_round_trip
    (self : General.t) (fl : dict string GeneralBandFilter.t) (topic : obj) :
  General.filters self = Some fl ->
  fl <> [] ->
  Forall (fun v => contains "," (GeneralBandFilter.name v) = false) (values fl) ->
  room (general_required self) topic ->
  exists topic',
    General.set_topic self topic = Ok topic'
    /\ topic' !! "numFilters" = Some (VInt (Z.of_nat (length fl)))
    /\ topic' !! "numRegionSelections"
       = Some (VInt (match SkyRegion.selections (General.sky_region self) with
                     | Some d => Z.of_nat (length d)
                     | None => 0
                     end))
    /\ exists names,
         topic' !! "filterNames" = Some (VStr names)
         /\ split "," names = map GeneralBandFilter.name (values fl)
         /\ length (split "," names) = length fl
         /\ forall i v, values fl !! i = Some v ->
              split "," names !! i = Some (GeneralBandFilter.name v)
              /\ forall a x, (a, x) ∈ general_filter_row v -> slot a i topic' = Some x.
Proof.
  intros Hfl Hne Hnames Hroom.
  destruct (General_set_topic_ok self topic Hroom) as (topic' & H).
  exists topic'. split; [exact H|].
  exact (General_set_topic_filters_spec self fl topic topic' Hfl Hne Hnames H).
Qed.

(** The filters "u" and "g" on a fresh topic. *)
Lemma General_set_topic_filter_names_round_trip_witness :
  exists topic',
    General.set_topic (Sample.general [("u", Sample.filter_u); ("g", Sample.filter_g)])
                      Sample.generalPropConfig = Ok topic'
    /\ topic' !! "numFilters" = Some (VInt 2)
    /\ topic' !! "numRegionSelections" = Some (VInt 1)
    /\ exists names,
         topic' !! "filterNames" = Some (VStr names) /\ split "," names = ["u"; "g"].
Proof.
  destruct (General_set_topic_filter_names_round_trip
              (Sample.general [("u", Sample.filter_u); ("g", Sample.filter_g)])
              [("u", Sample.filter_u); ("g", Sample.filter_g)]
              Sample.generalPropConfig eq_refl)
    as (topic' & H & Hn & Hm & names & Hnames & Hsplit & _).
  - discriminate.
  - repeat constructor.
  - unfold room, general_required. cbn [General.filters General.sky_region General.sky_exclusion
      Sample.general SkyRegion.selections SkyRegion.time_ranges SkyRegion.selection_mapping
      SkyExclusion.selections].
    repeat (constructor; [eexists; split; [vm_compute; reflexivity|cbn; lia]|]).
    constructor.
  - exists topic'. split; [exact H|]. split; [exact Hn|]. split; [exact Hm|].
    exists names. split; [exact Hnames|exact Hsplit].
Defined.

(** ** When Sequence.set_topic returns *)

Lemma setitem_int_nonneg (a : string) (k : Z) (v : value) (o : obj) :
  0 <= k -> setitem_int a k v o = setitem a (Z.to_nat k) v o.
Proof.
  intro Hk. unfold setitem_int, setitem. destruct (o !! a) as [[| | | | |l]|]; try reflexivity.
  destruct (decide (0 <= k < Z.of_nat (length l))) as [Hin|Hout].
  - destruct (decide (Z.to_nat k < length l)%nat); [reflexivity|lia].
  - destruct (decide (- Z.of_nat (length l) <= k < 0)); [lia|].
    destruct (decide (Z.to_nat k < length l)%nat); [lia|reflexivity].
Qed.

Lemma key_slots_bound {V : Type} (d : dict Z V) :
  Forall (fun kv => (Z.to_nat (fst kv) < key_slots (Some d))%nat) d.
Proof.
  induction d as [|kv d IH]; [constructor|]. cbn [key_slots foldr]. constructor; [lia|].
  eapply Forall_impl; [exact IH|]. intros kv' H. cbn [key_slots] in H. lia.
Qed.

Lemma filter_visit_loop_ok (req : list (string * nat)) (visits : string) (total : nat)
    (vs : list Z) (k : nat) (t : obj) :
  room req t -> (visits, total) ∈ req -> (k + length vs <= total)%nat ->
  exists s', for_each (Sequence.filter_visit_body visits) vs (k, t) = Ok s'
             /\ fst s' = (k + length vs)%nat /\ room req (snd s').
Proof.
  intros Hr Hin Hk.
  destruct (for_each_ok (fun rem (s : nat * obj) =>
                           room req (snd s)
                           /\ (fst s + length rem = k + length vs)%nat)
              (Sequence.filter_visit_body visits)) with (l := vs) (s := (k, t))
    as ([k' t'] & E & Ht & Hk'); [|split; [assumption|reflexivity]|].
  - intros x rest [k0 t0] [Hrt Hlen]. cbn [fst snd length] in Hrt, Hlen.
    unfold Sequence.filter_visit_body.
    run_setitem Hrt total.
    eexists. split; [reflexivity|]. cbn [fst snd]. split; [assumption|lia].
  - cbn [fst snd length] in Ht, Hk'. eexists. split; [exact E|]. cbn [fst snd].
    split; [lia|assumption].
Qed.

Lemma Sequence_set_user_regions_ok (self : Sequence.t) (o : obj) :
  room (sequence_required self) o ->
  exists o', Sequence.set_user_regions self o = Ok o' /\ room (sequence_required self) o'.
Proof.
  intro Hr. unfold Sequence.set_user_regions. cbv zeta.
  set (n := length (Sequence.sky_user_regions self)).
  destruct (for_each_ok (fun rem t => room (sequence_required self) t
                           /\ Forall (fun iv => (fst iv < n)%nat) rem)
              (fun '(i, sky_user_region) topic =>
                 setitem "userRegionIds" i (VInt sky_user_region) topic))
    with (l := enumerate (Sequence.sky_user_regions self))
         (s := setattr "numUserRegions" (VInt (Z.of_nat n)) o)
    as (t' & E & Ht & _).
  - intros [i x] rest t [Hrt Hrem]. apply Forall_cons in Hrem as [Hi Hrest]. cbn [fst] in Hi.
    destruct (setitem_room _ "userRegionIds" n i (VInt x) t Hrt) as (o1 & E1 & Hr1);
      [unfold sequence_required; in_list|exact Hi|].
    exists o1. split; [exact E1|]. split; assumption.
  - split; [apply room_setattr; [notin_compute|exact Hr]|].
    unfold enumerate. apply (enumerate_from_bound (Sequence.sky_user_regions self) 0).
  - eauto.
Qed.

(** Run the next assignment at a key that is not negative. *)
Ltac run_setitem_int Hr n :=
  match goal with
  | |- exists _, Py.bind (setitem_int ?a ?k ?v ?o) _ = Ok _ /\ _ =>
      rewrite (setitem_int_nonneg a k v o) by assumption; run_setitem Hr n
  end.

Lemma Sequence_set_sub_sequences_ok (self : Sequence.t) (o : obj) :
  keys_nonneg (Sequence.sub_sequences self) ->
  room (sequence_required self) o ->
  exists o', Sequence.set_sub_sequences self o = Ok o' /\ room (sequence_required self) o'.
Proof.
  intros Hkeys Hr. unfold Sequence.set_sub_sequences. cbv zeta.
  assert (Hattr : forall b v t, b ∉ map fst (sequence_required self) ->
                    room (sequence_required self) t ->
                    room (sequence_required self) (setattr b v t))
    by (intros b v t; apply room_setattr).
  destruct (Sequence.sub_sequences self) as [[|kv d]|] eqn:Hsubs.
  - eexists. split; [reflexivity|]. apply Hattr; [notin_compute|exact Hr].
  - set (n := key_slots (Some (kv :: d))).
    set (total := sum_list (map (fun ss => length (SubSequence.visits_per_filter ss))
                                (values (kv :: d)))).
    assert (Hin : forall a, a ∈ ["numSubSequenceFilters"; "numSubSequenceEvents";
                                 "numSubSequenceMaxMissed"; "subSequenceTimeIntervals";
                                 "subSequenceTimeWindowStarts";
                                 "subSequenceTimeWindowMaximums";
                                 "subSequenceTimeWindowEnds"; "subSequenceTimeWeights"] ->
                            (a, n) ∈ sequence_required self).
    { intros a Ha. unfold sequence_required. rewrite Hsubs. fold n.
      repeat (apply elem_of_cons in Ha as [->|Ha]; [in_list|]). inversion Ha. }
    assert (Hvis : ("numSubSequenceFilterVisits", total) ∈ sequence_required self)
      by (unfold sequence_required; rewrite Hsubs; in_list).
    destruct (for_each_ok
                (fun rem (s : Sequence.sub_state) =>
                   room (sequence_required self) (snd s)
                   /\ Forall (fun kv => 0 <= fst kv /\ (Z.to_nat (fst kv) < n)%nat) rem
                   /\ (snd (fst s)
                       + sum_list (map (fun ss => length (SubSequence.visits_per_filter ss))
                                       (map snd rem)) <= total)%nat)
                Sequence.sub_sequence_body) with (l := items (kv :: d))
                (s := ([] : list string, [] : list string, 0%nat,
                       setattr "numSubSequences" (VInt (Z.of_nat (length (kv :: d)))) o))
      as ([[[names fs] k] t'] & E & Ht & _).
    + intros [i ss] rest [[[names fs] k] t] (Hrt & Hrem & Hsum).
      cbn [fst snd map] in Hrt, Hsum.
      change (sum_list (?x :: ?l)) with (x + sum_list l)%nat in Hsum.
      apply Forall_cons in Hrem as [[Hi0 Hi] Hrest]. cbn [fst] in Hi0, Hi.
      unfold Sequence.sub_sequence_body. cbv zeta.
      pose proof (Hin "numSubSequenceFilters" ltac:(in_list)).
      pose proof (Hin "numSubSequenceEvents" ltac:(in_list)).
      pose proof (Hin "numSubSequenceMaxMissed" ltac:(in_list)).
      pose proof (Hin "subSequenceTimeIntervals" ltac:(in_list)).
      pose proof (Hin "subSequenceTimeWindowStarts" ltac:(in_list)).
      pose proof (Hin "subSequenceTimeWindowMaximums" ltac:(in_list)).
      pose proof (Hin "subSequenceTimeWindowEnds" ltac:(in_list)).
      pose proof (Hin "subSequenceTimeWeights" ltac:(in_list)).
      run_setitem_int Hrt n.
      destruct (filter_visit_loop_ok _ "numSubSequenceFilterVisits" total
                  (SubSequence.visits_per_filter ss) k o0 Hr0 Hvis)
        as ([k1 t1] & E1 & Hk1 & Hr1); [lia|].
      cbn [fst snd] in Hk1, Hr1. rewrite E1. cbn [Py.bind]. cbv beta iota.
      run_setitem_int Hr1 n. run_setitem_int Hr2 n. run_setitem_int Hr3 n.
      run_setitem_int Hr4 n. run_setitem_int Hr5 n. run_setitem_int Hr6 n.
      run_setitem_int Hr7 n.
      eexists. split; [reflexivity|]. cbn [fst snd].
      split; [assumption|]. split; [assumption|lia].
    + cbn [fst snd]. split; [apply Hattr; [notin_compute|exact Hr]|]. split.
      * unfold items. cbn [keys_nonneg] in Hkeys.
        pose proof (key_slots_bound (kv :: d)) as Hb. fold n in Hb.
        rewrite Forall_forall in Hkeys, Hb |- *. intros x Hx. split; [apply Hkeys|apply Hb]; exact Hx.
      * unfold items, total, values. lia.
    + rewrite E. cbn [Py.bind snd] in Ht |- *. eexists. split; [reflexivity|].
      apply Hattr; [notin_compute|]. apply Hattr; [notin_compute|]. exact Ht.
  - eexists. split; [reflexivity|]. apply Hattr; [notin_compute|exact Hr].
Qed.

Lemma nested_loop_ok (req : list (string * nat)) (slots visits : nat)
    (l : list SubSequence.t) (mn nn nf : list string) (nss fvi : nat) (t : obj) :
  room req t ->
  (forall a, a ∈ ["numNestedSubSequenceFilters"; "numNestedSubSequenceEvents";
                  "numNestedSubSequenceMaxMissed"; "nestedSubSequenceTimeIntervals";
                  "nestedSubSequenceTimeWindowStarts"; "nestedSubSequenceTimeWindowMaximums";
                  "nestedSubSequenceTimeWindowEnds"; "nestedSubSequenceTimeWeights"] ->
             (a, slots) ∈ req) ->
  ("num_nested_sub_sequence_filter_visits", visits) ∈ req ->
  (nss + length l <= slots)%nat ->
  (fvi + sum_list (map (fun ss => length (SubSequence.visits_per_filter ss)) l) <= visits)%nat ->
  exists mn' nn' nf' t',
    for_each Sequence.nested_body l (mn, nn, nf, nss, fvi, t)
    = Ok (mn', nn', nf', (nss + length l)%nat,
          (fvi + sum_list (map (fun ss => length (SubSequence.visits_per_filter ss)) l))%nat,
          t')
    /\ room req t'.
Proof.
  intros Hr Hin Hvis Hslots Hvisits.
  set (count := fun l => sum_list (map (fun ss => length (SubSequence.visits_per_filter ss)) l)).
  destruct (for_each_ok
              (fun rem (s : Sequence.master_state) =>
                 room req (snd s)
                 /\ (snd (fst (fst s)) + length rem = nss + length l)%nat
                 /\ (snd (fst s) + count rem = fvi + count l)%nat)
              Sequence.nested_body) with (l := l) (s := (mn, nn, nf, nss, fvi, t))
    as ([[[[[mn' nn'] nf'] nss'] fvi'] t'] & E & Ht & Hn & Hv).
  - intros ss rest [[[[[mn0 nn0] nf0] nss0] fvi0] t0] (Hrt & Hn & Hv).
    cbn [fst snd length] in Hrt, Hn, Hv. unfold count in Hv. cbn [map] in Hv.
    change (sum_list (?x :: ?l)) with (x + sum_list l)%nat in Hv. fold (count rest) in Hv.
    fold (count l) in Hv, Hvisits.
    unfold Sequence.nested_body. cbv zeta.
    pose proof (Hin "numNestedSubSequenceFilters" ltac:(in_list)).
    pose proof (Hin "numNestedSubSequenceEvents" ltac:(in_list)).
    pose proof (Hin "numNestedSubSequenceMaxMissed" ltac:(in_list)).
    pose proof (Hin "nestedSubSequenceTimeIntervals" ltac:(in_list)).
    pose proof (Hin "nestedSubSequenceTimeWindowStarts" ltac:(in_list)).
    pose proof (Hin "nestedSubSequenceTimeWindowMaximums" ltac:(in_list)).
    pose proof (Hin "nestedSubSequenceTimeWindowEnds" ltac:(in_list)).
    pose proof (Hin "nestedSubSequenceTimeWeights" ltac:(in_list)).
    run_setitem Hrt slots.
    destruct (filter_visit_loop_ok _ "num_nested_sub_sequence_filter_visits" visits
                (SubSequence.visits_per_filter ss) fvi0 o Hr0 Hvis)
      as ([k1 t1] & E1 & Hk1 & Hr1); [lia|].
    cbn [fst snd] in Hk1, Hr1. rewrite E1. cbn [Py.bind]. cbv beta iota.
    run_setitem Hr1 slots. run_setitem Hr2 slots. run_setitem Hr3 slots.
    run_setitem Hr4 slots. run_setitem Hr5 slots. run_setitem Hr6 slots.
    run_setitem Hr7 slots.
    eexists. split; [reflexivity|]. cbn [fst snd].
    split; [assumption|]. split; lia.
  - cbn [fst snd]. split; [assumption|]. split; reflexivity.
  - cbn [fst snd length] in Ht, Hn, Hv. unfold count in Hv at 1. cbn in Hv.
    exists mn', nn', nf', t'. split; [|exact Ht].
    rewrite E. fold (count l). repeat f_equal; lia.
Qed.

Lemma Sequence_set_master_sub_sequences_ok (self : Sequence.t) (o : obj) :
  keys_nonneg (Sequence.master_sub_sequences self) ->
  room (sequence_required self) o ->
  exists o', Sequence.set_master_sub_sequences self o = Ok o'
             /\ room (sequence_required self) o'.
Proof.
  intros Hkeys Hr. unfold Sequence.set_master_sub_sequences. cbv zeta.
  assert (Hattr : forall b v t, b ∉ map fst (sequence_required self) ->
                    room (sequence_required self) t ->
                    room (sequence_required self) (setattr b v t))
    by (intros b v t; apply room_setattr).
  destruct (Sequence.master_sub_sequences self) as [[|kv d]|] eqn:Hms.
  - eexists. split; [reflexivity|]. apply Hattr; [notin_compute|exact Hr].
  - set (n := key_slots (Some (kv :: d))).
    set (nested := fun l : list (Z * MasterSubSequence.t) =>
                     flat_map (fun m => values (MasterSubSequence.sub_sequences m))
                              (map snd l)).
    set (count := fun l =>
                    sum_list (map (fun ss => length (SubSequence.visits_per_filter ss)) l)).
    assert (Hin : forall a, a ∈ ["numNestedSubSequences"; "numMasterSubSequenceEvents";
                                 "numMasterSubSequenceMaxMissed";
                                 "masterSubSequenceTimeIntervals";
                                 "masterSubSequenceTimeWindowStarts";
                                 "masterSubSequenceTimeWindowMaximums";
                                 "masterSubSequenceTimeWindowEnds";
                                 "masterSubSequenceTimeWeights"] ->
                            (a, n) ∈ sequence_required self).
    { intros a Ha. unfold sequence_required. rewrite Hms. fold n.
      repeat (apply elem_of_cons in Ha as [->|Ha]; [in_list|]). inversion Ha. }
    assert (Hnin : forall a, a ∈ ["numNestedSubSequenceFilters"; "numNestedSubSequenceEvents";
                                  "numNestedSubSequenceMaxMissed";
                                  "nestedSubSequenceTimeIntervals";
                                  "nestedSubSequenceTimeWindowStarts";
                                  "nestedSubSequenceTimeWindowMaximums";
                                  "nestedSubSequenceTimeWindowEnds";
                                  "nestedSubSequenceTimeWeights"] ->
                             (a, length (nested (kv :: d))) ∈ sequence_required self).
    { intros a Ha. unfold sequence_required. rewrite Hms.
      repeat (apply elem_of_cons in Ha as [->|Ha]; [in_list|]). inversion Ha. }
    assert (Hvis : ("num_nested_sub_sequence_filter_visits", count (nested (kv :: d)))
                   ∈ sequence_required self)
      by (unfold sequence_required; rewrite Hms; in_list).
    destruct (for_each_ok
                (fun rem (s : Sequence.master_state) =>
                   room (sequence_required self) (snd s)
                   /\ Forall (fun kv => 0 <= fst kv /\ (Z.to_nat (fst kv) < n)%nat) rem
                   /\ (snd (fst (fst s)) + length (nested rem)
                       <= length (nested (kv :: d)))%nat
                   /\ (snd (fst s) + count (nested rem) <= count (nested (kv :: d)))%nat)
                Sequence.master_body) with (l := items (kv :: d))
                (s := ([] : list string, [] : list string, [] : list string, 0%nat, 0%nat,
                       setattr "numMasterSubSequences"
                               (VInt (Z.of_nat (length (kv :: d)))) o))
      as ([[[[[mn nn] nf] nss] fvi] t'] & E & Ht & _).
    + intros [i m] rest [[[[[mn nn] nf] nss] fvi] t] (Hrt & Hrem & Hn & Hv).
      cbn [fst snd] in Hrt, Hn, Hv.
      assert (Hnested : nested ((i, m) :: rest)
                        = values (MasterSubSequence.sub_sequences m) ++ nested rest)
        by reflexivity.
      rewrite Hnested, length_app in Hn.
      assert (Hcount : count (values (MasterSubSequence.sub_sequences m) ++ nested rest)
                       = (count (values (MasterSubSequence.sub_sequences m))
                          + count (nested rest))%nat).
      { unfold count. rewrite map_app, sum_list_with_app. reflexivity. }
      rewrite Hnested, Hcount in Hv.
      apply Forall_cons in Hrem as [[Hi0 Hi] Hrest]. cbn [fst] in Hi0, Hi.
      unfold Sequence.master_body. cbv zeta.
      pose proof (Hin "numNestedSubSequences" ltac:(in_list)).
      pose proof (Hin "numMasterSubSequenceEvents" ltac:(in_list)).
      pose proof (Hin "numMasterSubSequenceMaxMissed" ltac:(in_list)).
      pose proof (Hin "masterSubSequenceTimeIntervals" ltac:(in_list)).
      pose proof (Hin "masterSubSequenceTimeWindowStarts" ltac:(in_list)).
      pose proof (Hin "masterSubSequenceTimeWindowMaximums" ltac:(in_list)).
      pose proof (Hin "masterSubSequenceTimeWindowEnds" ltac:(in_list)).
      pose proof (Hin "masterSubSequenceTimeWeights" ltac:(in_list)).
      run_setitem_int Hrt n. run_setitem_int Hr0 n. run_setitem_int Hr1 n.
      run_setitem_int Hr2 n. run_setitem_int Hr3 n. run_setitem_int Hr4 n.
      run_setitem_int Hr5 n. run_setitem_int Hr6 n.
      destruct (nested_loop_ok (sequence_required self) (length (nested (kv :: d)))
                  (count (nested (kv :: d)))
                  (values (MasterSubSequence.sub_sequences m))
                  (mn ++ [MasterSubSequence.name m]) nn nf nss fvi o7 Hr7 Hnin Hvis)
        as (mn' & nn' & nf' & t1 & E1 & Hr8); [lia|unfold count in Hv |- *; lia|].
      eexists. split; [exact E1|]. cbn [fst snd].
      split; [assumption|]. split; [assumption|]. unfold count in Hv |- *.
      split; lia.
    + cbn [fst snd]. unfold items.
      split; [apply Hattr; [notin_compute|exact Hr]|]. split; [|split; lia].
      cbn [keys_nonneg] in Hkeys.
      pose proof (key_slots_bound (kv :: d)) as Hb. fold n in Hb.
      rewrite Forall_forall in Hkeys, Hb |- *. intros x Hx.
      split; [apply Hkeys|apply Hb]; exact Hx.
    + rewrite E. cbn [Py.bind snd] in Ht |- *. eexists. split; [reflexivity|].
      do 3 (apply Hattr; [notin_compute|]). exact Ht.
  - eexists. split; [reflexivity|]. apply Hattr; [notin_compute|exact Hr].
Qed.

Lemma Sequence_exposure_loop_ok (req : list (string * nat)) (total : nat) (xs : list float)
    (e : nat) (t : obj) :
  room req t -> ("exposures", total) ∈ req -> (e + length xs <= total)%nat ->
  exists s', for_each Sequence.exposure_body xs (e, t) = Ok s'
             /\ fst s' = (e + length xs)%nat /\ room req (snd s').
Proof.
  intros Hr Hin He.
  destruct (for_each_ok (fun rem (s : nat * obj) =>
                           room req (snd s)
                           /\ (fst s + length rem = e + length xs)%nat)
              Sequence.exposure_body) with (l := xs) (s := (e, t))
    as ([e' t'] & E & Ht & He'); [|split; [assumption|reflexivity]|].
  - intros x rest [e0 t0] [Hrt Hlen]. cbn [fst snd length] in Hrt, Hlen.
    unfold Sequence.exposure_body.
    run_setitem Hrt total.
    eexists. split; [reflexivity|]. cbn [fst snd]. split; [assumption|lia].
  - cbn [fst snd length] in Ht, He'. eexists. split; [exact E|]. cbn [fst snd].
    split; [lia|assumption].
Qed.

Lemma Sequence_set_filters_ok (self : Sequence.t) (o : obj) :
  room (sequence_required self) o ->
  exists o', Sequence.set_filters self o = Ok o' /\ room (sequence_required self) o'.
Proof.
  intro Hr. unfold Sequence.set_filters. cbv zeta.
  assert (Hattr : forall b v t, b ∉ map fst (sequence_required self) ->
                    room (sequence_required self) t ->
                    room (sequence_required self) (setattr b v t))
    by (intros b v t; apply room_setattr).
  destruct (Sequence.filters self) as [[|kv d]|] eqn:Hfl.
  - eexists. split; [reflexivity|]. apply Hattr; [notin_compute|exact Hr].
  - set (vs := values (kv :: d)).
    set (total := sum_list (map (fun v => length (BandFilter.exposures v)) vs)).
    assert (Hin : forall a, a ∈ ["brightLimit"; "darkLimit"; "maxSeeing";
                                 "numFilterExposures"] ->
                            (a, length vs) ∈ sequence_required self).
    { intros a Ha. unfold sequence_required. rewrite Hfl. fold vs.
      repeat (apply elem_of_cons in Ha as [->|Ha]; [in_list|]). inversion Ha. }
    assert (Hexp : ("exposures", total) ∈ sequence_required self)
      by (unfold sequence_required; rewrite Hfl; in_list).
    destruct (for_each_ok
                (fun rem (s : list string * nat * obj) =>
                   room (sequence_required self) (snd s)
                   /\ Forall (fun iv => (fst iv < length vs)%nat) rem
                   /\ (snd (fst s)
                       + sum_list (map (fun v => length (BandFilter.exposures v))
                                       (map snd rem)) <= total)%nat)
                Sequence.filter_body) with (l := enumerate vs)
                (s := ([] : list string, 0%nat,
                       setattr "numFilters" (VInt (Z.of_nat (length (kv :: d)))) o))
      as ([[names e] t'] & E & Ht & _).
    + intros [i v] rest [[names e] t] (Hrt & Hrem & Hsum). cbn [fst snd map] in Hrt, Hsum.
      change (sum_list (?x :: ?l)) with (x + sum_list l)%nat in Hsum.
      apply Forall_cons in Hrem as [Hi Hrest]. cbn [fst] in Hi.
      unfold Sequence.filter_body. cbv zeta.
      pose proof (Hin "brightLimit" ltac:(in_list)).
      pose proof (Hin "darkLimit" ltac:(in_list)).
      pose proof (Hin "maxSeeing" ltac:(in_list)).
      pose proof (Hin "numFilterExposures" ltac:(in_list)).
      run_setitem Hrt (length vs). run_setitem Hr0 (length vs). run_setitem Hr1 (length vs).
      run_setitem Hr2 (length vs).
      destruct (Sequence_exposure_loop_ok _ total (BandFilter.exposures v) e o3 Hr3 Hexp)
        as ([e1 t1] & E1 & He1 & Hr4); [lia|].
      cbn [fst snd] in He1, Hr4. rewrite E1. cbn [Py.bind fst snd].
      eexists. split; [reflexivity|]. cbn [fst snd].
      split; [assumption|]. split; [assumption|lia].
    + cbn [fst snd]. split; [apply Hattr; [notin_compute|exact Hr]|]. split.
      * unfold enumerate. apply (enumerate_from_bound vs 0).
      * unfold enumerate. rewrite map_snd_enumerate_from. unfold total. lia.
    + fold vs. rewrite E. cbn [Py.bind snd] in Ht |- *. eexists. split; [reflexivity|].
      apply Hattr; [notin_compute|exact Ht].
  - eexists. split; [reflexivity|]. apply Hattr; [notin_compute|exact Hr].
Qed.

(** [Sequence.set_topic] returns on a topic that has room, when no key of
    the sub-sequence and master mappings is negative. *)
Lemma Sequence_set_topic_ok (self : Sequence.t) (topic : obj) :
  keys_nonneg (Sequence.sub_sequences self) ->
  keys_nonneg (Sequence.master_sub_sequences self) ->
  room (sequence_required self) topic ->
  exists topic', Sequence.set_topic self topic = Ok topic'.
Proof.
  intros Hsub Hmaster Hr. unfold Sequence.set_topic. cbv zeta.
  assert (Hsky : room (sequence_required self) (Sequence.set_sky self topic)).
  { unfold Sequence.set_sky. cbv zeta.
    repeat (apply room_setattr; [notin_compute|]). exact Hr. }
  destruct (Sequence_set_user_regions_ok self _ Hsky) as (t1 & -> & Hr1). cbn [Py.bind].
  destruct (Sequence_set_sub_sequences_ok self _ Hsub Hr1) as (t2 & -> & Hr2). cbn [Py.bind].
  destruct (Sequence_set_master_sub_sequences_ok self _ Hmaster Hr2) as (t3 & -> & Hr3).
  cbn [Py.bind].
  destruct (Sequence_set_filters_ok self _ Hr3) as (t4 & -> & Hr4). cbn [Py.bind].
  eauto.
Qed.

(** ** Sequence.set_topic: two sub-sequences *)

(** C8 (with the keys the code relies on): for two top-level
    sub-sequences stored under the keys 0 and 1, in that order, with 2 and
    3 filters and one visit count per filter, [Sequence.set_topic] returns
    on every topic whose arrays have room (the keys of the master mapping
    not being negative), and the topic returned has
    [numSubSequenceFilters[0] = 2] and [numSubSequenceFilters[1] = 3], the
    visit counts of sub-sequence 0 in slots 0-1 of
    [numSubSequenceFilterVisits] and those of sub-sequence 1 in slots 2-4,
    and [numSubSequences = 2]. *)
Theorem Sequence_set_topic_two_sub_sequences
    (self : Sequence.t) (A B : SubSequence.t) (topic : obj) :
  Sequence.sub_sequences self = Some [(0, A); (1, B)] ->
  length (SubSequence.filters A) = 2%nat ->
  length (SubSequence.filters B) = 3%nat ->
  length (SubSequence.visits_per_filter A) = length (SubSequence.filters A) ->
  length (SubSequence.visits_per_filter B) = length (SubSequence.filters B) ->
  keys_nonneg (Sequence.master_sub_sequences self) ->
  room (sequence_required self) topic ->
  exists topic',
    Sequence.set_topic self topic = Ok topic'
    /\ topic' !! "numSubSequences" = Some (VInt 2)
    /\ slot "numSubSequenceFilters" 0 topic' = Some (VInt 2)
    /\ slot "numSubSequenceFilters" 1 topic' = Some (VInt 3)
    /\ (forall j, (j < 2)%nat ->
          exists v, SubSequence.visits_per_filter A !! j = Some v
                    /\ slot "numSubSequenceFilterVisits" j topic' = Some (VInt v))
    /\ (forall j, (j < 3)%nat ->
          exists v, SubSequence.visits_per_filter B !! j = Some v
                    /\ slot "numSubSequenceFilterVisits" (2 + j) topic' = Some (VInt v)).
Proof.
  intros Hsubs HfA HfB HvA HvB Hmaster Hroom.
  destruct (Sequence_set_topic_ok self topic) as (topic' & H);
    [rewrite Hsubs; cbn [keys_nonneg]; repeat (constructor; [cbn; lia|]); constructor
    |exact Hmaster|exact Hroom|].
  exists topic'. split; [exact H|].
  exact (Sequence_set_topic_two_sub_sequences_spec self A B topic topic'
           Hsubs HfA HfB HvA HvB H).
Qed.

(** The two sample sub-sequences under the keys 0 and 1. *)
Lemma Sequence_set_topic_two_sub_sequences_witness :
  exists topic',
    Sequence.set_topic
      (Sample.sequence (Some [(0, Sample.two_filters); (1, Sample.three_filters)])
                       (Some [(0, Sample.master)]))
      Sample.sequencePropConfig = Ok topic'
    /\ slot "numSubSequenceFilters" 0 topic' = Some (VInt 2)
    /\ slot "numSubSequenceFilters" 1 topic' = Some (VInt 3).
Proof.
  destruct (Sequence_set_topic_two_sub_sequences
              (Sample.sequence (Some [(0, Sample.two_filters); (1, Sample.three_filters)])
                               (Some [(0, Sample.master)]))
              Sample.two_filters Sample.three_filters Sample.sequencePropConfig
              eq_refl eq_refl eq_refl eq_refl eq_refl)
    as (topic' & H & _ & H0 & H1 & _).
  - cbn. repeat (constructor; [cbn; lia|]). constructor.
  - unfold room. vm_compute sequence_required.
    repeat (constructor; [eexists; split; [vm_compute; reflexivity|cbn; lia]|]).
    constructor.
  - exists topic'. split; [exact H|]. split; [exact H0|exact H1].
Defined.

(** ** Sequence.set_topic: master sub-sequences *)

(** C9: two encodings of a sequence proposal that differ only in its
    master sub-sequences (in particular, with and without an added master
    that holds nested sub-sequences) give, when both return, topics that
    hold the same value in every attribute other than the master and
    nested ones; in particular every top-level sub-sequence attribute
    ([numSubSequences], [numSubSequenceFilters],
    [numSubSequenceFilterVisits], the [subSequence*] arrays,
    [subSequenceNames], [subSequenceFilters]) is the same.  Both encodings
    return when the topic has room for each and no key is negative. *)
Theorem Sequence_set_topic_masters_leave_sub_sequences
    (self : Sequence.t) (ms ms' : option (dict Z MasterSubSequence.t)) (topic : obj) :
  (forall topic1 topic2,
     Sequence.set_topic (with_masters self ms) topic = Ok topic1 ->
     Sequence.set_topic (with_masters self ms') topic = Ok topic2 ->
     (forall a, a ∉ master_attrs -> topic1 !! a = topic2 !! a)
     /\ (forall a, a ∈ sub_sequence_attrs -> topic1 !! a = topic2 !! a))
  /\ (keys_nonneg (Sequence.sub_sequences self) ->
      keys_nonneg ms -> keys_nonneg ms' ->
      room (sequence_required (with_masters self ms)) topic ->
      room (sequence_required (with_masters self ms')) topic ->
      exists topic1 topic2,
        Sequence.set_topic (with_masters self ms) topic = Ok topic1
        /\ Sequence.set_topic (with_masters self ms') topic = Ok topic2).
Proof.
  split.
  - intros topic1 topic2. apply Sequence_set_topic_masters_agree.
  - intros Hsub Hms Hms' Hr Hr'.
    destruct (Sequence_set_topic_ok (with_masters self ms) topic Hsub Hms Hr) as (topic1 & H1).
    destruct (Sequence_set_topic_ok (with_masters self ms') topic Hsub Hms' Hr')
      as (topic2 & H2).
    eauto.
Qed.

(** The sample proposal without masters and with [Sample.master] added. *)
Lemma Sequence_set_topic_masters_leave_sub_sequences_witness :
  let subs := Some [(0, Sample.two_filters); (1, Sample.three_filters)] in
  exists topic1 topic2,
    Sequence.set_topic (Sample.sequence subs (Some [])) Sample.sequencePropConfig = Ok topic1
    /\ Sequence.set_topic (Sample.sequence subs (Some [(0, Sample.master)]))
                          Sample.sequencePropConfig = Ok topic2
    /\ (forall a, a ∈ sub_sequence_attrs -> topic1 !! a = topic2 !! a).
Proof.
  intro subs.
  destruct (Sequence_set_topic_masters_leave_sub_sequences
              (Sample.sequence subs None) (Some []) (Some [(0, Sample.master)])
              Sample.sequencePropConfig) as [Hagree Hok].
  destruct Hok as (topic1 & topic2 & H1 & H2).
  - cbn. repeat (constructor; [cbn; lia|]). constructor.
  - constructor.
  - cbn. repeat (constructor; [cbn; lia|]). constructor.
  - unfold room. vm_compute sequence_required.
    repeat (constructor; [eexists; split; [vm_compute; reflexivity|cbn; lia]|]).
    constructor.
  - unfold room. vm_compute sequence_required.
    repeat (constructor; [eexists; split; [vm_compute; reflexivity|cbn; lia]|]).
    constructor.
  - exists topic1, topic2. split; [exact H1|]. split; [exact H2|].
    exact (proj2 (Hagree topic1 topic2 H1 H2)).
Defined.

(** * Further properties *)

(** ** conf_comm.py: what the steps store *)

Section StoredEntries.
Import ConfigurationCommunicator.

Lemma conf_set_conf_eq (T : Topic) (c : sample T) (s : t) : conf (set_conf T c s) T = Some c.
Proof.
  cbn. destruct (decide (T = T)) as [e|n]; [|contradiction].
  assert (e = eq_refl) as -> by apply proof_irrel. reflexivity.
Qed.

Lemma conf_set_conf_ne (T T' : Topic) (c : sample T) (s : t) :
  T <> T' -> conf (set_conf T c s) T' = conf s T'.
Proof. intro H. cbn. destruct (decide (T = T')); [contradiction|reflexivity]. Qed.

Lemma store_keeps (T : Topic) (c : sample T) (s : t) :
  no_dds_comm (store T c s) = no_dds_comm s
  /\ socs_timeout (store T c s) = socs_timeout s
  /\ conf (store T c s) = conf s.
Proof. destruct T; repeat split; reflexivity. Qed.

Lemma store_union (T : Topic) (c : sample T) (s : t) :
  config (store T c s) = config (store T c (attached false)) ∪ config s.
Proof.
  destruct T; cbn -[union]; unfold setattr;
    repeat rewrite <- insert_union_l; rewrite (left_id_L ∅ (∪)); reflexivity.
Qed.

Lemma store_dom (T : Topic) (c : sample T) :
  dom (config (store T c (attached false))) = written T.
Proof.
  unfold written. destruct T; cbn -[dom]; unfold setattr;
    rewrite ?dom_insert_L; reflexivity.
Qed.

Lemma store_frame (T : Topic) (c : sample T) (s : t) (key : string) :
  key ∉ written T -> config (store T c s) !! key = config s !! key.
Proof.
  intro H. rewrite store_union. apply lookup_union_r.
  apply not_elem_of_dom. rewrite store_dom. exact H.
Qed.

Lemma store_value (T : Topic) (c : sample T) (s s' : t) (key : string) :
  key ∈ written T -> config (store T c s) !! key = config (store T c s') !! key.
Proof.
  intro H. rewrite <- (store_dom T c) in H. apply elem_of_dom in H as [v Hv].
  rewrite (store_union T c s), (store_union T c s').
  rewrite (lookup_union_Some_l _ _ _ _ Hv), (lookup_union_Some_l _ _ _ _ Hv). reflexivity.
Qed.

Lemma written_disjoint (T T' : Topic) : T <> T' -> written T ## written T'.
Proof.
  intro H. refine (bool_decide_unpack _ _).
  destruct T, T'; try contradiction; vm_compute; exact I.
Qed.

Lemma in_order (T : Topic) : T ∈ order.
Proof. destruct T; unfold order; in_list. Qed.

End StoredEntries.

Section StepOutcomes.
Import ConfigurationCommunicator.
Variable sal : SalManager.

(** What a step that ended says about the polls and the state it leaves. *)
Lemma configure_topic_dds (T : Topic) (fuel : nat) (self : t) (log : list event)
    (st' : state) (r : option exn) :
  no_dds_comm self = false ->
  configure_topic sal T fuel (self, log) = Some (st', r) ->
  exists k,
    snd st' = log ++ Subscribe T :: replicate (S k) (Poll T)
    /\ (forall j, (j < k)%nat ->
          accepted sal T j = false /\ expired sal T (socs_timeout self) j = false)
    /\ ((r = None /\ accepted sal T k = true
         /\ fst st' = store T (buffer (getNextSample sal T k))
                        (set_conf T (buffer (getNextSample sal T k)) (set_conf T (zero T) self)))
        \/ (r = Some (SchedulerTimeoutError (message T))
            /\ accepted sal T k = false /\ expired sal T (socs_timeout self) k = true
            /\ fst st' = set_conf T (buffer (getNextSample sal T k)) (set_conf T (zero T) self))).
Proof.
  intros Hdds H. rewrite configure_topic_listening in H by exact Hdds.
  destruct (listen sal T (socs_timeout self) (started sal T) fuel 0)
    as [[[n c] e]|] eqn:E; [|discriminate].
  destruct (listen_outcome _ _ _ _ _ _ _ _ E) as (k & -> & _ & -> & Hbefore & Hend).
  exists k. destruct Hend as [[-> Ha]|[-> [Ha He]]]; inversion H; subst; clear H; cbn [fst snd].
  - split; [rewrite <- app_assoc; reflexivity|].
    split; [intros j Hj; apply Hbefore; lia|]. left. auto.
  - split; [rewrite <- app_assoc; reflexivity|].
    split; [intros j Hj; apply Hbefore; lia|]. right. auto.
Qed.

Lemma configure_topic_no_dds (T : Topic) (fuel : nat) (self : t) (log : list event) :
  no_dds_comm self = true ->
  configure_topic sal T fuel (self, log) = Some (set_conf T (zero T) self, log, None).
Proof. intro H. unfold configure_topic. rewrite H. reflexivity. Qed.

(** Without DDS communication the steps of [l] only create the topic
    instances. *)
Lemma run_steps_no_dds (fuel : nat) (l : list Topic) (self : t) (log : list event) :
  no_dds_comm self = true ->
  exists self',
    run_steps sal fuel l (self, log) = Some ((self', log), None)
    /\ no_dds_comm self' = true
    /\ socs_timeout self' = socs_timeout self
    /\ config self' = config self
    /\ survey_topology self' = survey_topology self
    /\ num_proposals self' = num_proposals self
    /\ (forall T, T ∈ l -> conf self' T = Some (zero T))
    /\ (forall T, T ∉ l -> conf self' T = conf self T).
Proof.
  revert self. induction l as [|T0 l IH]; intros self Hdds; cbn [run_steps].
  - exists self. split; [reflexivity|]. split; [exact Hdds|]. do 4 (split; [reflexivity|]).
    split; [intros T HT; inversion HT|reflexivity].
  - unfold and_then. rewrite configure_topic_no_dds by exact Hdds.
    destruct (IH (set_conf T0 (zero T0) self) Hdds)
      as (self' & Hrun & H1 & H2 & H3 & H4 & H5 & Hin & Hout).
    exists self'. split; [exact Hrun|]. do 5 (split; [assumption|]). split.
    + intros T HT. destruct (decide (T ∈ l)) as [Hl|Hl]; [apply Hin; exact Hl|].
      apply elem_of_cons in HT as [->|HT]; [|contradiction].
      rewrite (Hout T0 Hl). apply conf_set_conf_eq.
    + intros T HT. apply not_elem_of_cons in HT as [Hne Hl].
      rewrite (Hout T Hl). apply conf_set_conf_ne. congruence.
Qed.

End StepOutcomes.

(** X1: with [no_dds_comm] set, [configure] returns whatever the
    transport holds and whatever fuel the loops have: it subscribes to
    nothing and polls nothing, leaves the configuration, the survey
    topology and the proposal count as they were, and sets each of the
    eleven topic attributes to a freshly constructed instance. *)
Theorem configure_without_dds_only_creates_topic_instances
    (sal : ConfigurationCommunicator.SalManager) (fuel : nat)
    (self : ConfigurationCommunicator.t) (log : list ConfigurationCommunicator.event) :
  ConfigurationCommunicator.no_dds_comm self = true ->
  exists self',
    ConfigurationCommunicator.configure sal fuel (self, log) = Some ((self', log), None)
    /\ ConfigurationCommunicator.config self' = ConfigurationCommunicator.config self
    /\ ConfigurationCommunicator.survey_topology self'
       = ConfigurationCommunicator.survey_topology self
    /\ ConfigurationCommunicator.num_proposals self'
       = ConfigurationCommunicator.num_proposals self
    /\ forall T, ConfigurationCommunicator.conf self' T
                 = Some (ConfigurationCommunicator.zero T).
Proof.
  intro Hdds.
  destruct (run_steps_no_dds sal fuel order self log Hdds)
    as (self' & Hrun & _ & _ & H3 & H4 & H5 & Hin & _).
  exists self'. rewrite configure_run_steps. split; [exact Hrun|].
  do 3 (split; [assumption|]). intro T. apply Hin, in_order.
Qed.

Lemma configure_without_dds_only_creates_topic_instances_witness :
  exists self',
    ConfigurationCommunicator.configure Sample.sal 0
      (attached true, []) = Some ((self', []), None)
    /\ ConfigurationCommunicator.config self' = ∅.
Proof.
  destruct (configure_without_dds_only_creates_topic_instances Sample.sal 0
              (attached true) [] eq_refl)
    as (self' & H & Hc & _).
  exists self'. split; [exact H|exact Hc].
Defined.

Section RunOutcomes.
Import ConfigurationCommunicator.
Variable sal : SalManager.

Lemma configure_topic_fuel_mono (T : Topic) (fuel fuel' : nat) (st : state)
    (r : state * option exn) :
  (fuel <= fuel')%nat ->
  configure_topic sal T fuel st = Some r -> configure_topic sal T fuel' st = Some r.
Proof.
  intros Hle. destruct st as [self log]. destruct (no_dds_comm self) eqn:Hdds.
  - rewrite !configure_topic_no_dds by exact Hdds. auto.
  - rewrite !configure_topic_listening by exact Hdds.
    destruct (listen sal T (socs_timeout self) (started sal T) fuel 0) as [x|] eqn:E;
      [|discriminate].
    rewrite (listen_fuel_mono sal T _ fuel fuel' 0 x Hle E). auto.
Qed.

Lemma store_keeps_topology (T : Topic) (c : sample T) (s : t) :
  T <> surveyTopology ->
  survey_topology (store T c s) = survey_topology s
  /\ num_proposals (store T c s) = num_proposals s.
Proof. intro H. destruct T; try (split; reflexivity). contradiction. Qed.

Lemma accepted_valid (T : Topic) (k : nat) :
  accepted sal T k = true ->
  rcode (getNextSample sal T k) = 0 /\ valid T (buffer (getNextSample sal T k)) = true.
Proof.
  unfold accepted. intro H. apply andb_true_iff in H as [Hr Hv].
  split; [apply Z.eqb_eq; exact Hr|exact Hv].
Qed.

(** What the steps of [l] leave when all of them return. *)
Lemma run_steps_returned (fuel : nat) (l : list Topic) :
  NoDup l ->
  forall (self self' : t) (log log' : list event),
    no_dds_comm self = false ->
    run_steps sal fuel l (self, log) = Some ((self', log'), None) ->
    no_dds_comm self' = false
    /\ socs_timeout self' = socs_timeout self
    /\ (forall T, T ∈ l ->
          exists k, accepted sal T k = true
            /\ (forall j, (j < k)%nat ->
                  accepted sal T j = false /\ expired sal T (socs_timeout self) j = false)
            /\ conf self' T = Some (buffer (getNextSample sal T k))
            /\ forall key, key ∈ written T ->
                 config self' !! key
                 = config (store T (buffer (getNextSample sal T k)) self) !! key)
    /\ (forall T, T ∉ l -> conf self' T = conf self T)
    /\ (forall key, (forall T, T ∈ l -> key ∉ written T) ->
          config self' !! key = config self !! key)
    /\ (surveyTopology ∉ l ->
          survey_topology self' = survey_topology self
          /\ num_proposals self' = num_proposals self).
Proof.
  induction l as [|T0 l IH]; intros Hnd self self' log log' Hdds H; cbn [run_steps] in H.
  - injection H as <- <-. split; [exact Hdds|]. split; [reflexivity|].
    split; [intros T HT; inversion HT|]. split; [reflexivity|]. split; [reflexivity|].
    intros _. split; reflexivity.
  - apply NoDup_cons in Hnd as [Hnotin Hnd]. unfold and_then in H.
    destruct (configure_topic sal T0 fuel (self, log)) as [[[self1 log1] [e|]]|] eqn:E0;
      try discriminate.
    destruct (configure_topic_dds sal T0 fuel self log _ _ Hdds E0)
      as (k & _ & Hbefore & [(_ & Ha & Hst)|(Hr & _)]); [|discriminate].
    cbn [fst] in Hst.
    set (c := buffer (getNextSample sal T0 k)) in *.
    destruct (store_keeps T0 c (set_conf T0 c (set_conf T0 (zero T0) self)))
      as (Kdds & Ktime & Kconf).
    rewrite <- Hst in Kdds, Ktime, Kconf. cbn in Kdds, Ktime.
    assert (Hdds1 : no_dds_comm self1 = false) by (rewrite Kdds; exact Hdds).
    destruct (IH Hnd self1 self' log1 log' Hdds1 H)
      as (I1 & I2 & Iin & Iout & Iframe & Itop).
    assert (Hconf1 : forall key, config self1 !! key = config (store T0 c self) !! key).
    { intro key. rewrite Hst. rewrite store_union, (store_union T0 c self). reflexivity. }
    split; [exact I1|]. split; [rewrite I2; exact Ktime|].
    split; [|split; [|split]].
    + intros T HT. destruct (decide (T = T0)) as [->|Hne].
      * exists k. split; [exact Ha|]. split; [exact Hbefore|]. split.
        -- rewrite (Iout T0 Hnotin), Kconf. apply conf_set_conf_eq.
        -- intros key Hkey. rewrite Iframe; [apply Hconf1|].
           intros T HTl Hk.
           assert (Hne : T0 <> T) by congruence.
           exact (proj1 (elem_of_disjoint _ _) (written_disjoint T0 T Hne) key Hkey Hk).
      * apply elem_of_cons in HT as [->|HT]; [contradiction|].
        destruct (Iin T HT) as (kT & HaT & HbT & HcT & HkT).
        exists kT. split; [exact HaT|]. split; [rewrite <- Ktime; exact HbT|].
        split; [exact HcT|].
        intros key Hkey. rewrite (HkT key Hkey).
        apply store_value. exact Hkey.
    + intros T HT. apply not_elem_of_cons in HT as [Hne Hl].
      rewrite (Iout T Hl), Kconf. cbn.
      destruct (decide (T0 = T)); [congruence|]. destruct (decide (T0 = T)); [congruence|].
      reflexivity.
    + intros key Hkey. rewrite Iframe by (intros T HT; apply Hkey; right; exact HT).
      rewrite Hconf1. apply store_frame. apply Hkey. left.
    + intros Htop. apply not_elem_of_cons in Htop as [Hne Hl].
      destruct (Itop Hl) as [-> ->]. rewrite Hst.
      destruct (store_keeps_topology T0 c (set_conf T0 c (set_conf T0 (zero T0) self)))
        as [-> ->]; [congruence|]. split; reflexivity.
Qed.

(** Enough fuel makes the steps of [l] return when each of their topics
    is accepted before an expiry is observed. *)
Lemma run_steps_returns (timeout : double) (l : list Topic) :
  (forall T, T ∈ l ->
     exists k, accepted sal T k = true
               /\ forall j, (j < k)%nat -> expired sal T timeout j = false) ->
  exists fuel0, forall fuel self log,
    (fuel0 <= fuel)%nat -> no_dds_comm self = false -> socs_timeout self = timeout ->
    exists st', run_steps sal fuel l (self, log) = Some (st', None).
Proof.
  induction l as [|T0 l IH]; intro Hall.
  - exists 0%nat. intros fuel self log _ _ _. cbn. eauto.
  - destruct (Hall T0) as (k & Ha & Hne); [left|].
    destruct IH as (fuel0 & Hrest); [intros T HT; apply Hall; right; exact HT|].
    exists (Nat.max (S k) fuel0). intros fuel self log Hfuel Hdds Htime.
    cbn [run_steps]. unfold and_then.
    destruct (listen_accepts sal T0 timeout k 0 Ha) as (n & c & Hl);
      [intros j Hj; apply Hne; lia|].
    apply (listen_fuel_mono sal T0 timeout _ fuel) in Hl; [|lia].
    rewrite configure_topic_listening by exact Hdds. rewrite Htime, Hl.
    destruct (store_keeps T0 c (set_conf T0 c (set_conf T0 (zero T0) self)))
      as (Kdds & Ktime & _).
    apply Hrest; [lia| rewrite Kdds; exact Hdds | rewrite Ktime; exact Htime].
Qed.

End RunOutcomes.

(** X2: with DDS communication enabled, [configure] returns exactly when
    each of the eleven topics has a poll that is accepted and the test
    [(tf - lasttime) > self.socs_timeout], made in double precision, was
    false after every earlier poll of that topic. *)
Theorem configure_returns_iff_every_topic_accepted
    (sal : ConfigurationCommunicator.SalManager)
    (self : ConfigurationCommunicator.t) (log : list ConfigurationCommunicator.event) :
  ConfigurationCommunicator.no_dds_comm self = false ->
  (exists fuel st', ConfigurationCommunicator.configure sal fuel (self, log) = Some (st', None))
  <-> forall T, exists k,
        accepted sal T k = true
        /\ forall j, (j < k)%nat ->
             expired sal T (ConfigurationCommunicator.socs_timeout self) j = false.
Proof.
  intro Hdds. split.
  - intros (fuel & [self' log'] & H) T. rewrite configure_run_steps in H.
    destruct (run_steps_returned sal fuel order order_NoDup self self' log log' Hdds H)
      as (_ & _ & Hin & _).
    destruct (Hin T (in_order T)) as (k & Ha & Hbefore & _).
    exists k. split; [exact Ha|]. intros j Hj. apply Hbefore. exact Hj.
  - intro Hall.
    destruct (run_steps_returns sal (ConfigurationCommunicator.socs_timeout self) order)
      as (fuel0 & Hrun); [intros T _; apply Hall|].
    destruct (Hrun fuel0 self log (Nat.le_refl fuel0) Hdds eq_refl) as (st' & H).
    exists fuel0, st'. rewrite configure_run_steps. exact H.
Qed.

(** On [Rounded.sal] the first poll of every topic is rejected and the
    difference of the two clock readings, as doubles, equals the timeout:
    the test is false, [configure] polls each topic again and returns. *)
Lemma configure_returns_iff_every_topic_accepted_witness :
  (forall T, expired Rounded.sal T 180%float 0 = false)
  /\ exists fuel st',
       ConfigurationCommunicator.configure Rounded.sal fuel (attached false, [])
       = Some (st', None).
Proof.
  split; [intro T; destruct T; vm_compute; reflexivity|].
  apply (proj2 (configure_returns_iff_every_topic_accepted Rounded.sal
                  (attached false) [] eq_refl)).
  intro T. exists 1%nat. split; [destruct T; vm_compute; reflexivity|].
  intros j Hj. destruct j as [|j]; [destruct T; vm_compute; reflexivity|lia].
Defined.

(** X3: a step that raises has assigned nothing: the configuration, the
    survey topology and the proposal count are those it found; only the
    topic attribute changed, which holds the buffer of the last, rejected,
    poll, and the transport saw one subscription followed by the polls. *)
Theorem configure_topic_timeout_assigns_nothing
    (sal : ConfigurationCommunicator.SalManager) (T : ConfigurationCommunicator.Topic)
    (fuel : nat) (self self' : ConfigurationCommunicator.t)
    (log log' : list ConfigurationCommunicator.event) (e : exn) :
  ConfigurationCommunicator.configure_topic sal T fuel (self, log)
  = Some ((self', log'), Some e) ->
  ConfigurationCommunicator.config self' = ConfigurationCommunicator.config self
  /\ ConfigurationCommunicator.survey_topology self'
     = ConfigurationCommunicator.survey_topology self
  /\ ConfigurationCommunicator.num_proposals self'
     = ConfigurationCommunicator.num_proposals self
  /\ exists k,
       accepted sal T k = false
       /\ ConfigurationCommunicator.conf self' T
          = Some (ConfigurationCommunicator.buffer
                    (ConfigurationCommunicator.getNextSample sal T k))
       /\ log' = log ++ ConfigurationCommunicator.Subscribe T
                        :: replicate (S k) (ConfigurationCommunicator.Poll T).
Proof.
  intro H. destruct (ConfigurationCommunicator.no_dds_comm self) eqn:Hdds.
  - rewrite configure_topic_no_dds in H by exact Hdds. discriminate.
  - destruct (configure_topic_dds sal T fuel self log _ _ Hdds H)
      as (k & Hlog & _ & [(Hr & _)|(_ & Ha & _ & Hst)]); [discriminate|].
    cbn [fst snd] in Hlog, Hst. subst self'.
    split; [reflexivity|]. split; [reflexivity|]. split; [reflexivity|].
    exists k. split; [exact Ha|]. split; [apply conf_set_conf_eq|exact Hlog].
Qed.

Lemma configure_topic_timeout_assigns_nothing_witness :
  ConfigurationCommunicator.config
    (fst (final_state (ConfigurationCommunicator.configure_topic Sample.sal
                         ConfigurationCommunicator.slewConfig 1
                         (attached false, []))))
  = ∅.
Proof.
  pose (o := ConfigurationCommunicator.configure_topic Sample.sal
               ConfigurationCommunicator.slewConfig 1
               (attached false, [])).
  destruct (configure_topic_timeout_assigns_nothing Sample.sal
              ConfigurationCommunicator.slewConfig 1
              (attached false) (fst (final_state o))
              [] (snd (final_state o))
              (SchedulerTimeoutError "No configuration received from Scheduler!!"))
    as (H & _).
  - rewrite <- surjective_pairing. apply outcome_eq. vm_compute. reflexivity.
  - exact H.
Defined.

(** X4: a step that returns with DDS communication enabled stopped at the
    first accepted poll: no earlier poll was accepted, the topic attribute
    holds the buffer of that poll, and the transport saw one subscription
    followed by exactly the polls up to it. *)
Theorem configure_topic_keeps_first_accepted_sample
    (sal : ConfigurationCommunicator.SalManager) (T : ConfigurationCommunicator.Topic)
    (fuel : nat) (self self' : ConfigurationCommunicator.t)
    (log log' : list ConfigurationCommunicator.event) :
  ConfigurationCommunicator.no_dds_comm self = false ->
  ConfigurationCommunicator.configure_topic sal T fuel (self, log)
  = Some ((self', log'), None) ->
  exists k,
    accepted sal T k = true
    /\ (forall j, (j < k)%nat -> accepted sal T j = false)
    /\ ConfigurationCommunicator.conf self' T
       = Some (ConfigurationCommunicator.buffer
                 (ConfigurationCommunicator.getNextSample sal T k))
    /\ log' = log ++ ConfigurationCommunicator.Subscribe T
                     :: replicate (S k) (ConfigurationCommunicator.Poll T).
Proof.
  intros Hdds H.
  destruct (configure_topic_dds sal T fuel self log _ _ Hdds H)
    as (k & Hlog & Hbefore & [(_ & Ha & Hst)|(Hr & _)]); [|discriminate].
  cbn [fst snd] in Hlog, Hst.
  exists k. split; [exact Ha|]. split; [intros j Hj; apply Hbefore; exact Hj|].
  split; [|exact Hlog].
  rewrite Hst.
  destruct (store_keeps T (ConfigurationCommunicator.buffer
                             (ConfigurationCommunicator.getNextSample sal T k))
              (ConfigurationCommunicator.set_conf T
                 (ConfigurationCommunicator.buffer
                    (ConfigurationCommunicator.getNextSample sal T k))
                 (ConfigurationCommunicator.set_conf T (ConfigurationCommunicator.zero T) self)))
    as (_ & _ & ->).
  apply conf_set_conf_eq.
Qed.

Lemma configure_topic_keeps_first_accepted_sample_witness :
  exists k,
    accepted Sample.sal ConfigurationCommunicator.schedulerConfig k = true
    /\ snd (final_state (ConfigurationCommunicator.configure_topic Sample.sal
                           ConfigurationCommunicator.schedulerConfig 2
                           (attached false, [])))
       = [] ++ ConfigurationCommunicator.Subscribe ConfigurationCommunicator.schedulerConfig
               :: replicate (S k)
                    (ConfigurationCommunicator.Poll ConfigurationCommunicator.schedulerConfig).
Proof.
  pose (o := ConfigurationCommunicator.configure_topic Sample.sal
               ConfigurationCommunicator.schedulerConfig 2
               (attached false, [])).
  destruct (configure_topic_keeps_first_accepted_sample Sample.sal
              ConfigurationCommunicator.schedulerConfig 2
              (attached false) (fst (final_state o))
              [] (snd (final_state o)) eq_refl)
    as (k & Ha & _ & _ & Hlog).
  - rewrite <- surjective_pairing. apply outcome_eq. vm_compute. reflexivity.
  - exists k. split; [exact Ha|exact Hlog].
Defined.

(** X5: when [configure] returns with DDS communication enabled, every
    topic attribute holds a sample that passed the validity test of its
    loop, the configuration entries of each topic are those its step
    assigns from that sample, and every other configuration entry is the
    one [configure] found; no two steps assign the same entry. *)
Theorem configure_stores_the_retained_samples
    (sal : ConfigurationCommunicator.SalManager) (fuel : nat)
    (self self' : ConfigurationCommunicator.t)
    (log log' : list ConfigurationCommunicator.event) :
  ConfigurationCommunicator.no_dds_comm self = false ->
  ConfigurationCommunicator.configure sal fuel (self, log) = Some ((self', log'), None) ->
  (forall T, exists c,
     ConfigurationCommunicator.conf self' T = Some c
     /\ ConfigurationCommunicator.valid T c = true
     /\ forall key, key ∈ written T ->
          ConfigurationCommunicator.config self' !! key
          = ConfigurationCommunicator.config (ConfigurationCommunicator.store T c self) !! key)
  /\ (forall key, (forall T, key ∉ written T) ->
        ConfigurationCommunicator.config self' !! key
        = ConfigurationCommunicator.config self !! key)
  /\ (forall T1 T2, T1 <> T2 -> written T1 ## written T2).
Proof.
  intros Hdds H. rewrite configure_run_steps in H.
  destruct (run_steps_returned sal fuel order order_NoDup self self' log log' Hdds H)
    as (_ & _ & Hin & _ & Hframe & _).
  split; [|split].
  - intro T. destruct (Hin T (in_order T)) as (k & Ha & _ & Hc & Hkeys).
    exists (ConfigurationCommunicator.buffer (ConfigurationCommunicator.getNextSample sal T k)).
    split; [exact Hc|]. split; [exact (proj2 (accepted_valid sal T k Ha))|exact Hkeys].
  - intros key Hkey. apply Hframe. intros T _. apply Hkey.
  - exact written_disjoint.
Qed.

Lemma configure_stores_the_retained_samples_witness :
  exists c,
    ConfigurationCommunicator.conf
      (fst (final_state (ConfigurationCommunicator.configure Ready.sal 1
                           (attached false, []))))
      ConfigurationCommunicator.slewConfig = Some c
    /\ ConfigurationCommunicator.valid ConfigurationCommunicator.slewConfig c = true.
Proof.
  pose (o := ConfigurationCommunicator.configure Ready.sal 1
               (attached false, [])).
  destruct (configure_stores_the_retained_samples Ready.sal 1
              (attached false) (fst (final_state o))
              [] (snd (final_state o)) eq_refl)
    as (Hall & _).
  - rewrite <- surjective_pairing. apply outcome_eq. vm_compute. reflexivity.
  - destruct (Hall ConfigurationCommunicator.slewConfig) as (c & Hc & Hv & _).
    exists c. split; [exact Hc|exact Hv].
Defined.

Lemma join_empty_inv (l : list string) : join "," l = "" -> l = [] \/ l = [""].
Proof.
  destruct l as [|x [|y l]]; [auto| |].
  - cbn. intros ->. auto.
  - change (join "," (x :: y :: l)) with (String.append x (String "," (join "," (y :: l)))).
    destruct x; discriminate.
Qed.

Lemma split_nonempty_join (l : list string) :
  Forall (fun x => contains "," x = false) l -> l <> [""] ->
  ConfigurationCommunicator.split_nonempty (join "," l) = l.
Proof.
  intros Hl Hne. unfold ConfigurationCommunicator.split_nonempty.
  destruct (join "," l) as [|c s] eqn:E.
  - destruct (join_empty_inv l E) as [->| ->]; [reflexivity|contradiction].
  - cbn [String.length]. destruct (decide (0 < S (String.length s))%nat); [|lia].
    rewrite <- E. apply split_join; [|exact Hl]. intros ->. discriminate.
Qed.

Lemma store_slew_lookup (c : scheduler_slewConfigC.t) (self : ConfigurationCommunicator.t)
    (f : scheduler_slewConfigC.t -> string) (key : string) :
  (f, key) ∈ slew_fields ->
  ConfigurationCommunicator.config (ConfigurationCommunicator.store_slew c self) !! key
  = Some (ConfigurationCommunicator.strs (ConfigurationCommunicator.split_nonempty (f c))).
Proof.
  unfold slew_fields. intro H.
  repeat (apply elem_of_cons in H as [H|H];
          [injection H as -> ->; unfold ConfigurationCommunicator.store_slew;
           cbn [ConfigurationCommunicator.config ConfigurationCommunicator.assign];
           unfold setattr;
           repeat (rewrite lookup_insert_ne by discriminate);
           apply lookup_insert_eq|]).
  inversion H.
Qed.

Lemma store_camera_lookup (c : scheduler_cameraConfigC.t) (self : ConfigurationCommunicator.t)
    (f : scheduler_cameraConfigC.t -> string) (key : string) :
  (f, key) ∈ camera_fields ->
  ConfigurationCommunicator.config (ConfigurationCommunicator.store_camera c self) !! key
  = Some (ConfigurationCommunicator.strs (split "," (f c))).
Proof.
  unfold camera_fields. intro H.
  repeat (apply elem_of_cons in H as [H|H];
          [injection H as -> ->; unfold ConfigurationCommunicator.store_camera;
           cbn [ConfigurationCommunicator.config ConfigurationCommunicator.assign];
           unfold setattr;
           repeat (rewrite lookup_insert_ne by discriminate);
           apply lookup_insert_eq|]).
  inversion H.
Qed.


Lemma configure_topic_returned_state (sal : ConfigurationCommunicator.SalManager)
    (T : ConfigurationCommunicator.Topic) (fuel : nat)
    (self self' : ConfigurationCommunicator.t)
    (log log' : list ConfigurationCommunicator.event) (c : ConfigurationCommunicator.sample T) :
  ConfigurationCommunicator.no_dds_comm self = false ->
  ConfigurationCommunicator.configure_topic sal T fuel (self, log)
  = Some ((self', log'), None) ->
  ConfigurationCommunicator.conf self' T = Some c ->
  ConfigurationCommunicator.valid T c = true
  /\ forall key,
       ConfigurationCommunicator.config self' !! key
       = ConfigurationCommunicator.config (ConfigurationCommunicator.store T c self) !! key.
Proof.
  intros Hdds H Hc.
  destruct (configure_topic_dds sal T fuel self log _ _ Hdds H)
    as (k & _ & _ & [(_ & Ha & Hst)|(Hr & _)]); [|discriminate].
  cbn [fst] in Hst.
  set (c0 := ConfigurationCommunicator.buffer
               (ConfigurationCommunicator.getNextSample sal T k)) in *.
  assert (c = c0) as ->.
  { rewrite Hst in Hc.
    destruct (store_keeps T c0
                (ConfigurationCommunicator.set_conf T c0
                   (ConfigurationCommunicator.set_conf T (ConfigurationCommunicator.zero T)
                      self))) as (_ & _ & K).
    rewrite K, conf_set_conf_eq in Hc. injection Hc as <-. reflexivity. }
  split; [exact (proj2 (accepted_valid sal T k Ha))|].
  intro key. rewrite Hst, store_union, (store_union T c0 self). reflexivity.
Qed.

(** X6: [_configure_slew] decodes what a comma join encodes: when a
    prerequisite field of the accepted sample is the join of the names of
    [l], none of which holds a comma, the configuration entry of the field
    is [l], the empty list included; the one list that does not come back
    is the list holding one empty name. *)
Theorem configure_slew_decodes_joined_names
    (sal : ConfigurationCommunicator.SalManager) (fuel : nat)
    (self self' : ConfigurationCommunicator.t)
    (log log' : list ConfigurationCommunicator.event)
    (c : scheduler_slewConfigC.t)
    (f : scheduler_slewConfigC.t -> string) (key : string) (l : list string) :
  ConfigurationCommunicator.no_dds_comm self = false ->
  ConfigurationCommunicator._configure_slew sal fuel (self, log)
  = Some ((self', log'), None) ->
  ConfigurationCommunicator.conf self' ConfigurationCommunicator.slewConfig = Some c ->
  (f, key) ∈ slew_fields ->
  Forall (fun x => contains "," x = false) l ->
  l <> [""] ->
  f c = join "," l ->
  ConfigurationCommunicator.config self' !! key = Some (VList (map VStr l)).
Proof.
  intros Hdds H Hc Hin Hl Hne Hf.
  destruct (configure_topic_returned_state sal ConfigurationCommunicator.slewConfig
              fuel self self' log log' c Hdds H Hc) as [_ Hkey].
  rewrite Hkey. cbn [ConfigurationCommunicator.store].
  rewrite (store_slew_lookup c self f key Hin), Hf, (split_nonempty_join l Hl Hne).
  reflexivity.
Qed.

Lemma configure_slew_decodes_joined_names_witness :
  ConfigurationCommunicator.config
    (fst (final_state (ConfigurationCommunicator._configure_slew Ready.sal 1
                         (attached false, []))))
    !! "observatory.slew.prereq_exposures"
  = Some (VList (map VStr ["TelSettle"; "DomSettle"]))
  /\ ConfigurationCommunicator.config
       (fst (final_state (ConfigurationCommunicator._configure_slew Ready.sal 1
                            (attached false, []))))
       !! "observatory.slew.prereq_readout"
     = Some (VList (map VStr [])).
Proof.
  pose (o := ConfigurationCommunicator._configure_slew Ready.sal 1
               (attached false, [])).
  assert (Ho : o = Some ((fst (final_state o), snd (final_state o)), None)).
  { rewrite <- surjective_pairing. apply outcome_eq. vm_compute. reflexivity. }
  split.
  - apply (configure_slew_decodes_joined_names Ready.sal 1
             (attached false) (fst (final_state o))
             [] (snd (final_state o)) Ready.slew scheduler_slewConfigC.prereqExposures).
    + reflexivity.
    + exact Ho.
    + vm_compute. reflexivity.
    + unfold slew_fields. in_list.
    + repeat constructor.
    + discriminate.
    + reflexivity.
  - apply (configure_slew_decodes_joined_names Ready.sal 1
             (attached false) (fst (final_state o))
             [] (snd (final_state o)) Ready.slew scheduler_slewConfigC.prereqReadout).
    + reflexivity.
    + exact Ho.
    + vm_compute. reflexivity.
    + unfold slew_fields. in_list.
    + constructor.
    + discriminate.
    + reflexivity.
Defined.

(** X7: [_configure_camera] decodes what a comma join encodes for a list
    that is not empty: when a filter-list field of the accepted sample is
    the join of the names of [l], none of which holds a comma, the
    configuration entry of the field is [l]. *)
Theorem configure_camera_decodes_joined_names
    (sal : ConfigurationCommunicator.SalManager) (fuel : nat)
    (self self' : ConfigurationCommunicator.t)
    (log log' : list ConfigurationCommunicator.event)
    (c : scheduler_cameraConfigC.t)
    (f : scheduler_cameraConfigC.t -> string) (key : string) (l : list string) :
  ConfigurationCommunicator.no_dds_comm self = false ->
  ConfigurationCommunicator._configure_camera sal fuel (self, log)
  = Some ((self', log'), None) ->
  ConfigurationCommunicator.conf self' ConfigurationCommunicator.cameraConfig = Some c ->
  (f, key) ∈ camera_fields ->
  Forall (fun x => contains "," x = false) l ->
  l <> [] ->
  f c = join "," l ->
  ConfigurationCommunicator.config self' !! key = Some (VList (map VStr l)).
Proof.
  intros Hdds H Hc Hin Hl Hne Hf.
  destruct (configure_topic_returned_state sal ConfigurationCommunicator.cameraConfig
              fuel self self' log log' c Hdds H Hc) as [_ Hkey].
  rewrite Hkey. cbn [ConfigurationCommunicator.store].
  rewrite (store_camera_lookup c self f key Hin), Hf, (split_join l Hne Hl).
  reflexivity.
Qed.

Lemma configure_camera_decodes_joined_names_witness :
  ConfigurationCommunicator.config
    (fst (final_state (ConfigurationCommunicator._configure_camera Ready.sal 1
                         (attached false, []))))
    !! "observatory.camera.filter_removable"
  = Some (VList (map VStr ["y"; "z"])).
Proof.
  pose (o := ConfigurationCommunicator._configure_camera Ready.sal 1
               (attached false, [])).
  apply (configure_camera_decodes_joined_names Ready.sal 1
           (attached false) (fst (final_state o))
           [] (snd (final_state o)) Sample.camera scheduler_cameraConfigC.filterRemovable).
  - reflexivity.
  - rewrite <- surjective_pairing. apply outcome_eq. vm_compute. reflexivity.
  - vm_compute. reflexivity.
  - unfold camera_fields. in_list.
  - repeat constructor.
  - discriminate.
  - reflexivity.
Defined.

(** ** general.py: what the selection blocks write *)

Section SelectionBlock.
Variables mins maxs bounds : string.
Hypothesis Hmm : mins <> maxs.
Hypothesis Hmb : mins <> bounds.
Hypothesis Hxb : maxs <> bounds.

Lemma selection_body_spec (i : nat) (v : Selection.t) (types types' : list string)
    (t t' : obj) :
  General.selection_body mins maxs bounds (i, v) (types, t) = Ok (types', t') ->
  types' = types ++ [Selection.limit_type v]
  /\ slot mins i t' = Some (VFloat (Selection.minimum_limit v))
  /\ slot maxs i t' = Some (VFloat (Selection.maximum_limit v))
  /\ slot bounds i t' = Some (VFloat (Selection.bounds_limit v))
  /\ (forall a j, j <> i -> slot a j t' = slot a j t).
Proof.
  intro H. unfold General.selection_body in H.
  apply bind_Ok in H as (t1 & E1 & H). apply bind_Ok in H as (t2 & E2 & H).
  apply bind_Ok in H as (t3 & E3 & H). injection H as <- <-.
  split; [reflexivity|]. split; [|split; [|split]].
  - rewrite (setitem_slot_ne _ _ _ _ _ _ _ E3) by (left; exact Hmb).
    rewrite (setitem_slot_ne _ _ _ _ _ _ _ E2) by (left; exact Hmm).
    exact (setitem_slot_eq _ _ _ _ _ E1).
  - rewrite (setitem_slot_ne _ _ _ _ _ _ _ E3) by (left; exact Hxb).
    exact (setitem_slot_eq _ _ _ _ _ E2).
  - exact (setitem_slot_eq _ _ _ _ _ E3).
  - intros a j Hj.
    rewrite (setitem_slot_ne _ _ _ _ _ _ _ E3) by (right; exact Hj).
    rewrite (setitem_slot_ne _ _ _ _ _ _ _ E2) by (right; exact Hj).
    apply (setitem_slot_ne _ _ _ _ _ _ _ E1). right. exact Hj.
Qed.

Lemma selection_loop_spec (vs : list Selection.t) :
  forall (k : nat) (types types' : list string) (t t' : obj),
    for_each (General.selection_body mins maxs bounds) (enumerate_from k vs) (types, t)
    = Ok (types', t') ->
    types' = types ++ map Selection.limit_type vs
    /\ (forall i v, vs !! i = Some v ->
          slot mins (k + i) t' = Some (VFloat (Selection.minimum_limit v))
          /\ slot maxs (k + i) t' = Some (VFloat (Selection.maximum_limit v))
          /\ slot bounds (k + i) t' = Some (VFloat (Selection.bounds_limit v)))
    /\ (forall a j, (j < k)%nat -> slot a j t' = slot a j t).
Proof.
  induction vs as [|v vs IH]; intros k types types' t t' H;
    cbn [for_each enumerate_from] in H.
  - injection H as <- <-. rewrite app_nil_r.
    split; [reflexivity|]. split; [intros i v Hi; discriminate|reflexivity].
  - destruct (General.selection_body mins maxs bounds (k, v) (types, t))
      as [[types1 t1]|] eqn:Eb; [|discriminate].
    destruct (selection_body_spec _ _ _ _ _ _ Eb) as (-> & Hmin & Hmax & Hbnd & Hother).
    destruct (IH _ _ _ _ _ H) as (-> & Hrows & Hbelow).
    split; [rewrite <- app_assoc; reflexivity|]. split.
    + intros [|i] w Hi.
      * injection Hi as <-. rewrite Nat.add_0_r.
        rewrite !Hbelow by lia. auto.
      * replace (k + S i)%nat with (S k + i)%nat by lia. apply (Hrows i w Hi).
    + intros a j Hj. rewrite Hbelow by lia. apply Hother. lia.
Qed.

End SelectionBlock.

Lemma General_set_region_selections_spec (self : General.t) (d : dict Z Selection.t)
    (t t' : obj) :
  SkyRegion.selections (General.sky_region self) = Some d -> d <> [] ->
  General.set_region_selections self t = Ok t' ->
  t' !! "regionTypes" = Some (VStr (join "," (map Selection.limit_type (values d))))
  /\ forall i v, values d !! i = Some v ->
       slot "regionMinimums" i t' = Some (VFloat (Selection.minimum_limit v))
       /\ slot "regionMaximums" i t' = Some (VFloat (Selection.maximum_limit v))
       /\ slot "regionBounds" i t' = Some (VFloat (Selection.bounds_limit v)).
Proof.
  intros Hsel Hne H. unfold General.set_region_selections in H. rewrite Hsel in H.
  cbv zeta in H. destruct d as [|kv d]; [contradiction|].
  bind_inv H. injection H as <-. bind_inv E. destruct topic0 as [types t1].
  injection E as <-.
  destruct (selection_loop_spec "regionMinimums" "regionMaximums" "regionBounds"
              ltac:(discriminate) ltac:(discriminate) ltac:(discriminate)
              _ _ _ _ _ _ E0) as (-> & Hrows & _).
  split.
  - unfold setattr. rewrite lookup_insert_ne by discriminate. apply lookup_insert_eq.
  - intros i v Hi. destruct (Hrows i v Hi) as (H1 & H2 & H3). cbn [Nat.add] in H1, H2, H3.
    repeat split.
    + rewrite <- H1. apply slot_ext. unfold setattr.
      rewrite !lookup_insert_ne by discriminate. reflexivity.
    + rewrite <- H2. apply slot_ext. unfold setattr.
      rewrite !lookup_insert_ne by discriminate. reflexivity.
    + rewrite <- H3. apply slot_ext. unfold setattr.
      rewrite !lookup_insert_ne by discriminate. reflexivity.
Qed.

Lemma General_set_region_selections_combiners (self : General.t) (t t' : obj) :
  General.set_region_selections self t = Ok t' ->
  t' !! "regionCombiners"
  = Some (VStr (join "," (SkyRegion.combiners (General.sky_region self)))).
Proof.
  intro H. unfold General.set_region_selections in H. cbv zeta in H.
  bind_inv H. injection H as <-. apply lookup_insert_eq.
Qed.

Lemma General_set_exclusion_selections_spec (self : General.t) (d : dict Z Selection.t)
    (t t' : obj) :
  SkyExclusion.selections (General.sky_exclusion self) = Some d -> d <> [] ->
  General.set_exclusion_selections self t = Ok t' ->
  t' !! "numExclusionSelections" = Some (VInt (Z.of_nat (length d)))
  /\ t' !! "exclusionTypes" = Some (VStr (join "," (map Selection.limit_type (values d))))
  /\ forall i v, values d !! i = Some v ->
       slot "exclusionMinimums" i t' = Some (VFloat (Selection.minimum_limit v))
       /\ slot "exclusionMaximums" i t' = Some (VFloat (Selection.maximum_limit v))
       /\ slot "exclusionBounds" i t' = Some (VFloat (Selection.bounds_limit v)).
Proof.
  intros Hsel Hne H. unfold General.set_exclusion_selections in H. rewrite Hsel in H.
  cbv zeta in H. destruct d as [|kv d]; [contradiction|].
  bind_inv H. destruct topic as [types t1]. injection H as <-.
  destruct (selection_loop_spec "exclusionMinimums" "exclusionMaximums" "exclusionBounds"
              ltac:(discriminate) ltac:(discriminate) ltac:(discriminate)
              _ _ _ _ _ _ E) as (-> & Hrows & _).
  split; [|split].
  - unfold setattr at 1. rewrite lookup_insert_ne by discriminate.
    assert (Hnot : "numExclusionSelections"
                   ∉ ["exclusionMinimums"; "exclusionMaximums"; "exclusionBounds"])
      by notin_compute.
    pose proof (selection_loop_frame _ _ _ _ _ _ _ Hnot E) as F. cbn [snd] in F.
    rewrite F. apply lookup_insert_eq.
  - apply lookup_insert_eq.
  - intros i v Hi. destruct (Hrows i v Hi) as (H1 & H2 & H3). cbn [Nat.add] in H1, H2, H3.
    repeat split.
    + rewrite <- H1. apply slot_ext. unfold setattr.
      rewrite !lookup_insert_ne by discriminate. reflexivity.
    + rewrite <- H2. apply slot_ext. unfold setattr.
      rewrite !lookup_insert_ne by discriminate. reflexivity.
    + rewrite <- H3. apply slot_ext. unfold setattr.
      rewrite !lookup_insert_ne by discriminate. reflexivity.
Qed.

(** The blocks of [General.set_topic], one after the other. *)
Lemma General_set_topic_blocks (self : General.t) (topic topic' : obj) :
  General.set_topic self topic = Ok topic' ->
  exists t1 t2 t3 t4 t5,
    General.set_region_selections self (General.set_sky self topic) = Ok t1
    /\ General.set_time_ranges self t1 = Ok t2
    /\ General.set_selection_mappings self t2 = Ok t3
    /\ General.set_exclusion_selections self t3 = Ok t4
    /\ General.set_filters self t4 = Ok t5
    /\ topic' = General.set_scheduling self t5.
Proof.
  intro H. unfold General.set_topic in H. cbv zeta in H.
  apply bind_Ok in H as (t1 & E1 & H). apply bind_Ok in H as (t2 & E2 & H).
  apply bind_Ok in H as (t3 & E3 & H). apply bind_Ok in H as (t4 & E4 & H).
  apply bind_Ok in H as (t5 & E5 & H). injection H as <-.
  exists t1, t2, t3, t4, t5. auto 10.
Qed.

(** ** general.py: time ranges, selection mappings and exposures *)

Lemma time_range_loop_spec (vs : list TimeRange.t) :
  forall (k : nat) (t t' : obj),
    for_each General.time_range_body (enumerate_from k vs) t = Ok t' ->
    (forall i v, vs !! i = Some v ->
       slot "timeRangeStarts" (k + i) t' = Some (VInt (TimeRange.start v))
       /\ slot "timeRangeEnds" (k + i) t' = Some (VInt (TimeRange.end_ v)))
    /\ (forall a j, (j < k)%nat -> slot a j t' = slot a j t).
Proof.
  induction vs as [|v vs IH]; intros k t t' H; cbn [for_each enumerate_from] in H.
  - injection H as <-. split; [intros i v Hi; discriminate|reflexivity].
  - destruct (General.time_range_body (k, v) t) as [t1|] eqn:Eb; [|discriminate].
    unfold General.time_range_body in Eb. apply bind_Ok in Eb as (t0 & E1 & E2).
    destruct (IH _ _ _ H) as (Hrows & Hbelow).
    split.
    + intros [|i] w Hi.
      * injection Hi as <-. rewrite Nat.add_0_r. rewrite !Hbelow by lia. split.
        -- rewrite (setitem_slot_ne _ _ _ _ _ _ _ E2) by (left; discriminate).
           exact (setitem_slot_eq _ _ _ _ _ E1).
        -- exact (setitem_slot_eq _ _ _ _ _ E2).
      * replace (k + S i)%nat with (S k + i)%nat by lia. apply (Hrows i w Hi).
    + intros a j Hj. rewrite Hbelow by lia.
      rewrite (setitem_slot_ne _ _ _ _ _ _ _ E2) by (right; lia).
      apply (setitem_slot_ne _ _ _ _ _ _ _ E1). right. lia.
Qed.

Lemma selection_index_loop_spec (idxs : list Z) :
  forall (k k' : nat) (t t' : obj),
    for_each General.selection_index_body idxs (k, t) = Ok (k', t') ->
    k' = (k + length idxs)%nat
    /\ (forall j x, idxs !! j = Some x -> slot "selectionMappings" (k + j) t' = Some (VInt x))
    /\ (forall j, (j < k)%nat -> slot "selectionMappings" j t' = slot "selectionMappings" j t)
    /\ (forall a, a <> "selectionMappings" -> t' !! a = t !! a).
Proof.
  induction idxs as [|x idxs IH]; intros k k' t t' H; cbn [for_each] in H.
  - injection H as <- <-. split; [cbn; lia|]. split; [intros j x Hj; discriminate|].
    split; reflexivity.
  - destruct (General.selection_index_body x (k, t)) as [[k1 t1]|] eqn:Eb; [|discriminate].
    unfold General.selection_index_body in Eb. bind_inv Eb. injection Eb as <- <-.
    destruct (IH _ _ _ _ H) as (-> & Hvs & Hbelow & Hframe).
    split; [cbn; lia|]. split; [|split].
    + intros [|j] w Hj.
      * injection Hj as <-. rewrite Nat.add_0_r. rewrite Hbelow by lia.
        apply (setitem_slot_eq _ _ _ _ _ E).
      * replace (k + S j)%nat with (S k + j)%nat by lia. apply (Hvs j w Hj).
    + intros j Hj. rewrite Hbelow by lia.
      apply (setitem_slot_ne _ _ _ _ _ _ _ E). right. lia.
    + intros a Ha. rewrite (Hframe a Ha). apply (setitem_lookup_ne _ _ _ _ _ _ E Ha).
Qed.

(** The selections all the mappings of [vs] list, in order. *)
Lemma selection_mapping_loop_spec (vs : list SelectionList.t) :
  forall (k e e' : nat) (t t' : obj),
    for_each General.selection_mapping_body (enumerate_from k vs) (e, t) = Ok (e', t') ->
    e' = (e + length (concat (map SelectionList.indexes vs)))%nat
    /\ (forall i v, vs !! i = Some v ->
          slot "numSelectionMappings" (k + i) t'
          = Some (VInt (Z.of_nat (length (SelectionList.indexes v)))))
    /\ (forall j x, concat (map SelectionList.indexes vs) !! j = Some x ->
          slot "selectionMappings" (e + j) t' = Some (VInt x))
    /\ (forall j, (j < k)%nat ->
          slot "numSelectionMappings" j t' = slot "numSelectionMappings" j t)
    /\ (forall j, (j < e)%nat ->
          slot "selectionMappings" j t' = slot "selectionMappings" j t).
Proof.
  induction vs as [|v vs IH]; intros k e e' t t' H; cbn [for_each enumerate_from] in H.
  - injection H as <- <-. split; [cbn; lia|]. split; [intros i v Hi; discriminate|].
    split; [intros j x Hj; discriminate|]. split; reflexivity.
  - destruct (General.selection_mapping_body (k, v) (e, t)) as [[e1 t1]|] eqn:Eb;
      [|discriminate].
    unfold General.selection_mapping_body in Eb. apply bind_Ok in Eb as (t0 & E0 & Eb).
    destruct (selection_index_loop_spec _ _ _ _ _ Eb) as (-> & Hidx & Hidxbelow & Hidxframe).
    destruct (IH _ _ _ _ _ H) as (-> & Hrows & Hflat & Hbelow & Hflatbelow).
    cbn [map concat]. rewrite length_app.
    split; [lia|]. split; [|split; [|split]].
    + intros [|i] w Hi.
      * injection Hi as <-. rewrite Nat.add_0_r. rewrite Hbelow by lia.
        rewrite (slot_ext _ k t0) by (apply Hidxframe; discriminate).
        exact (setitem_slot_eq _ _ _ _ _ E0).
      * replace (k + S i)%nat with (S k + i)%nat by lia. apply (Hrows i w Hi).
    + intros j x Hj.
      destruct (decide (j < length (SelectionList.indexes v))%nat) as [Hlt|Hge].
      * rewrite lookup_app_l in Hj by exact Hlt.
        rewrite Hflatbelow by lia. apply (Hidx j x Hj).
      * rewrite lookup_app_r in Hj by lia.
        replace (e + j)%nat
          with (e + length (SelectionList.indexes v)
                + (j - length (SelectionList.indexes v)))%nat by lia.
        apply (Hflat _ x Hj).
    + intros j Hj. rewrite Hbelow by lia.
      rewrite (slot_ext _ j t0) by (apply Hidxframe; discriminate).
      apply (setitem_slot_ne _ _ _ _ _ _ _ E0). right. lia.
    + intros j Hj. rewrite Hflatbelow by lia. rewrite Hidxbelow by lia.
      apply (setitem_slot_ne _ _ _ _ _ _ _ E0). left. discriminate.
Qed.

Lemma General_exposure_loop_spec (xs : list float) :
  forall (k k' : nat) (t t' : obj),
    for_each General.exposure_body xs (k, t) = Ok (k', t') ->
    k' = (k + length xs)%nat
    /\ (forall j x, xs !! j = Some x -> slot "exposures" (k + j) t' = Some (VFloat x))
    /\ (forall j, (j < k)%nat -> slot "exposures" j t' = slot "exposures" j t).
Proof.
  induction xs as [|x xs IH]; intros k k' t t' H; cbn [for_each] in H.
  - injection H as <- <-. split; [cbn; lia|]. split; [intros j x Hj; discriminate|].
    reflexivity.
  - destruct (General.exposure_body x (k, t)) as [[k1 t1]|] eqn:Eb; [|discriminate].
    unfold General.exposure_body in Eb. bind_inv Eb. injection Eb as <- <-.
    destruct (IH _ _ _ _ H) as (-> & Hvs & Hbelow).
    split; [cbn; lia|]. split.
    + intros [|j] w Hj.
      * injection Hj as <-. rewrite Nat.add_0_r. rewrite Hbelow by lia.
        apply (setitem_slot_eq _ _ _ _ _ E).
      * replace (k + S j)%nat with (S k + j)%nat by lia. apply (Hvs j w Hj).
    + intros j Hj. rewrite Hbelow by lia.
      apply (setitem_slot_ne _ _ _ _ _ _ _ E). right. lia.
Qed.

(** The exposures of all the filters of [vs], in order. *)
Lemma General_filter_loop_exposures (vs : list GeneralBandFilter.t) :
  forall (k : nat) (names names' : list string) (e e' : nat) (t t' : obj),
    for_each General.filter_body (enumerate_from k vs) (names, e, t) = Ok (names', e', t') ->
    e' = (e + length (concat (map GeneralBandFilter.exposures vs)))%nat
    /\ (forall j x, concat (map GeneralBandFilter.exposures vs) !! j = Some x ->
          slot "exposures" (e + j) t' = Some (VFloat x))
    /\ (forall j, (j < e)%nat -> slot "exposures" j t' = slot "exposures" j t).
Proof.
  induction vs as [|v vs IH]; intros k names names' e e' t t' H;
    cbn [for_each enumerate_from] in H.
  - injection H as <- <- <-. split; [cbn; lia|]. split; [intros j x Hj; discriminate|].
    reflexivity.
  - destruct (General.filter_body (k, v) (names, e, t)) as [[[names1 e1] t1]|] eqn:Eb;
      [|discriminate].
    unfold General.filter_body in Eb. binds Eb.
    match goal with
    | Eloop : for_each General.exposure_body _ _ = Ok ?st |- _ =>
        destruct st as [e2 t2]; cbn [fst snd] in Eb;
        destruct (General_exposure_loop_spec _ _ _ _ _ Eloop) as (-> & Hexp & Hexpbelow)
    end.
    inversion Eb; subst names1 e1 t1; clear Eb.
    destruct (IH _ _ _ _ _ _ _ H) as (-> & Hflat & Hbelow).
    cbn [map concat]. rewrite length_app.
    assert (Hpre : forall j, slot "exposures" j topic5 = slot "exposures" j t).
    { intro j. apply slot_ext. frame_back_with discriminate. reflexivity. }
    split; [lia|]. split.
    + intros j x Hj.
      destruct (decide (j < length (GeneralBandFilter.exposures v))%nat) as [Hlt|Hge].
      * rewrite lookup_app_l in Hj by exact Hlt.
        rewrite Hbelow by lia. apply (Hexp j x Hj).
      * rewrite lookup_app_r in Hj by lia.
        replace (e + j)%nat
          with (e + length (GeneralBandFilter.exposures v)
                + (j - length (GeneralBandFilter.exposures v)))%nat by lia.
        apply (Hflat _ x Hj).
    + intros j Hj. rewrite Hbelow by lia. rewrite Hexpbelow by lia. apply Hpre.
Qed.

(** ** General.set_topic: what the returned topic holds *)

Lemma General_set_sky_spec (self : General.t) (topic : obj) (a : string) (v : value) :
  (a, v) ∈ take 8 (general_scalars self) -> General.set_sky self topic !! a = Some v.
Proof.
  cbn [take general_scalars]. intro H. unfold General.set_sky. cbv zeta. unfold setattr.
  repeat (apply elem_of_cons in H as [H|H];
          [injection H as -> ->;
           repeat (rewrite lookup_insert_ne by discriminate); apply lookup_insert_eq|]).
  inversion H.
Qed.

Lemma General_set_scheduling_spec (self : General.t) (topic : obj) (a : string) (v : value) :
  (a, v) ∈ drop 13 (general_scalars self) -> General.set_scheduling self topic !! a = Some v.
Proof.
  cbn [drop general_scalars]. intro H. unfold General.set_scheduling. cbv zeta.
  unfold setattr.
  repeat (apply elem_of_cons in H as [H|H];
          [injection H as -> ->;
           repeat (rewrite lookup_insert_ne by discriminate); apply lookup_insert_eq|]).
  inversion H.
Qed.

Lemma General_set_time_ranges_num (self : General.t) (t t' : obj) :
  General.set_time_ranges self t = Ok t' ->
  t' !! "numTimeRanges" = Some (VInt (count (SkyRegion.time_ranges (General.sky_region self)))).
Proof.
  intro H. unfold General.set_time_ranges in H. cbv zeta in H. unfold count.
  destruct (SkyRegion.time_ranges (General.sky_region self)) as [[|kv d]|].
  - injection H as <-. apply lookup_insert_eq.
  - assert (F : t' !! "numTimeRanges"
                = setattr "numTimeRanges" (VInt (Z.of_nat (length (kv :: d)))) t
                  !! "numTimeRanges").
    { revert H. apply (for_each_frame id). intros [i v] s1 s2 Hb.
      unfold General.time_range_body in Hb. bind_inv Hb. unfold id.
      frame_back_with discriminate. reflexivity. }
    rewrite F. apply lookup_insert_eq.
  - injection H as <-. apply lookup_insert_eq.
Qed.

Lemma General_set_exclusion_selections_num (self : General.t) (t t' : obj) :
  General.set_exclusion_selections self t = Ok t' ->
  t' !! "numExclusionSelections"
  = Some (VInt (count (SkyExclusion.selections (General.sky_exclusion self)))).
Proof.
  intro H. unfold count.
  destruct (SkyExclusion.selections (General.sky_exclusion self)) as [[|kv d]|] eqn:Hsel.
  - unfold General.set_exclusion_selections in H. rewrite Hsel in H. injection H as <-.
    apply lookup_insert_eq.
  - apply (General_set_exclusion_selections_spec self (kv :: d) t t' Hsel); [discriminate|].
    exact H.
  - unfold General.set_exclusion_selections in H. rewrite Hsel in H. injection H as <-.
    apply lookup_insert_eq.
Qed.

Lemma General_set_filters_num (self : General.t) (t t' : obj) :
  General.set_filters self t = Ok t' ->
  t' !! "numFilters" = Some (VInt (count (General.filters self))).
Proof.
  intro H. unfold count.
  destruct (General.filters self) as [[|kv d]|] eqn:Hfl.
  - unfold General.set_filters in H. rewrite Hfl in H. injection H as <-.
    apply lookup_insert_eq.
  - apply (General_set_filters_spec self (kv :: d) t t' Hfl); [discriminate|exact H].
  - unfold General.set_filters in H. rewrite Hfl in H. injection H as <-.
    apply lookup_insert_eq.
Qed.

(** The attribute [a] of the topic returned is the one the block that
    produced [t1], [t2], [t3] or [t4] left, when no later block assigns it. *)
Lemma General_after_regions (self : General.t) (t1 t2 t3 t4 t5 : obj) (a : string) :
  General.set_time_ranges self t1 = Ok t2 ->
  General.set_selection_mappings self t2 = Ok t3 ->
  General.set_exclusion_selections self t3 = Ok t4 ->
  General.set_filters self t4 = Ok t5 ->
  a ∉ time_range_attrs ++ mapping_attrs ++ exclusion_attrs ++ general_filter_attrs
      ++ general_scheduling_attrs ->
  General.set_scheduling self t5 !! a = t1 !! a.
Proof.
  intros E2 E3 E4 E5 Ha. rewrite !not_elem_of_app in Ha.
  destruct Ha as (H2 & H3 & H4 & H5 & H6).
  rewrite (General_set_scheduling_frame self t5 a H6).
  rewrite (General_set_filters_frame self t4 t5 a H5 E5).
  rewrite (General_set_exclusion_selections_frame self t3 t4 a H4 E4).
  rewrite (General_set_selection_mappings_frame self t2 t3 a H3 E3).
  apply (General_set_time_ranges_frame self t1 t2 a H2 E2).
Qed.

Lemma General_after_time_ranges (self : General.t) (t2 t3 t4 t5 : obj) (a : string) :
  General.set_selection_mappings self t2 = Ok t3 ->
  General.set_exclusion_selections self t3 = Ok t4 ->
  General.set_filters self t4 = Ok t5 ->
  a ∉ mapping_attrs ++ exclusion_attrs ++ general_filter_attrs ++ general_scheduling_attrs ->
  General.set_scheduling self t5 !! a = t2 !! a.
Proof.
  intros E3 E4 E5 Ha. rewrite !not_elem_of_app in Ha. destruct Ha as (H3 & H4 & H5 & H6).
  rewrite (General_set_scheduling_frame self t5 a H6).
  rewrite (General_set_filters_frame self t4 t5 a H5 E5).
  rewrite (General_set_exclusion_selections_frame self t3 t4 a H4 E4).
  apply (General_set_selection_mappings_frame self t2 t3 a H3 E3).
Qed.

Lemma General_after_mappings (self : General.t) (t3 t4 t5 : obj) (a : string) :
  General.set_exclusion_selections self t3 = Ok t4 ->
  General.set_filters self t4 = Ok t5 ->
  a ∉ exclusion_attrs ++ general_filter_attrs ++ general_scheduling_attrs ->
  General.set_scheduling self t5 !! a = t3 !! a.
Proof.
  intros E4 E5 Ha. rewrite !not_elem_of_app in Ha. destruct Ha as (H4 & H5 & H6).
  rewrite (General_set_scheduling_frame self t5 a H6).
  rewrite (General_set_filters_frame self t4 t5 a H5 E5).
  apply (General_set_exclusion_selections_frame self t3 t4 a H4 E4).
Qed.

Lemma General_after_exclusions (self : General.t) (t4 t5 : obj) (a : string) :
  General.set_filters self t4 = Ok t5 ->
  a ∉ general_filter_attrs ++ general_scheduling_attrs ->
  General.set_scheduling self t5 !! a = t4 !! a.
Proof.
  intros E5 Ha. rewrite !not_elem_of_app in Ha. destruct Ha as (H5 & H6).
  rewrite (General_set_scheduling_frame self t5 a H6).
  apply (General_set_filters_frame self t4 t5 a H5 E5).
Qed.

(** The scalars of a returned topic. *)
Lemma General_set_topic_scalars_spec (self : General.t) (topic topic' : obj)
    (a : string) (v : value) :
  General.set_topic self topic = Ok topic' ->
  (a, v) ∈ general_scalars self -> topic' !! a = Some v.
Proof.
  intros H Hin.
  destruct (General_set_topic_blocks self topic topic' H)
    as (t1 & t2 & t3 & t4 & t5 & E1 & E2 & E3 & E4 & E5 & ->).
  rewrite <- (take_drop 8 (general_scalars self)) in Hin.
  apply elem_of_app in Hin as [Hsky|Hin].
  - assert (Hname : a ∈ ["name"; "twilightBoundary"; "deltaLst"; "decWindow"; "maxAirmass";
                         "maxCloud"; "minDistanceMoon"; "excludePlanets"]).
    { cbn [take general_scalars] in Hsky.
      repeat (apply elem_of_cons in Hsky as [Hsky|Hsky]; [injection Hsky as -> _; in_list|]).
      inversion Hsky. }
    assert (Hall : Forall (fun a => (a ∉ region_attrs)
                             /\ a ∉ (time_range_attrs ++ mapping_attrs ++ exclusion_attrs
                                     ++ general_filter_attrs ++ general_scheduling_attrs))
                     ["name"; "twilightBoundary"; "deltaLst"; "decWindow"; "maxAirmass";
                      "maxCloud"; "minDistanceMoon"; "excludePlanets"]).
    { refine (bool_decide_unpack _ _). vm_compute. exact I. }
    rewrite Forall_forall in Hall. destruct (Hall a Hname) as [Hr Hlater].
    rewrite (General_after_regions self t1 t2 t3 t4 t5 a E2 E3 E4 E5 Hlater).
    rewrite (General_set_region_selections_frame self _ t1 a Hr E1).
    apply General_set_sky_spec. exact Hsky.
  - rewrite <- (take_drop 5 (drop 8 (general_scalars self))) in Hin.
    apply elem_of_app in Hin as [Hmid|Hsched].
    + cbn [take drop general_scalars] in Hmid.
      repeat (apply elem_of_cons in Hmid as [Hmid|Hmid]; [injection Hmid as -> ->|]);
        [| | | | |inversion Hmid].
      * rewrite (General_after_regions self t1 t2 t3 t4 t5 _ E2 E3 E4 E5) by notin_compute.
        apply (General_set_region_selections_num self _ _ E1).
      * rewrite (General_after_regions self t1 t2 t3 t4 t5 _ E2 E3 E4 E5) by notin_compute.
        apply (General_set_region_selections_combiners self _ _ E1).
      * rewrite (General_after_time_ranges self t2 t3 t4 t5 _ E3 E4 E5) by notin_compute.
        apply (General_set_time_ranges_num self _ _ E2).
      * rewrite (General_after_exclusions self t4 t5 _ E5) by notin_compute.
        apply (General_set_exclusion_selections_num self _ _ E4).
      * rewrite General_set_scheduling_frame by notin_compute.
        apply (General_set_filters_num self _ _ E5).
    + rewrite drop_drop in Hsched. apply General_set_scheduling_spec. exact Hsched.
Qed.

(** X8: for a general proposal with region selections,
    [General.set_topic] returns on every topic whose arrays have room, and
    the topic returned holds the number of selections, their types joined
    by commas, the combiners joined by commas and, in slot [i] of
    [regionMinimums], [regionMaximums] and [regionBounds], the limits of
    the selection that comes i-th in the iteration order of the mapping,
    whatever key it is stored under. *)
Theorem General_set_topic_region_selections
    (self : General.t) (d : dict Z Selection.t) (topic : obj) :
  SkyRegion.selections (General.sky_region self) = Some d ->
  d <> [] ->
  room (general_required self) topic ->
  exists topic',
    General.set_topic self topic = Ok topic'
    /\ topic' !! "numRegionSelections" = Some (VInt (Z.of_nat (length d)))
    /\ topic' !! "regionTypes"
       = Some (VStr (join "," (map Selection.limit_type (values d))))
    /\ topic' !! "regionCombiners"
       = Some (VStr (join "," (SkyRegion.combiners (General.sky_region self))))
    /\ forall i v, values d !! i = Some v ->
         slot "regionMinimums" i topic' = Some (VFloat (Selection.minimum_limit v))
         /\ slot "regionMaximums" i topic' = Some (VFloat (Selection.maximum_limit v))
         /\ slot "regionBounds" i topic' = Some (VFloat (Selection.bounds_limit v)).
Proof.
  intros Hsel Hne Hroom.
  destruct (General_set_topic_ok self topic Hroom) as (topic' & H).
  exists topic'. split; [exact H|].
  destruct (General_set_topic_blocks self topic topic' H)
    as (t1 & t2 & t3 & t4 & t5 & E1 & E2 & E3 & E4 & E5 & ->).
  destruct (General_set_region_selections_spec self d _ t1 Hsel Hne E1) as (Htypes & Hrows).
  pose proof (General_after_regions self t1 t2 t3 t4 t5) as Hlater.
  split; [|split; [|split]].
  - rewrite (Hlater _ E2 E3 E4 E5) by notin_compute.
    rewrite (General_set_region_selections_num self _ _ E1), Hsel. reflexivity.
  - rewrite (Hlater _ E2 E3 E4 E5) by notin_compute. exact Htypes.
  - rewrite (Hlater _ E2 E3 E4 E5) by notin_compute.
    apply (General_set_region_selections_combiners self _ _ E1).
  - intros i v Hi. destruct (Hrows i v Hi) as (H1 & H2 & H3). repeat split.
    + rewrite <- H1. apply slot_ext. apply (Hlater _ E2 E3 E4 E5). notin_compute.
    + rewrite <- H2. apply slot_ext. apply (Hlater _ E2 E3 E4 E5). notin_compute.
    + rewrite <- H3. apply slot_ext. apply (Hlater _ E2 E3 E4 E5). notin_compute.
Qed.

(** X9: for a general proposal with exclusion selections,
    [General.set_topic] returns on every topic whose arrays have room, and
    the topic returned holds the number of exclusions, their types joined
    by commas and, in slot [i] of [exclusionMinimums], [exclusionMaximums]
    and [exclusionBounds], the limits of the exclusion that comes i-th in
    the iteration order of the mapping; exclusions of every type are
    written, not only those of type GP. *)
Theorem General_set_topic_exclusion_selections
    (self : General.t) (d : dict Z Selection.t) (topic : obj) :
  SkyExclusion.selections (General.sky_exclusion self) = Some d ->
  d <> [] ->
  room (general_required self) topic ->
  exists topic',
    General.set_topic self topic = Ok topic'
    /\ topic' !! "numExclusionSelections" = Some (VInt (Z.of_nat (length d)))
    /\ topic' !! "exclusionTypes"
       = Some (VStr (join "," (map Selection.limit_type (values d))))
    /\ forall i v, values d !! i = Some v ->
         slot "exclusionMinimums" i topic' = Some (VFloat (Selection.minimum_limit v))
         /\ slot "exclusionMaximums" i topic' = Some (VFloat (Selection.maximum_limit v))
         /\ slot "exclusionBounds" i topic' = Some (VFloat (Selection.bounds_limit v)).
Proof.
  intros Hsel Hne Hroom.
  destruct (General_set_topic_ok self topic Hroom) as (topic' & H).
  exists topic'. split; [exact H|].
  destruct (General_set_topic_blocks self topic topic' H)
    as (t1 & t2 & t3 & t4 & t5 & E1 & E2 & E3 & E4 & E5 & ->).
  destruct (General_set_exclusion_selections_spec self d t3 t4 Hsel Hne E4)
    as (Hnum & Htypes & Hrows).
  pose proof (General_after_exclusions self t4 t5) as Hlater.
  split; [|split].
  - rewrite (Hlater _ E5) by notin_compute. exact Hnum.
  - rewrite (Hlater _ E5) by notin_compute. exact Htypes.
  - intros i v Hi. destruct (Hrows i v Hi) as (H1 & H2 & H3). repeat split.
    + rewrite <- H1. apply slot_ext. apply (Hlater _ E5). notin_compute.
    + rewrite <- H2. apply slot_ext. apply (Hlater _ E5). notin_compute.
    + rewrite <- H3. apply slot_ext. apply (Hlater _ E5). notin_compute.
Qed.

Lemma General_set_time_ranges_spec (self : General.t) (d : dict Z TimeRange.t) (t t' : obj) :
  SkyRegion.time_ranges (General.sky_region self) = Some d -> d <> [] ->
  General.set_time_ranges self t = Ok t' ->
  forall i v, values d !! i = Some v ->
    slot "timeRangeStarts" i t' = Some (VInt (TimeRange.start v))
    /\ slot "timeRangeEnds" i t' = Some (VInt (TimeRange.end_ v)).
Proof.
  intros Htr Hne H. unfold General.set_time_ranges in H. rewrite Htr in H. cbv zeta in H.
  destruct d as [|kv d]; [contradiction|].
  destruct (time_range_loop_spec _ _ _ _ H) as (Hrows & _).
  intros i v Hi. apply (Hrows i v Hi).
Qed.

Lemma General_set_selection_mappings_spec (self : General.t) (m : dict Z SelectionList.t)
    (t t' : obj) :
  SkyRegion.selection_mapping (General.sky_region self) = Some m -> m <> [] ->
  General.set_selection_mappings self t = Ok t' ->
  (forall i v, values m !! i = Some v ->
     slot "numSelectionMappings" i t'
     = Some (VInt (Z.of_nat (length (SelectionList.indexes v)))))
  /\ (forall j x, concat (map SelectionList.indexes (values m)) !! j = Some x ->
        slot "selectionMappings" j t' = Some (VInt x)).
Proof.
  intros Hm Hne H. unfold General.set_selection_mappings in H. rewrite Hm in H.
  destruct m as [|kv m]; [contradiction|].
  apply bind_Ok in H as ([e t1] & E & H). injection H as <-. cbn [snd].
  destruct (selection_mapping_loop_spec _ _ _ _ _ _ E) as (_ & Hrows & Hflat & _).
  split; [intros i v Hi; apply (Hrows i v Hi)|intros j x Hj; apply (Hflat j x Hj)].
Qed.

Lemma General_set_filters_exposures (self : General.t) (fl : dict string GeneralBandFilter.t)
    (t t' : obj) :
  General.filters self = Some fl -> fl <> [] ->
  General.set_filters self t = Ok t' ->
  forall j x, concat (map GeneralBandFilter.exposures (values fl)) !! j = Some x ->
    slot "exposures" j t' = Some (VFloat x).
Proof.
  intros Hfl Hne H. unfold General.set_filters in H. rewrite Hfl in H. cbv zeta in H.
  destruct fl as [|kv fl]; [contradiction|].
  apply bind_Ok in H as ([[names e] t1] & E & H). injection H as <-.
  destruct (General_filter_loop_exposures _ _ _ _ _ _ _ _ E) as (_ & Hflat & _).
  intros j x Hj. rewrite (slot_ext _ j t1) by (apply lookup_insert_ne; discriminate).
  apply (Hflat j x Hj).
Qed.

(** X10: for a general proposal with time ranges, [General.set_topic]
    returns on every topic whose arrays have room, and the topic returned
    holds the number of time ranges and, in slot [i] of [timeRangeStarts]
    and [timeRangeEnds], the bounds of the range that comes i-th in the
    iteration order of the mapping. *)
Theorem General_set_topic_time_ranges
    (self : General.t) (d : dict Z TimeRange.t) (topic : obj) :
  SkyRegion.time_ranges (General.sky_region self) = Some d ->
  d <> [] ->
  room (general_required self) topic ->
  exists topic',
    General.set_topic self topic = Ok topic'
    /\ topic' !! "numTimeRanges" = Some (VInt (Z.of_nat (length d)))
    /\ forall i v, values d !! i = Some v ->
         slot "timeRangeStarts" i topic' = Some (VInt (TimeRange.start v))
         /\ slot "timeRangeEnds" i topic' = Some (VInt (TimeRange.end_ v)).
Proof.
  intros Htr Hne Hroom.
  destruct (General_set_topic_ok self topic Hroom) as (topic' & H).
  exists topic'. split; [exact H|].
  destruct (General_set_topic_blocks self topic topic' H)
    as (t1 & t2 & t3 & t4 & t5 & E1 & E2 & E3 & E4 & E5 & ->).
  pose proof (General_after_time_ranges self t2 t3 t4 t5) as Hlater.
  split.
  - rewrite (Hlater _ E3 E4 E5) by notin_compute.
    rewrite (General_set_time_ranges_num self _ _ E2), Htr. reflexivity.
  - intros i v Hi.
    destruct (General_set_time_ranges_spec self d t1 t2 Htr Hne E2 i v Hi) as (H1 & H2).
    split.
    + rewrite <- H1. apply slot_ext. apply (Hlater _ E3 E4 E5). notin_compute.
    + rewrite <- H2. apply slot_ext. apply (Hlater _ E3 E4 E5). notin_compute.
Qed.

(** X11: for a general proposal with a selection mapping,
    [General.set_topic] returns on every topic whose arrays have room; in
    the topic returned [numSelectionMappings] is an array whose slot [i]
    holds how many selections the i-th mapping lists, and
    [selectionMappings] holds the selection indexes of all the mappings one
    after the other, in the iteration order of the mapping. *)
Theorem General_set_topic_selection_mappings
    (self : General.t) (m : dict Z SelectionList.t) (topic : obj) :
  SkyRegion.selection_mapping (General.sky_region self) = Some m ->
  m <> [] ->
  room (general_required self) topic ->
  exists topic',
    General.set_topic self topic = Ok topic'
    /\ (forall i v, values m !! i = Some v ->
          slot "numSelectionMappings" i topic'
          = Some (VInt (Z.of_nat (length (SelectionList.indexes v)))))
    /\ (forall j x, concat (map SelectionList.indexes (values m)) !! j = Some x ->
          slot "selectionMappings" j topic' = Some (VInt x)).
Proof.
  intros Hm Hne Hroom.
  destruct (General_set_topic_ok self topic Hroom) as (topic' & H).
  exists topic'. split; [exact H|].
  destruct (General_set_topic_blocks self topic topic' H)
    as (t1 & t2 & t3 & t4 & t5 & E1 & E2 & E3 & E4 & E5 & ->).
  pose proof (General_after_mappings self t3 t4 t5) as Hlater.
  destruct (General_set_selection_mappings_spec self m t2 t3 Hm Hne E3) as (Hrows & Hflat).
  split.
  - intros i v Hi. rewrite <- (Hrows i v Hi). apply slot_ext.
    apply (Hlater _ E4 E5). notin_compute.
  - intros j x Hj. rewrite <- (Hflat j x Hj). apply slot_ext.
    apply (Hlater _ E4 E5). notin_compute.
Qed.

(** X12: for a general proposal with filters, [General.set_topic] returns
    on every topic whose arrays have room; in the topic returned slot [i]
    of [numFilterExposures] holds the number of exposures of the i-th
    filter and [exposures] holds the exposure times of all the filters one
    after the other, in the iteration order of the mapping. *)
Theorem General_set_topic_exposures
    (self : General.t) (fl : dict string GeneralBandFilter.t) (topic : obj) :
  General.filters self = Some fl ->
  fl <> [] ->
  room (general_required self) topic ->
  exists topic',
    General.set_topic self topic = Ok topic'
    /\ (forall i v, values fl !! i = Some v ->
          slot "numFilterExposures" i topic'
          = Some (VInt (Z.of_nat (length (GeneralBandFilter.exposures v)))))
    /\ (forall j x, concat (map GeneralBandFilter.exposures (values fl)) !! j = Some x ->
          slot "exposures" j topic' = Some (VFloat x)).
Proof.
  intros Hfl Hne Hroom.
  destruct (General_set_topic_ok self topic Hroom) as (topic' & H).
  exists topic'. split; [exact H|].
  destruct (General_set_topic_blocks self topic topic' H)
    as (t1 & t2 & t3 & t4 & t5 & E1 & E2 & E3 & E4 & E5 & ->).
  destruct (General_set_filters_spec self fl t4 t5 Hfl Hne E5) as (_ & _ & Hrows).
  split.
  - intros i v Hi.
    rewrite (slot_ext _ i t5) by (apply General_set_scheduling_frame; notin_compute).
    apply (Hrows i v Hi). unfold general_filter_row. in_list.
  - intros j x Hj.
    rewrite (slot_ext _ j t5) by (apply General_set_scheduling_frame; notin_compute).
    apply (General_set_filters_exposures self fl t4 t5 Hfl Hne E5 j x Hj).
Qed.

(** X13: the topic [General.set_topic] returns holds every scalar of the
    proposal: the name, or the text "None" when the proposal has no name,
    the sky scalars, the four counts, the joined combiners and the
    scheduling scalars; none is overwritten by a later block.  The call
    returns on every topic whose arrays have room. *)
Theorem General_set_topic_scalars (self : General.t) (topic : obj) :
  (forall topic', General.set_topic self topic = Ok topic' ->
     forall a v, (a, v) ∈ general_scalars self -> topic' !! a = Some v)
  /\ (room (general_required self) topic ->
      exists topic', General.set_topic self topic = Ok topic').
Proof.
  split.
  - intros topic' H a v Hin. apply (General_set_topic_scalars_spec self topic topic' a v H Hin).
  - apply General_set_topic_ok.
Qed.

(** A block whose mapping is unset or empty assigns its count and nothing
    else. *)
Lemma General_set_region_selections_unset (self : General.t) (t t' : obj) (a : string) :
  unset (SkyRegion.selections (General.sky_region self)) ->
  General.set_region_selections self t = Ok t' ->
  a <> "numRegionSelections" -> a <> "regionCombiners" -> t' !! a = t !! a.
Proof.
  intros Hun H H1 H2. unfold General.set_region_selections in H.
  destruct Hun as [Hun|Hun]; rewrite Hun in H; injection H as <-;
    unfold setattr; rewrite !lookup_insert_ne by congruence; reflexivity.
Qed.

Lemma General_set_time_ranges_unset (self : General.t) (t t' : obj) (a : string) :
  unset (SkyRegion.time_ranges (General.sky_region self)) ->
  General.set_time_ranges self t = Ok t' ->
  a <> "numTimeRanges" -> t' !! a = t !! a.
Proof.
  intros Hun H H1. unfold General.set_time_ranges in H.
  destruct Hun as [Hun|Hun]; rewrite Hun in H; injection H as <-;
    unfold setattr; rewrite !lookup_insert_ne by congruence; reflexivity.
Qed.

Lemma General_set_selection_mappings_unset (self : General.t) (t t' : obj) :
  unset (SkyRegion.selection_mapping (General.sky_region self)) ->
  General.set_selection_mappings self t = Ok t' -> t' = t.
Proof.
  intros Hun H. unfold General.set_selection_mappings in H.
  destruct Hun as [Hun|Hun]; rewrite Hun in H; injection H as <-; reflexivity.
Qed.

Lemma General_set_exclusion_selections_unset (self : General.t) (t t' : obj) (a : string) :
  unset (SkyExclusion.selections (General.sky_exclusion self)) ->
  General.set_exclusion_selections self t = Ok t' ->
  a <> "numExclusionSelections" -> t' !! a = t !! a.
Proof.
  intros Hun H H1. unfold General.set_exclusion_selections in H.
  destruct Hun as [Hun|Hun]; rewrite Hun in H; injection H as <-;
    unfold setattr; rewrite !lookup_insert_ne by congruence; reflexivity.
Qed.

Lemma General_set_filters_unset (self : General.t) (t t' : obj) (a : string) :
  unset (General.filters self) ->
  General.set_filters self t = Ok t' ->
  a <> "numFilters" -> t' !! a = t !! a.
Proof.
  intros Hun H H1. unfold General.set_filters in H.
  destruct Hun as [Hun|Hun]; rewrite Hun in H; injection H as <-;
    unfold setattr; rewrite !lookup_insert_ne by congruence; reflexivity.
Qed.

(** [a] is one of the names listed in [W] and differs from [b], which is
    not listed. *)
Lemma listed_neq (W : list string) (a b : string) : a ∈ W -> b ∉ W -> a <> b.
Proof. intros Ha Hb ->. contradiction. Qed.

(** [a ∉ W'] for every name [a] listed in [W], by computation. *)
Lemma listed_notin (W W' : list string) (a : string) :
  bool_decide (Forall (fun a => a ∉ W') W) = true -> a ∈ W -> a ∉ W'.
Proof.
  intros H Ha. apply bool_decide_eq_true in H. rewrite Forall_forall in H. apply H. exact Ha.
Qed.

(** What the topic returned keeps of the topic passed in. *)
Lemma General_set_topic_unset_blocks
    (self : General.t) (topic topic' : obj) :
  General.set_topic self topic = Ok topic' ->
  (unset (SkyRegion.selections (General.sky_region self)) ->
     topic' !! "numRegionSelections" = Some (VInt 0)
     /\ forall a, a ∈ region_arrays -> topic' !! a = topic !! a)
  /\ (unset (SkyRegion.time_ranges (General.sky_region self)) ->
        topic' !! "numTimeRanges" = Some (VInt 0)
        /\ forall a, a ∈ time_range_arrays -> topic' !! a = topic !! a)
  /\ (unset (SkyRegion.selection_mapping (General.sky_region self)) ->
        forall a, a ∈ mapping_attrs -> topic' !! a = topic !! a)
  /\ (unset (SkyExclusion.selections (General.sky_exclusion self)) ->
        topic' !! "numExclusionSelections" = Some (VInt 0)
        /\ forall a, a ∈ exclusion_arrays -> topic' !! a = topic !! a)
  /\ (unset (General.filters self) ->
        topic' !! "numFilters" = Some (VInt 0)
        /\ forall a, a ∈ general_filter_written -> topic' !! a = topic !! a).
Proof.
  intro H.
  pose proof (General_set_topic_scalars_spec self topic topic' "numRegionSelections" _ H
                ltac:(unfold general_scalars; in_list)) as Hnr.
  pose proof (General_set_topic_scalars_spec self topic topic' "numTimeRanges" _ H
                ltac:(unfold general_scalars; in_list)) as Hnt.
  pose proof (General_set_topic_scalars_spec self topic topic' "numExclusionSelections" _ H
                ltac:(unfold general_scalars; in_list)) as Hne.
  pose proof (General_set_topic_scalars_spec self topic topic' "numFilters" _ H
                ltac:(unfold general_scalars; in_list)) as Hnf.
  destruct (General_set_topic_blocks self topic topic' H)
    as (t1 & t2 & t3 & t4 & t5 & E1 & E2 & E3 & E4 & E5 & ->).
  assert (Hsky : forall W a,
            bool_decide (Forall (fun a => a ∉ ["name"; "twilightBoundary"; "deltaLst";
                                               "decWindow"; "maxAirmass"; "maxCloud";
                                               "minDistanceMoon"; "excludePlanets"]) W) = true ->
            a ∈ W -> General.set_sky self topic !! a = topic !! a).
  { intros W a HW Ha. apply General_set_sky_frame. apply (listed_notin W _ a HW Ha). }
  split; [|split; [|split; [|split]]].
  - intro Hun. split; [rewrite Hnr; destruct Hun as [-> | ->]; reflexivity|].
    intros a Ha.
    rewrite (General_after_regions self t1 t2 t3 t4 t5 a E2 E3 E4 E5)
      by (apply (listed_notin region_arrays _ a); [vm_compute; reflexivity|exact Ha]).
    rewrite (General_set_region_selections_unset self _ t1 a Hun E1).
    + apply (Hsky region_arrays a); [vm_compute; reflexivity|exact Ha].
    + apply (listed_neq region_arrays); [exact Ha|notin_compute].
    + apply (listed_neq region_arrays); [exact Ha|notin_compute].
  - intro Hun. split; [rewrite Hnt; destruct Hun as [-> | ->]; reflexivity|].
    intros a Ha.
    rewrite (General_after_time_ranges self t2 t3 t4 t5 a E3 E4 E5)
      by (apply (listed_notin time_range_arrays _ a); [vm_compute; reflexivity|exact Ha]).
    rewrite (General_set_time_ranges_unset self t1 t2 a Hun E2)
      by (apply (listed_neq time_range_arrays); [exact Ha|notin_compute]).
    rewrite (General_set_region_selections_frame self _ t1 a)
      by (exact E1
          || (apply (listed_notin time_range_arrays _ a); [vm_compute; reflexivity|exact Ha])).
    apply (Hsky time_range_arrays a); [vm_compute; reflexivity|exact Ha].
  - intros Hun a Ha.
    rewrite (General_after_mappings self t3 t4 t5 a E4 E5)
      by (apply (listed_notin mapping_attrs _ a); [vm_compute; reflexivity|exact Ha]).
    rewrite (General_set_selection_mappings_unset self t2 t3 Hun E3).
    rewrite (General_set_time_ranges_frame self t1 t2 a)
      by (exact E2
          || (apply (listed_notin mapping_attrs _ a); [vm_compute; reflexivity|exact Ha])).
    rewrite (General_set_region_selections_frame self _ t1 a)
      by (exact E1
          || (apply (listed_notin mapping_attrs _ a); [vm_compute; reflexivity|exact Ha])).
    apply (Hsky mapping_attrs a); [vm_compute; reflexivity|exact Ha].
  - intro Hun. split; [rewrite Hne; destruct Hun as [-> | ->]; reflexivity|].
    intros a Ha.
    rewrite (General_after_exclusions self t4 t5 a E5)
      by (apply (listed_notin exclusion_arrays _ a); [vm_compute; reflexivity|exact Ha]).
    rewrite (General_set_exclusion_selections_unset self t3 t4 a Hun E4)
      by (apply (listed_neq exclusion_arrays); [exact Ha|notin_compute]).
    rewrite (General_set_selection_mappings_frame self t2 t3 a)
      by (exact E3
          || (apply (listed_notin exclusion_arrays _ a); [vm_compute; reflexivity|exact Ha])).
    rewrite (General_set_time_ranges_frame self t1 t2 a)
      by (exact E2
          || (apply (listed_notin exclusion_arrays _ a); [vm_compute; reflexivity|exact Ha])).
    rewrite (General_set_region_selections_frame self _ t1 a)
      by (exact E1
          || (apply (listed_notin exclusion_arrays _ a); [vm_compute; reflexivity|exact Ha])).
    apply (Hsky exclusion_arrays a); [vm_compute; reflexivity|exact Ha].
  - intro Hun. split; [rewrite Hnf; destruct Hun as [-> | ->]; reflexivity|].
    intros a Ha.
    rewrite (General_set_scheduling_frame self t5 a)
      by (apply (listed_notin general_filter_written _ a); [vm_compute; reflexivity|exact Ha]).
    rewrite (General_set_filters_unset self t4 t5 a Hun E5)
      by (apply (listed_neq general_filter_written); [exact Ha|notin_compute]).
    rewrite (General_set_exclusion_selections_frame self t3 t4 a)
      by (exact E4
          || (apply (listed_notin general_filter_written _ a);
              [vm_compute; reflexivity|exact Ha])).
    rewrite (General_set_selection_mappings_frame self t2 t3 a)
      by (exact E3
          || (apply (listed_notin general_filter_written _ a);
              [vm_compute; reflexivity|exact Ha])).
    rewrite (General_set_time_ranges_frame self t1 t2 a)
      by (exact E2
          || (apply (listed_notin general_filter_written _ a);
              [vm_compute; reflexivity|exact Ha])).
    rewrite (General_set_region_selections_frame self _ t1 a)
      by (exact E1
          || (apply (listed_notin general_filter_written _ a);
              [vm_compute; reflexivity|exact Ha])).
    apply (Hsky general_filter_written a); [vm_compute; reflexivity|exact Ha].
Qed.

(** A proposal with no mapping entries is encoded onto any topic. *)
Lemma General_set_topic_bare_ok (self : General.t) (topic : obj) :
  unset (SkyRegion.selections (General.sky_region self)) ->
  unset (SkyRegion.time_ranges (General.sky_region self)) ->
  unset (SkyRegion.selection_mapping (General.sky_region self)) ->
  unset (SkyExclusion.selections (General.sky_exclusion self)) ->
  unset (General.filters self) ->
  exists topic', General.set_topic self topic = Ok topic'.
Proof.
  intros H1 H2 H3 H4 H5.
  unfold General.set_topic, General.set_region_selections, General.set_time_ranges,
    General.set_selection_mappings, General.set_exclusion_selections, General.set_filters.
  destruct H1 as [-> | ->], H2 as [-> | ->], H3 as [-> | ->], H4 as [-> | ->],
    H5 as [-> | ->]; cbn [Py.bind]; eauto.
Qed.

(** X14: a block of [General.set_topic] whose mapping is unset or empty
    assigns no string and no array: the topic returned holds, under
    [regionTypes] and the region arrays (respectively the time-range
    arrays, the mapping arrays, [exclusionTypes] and the exclusion arrays,
    [filterNames] and the filter arrays), whatever the topic passed in
    held, while the count of the block is 0.  A proposal all of whose
    mappings are unset or empty is encoded onto any topic, even one without
    arrays. *)
Theorem General_set_topic_empty_blocks_write_nothing (self : General.t) (topic : obj) :
  (unset (SkyRegion.selections (General.sky_region self)) ->
   unset (SkyRegion.time_ranges (General.sky_region self)) ->
   unset (SkyRegion.selection_mapping (General.sky_region self)) ->
   unset (SkyExclusion.selections (General.sky_exclusion self)) ->
   unset (General.filters self) ->
   exists topic', General.set_topic self topic = Ok topic')
  /\ forall topic',
       General.set_topic self topic = Ok topic' ->
       (unset (SkyRegion.selections (General.sky_region self)) ->
          topic' !! "numRegionSelections" = Some (VInt 0)
          /\ forall a, a ∈ region_arrays -> topic' !! a = topic !! a)
       /\ (unset (SkyRegion.time_ranges (General.sky_region self)) ->
             topic' !! "numTimeRanges" = Some (VInt 0)
             /\ forall a, a ∈ time_range_arrays -> topic' !! a = topic !! a)
       /\ (unset (SkyRegion.selection_mapping (General.sky_region self)) ->
             forall a, a ∈ mapping_attrs -> topic' !! a = topic !! a)
       /\ (unset (SkyExclusion.selections (General.sky_exclusion self)) ->
             topic' !! "numExclusionSelections" = Some (VInt 0)
             /\ forall a, a ∈ exclusion_arrays -> topic' !! a = topic !! a)
       /\ (unset (General.filters self) ->
             topic' !! "numFilters" = Some (VInt 0)
             /\ forall a, a ∈ general_filter_written -> topic' !! a = topic !! a).
Proof.
  split.
  - apply General_set_topic_bare_ok.
  - intros topic'. apply General_set_topic_unset_blocks.
Qed.

(** ** General.set_topic on the sample proposals *)

Lemma Survey_general_room : room (general_required Survey.general) Sample.generalPropConfig.
Proof.
  unfold room. vm_compute general_required.
  repeat (constructor; [eexists; split; [vm_compute; reflexivity|cbn; lia]|]).
  constructor.
Defined.

(** The selections of [Survey.general] are RA, Dec and RA cuts. *)
Lemma General_set_topic_region_selections_witness :
  exists topic',
    General.set_topic Survey.general Sample.generalPropConfig = Ok topic'
    /\ topic' !! "regionTypes" = Some (VStr "RA,Dec,RA")
    /\ topic' !! "regionCombiners" = Some (VStr "and")
    /\ slot "regionMinimums" 1 topic' = Some (VFloat (-30)%Q).
Proof.
  destruct (General_set_topic_region_selections Survey.general _ Sample.generalPropConfig
              eq_refl ltac:(discriminate) Survey_general_room)
    as (topic' & H & _ & Ht & Hc & Hrows).
  exists topic'. split; [exact H|]. split; [exact Ht|]. split; [exact Hc|].
  exact (proj1 (Hrows 1%nat _ eq_refl)).
Defined.

(** The exclusions of [Survey.general], stored under the keys 4 and 7, are
    written to the slots 0 and 1. *)
Lemma General_set_topic_exclusion_selections_witness :
  exists topic',
    General.set_topic Survey.general Sample.generalPropConfig = Ok topic'
    /\ topic' !! "numExclusionSelections" = Some (VInt 2)
    /\ topic' !! "exclusionTypes" = Some (VStr "GP,Dec")
    /\ slot "exclusionMaximums" 1 topic' = Some (VFloat (-70)%Q).
Proof.
  destruct (General_set_topic_exclusion_selections Survey.general _ Sample.generalPropConfig
              eq_refl ltac:(discriminate) Survey_general_room)
    as (topic' & H & Hn & Ht & Hrows).
  exists topic'. split; [exact H|]. split; [exact Hn|]. split; [exact Ht|].
  exact (proj1 (proj2 (Hrows 1%nat _ eq_refl))).
Defined.

Lemma General_set_topic_time_ranges_witness :
  exists topic',
    General.set_topic Survey.general Sample.generalPropConfig = Ok topic'
    /\ topic' !! "numTimeRanges" = Some (VInt 2)
    /\ slot "timeRangeStarts" 1 topic' = Some (VInt 101)
    /\ slot "timeRangeEnds" 1 topic' = Some (VInt 200).
Proof.
  destruct (General_set_topic_time_ranges Survey.general _ Sample.generalPropConfig
              eq_refl ltac:(discriminate) Survey_general_room)
    as (topic' & H & Hn & Hrows).
  exists topic'. split; [exact H|]. split; [exact Hn|].
  exact (Hrows 1%nat _ eq_refl).
Defined.

(** The mappings of [Survey.general] list the selections 0 and 1, then 2. *)
Lemma General_set_topic_selection_mappings_witness :
  exists topic',
    General.set_topic Survey.general Sample.generalPropConfig = Ok topic'
    /\ slot "numSelectionMappings" 0 topic' = Some (VInt 2)
    /\ slot "numSelectionMappings" 1 topic' = Some (VInt 1)
    /\ slot "selectionMappings" 2 topic' = Some (VInt 2).
Proof.
  destruct (General_set_topic_selection_mappings Survey.general _ Sample.generalPropConfig
              eq_refl ltac:(discriminate) Survey_general_room)
    as (topic' & H & Hrows & Hflat).
  exists topic'. split; [exact H|].
  split; [exact (Hrows 0%nat _ eq_refl)|]. split; [exact (Hrows 1%nat _ eq_refl)|].
  exact (Hflat 2%nat _ eq_refl).
Defined.

(** The filters u and g of [Survey.general] have two exposures of 15 s and
    one of 30 s. *)
Lemma General_set_topic_exposures_witness :
  exists topic',
    General.set_topic Survey.general Sample.generalPropConfig = Ok topic'
    /\ slot "numFilterExposures" 0 topic' = Some (VInt 2)
    /\ slot "numFilterExposures" 1 topic' = Some (VInt 1)
    /\ slot "exposures" 2 topic' = Some (VFloat 30%Q).
Proof.
  destruct (General_set_topic_exposures Survey.general _ Sample.generalPropConfig
              eq_refl ltac:(discriminate) Survey_general_room)
    as (topic' & H & Hrows & Hflat).
  exists topic'. split; [exact H|].
  split; [exact (Hrows 0%nat _ eq_refl)|]. split; [exact (Hrows 1%nat _ eq_refl)|].
  exact (Hflat 2%nat _ eq_refl).
Defined.

(** [Survey.general] has no name. *)
Lemma General_set_topic_scalars_witness :
  exists topic',
    General.set_topic Survey.general Sample.generalPropConfig = Ok topic'
    /\ topic' !! "name" = Some (VStr "None")
    /\ topic' !! "fieldRevisitLimit" = Some (VInt 0).
Proof.
  destruct (General_set_topic_scalars Survey.general Sample.generalPropConfig)
    as (Hspec & Hok).
  destruct (Hok Survey_general_room) as (topic' & H).
  exists topic'. split; [exact H|]. split.
  - apply (Hspec topic' H). unfold general_scalars. in_list.
  - apply (Hspec topic' H). unfold general_scalars. in_list.
Defined.

(** [Survey.bare] on a topic that has no array and holds stale filter
    names. *)
Lemma General_set_topic_empty_blocks_write_nothing_witness :
  exists topic',
    General.set_topic Survey.bare {["filterNames" := VStr "u,g"]} = Ok topic'
    /\ topic' !! "numFilters" = Some (VInt 0)
    /\ topic' !! "filterNames" = Some (VStr "u,g").
Proof.
  destruct (General_set_topic_empty_blocks_write_nothing Survey.bare
              {["filterNames" := VStr "u,g"]}) as (Hok & Hkeep).
  destruct Hok as (topic' & H);
    try (left; reflexivity); try (right; reflexivity).
  exists topic'. split; [exact H|].
  destruct (Hkeep topic' H) as (_ & _ & _ & _ & Hf).
  destruct Hf as (Hn & Hsame); [left; reflexivity|].
  split; [exact Hn|]. rewrite (Hsame "filterNames") by (unfold general_filter_written; in_list).
  reflexivity.
Defined.

(** ** General.proposal_fields: errors and repeated exclusions *)

Lemma lookup_key_missing {V : Type} (d : dict Z V) (k : Z) :
  k ∉ map fst d -> lookup_key d k = Raise KeyError.
Proof.
  induction d as [|[k' v] d IH]; [reflexivity|].
  cbn [map fst lookup_key]. intro H. apply not_elem_of_cons in H as [Hne Hd].
  destruct (decide (k' = k)); [congruence|]. apply IH. exact Hd.
Qed.

Lemma lookup_key_found {V : Type} (d : dict Z V) (k : Z) :
  k ∈ map fst d -> exists v, lookup_key d k = Ok v.
Proof.
  induction d as [|[k' v] d IH]; [intro H; inversion H|].
  cbn [map fst lookup_key]. intro H. destruct (decide (k' = k)); [eauto|].
  apply elem_of_cons in H as [H|H]; [congruence|]. apply IH. exact H.
Qed.

(** Looking up the indexes of one mapping either finds them all or stops
    with [KeyError] at the first one that is no key. *)
Lemma append_cuts_outcome (d : dict Z Selection.t) (idxs : list Z) (st : General.cuts_state) :
  (Forall (fun index => index ∈ map fst d) idxs
   /\ exists st', General.append_cuts (Some d) idxs st = (st', None))
  \/ (Exists (fun index => index ∉ map fst d) idxs
      /\ exists st', General.append_cuts (Some d) idxs st = (st', Some KeyError)).
Proof.
  revert st. induction idxs as [|index idxs IH]; intro st; cbn [General.append_cuts].
  - left. split; [constructor|eauto].
  - destruct (decide (index ∈ map fst d)) as [Hin|Hout].
    + destruct (lookup_key_found d index Hin) as (cut & ->).
      destruct (IH (fst st ++ [cut], snd st)) as [[Hall Hst]|[Hex Hst]].
      * left. split; [constructor; assumption|exact Hst].
      * right. split; [apply Exists_cons_tl; exact Hex|exact Hst].
    + rewrite (lookup_key_missing d index Hout).
      right. split; [apply Exists_cons_hd; exact Hout|eauto].
Qed.

Lemma mapping_loop_outcome (sr : SkyRegion.t) (d : dict Z Selection.t) (n : Z)
    (m : list (Z * SelectionList.t)) (st : General.cuts_state) :
  SkyRegion.selections sr = Some d ->
  (Forall (fun item => Forall (fun index => index ∈ map fst d)
                              (SelectionList.indexes (snd item))) m
   /\ exists st', General.mapping_loop sr n m st = (st', None))
  \/ (Exists (fun item => Exists (fun index => index ∉ map fst d)
                                 (SelectionList.indexes (snd item))) m
      /\ exists st', General.mapping_loop sr n m st = (st', Some KeyError)).
Proof.
  intro Hd. revert st. induction m as [|[i g] m IH]; intro st; cbn [General.mapping_loop].
  - left. split; [constructor|eauto].
  - unfold General.mapping_body. rewrite Hd.
    destruct (append_cuts_outcome d (SelectionList.indexes g) st)
      as [[Hall (st1 & ->)]|[Hex (st1 & ->)]].
    + destruct st1 as [region_cuts combine_list].
      match goal with
      | |- context [General.mapping_loop sr n m ?s] =>
          destruct (IH s) as [[Hrest Hst]|[Hrest Hst]]
      end.
      * left. split; [constructor; assumption|exact Hst].
      * right. split; [apply Exists_cons_tl; exact Hrest|exact Hst].
    + right. split; [apply Exists_cons_hd; exact Hex|]. destruct st1. eauto.
Qed.

(** X15: when the selection mapping of a general proposal lists an index
    that is no key of the selections, [proposal_fields] raises [KeyError]
    whatever the field selector and the database are; when every listed
    index is a key, the time-dependent loop ends normally and
    [proposal_fields] does not raise [KeyError] from it. *)
Theorem General_proposal_fields_missing_selection_raises_KeyError
    {Query : Type} (fd : FieldsDatabase Query) (fs : FieldSelection Query)
    (self : General.t) (m : dict Z SelectionList.t) (d : dict Z Selection.t) :
  SkyRegion.selection_mapping (General.sky_region self) = Some m ->
  SkyRegion.selections (General.sky_region self) = Some d ->
  (Exists (fun item => Exists (fun index => index ∉ map fst d)
                              (SelectionList.indexes (snd item))) m ->
   General.proposal_fields fd fs self = Raise KeyError)
  /\ (Forall (fun item => Forall (fun index => index ∈ map fst d)
                                 (SelectionList.indexes (snd item))) m ->
      exists cuts, General.region_selection (General.sky_region self) = Ok cuts).
Proof.
  intros Hm Hd.
  destruct (mapping_loop_outcome (General.sky_region self) d (Z.of_nat (length m))
              (items m) ([], []) Hd) as [[Hall (st' & Hst)]|[Hex (st' & Hst)]].
  - split.
    + intro Hex. exfalso. unfold items in Hall.
      apply Exists_exists in Hex as (item & Hitem & Hex).
      rewrite Forall_forall in Hall. specialize (Hall item Hitem).
      apply Exists_exists in Hex as (index & Hindex & Hout).
      rewrite Forall_forall in Hall. exact (Hout (Hall index Hindex)).
    + intros _. unfold General.region_selection. rewrite Hm, Hst. destruct st'.
      eexists. reflexivity.
  - split.
    + intros _. unfold General.proposal_fields, General.region_selection.
      rewrite Hm, Hst. destruct st'. reflexivity.
    + intro Hall. exfalso. unfold items in Hex.
      apply Exists_exists in Hex as (item & Hitem & Hex).
      rewrite Forall_forall in Hall. specialize (Hall item Hitem).
      apply Exists_exists in Hex as (index & Hindex & Hout).
      rewrite Forall_forall in Hall. exact (Hout (Hall index Hindex)).
Qed.

Section LastExclusion.
Context {Query : Type}.
Variable fs : FieldSelection Query.

(** The galactic query of a cut. *)
Lemma exclusion_body_GP (cut : Selection.t) (acc : option Query) :
  Selection.limit_type cut = "GP" ->
  General.exclusion_body fs cut acc
  = do q <- galactic_region fs (Selection.maximum_limit cut) (Selection.minimum_limit cut)
                            (Selection.bounds_limit cut);
    Ok (Some q).
Proof.
  intro H. unfold General.exclusion_body.
  destruct (decide (Selection.limit_type cut = "GP")); [reflexivity|contradiction].
Qed.

Lemma exclusion_body_other (cut : Selection.t) (acc : option Query) :
  Selection.limit_type cut <> "GP" -> General.exclusion_body fs cut acc = Ok acc.
Proof.
  intro H. unfold General.exclusion_body.
  destruct (decide (Selection.limit_type cut = "GP")); [contradiction|reflexivity].
Qed.

Lemma exclusion_loop_other (l : list Selection.t) (acc : option Query) :
  Forall (fun c => Selection.limit_type c <> "GP") l ->
  for_each (General.exclusion_body fs) l acc = Ok acc.
Proof.
  intro H. revert acc. induction H as [|c l Hc _ IH]; intro acc; [reflexivity|].
  cbn [for_each]. rewrite (exclusion_body_other c acc Hc). apply IH.
Qed.

(** Only the last cut of type "GP" decides the exclusion query. *)
Lemma exclusion_loop_last (l1 l2 : list Selection.t) (cut : Selection.t) :
  Selection.limit_type cut = "GP" ->
  Forall (fun c => Selection.limit_type c <> "GP") l2 ->
  Forall (fun c => Selection.limit_type c = "GP" ->
                   is_ok (galactic_region fs (Selection.maximum_limit c)
                            (Selection.minimum_limit c) (Selection.bounds_limit c)) = true) l1 ->
  for_each (General.exclusion_body fs) (l1 ++ cut :: l2) None
  = for_each (General.exclusion_body fs) [cut] None.
Proof.
  intros Hgp Hl2 Hl1.
  assert (Hany : forall acc,
            for_each (General.exclusion_body fs) (l1 ++ cut :: l2) acc
            = for_each (General.exclusion_body fs) [cut] None).
  { induction Hl1 as [|c l1 Hc _ IH]; intro acc; cbn [app for_each].
    - rewrite !(exclusion_body_GP cut _ Hgp).
      destruct (galactic_region fs (Selection.maximum_limit cut) (Selection.minimum_limit cut)
                  (Selection.bounds_limit cut)) as [q|e]; [|reflexivity].
      cbn [Py.bind]. apply exclusion_loop_other. exact Hl2.
    - destruct (decide (Selection.limit_type c = "GP")) as [Hcgp|Hcgp].
      + rewrite (exclusion_body_GP c acc Hcgp). specialize (Hc Hcgp).
        destruct (galactic_region fs (Selection.maximum_limit c) (Selection.minimum_limit c)
                    (Selection.bounds_limit c)) as [q|e]; [|discriminate].
        cbn [Py.bind]. apply IH.
      + rewrite (exclusion_body_other c acc Hcgp). apply IH. }
  apply Hany.
Qed.

End LastExclusion.

(** X16: when a general proposal has several exclusion selections of type
    "GP", only the last one in the iteration order of the mapping is
    subtracted: provided the galactic queries of the earlier ones can be
    built, [proposal_fields] gives what it gives with that last exclusion
    alone, and the fields the earlier ones select are not excluded. *)
Theorem General_proposal_fields_last_GP_exclusion
    {Query : Type} (fd : FieldsDatabase Query) (fs : FieldSelection Query)
    (self : General.t) (d1 d2 : dict Z Selection.t) (k : Z) (cut : Selection.t) :
  SkyExclusion.selections (General.sky_exclusion self) = Some (d1 ++ (k, cut) :: d2) ->
  Selection.limit_type cut = "GP" ->
  Forall (fun kv => Selection.limit_type (snd kv) <> "GP") d2 ->
  Forall (fun kv => Selection.limit_type (snd kv) = "GP" ->
                    is_ok (galactic_region fs (Selection.maximum_limit (snd kv))
                             (Selection.minimum_limit (snd kv))
                             (Selection.bounds_limit (snd kv))) = true) d1 ->
  General.proposal_fields fd fs self
  = General.proposal_fields fd fs (with_exclusions self [(k, cut)]).
Proof.
  intros Hd Hgp Hd2 Hd1. apply proposal_fields_ext; [reflexivity|].
  unfold General.exclusion_selection. rewrite Hd. cbn [with_exclusions General.sky_exclusion
    SkyExclusion.selections]. unfold values. rewrite map_app. cbn [map snd].
  apply exclusion_loop_last; [exact Hgp| |].
  - apply Forall_map. exact Hd2.
  - apply Forall_map. exact Hd1.
Qed.

(** [Survey.dangling] maps its time range to the selection 5, which does
    not exist. *)
Lemma General_proposal_fields_missing_selection_raises_KeyError_witness :
  General.proposal_fields Sample.fd Sample.fs Survey.dangling = Raise KeyError.
Proof.
  apply (proj1 (General_proposal_fields_missing_selection_raises_KeyError
                  Sample.fd Sample.fs Survey.dangling _ _ eq_refl eq_refl)).
  apply Exists_cons_hd. apply Exists_cons_hd. cbn.
  intro H. apply elem_of_cons in H as [H|H]; [discriminate|inversion H].
Defined.

(** Two Galactic-plane exclusions: the first one is dropped. *)
Lemma General_proposal_fields_last_GP_exclusion_witness :
  General.proposal_fields Sample.fd Sample.fs
    (with_exclusions (Sample.general [])
       [(0, Sample.cut "GP" 0%Q 10%Q); (1, Sample.cut "GP" 0%Q 20%Q)])
  = General.proposal_fields Sample.fd Sample.fs
      (with_exclusions
         (with_exclusions (Sample.general [])
            [(0, Sample.cut "GP" 0%Q 10%Q); (1, Sample.cut "GP" 0%Q 20%Q)])
         [(1, Sample.cut "GP" 0%Q 20%Q)]).
Proof.
  apply (General_proposal_fields_last_GP_exclusion Sample.fd Sample.fs
           (with_exclusions (Sample.general [])
              [(0, Sample.cut "GP" 0%Q 10%Q); (1, Sample.cut "GP" 0%Q 20%Q)])
           [(0, Sample.cut "GP" 0%Q 10%Q)] [] 1 (Sample.cut "GP" 0%Q 20%Q)).
  - reflexivity.
  - reflexivity.
  - constructor.
  - constructor; [intros _; reflexivity|constructor].
Defined.

(** ** sequence.py: what the blocks write *)

Lemma user_region_loop_spec (xs : list Z) :
  forall (k : nat) (t t' : obj),
    for_each (fun '(i, sky_user_region) topic =>
                setitem "userRegionIds" i (VInt sky_user_region) topic)
             (enumerate_from k xs) t = Ok t' ->
    (forall i x, xs !! i = Some x -> slot "userRegionIds" (k + i) t' = Some (VInt x))
    /\ (forall j, (j < k)%nat -> slot "userRegionIds" j t' = slot "userRegionIds" j t)
    /\ (forall a, a <> "userRegionIds" -> t' !! a = t !! a).
Proof.
  induction xs as [|x xs IH]; intros k t t' H; cbn [for_each enumerate_from] in H.
  - injection H as <-. split; [intros i x Hi; discriminate|]. split; reflexivity.
  - destruct (setitem "userRegionIds" k (VInt x) t) as [t1|] eqn:E; [|discriminate].
    destruct (IH _ _ _ H) as (Hrows & Hbelow & Hframe).
    split; [|split].
    + intros [|i] w Hi.
      * injection Hi as <-. rewrite Nat.add_0_r. rewrite Hbelow by lia.
        apply (setitem_slot_eq _ _ _ _ _ E).
      * replace (k + S i)%nat with (S k + i)%nat by lia. apply (Hrows i w Hi).
    + intros j Hj. rewrite Hbelow by lia.
      apply (setitem_slot_ne _ _ _ _ _ _ _ E). right. lia.
    + intros a Ha. rewrite (Hframe a Ha). apply (setitem_lookup_ne _ _ _ _ _ _ E Ha).
Qed.

Lemma Sequence_set_user_regions_spec (self : Sequence.t) (t t' : obj) :
  Sequence.set_user_regions self t = Ok t' ->
  t' !! "numUserRegions" = Some (VInt (Z.of_nat (length (Sequence.sky_user_regions self))))
  /\ (forall i x, Sequence.sky_user_regions self !! i = Some x ->
        slot "userRegionIds" i t' = Some (VInt x))
  /\ (forall a, a <> "userRegionIds" -> a <> "numUserRegions" -> t' !! a = t !! a).
Proof.
  intro H. unfold Sequence.set_user_regions in H. cbv zeta in H.
  destruct (user_region_loop_spec _ _ _ _ H) as (Hrows & _ & Hframe).
  split; [|split].
  - rewrite Hframe by discriminate. apply lookup_insert_eq.
  - intros i x Hi. apply (Hrows i x Hi).
  - intros a H1 H2. rewrite (Hframe a H1). apply lookup_insert_ne. congruence.
Qed.

Lemma row_names_sub (ss : SubSequence.t) (a : string) (x : value) :
  (a, x) ∈ sub_sequence_row ss ->
  a <> "numSubSequenceFilterVisits" /\ a ∈ sub_sequence_attrs.
Proof.
  unfold sub_sequence_row, sub_sequence_attrs. intro H.
  repeat (apply elem_of_cons in H as [H|H];
          [injection H as -> _; split; [discriminate|in_list]|]).
  inversion H.
Qed.

Ltac to_setitem :=
  repeat match goal with
    | E : setitem_int _ (Z.of_nat _) _ _ = Ok _ |- _ => apply setitem_int_nat in E
    end.

(** One turn of the sub-sequence loop, for a key that is a position. *)
Lemma sub_sequence_body_rows (i : nat) (ss : SubSequence.t)
    (names fs names' fs' : list string) (k k' : nat) (t t' : obj) :
  Sequence.sub_sequence_body (Z.of_nat i, ss) (names, fs, k, t) = Ok (names', fs', k', t') ->
  names' = names ++ [SubSequence.name ss]
  /\ fs' = fs ++ [SubSequence.get_filter_string ss]
  /\ k' = (k + length (SubSequence.visits_per_filter ss))%nat
  /\ (forall a x, (a, x) ∈ sub_sequence_row ss -> slot a i t' = Some x)
  /\ (forall a j, a <> "numSubSequenceFilterVisits" -> j <> i -> slot a j t' = slot a j t)
  /\ (forall j v, SubSequence.visits_per_filter ss !! j = Some v ->
        slot "numSubSequenceFilterVisits" (k + j) t' = Some (VInt v))
  /\ (forall j, (j < k)%nat ->
        slot "numSubSequenceFilterVisits" j t' = slot "numSubSequenceFilterVisits" j t).
Proof.
  intro H. unfold Sequence.sub_sequence_body in H.
  apply bind_Ok in H as (t1 & Efilters & H).
  apply bind_Ok in H as ([k2 t2] & Evisits & H).
  binds H. inversion H; subst names' fs' k' t'; clear H.
  destruct (filter_visit_loop_spec _ _ _ _ _ _ Evisits) as (-> & Hvs & Hbelow & Hframe).
  to_setitem.
  split; [reflexivity|]. split; [reflexivity|]. split; [reflexivity|].
  split; [|split; [|split]].
  - intros a x Hin. unfold sub_sequence_row in Hin.
    repeat (apply elem_of_cons in Hin as [Hin|Hin];
            [injection Hin as -> ->; slot_back;
             try (rewrite (slot_ext _ i t1) by (apply Hframe; discriminate); slot_back)|]).
    inversion Hin.
  - intros a j Ha Hj. slot_other Hj.
    rewrite (slot_ext a j t1) by (apply Hframe; exact Ha).
    slot_other Hj. reflexivity.
  - intros j v Hj. slot_back. apply (Hvs j v Hj).
  - intros j Hj. slot_back. rewrite (Hbelow j Hj). slot_back. reflexivity.
Qed.

(** The sub-sequence loop over a mapping whose keys are distinct
    positions. *)
Lemma sub_sequence_loop_spec (d : list (Z * SubSequence.t)) :
  NoDup (map fst d) -> Forall (fun kv => 0 <= fst kv) d ->
  forall (names fs names' fs' : list string) (k k' : nat) (t t' : obj),
    for_each Sequence.sub_sequence_body d (names, fs, k, t) = Ok (names', fs', k', t') ->
    names' = names ++ map SubSequence.name (values d)
    /\ fs' = fs ++ map SubSequence.get_filter_string (values d)
    /\ (forall key ss, (key, ss) ∈ d ->
          forall a x, (a, x) ∈ sub_sequence_row ss -> slot a (Z.to_nat key) t' = Some x)
    /\ (forall a j, a <> "numSubSequenceFilterVisits" ->
          (forall key, key ∈ map fst d -> Z.to_nat key <> j) ->
          slot a j t' = slot a j t)
    /\ (forall j v, concat (map SubSequence.visits_per_filter (values d)) !! j = Some v ->
          slot "numSubSequenceFilterVisits" (k + j) t' = Some (VInt v))
    /\ (forall j, (j < k)%nat ->
          slot "numSubSequenceFilterVisits" j t' = slot "numSubSequenceFilterVisits" j t).
Proof.
  induction d as [|[key ss] d IH]; intros Hnd Hpos names fs names' fs' k k' t t' H;
    cbn [for_each] in H.
  - injection H as <- <- <- <-. rewrite !app_nil_r.
    split; [reflexivity|]. split; [reflexivity|].
    split; [intros key ss Hin; inversion Hin|]. split; [reflexivity|].
    split; [intros j v Hj; discriminate|reflexivity].
  - cbn [map fst] in Hnd. apply NoDup_cons in Hnd as [Hnotin Hnd].
    apply Forall_cons in Hpos as [Hkey Hpos]. cbn [fst] in Hkey.
    destruct (Sequence.sub_sequence_body (key, ss) (names, fs, k, t))
      as [[[[names1 fs1] k1] t1]|] eqn:Eb; [|discriminate].
    rewrite <- (Z2Nat.id key Hkey) in Eb.
    destruct (sub_sequence_body_rows _ _ _ _ _ _ _ _ _ _ Eb)
      as (-> & -> & -> & Hrow & Hother & Hvs & Hbelow).
    destruct (IH Hnd Hpos _ _ _ _ _ _ _ _ H)
      as (-> & -> & Hrows & Hothers & Hflat & Hflatbelow).
    cbn [values map snd concat]. rewrite <- !app_assoc.
    split; [reflexivity|]. split; [reflexivity|]. split; [|split; [|split]].
    + intros key' ss' Hin a x Hax. apply elem_of_cons in Hin as [Hin|Hin].
      * injection Hin as -> ->.
        destruct (row_names_sub _ _ _ Hax) as [Hne _].
        rewrite (Hothers a (Z.to_nat key) Hne); [apply (Hrow a x Hax)|].
        intros key' Hkey' Heq. apply Hnotin.
        assert (0 <= key').
        { apply list_elem_of_fmap in Hkey' as ([k0 s0] & -> & Hk0).
          rewrite Forall_forall in Hpos. apply (Hpos _ Hk0). }
        replace key with key' by lia. exact Hkey'.
      * apply (Hrows key' ss' Hin a x Hax).
    + intros a j Ha Hj.
      rewrite (Hothers a j Ha) by (intros key' Hkey'; apply Hj; right; exact Hkey').
      apply Hother; [exact Ha|]. intro Heq. apply (Hj key); [left|congruence].
    + intros j v Hj.
      destruct (decide (j < length (SubSequence.visits_per_filter ss))%nat) as [Hlt|Hge].
      * rewrite lookup_app_l in Hj by exact Hlt.
        rewrite Hflatbelow by lia. apply (Hvs j v Hj).
      * rewrite lookup_app_r in Hj by lia.
        replace (k + j)%nat
          with (k + length (SubSequence.visits_per_filter ss)
                + (j - length (SubSequence.visits_per_filter ss)))%nat by lia.
        apply (Hflat _ v Hj).
    + intros j Hj. rewrite Hflatbelow by lia. apply Hbelow. exact Hj.
Qed.

(** ** sequence.py: the master sub-sequence block *)

Lemma row_names_nested (ss : SubSequence.t) (a : string) (x : value) :
  (a, x) ∈ nested_row ss ->
  a <> "num_nested_sub_sequence_filter_visits" /\ a ∈ nested_arrays /\ a ∉ master_arrays.
Proof.
  unfold nested_row, nested_arrays. intro H.
  repeat (apply elem_of_cons in H as [H|H];
          [injection H as -> _; split; [discriminate|split; [in_list|notin_compute]]|]).
  inversion H.
Qed.

Lemma row_names_master (m : MasterSubSequence.t) (a : string) (x : value) :
  (a, x) ∈ master_row m -> a ∈ master_arrays /\ a ∉ nested_arrays.
Proof.
  unfold master_row, master_arrays. intro H.
  repeat (apply elem_of_cons in H as [H|H];
          [injection H as -> _; split; [in_list|notin_compute]|]).
  inversion H.
Qed.

(** One nested sub-sequence, written at the running index [nss]. *)
Lemma nested_body_rows (ss : SubSequence.t) (mn nn nf mn' nn' nf' : list string)
    (nss nss' k k' : nat) (t t' : obj) :
  Sequence.nested_body ss (mn, nn, nf, nss, k, t) = Ok (mn', nn', nf', nss', k', t') ->
  mn' = mn
  /\ nn' = nn ++ [SubSequence.name ss]
  /\ nf' = nf ++ [SubSequence.get_filter_string ss]
  /\ nss' = S nss
  /\ k' = (k + length (SubSequence.visits_per_filter ss))%nat
  /\ (forall a x, (a, x) ∈ nested_row ss -> slot a nss t' = Some x)
  /\ (forall a j, a <> "num_nested_sub_sequence_filter_visits" -> j <> nss ->
        slot a j t' = slot a j t)
  /\ (forall a, a ∉ nested_arrays -> t' !! a = t !! a)
  /\ (forall j v, SubSequence.visits_per_filter ss !! j = Some v ->
        slot "num_nested_sub_sequence_filter_visits" (k + j) t' = Some (VInt v))
  /\ (forall j, (j < k)%nat ->
        slot "num_nested_sub_sequence_filter_visits" j t'
        = slot "num_nested_sub_sequence_filter_visits" j t).
Proof.
  intro H. unfold Sequence.nested_body in H.
  apply bind_Ok in H as (t1 & Efilters & H).
  apply bind_Ok in H as ([k2 t2] & Evisits & H).
  binds H. inversion H; subst mn' nn' nf' nss' k' t'; clear H.
  destruct (filter_visit_loop_spec _ _ _ _ _ _ Evisits) as (-> & Hvs & Hbelow & Hframe).
  do 5 (split; [reflexivity|]).
  split; [|split; [|split; [|split]]].
  - intros a x Hin. unfold nested_row in Hin.
    repeat (apply elem_of_cons in Hin as [Hin|Hin];
            [injection Hin as -> ->; slot_back;
             try (rewrite (slot_ext _ nss t1) by (apply Hframe; discriminate); slot_back)|]).
    inversion Hin.
  - intros a j Ha Hj. slot_other Hj.
    rewrite (slot_ext a j t1) by (apply Hframe; exact Ha).
    slot_other Hj. reflexivity.
  - intros a Ha. unfold nested_arrays in Ha. frame_back Ha.
    rewrite Hframe by neq_from Ha. frame_back Ha. reflexivity.
  - intros j v Hj. slot_back. apply (Hvs j v Hj).
  - intros j Hj. slot_back. rewrite (Hbelow j Hj). slot_back. reflexivity.
Qed.

Lemma nested_loop_spec (sss : list SubSequence.t) :
  forall (mn nn nf mn' nn' nf' : list string) (nss nss' k k' : nat) (t t' : obj),
    for_each Sequence.nested_body sss (mn, nn, nf, nss, k, t)
    = Ok (mn', nn', nf', nss', k', t') ->
    mn' = mn
    /\ nn' = nn ++ map SubSequence.name sss
    /\ nf' = nf ++ map SubSequence.get_filter_string sss
    /\ nss' = (nss + length sss)%nat
    /\ k' = (k + length (concat (map SubSequence.visits_per_filter sss)))%nat
    /\ (forall i ss, sss !! i = Some ss ->
          forall a x, (a, x) ∈ nested_row ss -> slot a (nss + i) t' = Some x)
    /\ (forall a j, a <> "num_nested_sub_sequence_filter_visits" -> (j < nss)%nat ->
          slot a j t' = slot a j t)
    /\ (forall a, a ∉ nested_arrays -> t' !! a = t !! a)
    /\ (forall j v, concat (map SubSequence.visits_per_filter sss) !! j = Some v ->
          slot "num_nested_sub_sequence_filter_visits" (k + j) t' = Some (VInt v))
    /\ (forall j, (j < k)%nat ->
          slot "num_nested_sub_sequence_filter_visits" j t'
          = slot "num_nested_sub_sequence_filter_visits" j t).
Proof.
  induction sss as [|ss sss IH]; intros mn nn nf mn' nn' nf' nss nss' k k' t t' H;
    cbn [for_each] in H.
  - inversion H; subst; clear H. rewrite !app_nil_r.
    do 3 (split; [reflexivity|]). split; [cbn; lia|]. split; [cbn; lia|].
    split; [intros i ss Hi; discriminate|]. split; [reflexivity|]. split; [reflexivity|].
    split; [intros j v Hj; discriminate|reflexivity].
  - destruct (Sequence.nested_body ss (mn, nn, nf, nss, k, t))
      as [[[[[[mn1 nn1] nf1] nss1] k1] t1]|] eqn:Eb; [|discriminate].
    destruct (nested_body_rows _ _ _ _ _ _ _ _ _ _ _ _ _ Eb)
      as (-> & -> & -> & -> & -> & Hrow & Hother & Hframe & Hvs & Hbelow).
    destruct (IH _ _ _ _ _ _ _ _ _ _ _ _ H)
      as (-> & -> & -> & -> & -> & Hrows & Hothers & Hframes & Hflat & Hflatbelow).
    cbn [map concat length]. rewrite <- !app_assoc, length_app.
    split; [reflexivity|]. split; [reflexivity|]. split; [reflexivity|].
    split; [lia|]. split; [lia|]. split; [|split; [|split; [|split]]].
    + intros [|i] ss' Hi a x Hax.
      * injection Hi as <-. rewrite Nat.add_0_r.
        destruct (row_names_nested _ _ _ Hax) as (Hne & _).
        rewrite (Hothers a nss Hne) by lia. apply (Hrow a x Hax).
      * replace (nss + S i)%nat with (S nss + i)%nat by lia. apply (Hrows i ss' Hi a x Hax).
    + intros a j Ha Hj. rewrite (Hothers a j Ha) by lia. apply Hother; [exact Ha|lia].
    + intros a Ha. rewrite (Hframes a Ha). apply Hframe. exact Ha.
    + intros j v Hj.
      destruct (decide (j < length (SubSequence.visits_per_filter ss))%nat) as [Hlt|Hge].
      * rewrite lookup_app_l in Hj by exact Hlt.
        rewrite Hflatbelow by lia. apply (Hvs j v Hj).
      * rewrite lookup_app_r in Hj by lia.
        replace (k + j)%nat
          with (k + length (SubSequence.visits_per_filter ss)
                + (j - length (SubSequence.visits_per_filter ss)))%nat by lia.
        apply (Hflat _ v Hj).
    + intros j Hj. rewrite Hflatbelow by lia. apply Hbelow. exact Hj.
Qed.

(** Walk a chain of assignments to arrays other than [a] back. *)
Ltac slot_skip Ha :=
  repeat match goal with
    | E : setitem ?b ?i _ ?o = Ok ?o' |- slot ?a ?j ?o' = _ =>
        rewrite (setitem_slot_ne b a i j _ o o' E) by (left; neq_from Ha)
    end.

Lemma nested_of_cons (key : Z) (m : MasterSubSequence.t) (d : dict Z MasterSubSequence.t) :
  nested_of ((key, m) :: d) = values (MasterSubSequence.sub_sequences m) ++ nested_of d.
Proof. reflexivity. Qed.

(** One turn of the master loop, for a key that is a position. *)
Lemma master_body_rows (i : nat) (m : MasterSubSequence.t)
    (mn nn nf mn' nn' nf' : list string) (nss nss' k k' : nat) (t t' : obj) :
  Sequence.master_body (Z.of_nat i, m) (mn, nn, nf, nss, k, t)
  = Ok (mn', nn', nf', nss', k', t') ->
  let sss := values (MasterSubSequence.sub_sequences m) in
  mn' = mn ++ [MasterSubSequence.name m]
  /\ nn' = nn ++ map SubSequence.name sss
  /\ nf' = nf ++ map SubSequence.get_filter_string sss
  /\ nss' = (nss + length sss)%nat
  /\ k' = (k + length (concat (map SubSequence.visits_per_filter sss)))%nat
  /\ (forall a x, (a, x) ∈ master_row m -> slot a i t' = Some x)
  /\ (forall j ss, sss !! j = Some ss ->
        forall a x, (a, x) ∈ nested_row ss -> slot a (nss + j) t' = Some x)
  /\ (forall a j, a ∉ nested_arrays -> j <> i -> slot a j t' = slot a j t)
  /\ (forall a j, a ∉ master_arrays -> a <> "num_nested_sub_sequence_filter_visits" ->
        (j < nss)%nat -> slot a j t' = slot a j t)
  /\ (forall j v, concat (map SubSequence.visits_per_filter sss) !! j = Some v ->
        slot "num_nested_sub_sequence_filter_visits" (k + j) t' = Some (VInt v))
  /\ (forall j, (j < k)%nat ->
        slot "num_nested_sub_sequence_filter_visits" j t'
        = slot "num_nested_sub_sequence_filter_visits" j t).
Proof.
  intros H sss. unfold Sequence.master_body in H. binds H. to_setitem.
  destruct (nested_loop_spec _ _ _ _ _ _ _ _ _ _ _ _ _ H)
    as (-> & -> & -> & -> & -> & Hrows & Hothers & Hframes & Hflat & Hflatbelow).
  do 5 (split; [reflexivity|]).
  split; [|split; [|split; [|split; [|split]]]].
  - intros a x Hin. destruct (row_names_master _ _ _ Hin) as [_ Hnn].
    rewrite (slot_ext a i _ _ (Hframes a Hnn)).
    unfold master_row in Hin.
    repeat (apply elem_of_cons in Hin as [Hin|Hin]; [injection Hin as -> ->; slot_back|]).
    inversion Hin.
  - intros j ss Hj a x Hax. apply (Hrows j ss Hj a x Hax).
  - intros a j Ha Hj. rewrite (slot_ext a j _ _ (Hframes a Ha)). slot_other Hj. reflexivity.
  - intros a j Ha Hv Hj. rewrite (Hothers a j Hv Hj). unfold master_arrays in Ha.
    slot_skip Ha. reflexivity.
  - intros j v Hj. apply (Hflat j v Hj).
  - intros j Hj. rewrite (Hflatbelow j Hj). slot_back. reflexivity.
Qed.

(** The master loop over a mapping whose keys are distinct positions. *)
Lemma master_loop_spec (d : list (Z * MasterSubSequence.t)) :
  NoDup (map fst d) -> Forall (fun kv => 0 <= fst kv) d ->
  forall (mn nn nf mn' nn' nf' : list string) (nss nss' k k' : nat) (t t' : obj),
    for_each Sequence.master_body d (mn, nn, nf, nss, k, t)
    = Ok (mn', nn', nf', nss', k', t') ->
    mn' = mn ++ map MasterSubSequence.name (values d)
    /\ nn' = nn ++ map SubSequence.name (nested_of d)
    /\ nf' = nf ++ map SubSequence.get_filter_string (nested_of d)
    /\ (forall key m, (key, m) ∈ d ->
          forall a x, (a, x) ∈ master_row m -> slot a (Z.to_nat key) t' = Some x)
    /\ (forall j ss, nested_of d !! j = Some ss ->
          forall a x, (a, x) ∈ nested_row ss -> slot a (nss + j) t' = Some x)
    /\ (forall a j, a ∉ nested_arrays ->
          (forall key, key ∈ map fst d -> Z.to_nat key <> j) ->
          slot a j t' = slot a j t)
    /\ (forall a j, a ∉ master_arrays -> a <> "num_nested_sub_sequence_filter_visits" ->
          (j < nss)%nat -> slot a j t' = slot a j t)
    /\ (forall j v,
          concat (map SubSequence.visits_per_filter (nested_of d)) !! j = Some v ->
          slot "num_nested_sub_sequence_filter_visits" (k + j) t' = Some (VInt v))
    /\ (forall j, (j < k)%nat ->
          slot "num_nested_sub_sequence_filter_visits" j t'
          = slot "num_nested_sub_sequence_filter_visits" j t).
Proof.
  induction d as [|[key m] d IH]; intros Hnd Hpos mn nn nf mn' nn' nf' nss nss' k k' t t' H;
    cbn [for_each] in H.
  - inversion H; subst; clear H. cbn [values map nested_of flat_map]. rewrite !app_nil_r.
    do 3 (split; [reflexivity|]).
    split; [intros key m Hin; inversion Hin|]. split; [intros j ss Hj; discriminate|].
    split; [reflexivity|]. split; [reflexivity|].
    split; [intros j v Hj; discriminate|reflexivity].
  - cbn [map fst] in Hnd. apply NoDup_cons in Hnd as [Hnotin Hnd].
    apply Forall_cons in Hpos as [Hkey Hpos]. cbn [fst] in Hkey.
    destruct (Sequence.master_body (key, m) (mn, nn, nf, nss, k, t))
      as [[[[[[mn1 nn1] nf1] nss1] k1] t1]|] eqn:Eb; [|discriminate].
    rewrite <- (Z2Nat.id key Hkey) in Eb.
    destruct (master_body_rows _ _ _ _ _ _ _ _ _ _ _ _ _ _ Eb)
      as (-> & -> & -> & -> & -> & Hrow & Hnest & Ho1 & Ho2 & Hvs & Hbelow).
    destruct (IH Hnd Hpos _ _ _ _ _ _ _ _ _ _ _ _ H)
      as (-> & -> & -> & Hrows & Hnests & Hos1 & Hos2 & Hflat & Hflatbelow).
    rewrite nested_of_cons. cbn [values map snd]. rewrite !map_app, concat_app.
    rewrite <- !app_assoc.
    do 3 (split; [reflexivity|]).
    split; [|split; [|split; [|split; [|split]]]].
    + intros key' m' Hin a x Hax. apply elem_of_cons in Hin as [Hin|Hin].
      * injection Hin as -> ->.
        destruct (row_names_master _ _ _ Hax) as [_ Hnn].
        rewrite (Hos1 a (Z.to_nat key) Hnn); [apply (Hrow a x Hax)|].
        intros key' Hkey' Heq. apply Hnotin.
        assert (0 <= key').
        { apply list_elem_of_fmap in Hkey' as ([k0 s0] & -> & Hk0).
          rewrite Forall_forall in Hpos. apply (Hpos _ Hk0). }
        replace key with key' by lia. exact Hkey'.
      * apply (Hrows key' m' Hin a x Hax).
    + intros j ss Hj a x Hax.
      destruct (row_names_nested _ _ _ Hax) as (Hv & _ & Hnm).
      destruct (decide (j < length (values (MasterSubSequence.sub_sequences m)))%nat)
        as [Hlt|Hge].
      * rewrite lookup_app_l in Hj by exact Hlt.
        rewrite (Hos2 a (nss + j)%nat Hnm Hv) by lia. apply (Hnest j ss Hj a x Hax).
      * rewrite lookup_app_r in Hj by lia.
        replace (nss + j)%nat
          with (nss + length (values (MasterSubSequence.sub_sequences m))
                + (j - length (values (MasterSubSequence.sub_sequences m))))%nat by lia.
        apply (Hnests _ ss Hj a x Hax).
    + intros a j Ha Hj.
      rewrite (Hos1 a j Ha) by (intros key' Hkey'; apply Hj; right; exact Hkey').
      apply Ho1; [exact Ha|]. intro Heq. apply (Hj key); [left|congruence].
    + intros a j Ha Hv Hj. rewrite (Hos2 a j Ha Hv) by lia. apply Ho2; assumption.
    + intros j v Hj.
      set (n := length (concat (map SubSequence.visits_per_filter
                                    (values (MasterSubSequence.sub_sequences m))))) in *.
      destruct (decide (j < n)%nat) as [Hlt|Hge].
      * rewrite lookup_app_l in Hj by exact Hlt.
        rewrite Hflatbelow by lia. apply (Hvs j v Hj).
      * rewrite lookup_app_r in Hj by (fold n; lia). fold n in Hj.
        replace (k + j)%nat with (k + n + (j - n))%nat by lia.
        apply (Hflat _ v Hj).
    + intros j Hj. rewrite Hflatbelow by lia. apply Hbelow. exact Hj.
Qed.

(** ** sequence.py: the filter block *)

Lemma Sequence_exposure_loop_spec (xs : list float) :
  forall (k k' : nat) (t t' : obj),
    for_each Sequence.exposure_body xs (k, t) = Ok (k', t') ->
    k' = (k + length xs)%nat
    /\ (forall j x, xs !! j = Some x -> slot "exposures" (k + j) t' = Some (VFloat x))
    /\ (forall j, (j < k)%nat -> slot "exposures" j t' = slot "exposures" j t)
    /\ (forall a, a <> "exposures" -> t' !! a = t !! a).
Proof.
  induction xs as [|x xs IH]; intros k k' t t' H; cbn [for_each] in H.
  - injection H as <- <-. split; [cbn; lia|]. split; [intros j x Hj; discriminate|].
    split; reflexivity.
  - destruct (Sequence.exposure_body x (k, t)) as [[k1 t1]|] eqn:Eb; [|discriminate].
    unfold Sequence.exposure_body in Eb. bind_inv Eb. injection Eb as <- <-.
    destruct (IH _ _ _ _ H) as (-> & Hvs & Hbelow & Hframe).
    split; [cbn; lia|]. split; [|split].
    + intros [|j] w Hj.
      * injection Hj as <-. rewrite Nat.add_0_r. rewrite Hbelow by lia.
        apply (setitem_slot_eq _ _ _ _ _ E).
      * replace (k + S j)%nat with (S k + j)%nat by lia. apply (Hvs j w Hj).
    + intros j Hj. rewrite Hbelow by lia.
      apply (setitem_slot_ne _ _ _ _ _ _ _ E). right. lia.
    + intros a Ha. rewrite (Hframe a Ha). apply (setitem_lookup_ne _ _ _ _ _ _ E Ha).
Qed.

Lemma row_names_sequence_filter (v : BandFilter.t) (a : string) (x : value) :
  (a, x) ∈ sequence_filter_row v -> a <> "exposures" /\ a <> "filterNames".
Proof.
  unfold sequence_filter_row. intro H.
  repeat (apply elem_of_cons in H as [H|H]; [injection H as -> _; split; discriminate|]).
  inversion H.
Qed.

Lemma Sequence_filter_body_spec (i : nat) (v : BandFilter.t)
    (names names' : list string) (e e' : nat) (t t' : obj) :
  Sequence.filter_body (i, v) (names, e, t) = Ok (names', e', t') ->
  names' = names ++ [BandFilter.name v]
  /\ e' = (e + length (BandFilter.exposures v))%nat
  /\ (forall a x, (a, x) ∈ sequence_filter_row v -> slot a i t' = Some x)
  /\ (forall a j, a <> "exposures" -> j <> i -> slot a j t' = slot a j t)
  /\ (forall j x, BandFilter.exposures v !! j = Some x ->
        slot "exposures" (e + j) t' = Some (VFloat x))
  /\ (forall j, (j < e)%nat -> slot "exposures" j t' = slot "exposures" j t).
Proof.
  intro H. unfold Sequence.filter_body in H. binds H.
  match goal with
  | Eloop : for_each Sequence.exposure_body _ _ = Ok ?st |- _ =>
      destruct st as [e2 t2]; cbn [fst snd] in H;
      destruct (Sequence_exposure_loop_spec _ _ _ _ _ Eloop) as (-> & Hexp & Hbelow & Hframe)
  end.
  inversion H; subst names' e' t'; clear H.
  split; [reflexivity|]. split; [reflexivity|]. split; [|split; [|split]].
  - intros a x Hin. destruct (row_names_sequence_filter v a x Hin) as [Hne _].
    rewrite (slot_ext a i _ _ (Hframe a Hne)). unfold sequence_filter_row in Hin.
    repeat (apply elem_of_cons in Hin as [Hin|Hin]; [injection Hin as -> ->; slot_back|]).
    inversion Hin.
  - intros a j Ha Hj. rewrite (slot_ext a j _ _ (Hframe a Ha)). slot_other Hj. reflexivity.
  - intros j x Hj. apply (Hexp j x Hj).
  - intros j Hj. rewrite (Hbelow j Hj). slot_back. reflexivity.
Qed.

Lemma Sequence_filter_loop_spec (vs : list BandFilter.t) :
  forall (k : nat) (names names' : list string) (e e' : nat) (t t' : obj),
    for_each Sequence.filter_body (enumerate_from k vs) (names, e, t) = Ok (names', e', t') ->
    names' = names ++ map BandFilter.name vs
    /\ e' = (e + length (concat (map BandFilter.exposures vs)))%nat
    /\ (forall i v, vs !! i = Some v ->
          forall a x, (a, x) ∈ sequence_filter_row v -> slot a (k + i) t' = Some x)
    /\ (forall a j, a <> "exposures" -> (j < k)%nat -> slot a j t' = slot a j t)
    /\ (forall j x, concat (map BandFilter.exposures vs) !! j = Some x ->
          slot "exposures" (e + j) t' = Some (VFloat x))
    /\ (forall j, (j < e)%nat -> slot "exposures" j t' = slot "exposures" j t).
Proof.
  induction vs as [|v vs IH]; intros k names names' e e' t t' H;
    cbn [for_each enumerate_from] in H.
  - injection H as <- <- <-. rewrite app_nil_r.
    split; [reflexivity|]. split; [cbn; lia|]. split; [intros i v Hi; discriminate|].
    split; [reflexivity|]. split; [intros j x Hj; discriminate|reflexivity].
  - destruct (Sequence.filter_body (k, v) (names, e, t)) as [[[names1 e1] t1]|] eqn:Eb;
      [|discriminate].
    destruct (Sequence_filter_body_spec _ _ _ _ _ _ _ _ Eb)
      as (-> & -> & Hrow & Hother & Hexp & Hbelow).
    destruct (IH _ _ _ _ _ _ _ H) as (-> & -> & Hrows & Hothers & Hflat & Hflatbelow).
    cbn [map concat]. rewrite <- app_assoc, length_app.
    split; [reflexivity|]. split; [lia|]. split; [|split; [|split]].
    + intros [|i] w Hi a x Hin.
      * injection Hi as <-. rewrite Nat.add_0_r.
        destruct (row_names_sequence_filter _ _ _ Hin) as [Hne _].
        rewrite (Hothers a k Hne) by lia. apply (Hrow a x Hin).
      * replace (k + S i)%nat with (S k + i)%nat by lia. apply (Hrows i w Hi a x Hin).
    + intros a j Ha Hj. rewrite (Hothers a j Ha) by lia. apply Hother; [exact Ha|lia].
    + intros j x Hj.
      destruct (decide (j < length (BandFilter.exposures v))%nat) as [Hlt|Hge].
      * rewrite lookup_app_l in Hj by exact Hlt.
        rewrite Hflatbelow by lia. apply (Hexp j x Hj).
      * rewrite lookup_app_r in Hj by lia.
        replace (e + j)%nat
          with (e + length (BandFilter.exposures v)
                + (j - length (BandFilter.exposures v)))%nat by lia.
        apply (Hflat _ x Hj).
    + intros j Hj. rewrite Hflatbelow by lia. apply Hbelow. exact Hj.
Qed.

Lemma Sequence_set_filters_spec (self : Sequence.t) (fl : dict string BandFilter.t)
    (t t' : obj) :
  Sequence.filters self = Some fl -> fl <> [] ->
  Sequence.set_filters self t = Ok t' ->
  t' !! "filterNames" = Some (VStr (join "," (map BandFilter.name (values fl))))
  /\ (forall i v, values fl !! i = Some v ->
        forall a x, (a, x) ∈ sequence_filter_row v -> slot a i t' = Some x)
  /\ (forall j x, concat (map BandFilter.exposures (values fl)) !! j = Some x ->
        slot "exposures" j t' = Some (VFloat x)).
Proof.
  intros Hfl Hne H. unfold Sequence.set_filters in H. rewrite Hfl in H. cbv zeta in H.
  destruct fl as [|kv fl]; [contradiction|].
  apply bind_Ok in H as ([[names e] t1] & E & H). injection H as <-.
  destruct (Sequence_filter_loop_spec _ _ _ _ _ _ _ _ E) as (-> & _ & Hrows & _ & Hflat & _).
  split; [apply lookup_insert_eq|]. split.
  - intros i v Hi a x Hin. destruct (row_names_sequence_filter _ _ _ Hin) as [_ Hne'].
    rewrite (slot_ext a i t1) by (apply lookup_insert_ne; congruence).
    apply (Hrows i v Hi a x Hin).
  - intros j x Hj. rewrite (slot_ext _ j t1) by (apply lookup_insert_ne; discriminate).
    apply (Hflat j x Hj).
Qed.

Lemma Sequence_set_filters_num (self : Sequence.t) (t t' : obj) :
  Sequence.set_filters self t = Ok t' ->
  t' !! "numFilters" = Some (VInt (count (Sequence.filters self))).
Proof.
  intro H. unfold Sequence.set_filters in H. cbv zeta in H. unfold count.
  destruct (Sequence.filters self) as [[|kv fl]|].
  - injection H as <-. apply lookup_insert_eq.
  - apply bind_Ok in H as ([[names e] t1] & E & H). injection H as <-.
    unfold setattr at 1. rewrite lookup_insert_ne by discriminate.
    assert (F : t1 !! "numFilters"
                = setattr "numFilters" (VInt (Z.of_nat (length (kv :: fl)))) t !! "numFilters").
    { revert E. apply (for_each_frame (fun s : list string * nat * obj => snd s)).
      intros [i v] [[names1 e1] s1] [[names2 e2] s2] Hb.
      unfold Sequence.filter_body in Hb. binds Hb.
      match goal with
      | Eloop : for_each Sequence.exposure_body _ _ = Ok ?st |- _ =>
          destruct st as [e3 t3]; cbn [fst snd] in Hb;
          destruct (Sequence_exposure_loop_spec _ _ _ _ _ Eloop) as (_ & _ & _ & Hframe)
      end.
      inversion Hb; subst; clear Hb. cbn [snd]. rewrite Hframe by discriminate.
      frame_back_with discriminate. reflexivity. }
    rewrite F. apply lookup_insert_eq.
  - injection H as <-. apply lookup_insert_eq.
Qed.

(** ** Sequence.set_topic: the blocks and what each leaves alone *)

Lemma sub_sequence_loop_frame (l : list (Z * SubSequence.t))
    (s s' : Sequence.sub_state) (a : string) :
  a ∉ sub_sequence_arrays ->
  for_each Sequence.sub_sequence_body l s = Ok s' -> snd s' !! a = snd s !! a.
Proof.
  intro Ha. unfold sub_sequence_arrays in Ha. apply for_each_frame.
  intros [i ss] [[[names fs] k] t] s2 Hb.
  unfold Sequence.sub_sequence_body in Hb.
  apply bind_Ok in Hb as (t1 & Efilters & Hb).
  apply bind_Ok in Hb as ([k2 t2] & Evisits & Hb).
  binds Hb. injection Hb as <-. cbn [snd]. frame_back Ha.
  destruct (filter_visit_loop_spec _ _ _ _ _ _ Evisits) as (_ & _ & _ & Hframe).
  rewrite Hframe by neq_from Ha. frame_back Ha. reflexivity.
Qed.

Lemma Sequence_set_sub_sequences_frame (self : Sequence.t) (topic topic' : obj) (a : string) :
  a ∉ sub_sequence_attrs ->
  Sequence.set_sub_sequences self topic = Ok topic' -> topic' !! a = topic !! a.
Proof.
  intros Ha H. unfold Sequence.set_sub_sequences in H. cbv zeta in H.
  pose proof Ha as Ha'. unfold sub_sequence_attrs in Ha'.
  destruct (Sequence.sub_sequences self) as [[|kv d]|].
  - injection H as <-. frame_back Ha'. reflexivity.
  - apply bind_Ok in H as ([[[names fs] k] t1] & E & H). injection H as <-.
    frame_back Ha'.
    assert (Harr : a ∉ sub_sequence_arrays) by (unfold sub_sequence_arrays; sub_notin Ha').
    pose proof (sub_sequence_loop_frame _ _ _ a Harr E) as F. cbn [snd] in F. rewrite F.
    frame_back Ha'. reflexivity.
  - injection H as <-. frame_back Ha'. reflexivity.
Qed.

Lemma Sequence_set_sub_sequences_num (self : Sequence.t) (t t' : obj) :
  Sequence.set_sub_sequences self t = Ok t' ->
  t' !! "numSubSequences" = Some (VInt (count (Sequence.sub_sequences self))).
Proof.
  intro H. unfold Sequence.set_sub_sequences in H. cbv zeta in H. unfold count.
  destruct (Sequence.sub_sequences self) as [[|kv d]|].
  - injection H as <-. apply lookup_insert_eq.
  - apply bind_Ok in H as ([[[names fs] k] t1] & E & H). injection H as <-.
    unfold setattr at 1 2. rewrite !lookup_insert_ne by discriminate.
    assert (Harr : "numSubSequences" ∉ sub_sequence_arrays) by notin_compute.
    pose proof (sub_sequence_loop_frame _ _ _ _ Harr E) as F. cbn [snd] in F. rewrite F.
    apply lookup_insert_eq.
  - injection H as <-. apply lookup_insert_eq.
Qed.

Lemma Sequence_set_sub_sequences_spec (self : Sequence.t) (d : dict Z SubSequence.t)
    (t t' : obj) :
  Sequence.sub_sequences self = Some d -> d <> [] ->
  NoDup (map fst d) -> Forall (fun kv => 0 <= fst kv) d ->
  Sequence.set_sub_sequences self t = Ok t' ->
  t' !! "subSequenceNames" = Some (VStr (join "," (map SubSequence.name (values d))))
  /\ t' !! "subSequenceFilters"
     = Some (VStr (join "," (map SubSequence.get_filter_string (values d))))
  /\ (forall key ss, (key, ss) ∈ d ->
        forall a x, (a, x) ∈ sub_sequence_row ss -> slot a (Z.to_nat key) t' = Some x)
  /\ (forall j v, concat (map SubSequence.visits_per_filter (values d)) !! j = Some v ->
        slot "numSubSequenceFilterVisits" j t' = Some (VInt v)).
Proof.
  intros Hd Hne Hnd Hpos H. unfold Sequence.set_sub_sequences in H. rewrite Hd in H.
  cbv zeta in H. destruct d as [|kv d]; [contradiction|].
  apply bind_Ok in H as ([[[names fs] k] t1] & E & H). injection H as <-.
  unfold items in E.
  destruct (sub_sequence_loop_spec _ Hnd Hpos _ _ _ _ _ _ _ _ E)
    as (-> & -> & Hrows & _ & Hflat & _).
  assert (Hstr : forall a j, a ∈ sub_sequence_arrays ->
            slot a j (setattr "subSequenceFilters"
                        (VStr (join "," ([] ++ map SubSequence.get_filter_string
                                                   (values (kv :: d)))))
                        (setattr "subSequenceNames"
                           (VStr (join "," ([] ++ map SubSequence.name (values (kv :: d)))))
                           t1))
            = slot a j t1).
  { intros a j Ha. apply slot_ext. unfold setattr.
    assert (Hall : Forall (fun a => a <> "subSequenceFilters" /\ a <> "subSequenceNames")
                     sub_sequence_arrays).
    { unfold sub_sequence_arrays. repeat (constructor; [split; discriminate|]). constructor. }
    rewrite Forall_forall in Hall. destruct (Hall a Ha) as [H1 H2].
    rewrite !lookup_insert_ne by congruence. reflexivity. }
  split; [|split; [|split]].
  - unfold setattr. rewrite lookup_insert_ne by discriminate. apply lookup_insert_eq.
  - apply lookup_insert_eq.
  - intros key ss Hin a x Hax. rewrite Hstr; [apply (Hrows key ss Hin a x Hax)|].
    unfold sub_sequence_row in Hax. unfold sub_sequence_arrays.
    repeat (apply elem_of_cons in Hax as [Hax|Hax]; [injection Hax as -> _; in_list|]).
    inversion Hax.
  - intros j v Hj. rewrite Hstr by (unfold sub_sequence_arrays; in_list).
    apply (Hflat j v Hj).
Qed.

Lemma master_loop_arrays_frame (l : list (Z * MasterSubSequence.t))
    (s s' : Sequence.master_state) (a : string) :
  a ∉ master_arrays -> a ∉ nested_arrays ->
  for_each Sequence.master_body l s = Ok s' -> snd s' !! a = snd s !! a.
Proof.
  intros Hm Hn. apply for_each_frame.
  intros [i m] [[[[[mn nn] nf] nss] fvi] t] [[[[[mn' nn'] nf'] nss'] fvi'] t'] Hb.
  unfold Sequence.master_body in Hb. binds Hb.
  destruct (nested_loop_spec _ _ _ _ _ _ _ _ _ _ _ _ _ Hb)
    as (_ & _ & _ & _ & _ & _ & _ & Hframes & _).
  cbn [snd]. rewrite (Hframes a Hn). unfold master_arrays in Hm. frame_back Hm. reflexivity.
Qed.

Lemma Sequence_set_master_sub_sequences_num (self : Sequence.t) (t t' : obj) :
  Sequence.set_master_sub_sequences self t = Ok t' ->
  t' !! "numMasterSubSequences"
  = Some (VInt (count (Sequence.master_sub_sequences self))).
Proof.
  intro H. unfold Sequence.set_master_sub_sequences in H. cbv zeta in H. unfold count.
  destruct (Sequence.master_sub_sequences self) as [[|kv d]|].
  - injection H as <-. apply lookup_insert_eq.
  - apply bind_Ok in H as ([[[[[mn nn] nf] nss] fvi] t1] & E & H). injection H as <-.
    unfold setattr at 1 2 3. rewrite !lookup_insert_ne by discriminate.
    pose proof (master_loop_arrays_frame _ _ _ "numMasterSubSequences"
                  ltac:(notin_compute) ltac:(notin_compute) E) as F.
    cbn [snd] in F. rewrite F. apply lookup_insert_eq.
  - injection H as <-. apply lookup_insert_eq.
Qed.

Lemma Sequence_set_master_sub_sequences_spec (self : Sequence.t)
    (d : dict Z MasterSubSequence.t) (t t' : obj) :
  Sequence.master_sub_sequences self = Some d -> d <> [] ->
  NoDup (map fst d) -> Forall (fun kv => 0 <= fst kv) d ->
  Sequence.set_master_sub_sequences self t = Ok t' ->
  t' !! "masterSubSequenceNames"
  = Some (VStr (join "," (map MasterSubSequence.name (values d))))
  /\ t' !! "nestedSubSequenceNames"
     = Some (VStr (join "," (map SubSequence.name (nested_of d))))
  /\ t' !! "nestedSubSequenceFilters"
     = Some (VStr (join "," (map SubSequence.get_filter_string (nested_of d))))
  /\ (forall key m, (key, m) ∈ d ->
        forall a x, (a, x) ∈ master_row m -> slot a (Z.to_nat key) t' = Some x)
  /\ (forall j ss, nested_of d !! j = Some ss ->
        forall a x, (a, x) ∈ nested_row ss -> slot a j t' = Some x)
  /\ (forall j v, concat (map SubSequence.visits_per_filter (nested_of d)) !! j = Some v ->
        slot "num_nested_sub_sequence_filter_visits" j t' = Some (VInt v)).
Proof.
  intros Hd Hne Hnd Hpos H. unfold Sequence.set_master_sub_sequences in H. rewrite Hd in H.
  cbv zeta in H. destruct d as [|kv d]; [contradiction|].
  apply bind_Ok in H as ([[[[[mn nn] nf] nss] fvi] t1] & E & H). injection H as <-.
  unfold items in E.
  destruct (master_loop_spec _ Hnd Hpos _ _ _ _ _ _ _ _ _ _ _ _ E)
    as (-> & -> & -> & Hrows & Hnests & _ & _ & Hflat & _).
  assert (Hstr : forall a j o v1 v2 v3,
            a ∈ master_arrays ++ nested_arrays ->
            slot a j (setattr "nestedSubSequenceFilters" v1
                        (setattr "nestedSubSequenceNames" v2
                           (setattr "masterSubSequenceNames" v3 o)))
            = slot a j o).
  { intros a j o v1 v2 v3 Ha. apply slot_ext. unfold setattr.
    assert (Hall : Forall (fun a => a <> "nestedSubSequenceFilters"
                                    /\ a <> "nestedSubSequenceNames"
                                    /\ a <> "masterSubSequenceNames")
                     (master_arrays ++ nested_arrays)).
    { cbn. repeat (constructor; [repeat split; discriminate|]). constructor. }
    rewrite Forall_forall in Hall. destruct (Hall a Ha) as (H1 & H2 & H3).
    rewrite !lookup_insert_ne by congruence. reflexivity. }
  split; [|split; [|split; [|split; [|split]]]].
  - unfold setattr. rewrite !lookup_insert_ne by discriminate. apply lookup_insert_eq.
  - unfold setattr. rewrite lookup_insert_ne by discriminate. apply lookup_insert_eq.
  - apply lookup_insert_eq.
  - intros key m Hin a x Hax. rewrite Hstr; [apply (Hrows key m Hin a x Hax)|].
    apply elem_of_app. left. apply (row_names_master _ _ _ Hax).
  - intros j ss Hj a x Hax. rewrite Hstr; [apply (Hnests j ss Hj a x Hax)|].
    apply elem_of_app. right. apply (row_names_nested _ _ _ Hax).
  - intros j v Hj. rewrite Hstr by (cbn; in_list). apply (Hflat j v Hj).
Qed.

(** The blocks of [Sequence.set_topic], one after the other. *)
Lemma Sequence_set_topic_blocks (self : Sequence.t) (topic topic' : obj) :
  Sequence.set_topic self topic = Ok topic' ->
  exists t1 t2 t3 t4,
    Sequence.set_user_regions self (Sequence.set_sky self topic) = Ok t1
    /\ Sequence.set_sub_sequences self t1 = Ok t2
    /\ Sequence.set_master_sub_sequences self t2 = Ok t3
    /\ Sequence.set_filters self t3 = Ok t4
    /\ topic' = Sequence.set_scheduling self t4.
Proof.
  intro H. unfold Sequence.set_topic in H. cbv zeta in H.
  apply bind_Ok in H as (t1 & E1 & H). apply bind_Ok in H as (t2 & E2 & H).
  apply bind_Ok in H as (t3 & E3 & H). apply bind_Ok in H as (t4 & E4 & H).
  injection H as <-. exists t1, t2, t3, t4. auto 10.
Qed.

Lemma Sequence_after_user_regions (self : Sequence.t) (t1 t2 t3 t4 : obj) (a : string) :
  Sequence.set_sub_sequences self t1 = Ok t2 ->
  Sequence.set_master_sub_sequences self t2 = Ok t3 ->
  Sequence.set_filters self t3 = Ok t4 ->
  a ∉ sub_sequence_attrs ++ master_attrs ++ sequence_filter_attrs
      ++ sequence_scheduling_attrs ->
  Sequence.set_scheduling self t4 !! a = t1 !! a.
Proof.
  intros E2 E3 E4 Ha. rewrite !not_elem_of_app in Ha. destruct Ha as (H2 & H3 & H4 & H5).
  rewrite (Sequence_set_scheduling_frame self t4 a H5).
  rewrite (Sequence_set_filters_frame self t3 t4 a H4 E4).
  rewrite (Sequence_set_master_sub_sequences_frame self t2 t3 a H3 E3).
  apply (Sequence_set_sub_sequences_frame self t1 t2 a H2 E2).
Qed.

Lemma Sequence_after_sub_sequences (self : Sequence.t) (t2 t3 t4 : obj) (a : string) :
  Sequence.set_master_sub_sequences self t2 = Ok t3 ->
  Sequence.set_filters self t3 = Ok t4 ->
  a ∉ master_attrs ++ sequence_filter_attrs ++ sequence_scheduling_attrs ->
  Sequence.set_scheduling self t4 !! a = t2 !! a.
Proof.
  intros E3 E4 Ha. rewrite !not_elem_of_app in Ha. destruct Ha as (H3 & H4 & H5).
  rewrite (Sequence_set_scheduling_frame self t4 a H5).
  rewrite (Sequence_set_filters_frame self t3 t4 a H4 E4).
  apply (Sequence_set_master_sub_sequences_frame self t2 t3 a H3 E3).
Qed.

Lemma Sequence_after_masters (self : Sequence.t) (t3 t4 : obj) (a : string) :
  Sequence.set_filters self t3 = Ok t4 ->
  a ∉ sequence_filter_attrs ++ sequence_scheduling_attrs ->
  Sequence.set_scheduling self t4 !! a = t3 !! a.
Proof.
  intros E4 Ha. rewrite !not_elem_of_app in Ha. destruct Ha as (H4 & H5).
  rewrite (Sequence_set_scheduling_frame self t4 a H5).
  apply (Sequence_set_filters_frame self t3 t4 a H4 E4).
Qed.

(** ** Sequence.set_topic: what the returned topic holds *)

(** X17: [Sequence.set_topic] returns on every topic whose arrays have
    room (the keys of the sub-sequence mappings not being negative), and
    the topic returned holds the number of user regions and, in slot [i]
    of [userRegionIds], the i-th field Id of [sky_user_regions] as
    configured: in the configured order and with its duplicates, not in
    the sorted order [proposal_fields] returns. *)
Theorem Sequence_set_topic_user_regions (self : Sequence.t) (topic : obj) :
  keys_nonneg (Sequence.sub_sequences self) ->
  keys_nonneg (Sequence.master_sub_sequences self) ->
  room (sequence_required self) topic ->
  exists topic',
    Sequence.set_topic self topic = Ok topic'
    /\ topic' !! "numUserRegions"
       = Some (VInt (Z.of_nat (length (Sequence.sky_user_regions self))))
    /\ forall i x, Sequence.sky_user_regions self !! i = Some x ->
         slot "userRegionIds" i topic' = Some (VInt x).
Proof.
  intros Hsub Hmaster Hroom.
  destruct (Sequence_set_topic_ok self topic Hsub Hmaster Hroom) as (topic' & H).
  exists topic'. split; [exact H|].
  destruct (Sequence_set_topic_blocks self topic topic' H)
    as (t1 & t2 & t3 & t4 & E1 & E2 & E3 & E4 & ->).
  destruct (Sequence_set_user_regions_spec self _ t1 E1) as (Hnum & Hrows & _).
  pose proof (Sequence_after_user_regions self t1 t2 t3 t4) as Hlater.
  split.
  - rewrite (Hlater _ E2 E3 E4) by notin_compute. exact Hnum.
  - intros i x Hi. rewrite <- (Hrows i x Hi). apply slot_ext.
    apply (Hlater _ E2 E3 E4). notin_compute.
Qed.

(** X18: for a sequence proposal whose sub-sequences are stored under
    distinct keys, none negative, [Sequence.set_topic] returns on every
    topic whose arrays have room; the topic returned holds the number of
    sub-sequences, their names and their filter strings joined by commas
    in the iteration order of the mapping, the values of each sub-sequence
    in the slot that is its key in the eight arrays indexed by
    sub-sequence, and in [numSubSequenceFilterVisits] the visit counts of
    all the sub-sequences one after the other, in iteration order. *)
Theorem Sequence_set_topic_sub_sequences
    (self : Sequence.t) (d : dict Z SubSequence.t) (topic : obj) :
  Sequence.sub_sequences self = Some d ->
  d <> [] ->
  NoDup (map fst d) ->
  Forall (fun kv => 0 <= fst kv) d ->
  keys_nonneg (Sequence.master_sub_sequences self) ->
  room (sequence_required self) topic ->
  exists topic',
    Sequence.set_topic self topic = Ok topic'
    /\ topic' !! "numSubSequences" = Some (VInt (Z.of_nat (length d)))
    /\ topic' !! "subSequenceNames"
       = Some (VStr (join "," (map SubSequence.name (values d))))
    /\ topic' !! "subSequenceFilters"
       = Some (VStr (join "," (map SubSequence.get_filter_string (values d))))
    /\ (forall key ss, (key, ss) ∈ d ->
          forall a x, (a, x) ∈ sub_sequence_row ss -> slot a (Z.to_nat key) topic' = Some x)
    /\ (forall j v, concat (map SubSequence.visits_per_filter (values d)) !! j = Some v ->
          slot "numSubSequenceFilterVisits" j topic' = Some (VInt v)).
Proof.
  intros Hd Hne Hnd Hpos Hmaster Hroom.
  assert (Hsub : keys_nonneg (Sequence.sub_sequences self)) by (rewrite Hd; exact Hpos).
  destruct (Sequence_set_topic_ok self topic Hsub Hmaster Hroom) as (topic' & H).
  exists topic'. split; [exact H|].
  destruct (Sequence_set_topic_blocks self topic topic' H)
    as (t1 & t2 & t3 & t4 & E1 & E2 & E3 & E4 & ->).
  destruct (Sequence_set_sub_sequences_spec self d t1 t2 Hd Hne Hnd Hpos E2)
    as (Hnames & Hfilters & Hrows & Hflat).
  pose proof (Sequence_after_sub_sequences self t2 t3 t4) as Hlater.
  split; [|split; [|split; [|split]]].
  - rewrite (Hlater _ E3 E4) by notin_compute.
    rewrite (Sequence_set_sub_sequences_num self t1 t2 E2), Hd. reflexivity.
  - rewrite (Hlater _ E3 E4) by notin_compute. exact Hnames.
  - rewrite (Hlater _ E3 E4) by notin_compute. exact Hfilters.
  - intros key ss Hin a x Hax. rewrite <- (Hrows key ss Hin a x Hax). apply slot_ext.
    apply (Hlater _ E3 E4).
    apply (listed_notin sub_sequence_attrs); [vm_compute; reflexivity|].
    apply (row_names_sub _ _ _ Hax).
  - intros j v Hj. rewrite <- (Hflat j v Hj). apply slot_ext.
    apply (Hlater _ E3 E4). notin_compute.
Qed.

(** X19: for a sequence proposal whose master sub-sequences are stored
    under distinct keys, none negative, [Sequence.set_topic] returns on
    every topic whose arrays have room; the topic returned holds the
    number of master sub-sequences and the joined names, the values of
    each master sub-sequence in the slot that is its key, the values of
    the nested sub-sequences of all the masters at one running index, and
    their visit counts one after the other in the attribute
    [num_nested_sub_sequence_filter_visits]; the attribute
    [numNestedSubSequenceFilterVisits] is never assigned. *)
Theorem Sequence_set_topic_master_sub_sequences
    (self : Sequence.t) (d : dict Z MasterSubSequence.t) (topic : obj) :
  Sequence.master_sub_sequences self = Some d ->
  d <> [] ->
  NoDup (map fst d) ->
  Forall (fun kv => 0 <= fst kv) d ->
  keys_nonneg (Sequence.sub_sequences self) ->
  room (sequence_required self) topic ->
  exists topic',
    Sequence.set_topic self topic = Ok topic'
    /\ topic' !! "numMasterSubSequences" = Some (VInt (Z.of_nat (length d)))
    /\ topic' !! "masterSubSequenceNames"
       = Some (VStr (join "," (map MasterSubSequence.name (values d))))
    /\ topic' !! "nestedSubSequenceNames"
       = Some (VStr (join "," (map SubSequence.name (nested_of d))))
    /\ topic' !! "nestedSubSequenceFilters"
       = Some (VStr (join "," (map SubSequence.get_filter_string (nested_of d))))
    /\ (forall key m, (key, m) ∈ d ->
          forall a x, (a, x) ∈ master_row m -> slot a (Z.to_nat key) topic' = Some x)
    /\ (forall j ss, nested_of d !! j = Some ss ->
          forall a x, (a, x) ∈ nested_row ss -> slot a j topic' = Some x)
    /\ (forall j v,
          concat (map SubSequence.visits_per_filter (nested_of d)) !! j = Some v ->
          slot "num_nested_sub_sequence_filter_visits" j topic' = Some (VInt v))
    /\ topic' !! "numNestedSubSequenceFilterVisits"
       = topic !! "numNestedSubSequenceFilterVisits".
Proof.
  intros Hd Hne Hnd Hpos Hsub Hroom.
  assert (Hmaster : keys_nonneg (Sequence.master_sub_sequences self))
    by (rewrite Hd; exact Hpos).
  destruct (Sequence_set_topic_ok self topic Hsub Hmaster Hroom) as (topic' & H).
  exists topic'. split; [exact H|].
  destruct (Sequence_set_topic_blocks self topic topic' H)
    as (t1 & t2 & t3 & t4 & E1 & E2 & E3 & E4 & ->).
  destruct (Sequence_set_master_sub_sequences_spec self d t2 t3 Hd Hne Hnd Hpos E3)
    as (Hmn & Hnn & Hnf & Hrows & Hnests & Hflat).
  pose proof (Sequence_after_masters self t3 t4) as Hlater.
  split; [|split; [|split; [|split; [|split; [|split; [|split]]]]]].
  - rewrite (Hlater _ E4) by notin_compute.
    rewrite (Sequence_set_master_sub_sequences_num self t2 t3 E3), Hd. reflexivity.
  - rewrite (Hlater _ E4) by notin_compute. exact Hmn.
  - rewrite (Hlater _ E4) by notin_compute. exact Hnn.
  - rewrite (Hlater _ E4) by notin_compute. exact Hnf.
  - intros key m Hin a x Hax. rewrite <- (Hrows key m Hin a x Hax). apply slot_ext.
    apply (Hlater _ E4).
    apply (listed_notin master_arrays); [vm_compute; reflexivity|].
    apply (row_names_master _ _ _ Hax).
  - intros j ss Hj a x Hax. rewrite <- (Hnests j ss Hj a x Hax). apply slot_ext.
    apply (Hlater _ E4).
    apply (listed_notin nested_arrays); [vm_compute; reflexivity|].
    apply (row_names_nested _ _ _ Hax).
  - intros j v Hj. rewrite <- (Hflat j v Hj). apply slot_ext.
    apply (Hlater _ E4). notin_compute.
  - rewrite (Sequence_after_user_regions self t1 t2 t3 t4 _ E2 E3 E4) by notin_compute.
    destruct (Sequence_set_user_regions_spec self _ t1 E1) as (_ & _ & Hframe).
    rewrite Hframe by discriminate.
    unfold Sequence.set_sky. cbv zeta. unfold setattr.
    rewrite !lookup_insert_ne by discriminate. reflexivity.
Qed.

(** X20: for a sequence proposal with filters, [Sequence.set_topic]
    returns on every topic whose arrays have room; the topic returned
    holds the number of filters, the filter names joined by commas in the
    iteration order of the mapping, the limits and the number of exposures
    of the i-th filter in slot [i] of the filter arrays, and in
    [exposures] the exposure times of all the filters one after the
    other. *)
Theorem Sequence_set_topic_filters
    (self : Sequence.t) (fl : dict string BandFilter.t) (topic : obj) :
  Sequence.filters self = Some fl ->
  fl <> [] ->
  keys_nonneg (Sequence.sub_sequences self) ->
  keys_nonneg (Sequence.master_sub_sequences self) ->
  room (sequence_required self) topic ->
  exists topic',
    Sequence.set_topic self topic = Ok topic'
    /\ topic' !! "numFilters" = Some (VInt (Z.of_nat (length fl)))
    /\ topic' !! "filterNames" = Some (VStr (join "," (map BandFilter.name (values fl))))
    /\ (forall i v, values fl !! i = Some v ->
          forall a x, (a, x) ∈ sequence_filter_row v -> slot a i topic' = Some x)
    /\ (forall j x, concat (map BandFilter.exposures (values fl)) !! j = Some x ->
          slot "exposures" j topic' = Some (VFloat x)).
Proof.
  intros Hfl Hne Hsub Hmaster Hroom.
  destruct (Sequence_set_topic_ok self topic Hsub Hmaster Hroom) as (topic' & H).
  exists topic'. split; [exact H|].
  destruct (Sequence_set_topic_blocks self topic topic' H)
    as (t1 & t2 & t3 & t4 & E1 & E2 & E3 & E4 & ->).
  destruct (Sequence_set_filters_spec self fl t3 t4 Hfl Hne E4) as (Hnames & Hrows & Hflat).
  pose proof (Sequence_set_scheduling_frame self t4) as Hlater.
  split; [|split; [|split]].
  - rewrite Hlater by notin_compute.
    rewrite (Sequence_set_filters_num self t3 t4 E4), Hfl. reflexivity.
  - rewrite Hlater by notin_compute. exact Hnames.
  - intros i v Hi a x Hax. rewrite <- (Hrows i v Hi a x Hax). apply slot_ext.
    apply Hlater. unfold sequence_filter_row in Hax.
    repeat (apply elem_of_cons in Hax as [Hax|Hax]; [injection Hax as -> _; notin_compute|]).
    inversion Hax.
  - intros j x Hj. rewrite <- (Hflat j x Hj). apply slot_ext. apply Hlater. notin_compute.
Qed.

Lemma Sequence_set_sky_spec (self : Sequence.t) (topic : obj) (a : string) (v : value) :
  (a, v) ∈ take 8 (sequence_scalars self) -> Sequence.set_sky self topic !! a = Some v.
Proof.
  cbn [take sequence_scalars]. intro H. unfold Sequence.set_sky. cbv zeta. unfold setattr.
  repeat (apply elem_of_cons in H as [H|H];
          [injection H as -> ->;
           repeat (rewrite lookup_insert_ne by discriminate); apply lookup_insert_eq|]).
  inversion H.
Qed.

Lemma Sequence_set_scheduling_spec (self : Sequence.t) (topic : obj) (a : string) (v : value) :
  (a, v) ∈ drop 12 (sequence_scalars self) -> Sequence.set_scheduling self topic !! a = Some v.
Proof.
  cbn [drop sequence_scalars]. intro H. unfold Sequence.set_scheduling. cbv zeta.
  unfold setattr.
  repeat (apply elem_of_cons in H as [H|H];
          [injection H as -> ->;
           repeat (rewrite lookup_insert_ne by discriminate); apply lookup_insert_eq|]).
  inversion H.
Qed.

(** The scalars of a returned topic. *)
Lemma Sequence_set_topic_scalars_spec (self : Sequence.t) (topic topic' : obj)
    (a : string) (v : value) :
  Sequence.set_topic self topic = Ok topic' ->
  (a, v) ∈ sequence_scalars self -> topic' !! a = Some v.
Proof.
  intros H Hin.
  destruct (Sequence_set_topic_blocks self topic topic' H)
    as (t1 & t2 & t3 & t4 & E1 & E2 & E3 & E4 & ->).
  rewrite <- (take_drop 8 (sequence_scalars self)) in Hin.
  apply elem_of_app in Hin as [Hsky|Hin].
  - assert (Hname : a ∈ ["name"; "twilightBoundary"; "deltaLst"; "decWindow"; "maxAirmass";
                         "maxCloud"; "minDistanceMoon"; "excludePlanets"]).
    { cbn [take sequence_scalars] in Hsky.
      repeat (apply elem_of_cons in Hsky as [Hsky|Hsky]; [injection Hsky as -> _; in_list|]).
      inversion Hsky. }
    assert (Hall : Forall (fun a => (a <> "userRegionIds") /\ (a <> "numUserRegions")
                             /\ a ∉ (sub_sequence_attrs ++ master_attrs
                                     ++ sequence_filter_attrs ++ sequence_scheduling_attrs))
                     ["name"; "twilightBoundary"; "deltaLst"; "decWindow"; "maxAirmass";
                      "maxCloud"; "minDistanceMoon"; "excludePlanets"]).
    { refine (bool_decide_unpack _ _). vm_compute. exact I. }
    rewrite Forall_forall in Hall. destruct (Hall a Hname) as (Hr1 & Hr2 & Hlater).
    rewrite (Sequence_after_user_regions self t1 t2 t3 t4 a E2 E3 E4 Hlater).
    destruct (Sequence_set_user_regions_spec self _ t1 E1) as (_ & _ & Hframe).
    rewrite (Hframe a Hr1 Hr2). apply Sequence_set_sky_spec. exact Hsky.
  - rewrite <- (take_drop 4 (drop 8 (sequence_scalars self))) in Hin.
    apply elem_of_app in Hin as [Hmid|Hsched].
    + cbn [take drop sequence_scalars] in Hmid.
      repeat (apply elem_of_cons in Hmid as [Hmid|Hmid]; [injection Hmid as -> ->|]);
        [| | | |inversion Hmid].
      * rewrite (Sequence_after_user_regions self t1 t2 t3 t4 _ E2 E3 E4) by notin_compute.
        apply (Sequence_set_user_regions_spec self _ t1 E1).
      * rewrite (Sequence_after_sub_sequences self t2 t3 t4 _ E3 E4) by notin_compute.
        apply (Sequence_set_sub_sequences_num self _ _ E2).
      * rewrite (Sequence_after_masters self t3 t4 _ E4) by notin_compute.
        apply (Sequence_set_master_sub_sequences_num self _ _ E3).
      * rewrite Sequence_set_scheduling_frame by notin_compute.
        apply (Sequence_set_filters_num self _ _ E4).
    + rewrite drop_drop in Hsched. apply Sequence_set_scheduling_spec. exact Hsched.
Qed.

(** X21: the topic [Sequence.set_topic] returns holds every scalar of the
    proposal: the name, or the text "None" when the proposal has no name,
    the sky scalars, the four counts and the scheduling scalars; none is
    overwritten by a later block.  The call returns on every topic whose
    arrays have room, the keys of the sub-sequence mappings not being
    negative. *)
Theorem Sequence_set_topic_scalars (self : Sequence.t) (topic : obj) :
  (forall topic', Sequence.set_topic self topic = Ok topic' ->
     forall a v, (a, v) ∈ sequence_scalars self -> topic' !! a = Some v)
  /\ (keys_nonneg (Sequence.sub_sequences self) ->
      keys_nonneg (Sequence.master_sub_sequences self) ->
      room (sequence_required self) topic ->
      exists topic', Sequence.set_topic self topic = Ok topic').
Proof.
  split.
  - intros topic' H a v Hin.
    apply (Sequence_set_topic_scalars_spec self topic topic' a v H Hin).
  - apply Sequence_set_topic_ok.
Qed.

(** X22: a sequence proposal left at its defaults (no user region, empty
    sub-sequence mappings) and without filters has no field, and
    [Sequence.set_topic] encodes it onto any topic, even one without
    arrays: the four counts are 0 and every attribute that is not one of
    the scalars of the proposal is left as the topic passed in held it. *)
Theorem Sequence_setDefaults_encodes_onto_any_topic (self : Sequence.t) (topic : obj) :
  unset (Sequence.filters self) ->
  Sequence.proposal_fields (Sequence_setDefaults self) = []
  /\ exists topic',
       Sequence.set_topic (Sequence_setDefaults self) topic = Ok topic'
       /\ topic' !! "numUserRegions" = Some (VInt 0)
       /\ topic' !! "numSubSequences" = Some (VInt 0)
       /\ topic' !! "numMasterSubSequences" = Some (VInt 0)
       /\ topic' !! "numFilters" = Some (VInt 0)
       /\ forall a, a ∉ map fst (sequence_scalars self) -> topic' !! a = topic !! a.
Proof.
  intro Hun. split; [reflexivity|].
  assert (Hok : exists topic', Sequence.set_topic (Sequence_setDefaults self) topic
                               = Ok topic').
  { unfold Sequence.set_topic, Sequence.set_user_regions, Sequence.set_sub_sequences,
      Sequence.set_master_sub_sequences, Sequence.set_filters.
    cbn [Sequence_setDefaults Sequence.sky_user_regions Sequence.sub_sequences
         Sequence.master_sub_sequences Sequence.filters enumerate enumerate_from for_each
         Py.bind].
    destruct Hun as [-> | ->]; cbn [Py.bind]; eauto. }
  destruct Hok as (topic' & H). exists topic'. split; [exact H|].
  pose proof (Sequence_set_topic_scalars_spec (Sequence_setDefaults self) topic topic') as Hs.
  split; [apply (Hs _ _ H); unfold sequence_scalars; in_list|].
  split; [apply (Hs _ _ H); unfold sequence_scalars; in_list|].
  split; [apply (Hs _ _ H); unfold sequence_scalars; in_list|].
  split.
  - rewrite (Hs "numFilters" _ H ltac:(unfold sequence_scalars; in_list)).
    cbn [Sequence_setDefaults Sequence.filters]. destruct Hun as [-> | ->]; reflexivity.
  - intros a Ha. cbn [map fst sequence_scalars] in Ha.
    destruct (Sequence_set_topic_blocks _ topic topic' H)
      as (t1 & t2 & t3 & t4 & E1 & E2 & E3 & E4 & ->).
    unfold Sequence.set_user_regions in E1. unfold Sequence.set_sub_sequences in E2.
    unfold Sequence.set_master_sub_sequences in E3. unfold Sequence.set_filters in E4.
    cbn [Sequence_setDefaults Sequence.sky_user_regions Sequence.sub_sequences
         Sequence.master_sub_sequences Sequence.filters enumerate enumerate_from for_each]
      in E1, E2, E3, E4.
    injection E1 as <-. injection E2 as <-. injection E3 as <-.
    assert (E4' : t4 = setattr "numFilters" (VInt 0)
                         (setattr "numMasterSubSequences" (VInt (Z.of_nat 0))
                            (setattr "numSubSequences" (VInt (Z.of_nat 0))
                               (setattr "numUserRegions" (VInt (Z.of_nat 0))
                                  (Sequence.set_sky (Sequence_setDefaults self) topic))))).
    { destruct Hun as [Hf|Hf]; rewrite Hf in E4; injection E4 as <-; reflexivity. }
    subst t4. unfold Sequence.set_scheduling, Sequence.set_sky. cbv zeta.
    frame_back Ha. reflexivity.
Qed.

(** ** Sequence.set_topic on the sample proposals *)

Lemma Survey_sequence_room :
  room (sequence_required Survey.sequence) Sample.sequencePropConfig.
Proof.
  unfold room. vm_compute sequence_required.
  repeat (constructor; [eexists; split; [vm_compute; reflexivity|cbn; lia]|]).
  constructor.
Defined.

Lemma Survey_sequence_sub_keys :
  Forall (fun kv : Z * SubSequence.t => 0 <= fst kv)
         [(2, Sample.two_filters); (0, Sample.three_filters)].
Proof. repeat (constructor; [cbn; lia|]). constructor. Defined.

Lemma Survey_sequence_master_keys :
  Forall (fun kv : Z * MasterSubSequence.t => 0 <= fst kv) [(1, Sample.master)].
Proof. repeat (constructor; [cbn; lia|]). constructor. Defined.

(** The user regions of [Survey.sequence] are 290, 744 and 290 again. *)
Lemma Sequence_set_topic_user_regions_witness :
  exists topic',
    Sequence.set_topic Survey.sequence Sample.sequencePropConfig = Ok topic'
    /\ topic' !! "numUserRegions" = Some (VInt 3)
    /\ slot "userRegionIds" 1 topic' = Some (VInt 744)
    /\ slot "userRegionIds" 2 topic' = Some (VInt 290).
Proof.
  destruct (Sequence_set_topic_user_regions Survey.sequence Sample.sequencePropConfig
              Survey_sequence_sub_keys Survey_sequence_master_keys Survey_sequence_room)
    as (topic' & H & Hn & Hrows).
  exists topic'. split; [exact H|]. split; [exact Hn|].
  split; [exact (Hrows 1%nat _ eq_refl)|exact (Hrows 2%nat _ eq_refl)].
Defined.

(** The sub-sequence stored under the key 2 comes first: its name and its
    visit counts come first, its row is in slot 2. *)
Lemma Sequence_set_topic_sub_sequences_witness :
  exists topic',
    Sequence.set_topic Survey.sequence Sample.sequencePropConfig = Ok topic'
    /\ topic' !! "subSequenceNames" = Some (VStr "pair,triple")
    /\ slot "numSubSequenceFilters" 2 topic' = Some (VInt 2)
    /\ slot "numSubSequenceFilters" 0 topic' = Some (VInt 3)
    /\ slot "numSubSequenceFilterVisits" 0 topic' = Some (VInt 10)
    /\ slot "numSubSequenceFilterVisits" 2 topic' = Some (VInt 1).
Proof.
  destruct (Sequence_set_topic_sub_sequences Survey.sequence _ Sample.sequencePropConfig
              eq_refl ltac:(discriminate)
              ltac:(refine (bool_decide_unpack _ _); vm_compute; exact I)
              Survey_sequence_sub_keys Survey_sequence_master_keys Survey_sequence_room)
    as (topic' & H & _ & Hnames & _ & Hrows & Hflat).
  exists topic'. split; [exact H|]. split; [exact Hnames|].
  split; [|split; [|split]].
  - apply (Hrows 2 Sample.two_filters); [in_list|unfold sub_sequence_row; in_list].
  - apply (Hrows 0 Sample.three_filters); [in_list|unfold sub_sequence_row; in_list].
  - exact (Hflat 0%nat _ eq_refl).
  - exact (Hflat 2%nat _ eq_refl).
Defined.

(** The master sub-sequence of [Survey.sequence], stored under the key 1,
    has the nested sub-sequences nested0 and nested1. *)
Lemma Sequence_set_topic_master_sub_sequences_witness :
  exists topic',
    Sequence.set_topic Survey.sequence Sample.sequencePropConfig = Ok topic'
    /\ topic' !! "nestedSubSequenceNames" = Some (VStr "nested0,nested1")
    /\ slot "numNestedSubSequences" 1 topic' = Some (VInt 2)
    /\ slot "numNestedSubSequenceFilters" 1 topic' = Some (VInt 2)
    /\ slot "num_nested_sub_sequence_filter_visits" 2 topic' = Some (VInt 6)
    /\ topic' !! "numNestedSubSequenceFilterVisits" = None.
Proof.
  destruct (Sequence_set_topic_master_sub_sequences Survey.sequence _
              Sample.sequencePropConfig eq_refl ltac:(discriminate)
              ltac:(refine (bool_decide_unpack _ _); vm_compute; exact I)
              Survey_sequence_master_keys Survey_sequence_sub_keys Survey_sequence_room)
    as (topic' & H & _ & _ & Hnames & _ & Hrows & Hnests & Hflat & Hnever).
  exists topic'. split; [exact H|]. split; [exact Hnames|].
  split; [|split; [|split]].
  - apply (Hrows 1 Sample.master); [in_list|unfold master_row; in_list].
  - apply (Hnests 1%nat _ eq_refl). unfold nested_row. in_list.
  - exact (Hflat 2%nat _ eq_refl).
  - rewrite Hnever. vm_compute. reflexivity.
Defined.

(** The one filter of [Survey.sequence] has two exposures of 15 s. *)
Lemma Sequence_set_topic_filters_witness :
  exists topic',
    Sequence.set_topic Survey.sequence Sample.sequencePropConfig = Ok topic'
    /\ topic' !! "numFilters" = Some (VInt 1)
    /\ topic' !! "filterNames" = Some (VStr "r")
    /\ slot "numFilterExposures" 0 topic' = Some (VInt 2)
    /\ slot "exposures" 1 topic' = Some (VFloat 15%Q).
Proof.
  destruct (Sequence_set_topic_filters Survey.sequence _ Sample.sequencePropConfig
              eq_refl ltac:(discriminate)
              Survey_sequence_sub_keys Survey_sequence_master_keys Survey_sequence_room)
    as (topic' & H & Hn & Hnames & Hrows & Hflat).
  exists topic'. split; [exact H|]. split; [exact Hn|]. split; [exact Hnames|]. split.
  - apply (Hrows 0%nat _ eq_refl). unfold sequence_filter_row. in_list.
  - exact (Hflat 1%nat _ eq_refl).
Defined.

Lemma Sequence_set_topic_scalars_witness :
  exists topic',
    Sequence.set_topic Survey.sequence Sample.sequencePropConfig = Ok topic'
    /\ topic' !! "name" = Some (VStr "DeepDrillingCosmology1")
    /\ topic' !! "numMasterSubSequences" = Some (VInt 1)
    /\ topic' !! "maxVisitsGoal" = Some (VInt 250000).
Proof.
  destruct (Sequence_set_topic_scalars Survey.sequence Sample.sequencePropConfig)
    as (Hspec & Hok).
  destruct (Hok Survey_sequence_sub_keys Survey_sequence_master_keys Survey_sequence_room)
    as (topic' & H).
  exists topic'. split; [exact H|]. split; [|split].
  - apply (Hspec topic' H). unfold sequence_scalars. in_list.
  - apply (Hspec topic' H). unfold sequence_scalars. in_list.
  - apply (Hspec topic' H). unfold sequence_scalars. in_list.
Defined.

(** A proposal at its defaults, on a topic that has no array and holds
    stale sub-sequence names. *)
Lemma Sequence_setDefaults_encodes_onto_any_topic_witness :
  exists topic',
    Sequence.set_topic (Sequence_setDefaults Survey.fresh)
                       {["subSequenceNames" := VStr "pair,triple"]} = Ok topic'
    /\ topic' !! "numSubSequences" = Some (VInt 0)
    /\ topic' !! "subSequenceNames" = Some (VStr "pair,triple").
Proof.
  destruct (Sequence_setDefaults_encodes_onto_any_topic Survey.fresh
              {["subSequenceNames" := VStr "pair,triple"]})
    as (_ & topic' & H & _ & Hn & _ & _ & Hkeep).
  - left. reflexivity.
  - exists topic'. split; [exact H|]. split; [exact Hn|].
    rewrite Hkeep by notin_compute. reflexivity.
Defined.

(** ** conf_comm.py: the survey topology and initialize *)

(** X23: when [_configure_proposals] returns with DDS communication
    enabled, the accepted sample has [numGeneralProps > 0] or
    [numSequenceProps > 0]; the proposal count is
    [numGeneralProps + numSeqProps] of that sample, the survey topology
    holds under "general" and "sequence" the two name strings split at
    commas (an empty string giving the list that holds one empty name),
    and the configuration is the one the step found. *)
Theorem configure_proposals_counts_and_names
    (sal : ConfigurationCommunicator.SalManager) (fuel : nat)
    (self self' : ConfigurationCommunicator.t)
    (log log' : list ConfigurationCommunicator.event)
    (c : scheduler_surveyTopologyC.t) :
  ConfigurationCommunicator.no_dds_comm self = false ->
  ConfigurationCommunicator._configure_proposals sal fuel (self, log)
  = Some ((self', log'), None) ->
  ConfigurationCommunicator.conf self' ConfigurationCommunicator.surveyTopology = Some c ->
  (0 < scheduler_surveyTopologyC.numGeneralProps c
   \/ 0 < scheduler_surveyTopologyC.numSequenceProps c)
  /\ ConfigurationCommunicator.num_proposals self'
     = Some (scheduler_surveyTopologyC.numGeneralProps c
             + scheduler_surveyTopologyC.numSeqProps c)
  /\ ConfigurationCommunicator.survey_topology self' !! "general"
     = Some (VList (map VStr (split "," (scheduler_surveyTopologyC.generalPropos c))))
  /\ ConfigurationCommunicator.survey_topology self' !! "sequence"
     = Some (VList (map VStr (split "," (scheduler_surveyTopologyC.sequencePropos c))))
  /\ ConfigurationCommunicator.config self' = ConfigurationCommunicator.config self.
Proof.
  intros Hdds H Hc.
  destruct (configure_topic_dds sal ConfigurationCommunicator.surveyTopology fuel self log
              _ _ Hdds H) as (k & _ & _ & [(_ & Ha & Hst)|(Hr & _)]); [|discriminate].
  cbn [fst] in Hst.
  set (c0 := ConfigurationCommunicator.buffer
               (ConfigurationCommunicator.getNextSample sal
                  ConfigurationCommunicator.surveyTopology k)) in *.
  assert (c = c0) as ->.
  { rewrite Hst in Hc. cbn in Hc. injection Hc as <-. reflexivity. }
  destruct (accepted_valid sal _ k Ha) as [_ Hv]. fold c0 in Hv. cbn in Hv.
  split.
  - apply orb_true_iff in Hv as [Hv|Hv]; apply Z.ltb_lt in Hv; auto.
  - rewrite Hst. cbn. split; [reflexivity|]. split; [|split; [|reflexivity]].
    + rewrite lookup_insert_ne by discriminate. apply lookup_insert_eq.
    + apply lookup_insert_eq.
Qed.

(** On [Ready.sal] the topology sample announces no general proposal, one
    sequence proposal under [numSequenceProps] and none under
    [numSeqProps]. *)
Lemma configure_proposals_counts_and_names_witness :
  ConfigurationCommunicator.num_proposals
    (fst (final_state (ConfigurationCommunicator._configure_proposals Ready.sal 1
                         (attached false, []))))
  = Some 0
  /\ ConfigurationCommunicator.survey_topology
       (fst (final_state (ConfigurationCommunicator._configure_proposals Ready.sal 1
                            (attached false, []))))
       !! "general"
     = Some (VList [VStr ""]).
Proof.
  pose (o := ConfigurationCommunicator._configure_proposals Ready.sal 1
               (attached false, [])).
  destruct (configure_proposals_counts_and_names Ready.sal 1
              (attached false) (fst (final_state o))
              [] (snd (final_state o)) Ready.topology eq_refl)
    as (_ & Hn & Hg & _).
  - rewrite <- surjective_pairing. apply outcome_eq. vm_compute. reflexivity.
  - vm_compute. reflexivity.
  - split; [exact Hn|exact Hg].
Defined.

(** X24: [initialize] stores into the configuration it is given: without
    DDS communication it returns with that configuration untouched; with
    DDS communication, when it returns, every entry no step assigns is the
    one of the given configuration, whatever configuration the
    communicator held before, and the entries of each topic are those its
    step assigns from the sample it accepted. *)
Theorem initialize_stores_into_the_given_configuration
    (sal : ConfigurationCommunicator.SalManager) (config0 : obj) (fuel : nat)
    (self : ConfigurationCommunicator.t) (log : list ConfigurationCommunicator.event) :
  (ConfigurationCommunicator.no_dds_comm self = true ->
   exists self',
     ConfigurationCommunicator.initialize sal config0 fuel (self, log)
     = Some ((self', log), None)
     /\ ConfigurationCommunicator.config self' = config0)
  /\ (ConfigurationCommunicator.no_dds_comm self = false ->
      forall self' log',
        ConfigurationCommunicator.initialize sal config0 fuel (self, log)
        = Some ((self', log'), None) ->
        (forall key, (forall T, key ∉ written T) ->
           ConfigurationCommunicator.config self' !! key = config0 !! key)
        /\ forall T, exists c,
             ConfigurationCommunicator.conf self' T = Some c
             /\ ConfigurationCommunicator.valid T c = true
             /\ forall key, key ∈ written T ->
                  ConfigurationCommunicator.config self' !! key
                  = ConfigurationCommunicator.config
                      (ConfigurationCommunicator.store T c self) !! key).
Proof.
  split.
  - intro Hdds. unfold ConfigurationCommunicator.initialize.
    rewrite configure_run_steps.
    match goal with
    | |- context [run_steps sal fuel order (?s, log)] =>
        destruct (run_steps_no_dds sal fuel order s log Hdds)
          as (self' & Hrun & _ & _ & Hc & _)
    end.
    exists self'. split; [exact Hrun|exact Hc].
  - intros Hdds self' log' H. unfold ConfigurationCommunicator.initialize in H.
    rewrite configure_run_steps in H.
    match type of H with
    | run_steps sal fuel order (?s, log) = _ =>
        destruct (run_steps_returned sal fuel order order_NoDup s self' log log' Hdds H)
          as (_ & _ & Hin & _ & Hframe & _)
    end.
    split.
    + intros key Hkey. rewrite Hframe by (intros T _; apply Hkey). reflexivity.
    + intro T. destruct (Hin T (in_order T)) as (k & Ha & _ & Hc & Hkeys).
      exists (ConfigurationCommunicator.buffer
                (ConfigurationCommunicator.getNextSample sal T k)).
      split; [exact Hc|]. split; [exact (proj2 (accepted_valid sal T k Ha))|].
      intros key Hkey. rewrite (Hkeys key Hkey). apply store_value. exact Hkey.
Qed.

(** [initialize] without DDS communication, on a configuration holding
    one entry. *)
Lemma initialize_stores_into_the_given_configuration_witness :
  exists self',
    ConfigurationCommunicator.initialize Sample.sal {["survey.duration" := VFloat 1%Q]} 0
      (attached true, []) = Some ((self', []), None)
    /\ ConfigurationCommunicator.config self' = {["survey.duration" := VFloat 1%Q]}.
Proof.
  exact (proj1 (initialize_stores_into_the_given_configuration Sample.sal
                  {["survey.duration" := VFloat 1%Q]} 0
                  (attached true) []) eq_refl).
Defined.

(** ** The encoders keep the capacity of every array *)

Lemma capacity_ext (a : string) (o o' : obj) :
  o' !! a = o !! a -> capacity a o' = capacity a o.
Proof. unfold capacity. intros ->. reflexivity. Qed.

Lemma capacity_setitem (a b : string) (i : nat) (v : value) (o o' : obj) :
  setitem b i v o = Ok o' -> capacity a o' = capacity a o.
Proof.
  intro H. destruct (setitem_inv _ _ _ _ _ H) as (l & Hl & _ & ->).
  unfold capacity. destruct (decide (a = b)) as [->|Hne].
  - rewrite lookup_insert_eq, Hl, length_insert. reflexivity.
  - rewrite lookup_insert_ne by congruence. reflexivity.
Qed.

Lemma capacity_setitem_int (a b : string) (i : Z) (v : value) (o o' : obj) :
  setitem_int b i v o = Ok o' -> capacity a o' = capacity a o.
Proof.
  unfold setitem_int. destruct (o !! b) as [[| | | | |l]|] eqn:Hl; try discriminate.
  intro H.
  assert (Hins : forall n, capacity a (<[b := VList (<[n := v]> l)]> o) = capacity a o).
  { intro n. unfold capacity. destruct (decide (a = b)) as [->|Hne].
    - rewrite lookup_insert_eq, Hl, length_insert. reflexivity.
    - rewrite lookup_insert_ne by congruence. reflexivity. }
  destruct (decide (0 <= i < Z.of_nat (length l)));
    [|destruct (decide (- Z.of_nat (length l) <= i < 0)); [|discriminate]];
    injection H as <-; apply Hins.
Qed.

Lemma capacity_setattr (a b : string) (v : value) (o : obj) :
  a <> b -> capacity a (setattr b v o) = capacity a o.
Proof. intro H. apply capacity_ext. apply lookup_insert_ne. congruence. Qed.

Lemma for_each_capacity {A S : Type} (proj : S -> obj) (body : A -> S -> result S)
    (l : list A) (s s' : S) (a : string) :
  (forall x s1 s2, body x s1 = Ok s2 -> capacity a (proj s2) = capacity a (proj s1)) ->
  for_each body l s = Ok s' -> capacity a (proj s') = capacity a (proj s).
Proof.
  intros Hbody H.
  apply (for_each_inv (fun t => capacity a (proj t) = capacity a (proj s)) body l s s');
    [|reflexivity|exact H].
  intros x s1 s2 _ Hs Hb. rewrite (Hbody x s1 s2 Hb). exact Hs.
Qed.

(** Walk a chain of assignments back to the object it started from. *)
Ltac cap_back Ha :=
  repeat match goal with
    | E : setitem ?b _ _ ?o = Ok ?o' |- capacity ?a ?o' = _ =>
        rewrite (capacity_setitem a b _ _ o o' E)
    | E : setitem_int ?b _ _ ?o = Ok ?o' |- capacity ?a ?o' = _ =>
        rewrite (capacity_setitem_int a b _ _ o o' E)
    | |- capacity ?a (setattr ?b _ ?o) = _ =>
        rewrite (capacity_setattr a b _ o) by neq_from Ha
    end.

Lemma selection_loop_capacity (mins maxs bounds : string) (l : list (nat * Selection.t))
    (st st' : list string * obj) (a : string) :
  for_each (General.selection_body mins maxs bounds) l st = Ok st' ->
  capacity a (snd st') = capacity a (snd st).
Proof.
  apply for_each_capacity. intros [i v] [types t] s2 Hb.
  unfold General.selection_body in Hb. binds Hb. injection Hb as <-. cbn [snd].
  cap_back I. reflexivity.
Qed.

Lemma General_exposure_loop_capacity (l : list float) (s s' : nat * obj) (a : string) :
  for_each General.exposure_body l s = Ok s' -> capacity a (snd s') = capacity a (snd s).
Proof.
  apply for_each_capacity. intros x [k t] s2 Hb.
  unfold General.exposure_body in Hb. bind_inv Hb. injection Hb as <-. cbn [snd].
  cap_back I. reflexivity.
Qed.

Lemma General_set_region_selections_capacity (self : General.t) (t t' : obj) (a : string) :
  a ∉ ["numRegionSelections"; "regionTypes"; "regionCombiners"] ->
  General.set_region_selections self t = Ok t' -> capacity a t' = capacity a t.
Proof.
  intros Ha H. unfold General.set_region_selections in H. cbv zeta in H.
  apply bind_Ok in H as (t0 & E & H). injection H as <-. cap_back Ha.
  destruct (SkyRegion.selections (General.sky_region self)) as [[|kv d]|].
  - injection E as <-. cap_back Ha. reflexivity.
  - apply bind_Ok in E as ([types t1] & E0 & E). injection E as <-. cap_back Ha.
    pose proof (selection_loop_capacity _ _ _ _ _ _ a E0) as F. cbn [snd] in F.
    rewrite F. cap_back Ha. reflexivity.
  - injection E as <-. cap_back Ha. reflexivity.
Qed.

Lemma General_set_time_ranges_capacity (self : General.t) (t t' : obj) (a : string) :
  a <> "numTimeRanges" ->
  General.set_time_ranges self t = Ok t' -> capacity a t' = capacity a t.
Proof.
  intros Ha H. unfold General.set_time_ranges in H. cbv zeta in H.
  assert (Hloop : forall l o o', for_each General.time_range_body l o = Ok o' ->
                                 capacity a o' = capacity a o).
  { intros l o o'. apply (for_each_capacity id). intros [i v] s1 s2 Hb.
    unfold General.time_range_body in Hb. bind_inv Hb. unfold id. cap_back I. reflexivity. }
  destruct (SkyRegion.time_ranges (General.sky_region self)) as [[|kv d]|].
  - injection H as <-. apply capacity_setattr. exact Ha.
  - rewrite (Hloop _ _ _ H). apply capacity_setattr. exact Ha.
  - injection H as <-. apply capacity_setattr. exact Ha.
Qed.

Lemma General_set_selection_mappings_capacity (self : General.t) (t t' : obj) (a : string) :
  General.set_selection_mappings self t = Ok t' -> capacity a t' = capacity a t.
Proof.
  intro H. unfold General.set_selection_mappings in H.
  assert (Hinner : forall l (s s' : nat * obj),
             for_each General.selection_index_body l s = Ok s' ->
             capacity a (snd s') = capacity a (snd s)).
  { intros l s s'. apply for_each_capacity. intros index [k o] s2 Hb.
    unfold General.selection_index_body in Hb. bind_inv Hb. injection Hb as <-.
    cbn [snd]. cap_back I. reflexivity. }
  assert (Hloop : forall l (s s' : nat * obj),
             for_each General.selection_mapping_body l s = Ok s' ->
             capacity a (snd s') = capacity a (snd s)).
  { intros l s s'. apply for_each_capacity. intros [i v] [k o] s2 Hb.
    unfold General.selection_mapping_body in Hb. bind_inv Hb.
    rewrite (Hinner _ _ _ Hb). cbn [snd]. cap_back I. reflexivity. }
  destruct (SkyRegion.selection_mapping (General.sky_region self)) as [[|kv d]|].
  - injection H as <-. reflexivity.
  - apply bind_Ok in H as (st & E & H). injection H as <-. apply (Hloop _ _ _ E).
  - injection H as <-. reflexivity.
Qed.

Lemma General_set_exclusion_selections_capacity (self : General.t) (t t' : obj)
    (a : string) :
  a ∉ ["numExclusionSelections"; "exclusionTypes"] ->
  General.set_exclusion_selections self t = Ok t' -> capacity a t' = capacity a t.
Proof.
  intros Ha H. unfold General.set_exclusion_selections in H. cbv zeta in H.
  destruct (SkyExclusion.selections (General.sky_exclusion self)) as [[|kv d]|].
  - injection H as <-. cap_back Ha. reflexivity.
  - apply bind_Ok in H as ([types t1] & E & H). injection H as <-. cap_back Ha.
    pose proof (selection_loop_capacity _ _ _ _ _ _ a E) as F. cbn [snd] in F.
    rewrite F. cap_back Ha. reflexivity.
  - injection H as <-. cap_back Ha. reflexivity.
Qed.

Lemma General_set_filters_capacity (self : General.t) (t t' : obj) (a : string) :
  a ∉ ["numFilters"; "filterNames"] ->
  General.set_filters self t = Ok t' -> capacity a t' = capacity a t.
Proof.
  intros Ha H. unfold General.set_filters in H. cbv zeta in H.
  assert (Hloop : forall l (s s' : list string * nat * obj),
             for_each General.filter_body l s = Ok s' ->
             capacity a (snd s') = capacity a (snd s)).
  { intros l s s'. apply for_each_capacity. intros [i v] [[names e] o] s2 Hb.
    unfold General.filter_body in Hb. binds Hb. injection Hb as <-. cbn [snd].
    match goal with
    | Eloop : for_each General.exposure_body _ _ = Ok _ |- _ =>
        rewrite (General_exposure_loop_capacity _ _ _ a Eloop)
    end.
    cbn [snd]. cap_back I. reflexivity. }
  destruct (General.filters self) as [[|kv d]|].
  - injection H as <-. cap_back Ha. reflexivity.
  - apply bind_Ok in H as ([[names e] t1] & E & H). injection H as <-. cap_back Ha.
    pose proof (Hloop _ _ _ E) as F. cbn [snd] in F.
    rewrite F. cap_back Ha. reflexivity.
  - injection H as <-. cap_back Ha. reflexivity.
Qed.

(** The capacities after each block of [General.set_topic]. *)
Lemma General_set_topic_capacities (self : General.t) (topic t1 t2 t3 t4 t5 : obj)
    (a : string) :
  General.set_region_selections self (General.set_sky self topic) = Ok t1 ->
  General.set_time_ranges self t1 = Ok t2 ->
  General.set_selection_mappings self t2 = Ok t3 ->
  General.set_exclusion_selections self t3 = Ok t4 ->
  General.set_filters self t4 = Ok t5 ->
  a ∉ map fst (general_scalars self) ++ general_strings ->
  capacity a t1 = capacity a topic
  /\ capacity a t2 = capacity a topic
  /\ capacity a t3 = capacity a topic
  /\ capacity a t4 = capacity a topic
  /\ capacity a t5 = capacity a topic
  /\ capacity a (General.set_scheduling self t5) = capacity a topic.
Proof.
  intros E1 E2 E3 E4 E5 Ha. cbn [map fst general_scalars general_strings app] in Ha.
  assert (C0 : capacity a (General.set_sky self topic) = capacity a topic).
  { unfold General.set_sky. cbv zeta. cap_back Ha. reflexivity. }
  assert (C1 : capacity a t1 = capacity a topic).
  { rewrite (General_set_region_selections_capacity self _ t1 a) by (sub_notin Ha || exact E1).
    exact C0. }
  assert (C2 : capacity a t2 = capacity a topic).
  { rewrite (General_set_time_ranges_capacity self t1 t2 a) by (neq_from Ha || exact E2).
    exact C1. }
  assert (C3 : capacity a t3 = capacity a topic).
  { rewrite (General_set_selection_mappings_capacity self t2 t3 a E3). exact C2. }
  assert (C4 : capacity a t4 = capacity a topic).
  { rewrite (General_set_exclusion_selections_capacity self t3 t4 a)
      by (sub_notin Ha || exact E4).
    exact C3. }
  assert (C5 : capacity a t5 = capacity a topic).
  { rewrite (General_set_filters_capacity self t4 t5 a) by (sub_notin Ha || exact E5).
    exact C4. }
  do 5 (split; [assumption|]).
  unfold General.set_scheduling. cbv zeta. cap_back Ha. exact C5.
Qed.

(** X25: [General.set_topic] keeps the capacity of every array: an
    attribute that is not one of the scalars and strings it assigns is a
    sequence in the topic returned exactly when it was one in the topic
    passed in, and with the same number of slots.  The call returns on
    every topic whose arrays have room. *)
Theorem General_set_topic_keeps_capacities (self : General.t) (topic : obj) :
  (forall topic', General.set_topic self topic = Ok topic' ->
     forall a, a ∉ map fst (general_scalars self) ++ general_strings ->
       capacity a topic' = capacity a topic)
  /\ (room (general_required self) topic ->
      exists topic', General.set_topic self topic = Ok topic').
Proof.
  split; [|apply General_set_topic_ok].
  intros topic' H a Ha.
  destruct (General_set_topic_blocks self topic topic' H)
    as (t1 & t2 & t3 & t4 & t5 & E1 & E2 & E3 & E4 & E5 & ->).
  apply (General_set_topic_capacities self topic t1 t2 t3 t4 t5 a E1 E2 E3 E4 E5 Ha).
Qed.

Lemma General_set_topic_keeps_capacities_witness :
  exists topic',
    General.set_topic Survey.general Sample.generalPropConfig = Ok topic'
    /\ capacity "numVisits" topic' = Some 10%nat
    /\ capacity "exposures" topic' = Some 10%nat.
Proof.
  destruct (General_set_topic_keeps_capacities Survey.general Sample.generalPropConfig)
    as (Hkeep & Hok).
  destruct (Hok Survey_general_room) as (topic' & H).
  exists topic'. split; [exact H|]. split.
  - rewrite (Hkeep topic' H) by notin_compute. vm_compute. reflexivity.
  - rewrite (Hkeep topic' H) by notin_compute. vm_compute. reflexivity.
Defined.

(** ** General.set_topic returns only on a topic that has room *)

Lemma fits_last (a : string) (n : nat) (t topic : obj) :
  capacity a t = capacity a topic ->
  (forall i, S i = n -> exists x, slot a i t = Some x) ->
  fits topic (a, n).
Proof.
  intros Hc Hlast. destruct n as [|i]; [left; reflexivity|]. right.
  destruct (Hlast i eq_refl) as (x & Hx). unfold slot in Hx. unfold capacity in Hc.
  destruct (t !! a) as [[| | | | |l]|] eqn:Hl; try discriminate.
  unfold has_slots. cbn [fst snd].
  destruct (topic !! a) as [[| | | | |l']|]; try discriminate.
  injection Hc as Hc. exists l'. split; [reflexivity|].
  apply lookup_lt_Some in Hx. lia.
Qed.

Lemma length_concat_map {A B : Type} (f : A -> list B) (l : list A) :
  length (concat (map f l)) = sum_list (map (fun x => length (f x)) l).
Proof.
  induction l as [|x l IH]; [reflexivity|].
  cbn [map concat]. rewrite length_app, IH. reflexivity.
Qed.

(** The last entry of a list that is not empty. *)
Lemma last_entry {A : Type} (l : list A) (i : nat) :
  S i = length l -> exists x, l !! i = Some x.
Proof. intro H. apply lookup_lt_is_Some_2. lia. Qed.

Lemma General_set_topic_fits (self : General.t) (topic topic' : obj) :
  General.set_topic self topic = Ok topic' ->
  Forall (fits topic) (general_required self).
Proof.
  intro H.
  destruct (General_set_topic_blocks self topic topic' H)
    as (t1 & t2 & t3 & t4 & t5 & E1 & E2 & E3 & E4 & E5 & ->).
  assert (Hcap : forall a, a ∈ map fst (general_required self) ->
            capacity a t1 = capacity a topic
            /\ capacity a t2 = capacity a topic
            /\ capacity a t3 = capacity a topic
            /\ capacity a t4 = capacity a topic
            /\ capacity a t5 = capacity a topic).
  { intros a Ha.
    destruct (General_set_topic_capacities self topic t1 t2 t3 t4 t5 a E1 E2 E3 E4 E5)
      as (C1 & C2 & C3 & C4 & C5 & _); [|auto].
    apply (listed_notin (map fst (general_required self)) _ a);
      [vm_compute; reflexivity|exact Ha]. }
  assert (Hregions : forall a,
            a ∈ ["regionMinimums"; "regionMaximums"; "regionBounds"] ->
            fits topic (a, match SkyRegion.selections (General.sky_region self) with
                           | Some d => length d
                           | None => 0%nat
                           end)).
  { intros a Ha. apply (fits_last a _ t1).
    - apply Hcap. cbn [map fst general_required].
      repeat (apply elem_of_cons in Ha as [->|Ha]; [in_list|]). inversion Ha.
    - intros i Hi.
      destruct (SkyRegion.selections (General.sky_region self)) as [d|] eqn:Hd;
        [|discriminate].
      rewrite <- (length_values d) in Hi. destruct (last_entry _ _ Hi) as (v & Hv).
      assert (Hne : d <> []) by (intros ->; discriminate).
      destruct (General_set_region_selections_spec self d _ t1 Hd Hne E1) as (_ & Hrows).
      destruct (Hrows i v Hv) as (H1 & H2 & H3).
      repeat (apply elem_of_cons in Ha as [->|Ha]; [eauto|]). inversion Ha. }
  assert (Hranges : forall a,
            a ∈ ["timeRangeStarts"; "timeRangeEnds"] ->
            fits topic (a, match SkyRegion.time_ranges (General.sky_region self) with
                           | Some d => length d
                           | None => 0%nat
                           end)).
  { intros a Ha. apply (fits_last a _ t2).
    - apply Hcap. cbn [map fst general_required].
      repeat (apply elem_of_cons in Ha as [->|Ha]; [in_list|]). inversion Ha.
    - intros i Hi.
      destruct (SkyRegion.time_ranges (General.sky_region self)) as [d|] eqn:Hd;
        [|discriminate].
      rewrite <- (length_values d) in Hi. destruct (last_entry _ _ Hi) as (v & Hv).
      assert (Hne : d <> []) by (intros ->; discriminate).
      destruct (General_set_time_ranges_spec self d t1 t2 Hd Hne E2 i v Hv) as (H1 & H2).
      repeat (apply elem_of_cons in Ha as [->|Ha]; [eauto|]). inversion Ha. }
  assert (Hexcl : forall a,
            a ∈ ["exclusionMinimums"; "exclusionMaximums"; "exclusionBounds"] ->
            fits topic (a, match SkyExclusion.selections (General.sky_exclusion self) with
                           | Some d => length d
                           | None => 0%nat
                           end)).
  { intros a Ha. apply (fits_last a _ t4).
    - apply Hcap. cbn [map fst general_required].
      repeat (apply elem_of_cons in Ha as [->|Ha]; [in_list|]). inversion Ha.
    - intros i Hi.
      destruct (SkyExclusion.selections (General.sky_exclusion self)) as [d|] eqn:Hd;
        [|discriminate].
      rewrite <- (length_values d) in Hi. destruct (last_entry _ _ Hi) as (v & Hv).
      assert (Hne : d <> []) by (intros ->; discriminate).
      destruct (General_set_exclusion_selections_spec self d t3 t4 Hd Hne E4)
        as (_ & _ & Hrows).
      destruct (Hrows i v Hv) as (H1 & H2 & H3).
      repeat (apply elem_of_cons in Ha as [->|Ha]; [eauto|]). inversion Ha. }
  assert (Hmap : fits topic
            ("numSelectionMappings",
             length match SkyRegion.selection_mapping (General.sky_region self) with
                    | Some d => values d
                    | None => []
                    end)
          /\ fits topic
               ("selectionMappings",
                sum_list (map (fun v => length (SelectionList.indexes v))
                            match SkyRegion.selection_mapping (General.sky_region self) with
                            | Some d => values d
                            | None => []
                            end))).
  { destruct (SkyRegion.selection_mapping (General.sky_region self)) as [m|] eqn:Hm;
      [|split; left; reflexivity].
    destruct m as [|kv m]; [split; left; reflexivity|].
    destruct (General_set_selection_mappings_spec self (kv :: m) t2 t3 Hm
                ltac:(discriminate) E3) as (Hrows & Hflat).
    split.
    - apply (fits_last _ _ t3); [apply Hcap; cbn [map fst general_required]; in_list|].
      intros i Hi. destruct (last_entry _ _ Hi) as (v & Hv). eauto.
    - apply (fits_last _ _ t3); [apply Hcap; cbn [map fst general_required]; in_list|].
      intros i Hi. rewrite <- length_concat_map in Hi.
      destruct (last_entry _ _ Hi) as (x & Hx). eauto. }
  assert (Hfilters : forall a,
            a ∈ ["numVisits"; "numGroupedVisits"; "maxGroupedVisits"; "brightLimit";
                 "darkLimit"; "maxSeeing"; "numFilterExposures"] ->
            fits topic (a, length match General.filters self with
                                  | Some d => values d
                                  | None => []
                                  end)).
  { intros a Ha. apply (fits_last a _ t5).
    - apply Hcap. cbn [map fst general_required].
      repeat (apply elem_of_cons in Ha as [->|Ha]; [in_list|]). inversion Ha.
    - intros i Hi.
      destruct (General.filters self) as [fl|] eqn:Hfl; [|discriminate].
      destruct (last_entry _ _ Hi) as (v & Hv).
      assert (Hne : fl <> []) by (intros ->; discriminate).
      destruct (General_set_filters_spec self fl t4 t5 Hfl Hne E5) as (_ & _ & Hrows).
      pose proof (Hrows i v Hv) as Hrow.
      repeat (apply elem_of_cons in Ha as [->|Ha];
              [eexists; apply Hrow; unfold general_filter_row; in_list|]).
      inversion Ha. }
  assert (Hexp : fits topic
            ("exposures",
             sum_list (map (fun v => length (GeneralBandFilter.exposures v))
                         match General.filters self with
                         | Some d => values d
                         | None => []
                         end))).
  { destruct (General.filters self) as [fl|] eqn:Hfl; [|left; reflexivity].
    destruct fl as [|kv fl]; [left; reflexivity|].
    apply (fits_last _ _ t5); [apply Hcap; cbn [map fst general_required]; in_list|].
    intros i Hi. rewrite <- length_concat_map in Hi.
    destruct (last_entry _ _ Hi) as (x & Hx).
    exists (VFloat x).
    apply (General_set_filters_exposures self (kv :: fl) t4 t5 Hfl ltac:(discriminate) E5 i x Hx). }
  unfold general_required. cbv zeta.
  repeat (apply Forall_cons; split;
          [first [ apply Hregions; in_list | apply Hranges; in_list | apply Hexcl; in_list
                 | apply Hfilters; in_list | apply Hmap | apply Hexp ]|]).
  constructor.
Qed.

(** X26: [General.set_topic] returns only on a topic that has room: when
    it returns, every array it writes to is a sequence of the topic passed
    in with at least as many slots as entries written (a topic lacking
    one makes the call raise); conversely it returns on every topic in
    which all these arrays exist with that many slots. *)
Theorem General_set_topic_returns_only_with_room (self : General.t) (topic : obj) :
  (forall topic', General.set_topic self topic = Ok topic' ->
     Forall (fits topic) (general_required self))
  /\ (room (general_required self) topic ->
      exists topic', General.set_topic self topic = Ok topic').
Proof.
  split; [apply General_set_topic_fits|apply General_set_topic_ok].
Qed.

(** [Survey.general] has two filters and [Sample.generalPropConfig] ten
    slots of [numVisits]; on a topic with one slot the call raises. *)
Lemma General_set_topic_returns_only_with_room_witness :
  (exists topic',
     General.set_topic Survey.general Sample.generalPropConfig = Ok topic'
     /\ fits Sample.generalPropConfig ("numVisits", 2%nat))
  /\ is_ok (General.set_topic Survey.general
              (<["numVisits" := VList [VInt 0]]> Sample.generalPropConfig)) = false.
Proof.
  split.
  - destruct (proj2 (General_set_topic_returns_only_with_room
                       Survey.general Sample.generalPropConfig) Survey_general_room)
      as (topic' & H).
    exists topic'. split; [exact H|].
    pose proof (proj1 (General_set_topic_returns_only_with_room
                         Survey.general Sample.generalPropConfig) topic' H) as Hfits.
    rewrite Forall_forall in Hfits. apply Hfits. vm_compute general_required. in_list.
  - destruct (General.set_topic Survey.general
                (<["numVisits" := VList [VInt 0]]> Sample.generalPropConfig))
      as [topic'|e] eqn:H; [|reflexivity].
    exfalso.
    pose proof (proj1 (General_set_topic_returns_only_with_room Survey.general _) topic' H)
      as Hfits.
    rewrite Forall_forall in Hfits.
    destruct (Hfits ("numVisits", 2%nat)) as [H0|(l & Hl & Hn)].
    + vm_compute general_required. in_list.
    + discriminate.
    + cbn [fst snd] in Hl, Hn. rewrite lookup_insert_eq in Hl. injection Hl as <-.
      cbn in Hn. lia.
Defined.

(** ** The capacities in Sequence.set_topic *)

Lemma filter_visit_loop_capacity (visits : string) (l : list Z) (s s' : nat * obj)
    (a : string) :
  for_each (Sequence.filter_visit_body visits) l s = Ok s' ->
  capacity a (snd s') = capacity a (snd s).
Proof.
  apply for_each_capacity. intros x [k t] s2 Hb.
  unfold Sequence.filter_visit_body in Hb. bind_inv Hb. injection Hb as <-. cbn [snd].
  cap_back I. reflexivity.
Qed.

(** Walk back through assignments and loops over the visits. *)
Ltac cap_back_visits :=
  repeat (cap_back I;
          try match goal with
            | E : for_each (Sequence.filter_visit_body _) _ (_, ?o) = Ok (_, ?o')
              |- capacity ?a ?o' = _ =>
                let F := fresh "F" in
                pose proof (filter_visit_loop_capacity _ _ _ _ a E) as F;
                cbn [snd] in F; rewrite F; clear F
            end).

Lemma sub_sequence_body_capacity (item : Z * SubSequence.t) (s s' : Sequence.sub_state)
    (a : string) :
  Sequence.sub_sequence_body item s = Ok s' -> capacity a (snd s') = capacity a (snd s).
Proof.
  destruct item as [i ss]. destruct s as [[[names fs] k] t]. intro Hb.
  unfold Sequence.sub_sequence_body in Hb.
  apply bind_Ok in Hb as (t1 & Efilters & Hb).
  apply bind_Ok in Hb as ([k2 t2] & Evisits & Hb).
  binds Hb. injection Hb as <-. cbn [snd]. cap_back_visits. reflexivity.
Qed.

Lemma nested_body_capacity (ss : SubSequence.t) (s s' : Sequence.master_state) (a : string) :
  Sequence.nested_body ss s = Ok s' -> capacity a (snd s') = capacity a (snd s).
Proof.
  destruct s as [[[[[mn nn] nf] nss] fvi] t]. intro Hb.
  unfold Sequence.nested_body in Hb.
  apply bind_Ok in Hb as (t1 & Efilters & Hb).
  apply bind_Ok in Hb as ([k2 t2] & Evisits & Hb).
  binds Hb. injection Hb as <-. cbn [snd]. cap_back_visits. reflexivity.
Qed.

Lemma master_body_capacity (item : Z * MasterSubSequence.t) (s s' : Sequence.master_state)
    (a : string) :
  Sequence.master_body item s = Ok s' -> capacity a (snd s') = capacity a (snd s).
Proof.
  destruct item as [i m]. destruct s as [[[[[mn nn] nf] nss] fvi] t]. intro Hb.
  unfold Sequence.master_body in Hb. binds Hb.
  rewrite (for_each_capacity snd _ _ _ _ a (fun x s1 s2 => nested_body_capacity x s1 s2 a) Hb).
  cbn [snd]. cap_back I. reflexivity.
Qed.

Lemma Sequence_set_user_regions_capacity (self : Sequence.t) (t t' : obj) (a : string) :
  a <> "numUserRegions" ->
  Sequence.set_user_regions self t = Ok t' -> capacity a t' = capacity a t.
Proof.
  intros Ha H. unfold Sequence.set_user_regions in H. cbv zeta in H.
  assert (F : capacity a (id t') = capacity a (id (setattr "numUserRegions"
                 (VInt (Z.of_nat (length (Sequence.sky_user_regions self)))) t))).
  { apply (for_each_capacity id _ _ _ _ a) with (2 := H).
    intros [i r] s1 s2 Hb. unfold id. cap_back I. reflexivity. }
  unfold id in F. rewrite F. apply capacity_setattr. exact Ha.
Qed.

Lemma Sequence_set_sub_sequences_capacity (self : Sequence.t) (t t' : obj) (a : string) :
  a ∉ ["numSubSequences"; "subSequenceNames"; "subSequenceFilters"] ->
  Sequence.set_sub_sequences self t = Ok t' -> capacity a t' = capacity a t.
Proof.
  intros Ha H. unfold Sequence.set_sub_sequences in H. cbv zeta in H.
  destruct (Sequence.sub_sequences self) as [[|kv d]|].
  - injection H as <-. cap_back Ha. reflexivity.
  - apply bind_Ok in H as ([[[names fs] k] t1] & E & H). injection H as <-.
    cap_back Ha.
    pose proof (for_each_capacity snd _ _ _ _ a
                  (fun x s1 s2 => sub_sequence_body_capacity x s1 s2 a) E) as F.
    cbn [snd] in F. rewrite F. cap_back Ha. reflexivity.
  - injection H as <-. cap_back Ha. reflexivity.
Qed.

Lemma Sequence_set_master_sub_sequences_capacity (self : Sequence.t) (t t' : obj)
    (a : string) :
  a ∉ ["numMasterSubSequences"; "masterSubSequenceNames"; "nestedSubSequenceNames";
       "nestedSubSequenceFilters"] ->
  Sequence.set_master_sub_sequences self t = Ok t' -> capacity a t' = capacity a t.
Proof.
  intros Ha H. unfold Sequence.set_master_sub_sequences in H. cbv zeta in H.
  destruct (Sequence.master_sub_sequences self) as [[|kv d]|].
  - injection H as <-. cap_back Ha. reflexivity.
  - apply bind_Ok in H as ([[[[[mn nn] nf] nss] fvi] t1] & E & H). injection H as <-.
    cap_back Ha.
    pose proof (for_each_capacity snd _ _ _ _ a
                  (fun x s1 s2 => master_body_capacity x s1 s2 a) E) as F.
    cbn [snd] in F. rewrite F. cap_back Ha. reflexivity.
  - injection H as <-. cap_back Ha. reflexivity.
Qed.

Lemma Sequence_set_filters_capacity (self : Sequence.t) (t t' : obj) (a : string) :
  a ∉ ["numFilters"; "filterNames"] ->
  Sequence.set_filters self t = Ok t' -> capacity a t' = capacity a t.
Proof.
  intros Ha H. unfold Sequence.set_filters in H. cbv zeta in H.
  assert (Hexp : forall l (s s' : nat * obj),
             for_each Sequence.exposure_body l s = Ok s' ->
             capacity a (snd s') = capacity a (snd s)).
  { intros l s s'. apply for_each_capacity. intros x [k o] s2 Hb.
    unfold Sequence.exposure_body in Hb. bind_inv Hb. injection Hb as <-. cbn [snd].
    cap_back I. reflexivity. }
  assert (Hloop : forall l (s s' : list string * nat * obj),
             for_each Sequence.filter_body l s = Ok s' ->
             capacity a (snd s') = capacity a (snd s)).
  { intros l s s'. apply for_each_capacity. intros [i v] [[names e] o] s2 Hb.
    unfold Sequence.filter_body in Hb. binds Hb. injection Hb as <-. cbn [snd].
    match goal with
    | Eloop : for_each Sequence.exposure_body _ _ = Ok _ |- _ =>
        rewrite (Hexp _ _ _ Eloop)
    end.
    cbn [snd]. cap_back I. reflexivity. }
  destruct (Sequence.filters self) as [[|kv d]|].
  - injection H as <-. cap_back Ha. reflexivity.
  - apply bind_Ok in H as ([[names e] t1] & E & H). injection H as <-. cap_back Ha.
    pose proof (Hloop _ _ _ E) as F. cbn [snd] in F.
    rewrite F. cap_back Ha. reflexivity.
  - injection H as <-. cap_back Ha. reflexivity.
Qed.

(** The capacities after each block of [Sequence.set_topic]. *)
Lemma Sequence_set_topic_capacities (self : Sequence.t) (topic t1 t2 t3 t4 : obj)
    (a : string) :
  Sequence.set_user_regions self (Sequence.set_sky self topic) = Ok t1 ->
  Sequence.set_sub_sequences self t1 = Ok t2 ->
  Sequence.set_master_sub_sequences self t2 = Ok t3 ->
  Sequence.set_filters self t3 = Ok t4 ->
  a ∉ map fst (sequence_scalars self) ++ sequence_strings ->
  capacity a t1 = capacity a topic
  /\ capacity a t2 = capacity a topic
  /\ capacity a t3 = capacity a topic
  /\ capacity a t4 = capacity a topic
  /\ capacity a (Sequence.set_scheduling self t4) = capacity a topic.
Proof.
  intros E1 E2 E3 E4 Ha. cbn [map fst sequence_scalars sequence_strings app] in Ha.
  assert (C0 : capacity a (Sequence.set_sky self topic) = capacity a topic).
  { unfold Sequence.set_sky. cbv zeta. cap_back Ha. reflexivity. }
  assert (C1 : capacity a t1 = capacity a topic).
  { rewrite (Sequence_set_user_regions_capacity self _ t1 a) by (neq_from Ha || exact E1).
    exact C0. }
  assert (C2 : capacity a t2 = capacity a topic).
  { rewrite (Sequence_set_sub_sequences_capacity self t1 t2 a) by (sub_notin Ha || exact E2).
    exact C1. }
  assert (C3 : capacity a t3 = capacity a topic).
  { rewrite (Sequence_set_master_sub_sequences_capacity self t2 t3 a)
      by (sub_notin Ha || exact E3).
    exact C2. }
  assert (C4 : capacity a t4 = capacity a topic).
  { rewrite (Sequence_set_filters_capacity self t3 t4 a) by (sub_notin Ha || exact E4).
    exact C3. }
  do 4 (split; [assumption|]).
  unfold Sequence.set_scheduling. cbv zeta. cap_back Ha. exact C4.
Qed.

(** X27: [Sequence.set_topic] keeps the capacity of every array: an
    attribute that is not one of the scalars and strings it assigns is a
    sequence in the topic returned exactly when it was one in the topic
    passed in, and with the same number of slots.  The call returns on
    every topic whose arrays have room when no key is negative. *)
Theorem Sequence_set_topic_keeps_capacities (self : Sequence.t) (topic : obj) :
  (forall topic', Sequence.set_topic self topic = Ok topic' ->
     forall a, a ∉ map fst (sequence_scalars self) ++ sequence_strings ->
       capacity a topic' = capacity a topic)
  /\ (keys_nonneg (Sequence.sub_sequences self) ->
      keys_nonneg (Sequence.master_sub_sequences self) ->
      room (sequence_required self) topic ->
      exists topic', Sequence.set_topic self topic = Ok topic').
Proof.
  split; [|apply Sequence_set_topic_ok].
  intros topic' H a Ha.
  destruct (Sequence_set_topic_blocks self topic topic' H)
    as (t1 & t2 & t3 & t4 & E1 & E2 & E3 & E4 & ->).
  apply (Sequence_set_topic_capacities self topic t1 t2 t3 t4 a E1 E2 E3 E4 Ha).
Qed.

Lemma Sequence_set_topic_keeps_capacities_witness :
  exists topic',
    Sequence.set_topic Survey.sequence Sample.sequencePropConfig = Ok topic'
    /\ capacity "numSubSequenceFilterVisits" topic' = Some 10%nat
    /\ capacity "exposures" topic' = Some 10%nat.
Proof.
  destruct (Sequence_set_topic_keeps_capacities Survey.sequence Sample.sequencePropConfig)
    as (Hkeep & Hok).
  destruct (Hok Survey_sequence_sub_keys Survey_sequence_master_keys Survey_sequence_room)
    as (topic' & H).
  exists topic'. split; [exact H|]. split.
  - rewrite (Hkeep topic' H) by notin_compute. vm_compute. reflexivity.
  - rewrite (Hkeep topic' H) by notin_compute. vm_compute. reflexivity.
Defined.

(** ** Sequence.set_topic returns only when every key is an index *)

Lemma setitem_int_valid (a : string) (i : Z) (v : value) (o o' : obj) :
  setitem_int a i v o = Ok o' -> valid_index a i o.
Proof.
  unfold setitem_int, valid_index, capacity.
  destruct (o !! a) as [[| | | | |l]|]; try discriminate.
  intro H. exists (length l). split; [reflexivity|].
  destruct (decide (0 <= i < Z.of_nat (length l))); [lia|].
  destruct (decide (- Z.of_nat (length l) <= i < 0)); [lia|discriminate].
Qed.

Lemma valid_index_capacity (a : string) (k : Z) (o o' : obj) :
  capacity a o = capacity a o' -> valid_index a k o -> valid_index a k o'.
Proof. unfold valid_index. intros ->. auto. Qed.

(** The assignment to [o.a[k]] found among the hypotheses shows that [k]
    is an index of the array in the object the body started from. *)
Ltac valid_from_assignment :=
  match goal with
  | E : setitem_int ?a ?k _ ?o = Ok _ |- valid_index ?a ?k _ =>
      apply (valid_index_capacity a k o); [|exact (setitem_int_valid _ _ _ _ _ E)];
      cap_back_visits; reflexivity
  end.

Lemma sub_sequence_body_valid (k : Z) (ss : SubSequence.t) (s s' : Sequence.sub_state)
    (a : string) :
  a ∈ sub_sequence_key_arrays ->
  Sequence.sub_sequence_body (k, ss) s = Ok s' -> valid_index a k (snd s).
Proof.
  destruct s as [[[names fs] n] t]. intros Ha Hb.
  unfold Sequence.sub_sequence_body in Hb.
  apply bind_Ok in Hb as (t1 & Efilters & Hb).
  apply bind_Ok in Hb as ([k2 t2] & Evisits & Hb).
  binds Hb. cbn [snd]. unfold sub_sequence_key_arrays in Ha.
  repeat (apply elem_of_cons in Ha as [->|Ha]; [valid_from_assignment|]).
  inversion Ha.
Qed.

Lemma master_body_valid (k : Z) (m : MasterSubSequence.t) (s s' : Sequence.master_state)
    (a : string) :
  a ∈ master_arrays ->
  Sequence.master_body (k, m) s = Ok s' -> valid_index a k (snd s).
Proof.
  destruct s as [[[[[mn nn] nf] nss] fvi] t]. intros Ha Hb.
  unfold Sequence.master_body in Hb. binds Hb. cbn [snd]. unfold master_arrays in Ha.
  repeat (apply elem_of_cons in Ha as [->|Ha]; [valid_from_assignment|]).
  inversion Ha.
Qed.

(** A loop that returns went through every turn with an object of the
    capacities it started with. *)
Lemma for_each_valid {V S : Type} (proj : S -> obj) (body : Z * V -> S -> result S)
    (W : list string) (l : list (Z * V)) (s s' : S) :
  (forall x s1 s2 a, body x s1 = Ok s2 -> capacity a (proj s2) = capacity a (proj s1)) ->
  (forall k v s1 s2 a, a ∈ W -> body (k, v) s1 = Ok s2 -> valid_index a k (proj s1)) ->
  for_each body l s = Ok s' ->
  forall k v a, (k, v) ∈ l -> a ∈ W -> valid_index a k (proj s).
Proof.
  intros Hcap Hvalid. revert s. induction l as [|x l IH]; intros s H k v a Hin Ha.
  - inversion Hin.
  - cbn in H. destruct (body x s) as [s1|] eqn:E; [|discriminate].
    apply elem_of_cons in Hin as [<-|Hin].
    + apply (Hvalid k v s s1 a Ha E).
    + apply (valid_index_capacity a k (proj s1)); [apply (Hcap x s s1 a E)|].
      apply (IH s1 H k v a Hin Ha).
Qed.

Lemma Sequence_set_sub_sequences_valid (self : Sequence.t) (d : dict Z SubSequence.t)
    (t t' : obj) (k : Z) (ss : SubSequence.t) (a : string) :
  Sequence.sub_sequences self = Some d ->
  Sequence.set_sub_sequences self t = Ok t' ->
  (k, ss) ∈ d -> a ∈ sub_sequence_key_arrays -> valid_index a k t.
Proof.
  intros Hd H Hin Ha. unfold Sequence.set_sub_sequences in H. rewrite Hd in H.
  cbv zeta in H. destruct d as [|kv d]; [inversion Hin|].
  apply bind_Ok in H as (st & E & _).
  pose proof (for_each_valid snd Sequence.sub_sequence_body sub_sequence_key_arrays _ _ _
                (fun x s1 s2 a => sub_sequence_body_capacity x s1 s2 a)
                (fun k v s1 s2 a Ha => sub_sequence_body_valid k v s1 s2 a Ha)
                E k ss a Hin Ha) as F.
  cbn [snd] in F. apply (valid_index_capacity a k _ t) in F; [exact F|].
  apply capacity_setattr. apply (listed_neq sub_sequence_key_arrays); [exact Ha|notin_compute].
Qed.

Lemma Sequence_set_master_sub_sequences_valid (self : Sequence.t)
    (d : dict Z MasterSubSequence.t) (t t' : obj) (k : Z) (m : MasterSubSequence.t)
    (a : string) :
  Sequence.master_sub_sequences self = Some d ->
  Sequence.set_master_sub_sequences self t = Ok t' ->
  (k, m) ∈ d -> a ∈ master_arrays -> valid_index a k t.
Proof.
  intros Hd H Hin Ha. unfold Sequence.set_master_sub_sequences in H. rewrite Hd in H.
  cbv zeta in H. destruct d as [|kv d]; [inversion Hin|].
  apply bind_Ok in H as (st & E & _).
  pose proof (for_each_valid snd Sequence.master_body master_arrays _ _ _
                (fun x s1 s2 a => master_body_capacity x s1 s2 a)
                (fun k v s1 s2 a Ha => master_body_valid k v s1 s2 a Ha)
                E k m a Hin Ha) as F.
  cbn [snd] in F. apply (valid_index_capacity a k _ t) in F; [exact F|].
  apply capacity_setattr. apply (listed_neq master_arrays); [exact Ha|notin_compute].
Qed.

(** X28: [Sequence.set_topic] returns only when every key of the
    sub-sequence mapping is an index of each array written at that key,
    and every key of the master mapping an index of each master array:
    the array exists in the topic passed in with [n] slots and the key [k]
    satisfies [-n <= k < n].  A key outside these bounds, or a missing
    array, makes the call raise. *)
Theorem Sequence_set_topic_returns_only_with_keys_in_bounds
    (self : Sequence.t) (topic topic' : obj) :
  Sequence.set_topic self topic = Ok topic' ->
  (forall d k ss a,
     Sequence.sub_sequences self = Some d -> (k, ss) ∈ d ->
     a ∈ sub_sequence_key_arrays -> valid_index a k topic)
  /\ (forall d k m a,
        Sequence.master_sub_sequences self = Some d -> (k, m) ∈ d ->
        a ∈ master_arrays -> valid_index a k topic).
Proof.
  intro H.
  destruct (Sequence_set_topic_blocks self topic topic' H)
    as (t1 & t2 & t3 & t4 & E1 & E2 & E3 & E4 & ->).
  assert (Hcap : forall W a,
            bool_decide (Forall (fun a => a ∉ map fst (sequence_scalars self)
                                              ++ sequence_strings) W) = true ->
            a ∈ W ->
            capacity a t1 = capacity a topic /\ capacity a t2 = capacity a topic).
  { intros W a HW Ha.
    destruct (Sequence_set_topic_capacities self topic t1 t2 t3 t4 a E1 E2 E3 E4)
      as (C1 & C2 & _); [apply (listed_notin W _ a HW Ha)|auto]. }
  split.
  - intros d k ss a Hd Hin Ha.
    apply (valid_index_capacity a k t1);
      [apply (Hcap sub_sequence_key_arrays a); [vm_compute; reflexivity|exact Ha]|].
    apply (Sequence_set_sub_sequences_valid self d t1 t2 k ss a Hd E2 Hin Ha).
  - intros d k m a Hd Hin Ha.
    apply (valid_index_capacity a k t2);
      [apply (Hcap master_arrays a); [vm_compute; reflexivity|exact Ha]|].
    apply (Sequence_set_master_sub_sequences_valid self d t2 t3 k m a Hd E3 Hin Ha).
Qed.

(** [Survey.sequence] stores a sub-sequence under the key 2, an index of
    the ten slots of [numSubSequenceEvents]; with the key 50 instead the
    call raises. *)
Lemma Sequence_set_topic_returns_only_with_keys_in_bounds_witness :
  (exists topic',
     Sequence.set_topic Survey.sequence Sample.sequencePropConfig = Ok topic'
     /\ valid_index "numSubSequenceEvents" 2 Sample.sequencePropConfig)
  /\ is_ok (Sequence.set_topic (Sample.sequence (Some [(50, Sample.two_filters)]) None)
                              Sample.sequencePropConfig) = false.
Proof.
  split.
  - destruct (Sequence_set_topic_ok Survey.sequence Sample.sequencePropConfig
                Survey_sequence_sub_keys Survey_sequence_master_keys Survey_sequence_room)
      as (topic' & H).
    exists topic'. split; [exact H|].
    apply (proj1 (Sequence_set_topic_returns_only_with_keys_in_bounds
                    Survey.sequence Sample.sequencePropConfig topic' H)
             _ 2 Sample.two_filters "numSubSequenceEvents" eq_refl);
      [in_list|unfold sub_sequence_key_arrays; in_list].
  - destruct (Sequence.set_topic (Sample.sequence (Some [(50, Sample.two_filters)]) None)
                Sample.sequencePropConfig) as [topic'|e] eqn:H; [|reflexivity].
    exfalso.
    destruct (proj1 (Sequence_set_topic_returns_only_with_keys_in_bounds _ _ topic' H)
                _ 50 Sample.two_filters "numSubSequenceEvents" eq_refl)
      as (n & Hn & Hk); [in_list|unfold sub_sequence_key_arrays; in_list|].
    vm_compute in Hn. injection Hn as <-. lia.
Defined.
